(** * mongoose-tsgen: the schema-to-interface compiler of [src/helpers/parser.ts]

    A shallow embedding of the generator's core ([shouldLeanIncludeVirtuals],
    [makeLine], [getFuncType], [replaceModelTypes], [getSubDocName],
    [parseFunctions], [convertBaseTypeToTs], [parseSchema]) together with the
    properties its specification states about them.

    Conventions.
    - JavaScript strings are modelled as [string]; the case mapping of
      [toUpperCase]/[toLowerCase] is the ASCII one.
    - A JavaScript value is a tree ([Val]); numbers are integers.  Where
      the identity of objects matters (copies, writes in place, functions
      that are shared), a second embedding keeps the objects in a store
      ([Store]).
    - A call either returns, throws, or runs out of the recursion budget
      ([Res]). *)

From Stdlib Require Import String Ascii List ZArith Lia Bool Arith.
From Stdlib Require Import Numbers.DecimalString.
Import ListNotations.
Open Scope list_scope.
Open Scope string_scope.

Set Implicit Arguments.
Set Warnings "-register-all".

(* ------------------------------------------------------------------------- *)
(** ** String primitives used by the generator *)

Module Str.

Definition is_lower (c : ascii) : bool :=
  let n := nat_of_ascii c in Nat.leb 97 n && Nat.leb n 122.

Definition is_upper (c : ascii) : bool :=
  let n := nat_of_ascii c in Nat.leb 65 n && Nat.leb n 90.

Definition is_digit (c : ascii) : bool :=
  let n := nat_of_ascii c in Nat.leb 48 n && Nat.leb n 57.

(** The regular-expression class [\w]. *)
Definition is_word (c : ascii) : bool :=
  is_lower c || is_upper c || is_digit c || Ascii.eqb c "_".

Definition upper (c : ascii) : ascii :=
  if is_lower c then ascii_of_nat (nat_of_ascii c - 32) else c.

Definition lower (c : ascii) : ascii :=
  if is_upper c then ascii_of_nat (nat_of_ascii c + 32) else c.

Fixpoint map (f : ascii -> ascii) (s : string) : string :=
  match s with
  | EmptyString => EmptyString
  | String c r => String (f c) (map f r)
  end.

Definition toLowerCase : string -> string := map lower.

Fixpoint rev_acc (s acc : string) : string :=
  match s with
  | EmptyString => acc
  | String c r => rev_acc r (String c acc)
  end.

Definition rev (s : string) : string := rev_acc s EmptyString.

(** [s.startsWith(p)] *)
Fixpoint startsWith (p s : string) : bool :=
  match p, s with
  | EmptyString, _ => true
  | String a p', String b s' => Ascii.eqb a b && startsWith p' s'
  | String _ _, EmptyString => false
  end.

(** [s.endsWith(p)] *)
Definition endsWith (p s : string) : bool := startsWith (rev p) (rev s).

Fixpoint drop (n : nat) (s : string) : string :=
  match n, s with
  | O, _ => s
  | S n', String _ r => drop n' r
  | S _, EmptyString => EmptyString
  end.

(** [s.slice(0, -1)] *)
Fixpoint dropLast (s : string) : string :=
  match s with
  | EmptyString => EmptyString
  | String c EmptyString => EmptyString
  | String c r => String c (dropLast r)
  end.

(** [s.includes(p)] *)
Fixpoint includes (p s : string) : bool :=
  startsWith p s ||
  match s with
  | EmptyString => false
  | String _ r => includes p r
  end.

(** [s.split(d)] for a one-character separator. *)
Fixpoint split_acc (d : ascii) (s cur : string) : list string :=
  match s with
  | EmptyString => [rev cur]
  | String c r =>
      if Ascii.eqb c d then rev cur :: split_acc d r EmptyString
      else split_acc d r (String c cur)
  end.

Definition split (d : ascii) (s : string) : list string :=
  split_acc d s EmptyString.

(** [xs.join(sep)] on strings. *)
Fixpoint join (sep : string) (xs : list string) : string :=
  match xs with
  | [] => EmptyString
  | [x] => x
  | x :: r => x ++ sep ++ join sep r
  end.

(** [s.replace(c, empty)] with a one-character string pattern: only the first
    occurrence is removed. *)
Fixpoint removeFirst (d : ascii) (s : string) : string :=
  match s with
  | EmptyString => EmptyString
  | String c r => if Ascii.eqb c d then r else String c (removeFirst d r)
  end.

Definition of_Z (z : Z) : string := NilEmpty.string_of_int (Z.to_int z).

Definition of_nat (n : nat) : string := NilEmpty.string_of_uint (Nat.to_uint n).

(** White space: tab, line feed, vertical tab, form feed, carriage return
    and space. *)
Definition is_space (c : ascii) : bool :=
  let n := nat_of_ascii c in (Nat.leb 9 n && Nat.leb n 13) || Nat.eqb n 32.

Fixpoint isBlank (s : string) : bool :=
  match s with
  | EmptyString => true
  | String c r => is_space c && isBlank r
  end.

End Str.

(* ------------------------------------------------------------------------- *)
(** ** Outcomes of a call *)

Inductive Res (A : Type) : Type :=
| Ok (a : A)
| Throw (e : string)      (* a JavaScript exception reached the caller *)
| Diverge.                (* the recursion budget of the model ran out *)

Arguments Ok {A} a.
Arguments Throw {A} e.
Arguments Diverge {A}.

Definition bind {A B} (m : Res A) (k : A -> Res B) : Res B :=
  match m with
  | Ok a => k a
  | Throw e => Throw e
  | Diverge => Diverge
  end.

Notation "x <- m ;; k" := (bind m (fun x => k))
  (at level 61, m at next level, right associativity).

Notation "' p <- m ;; k" := (bind m (fun x => match x with p => k end))
  (at level 61, p pattern, m at next level, right associativity).

Definition TypeError {A} : Res A := Throw "TypeError".

Definition definite {A} (r : Res A) : Prop := r <> Diverge.

Fixpoint mapM {A B} (f : A -> Res B) (xs : list A) : Res (list B) :=
  match xs with
  | [] => Ok []
  | x :: r => y <- f x ;; ys <- mapM f r ;; Ok (y :: ys)
  end.

(* ------------------------------------------------------------------------- *)
(** ** JavaScript values *)

(** Function objects the generator compares by identity: the built-in
    constructors, the mongoose type classes, and any other function. *)
Inductive Native : Type :=
| NString | NNumber | NBoolean | NDate | NBuffer | NMap
| NSchemaObjectId        (* mongoose.Schema.Types.ObjectId *)
| NTypesObjectId         (* mongoose.Types.ObjectId *)
| NSchemaDecimal128      (* mongoose.Schema.Types.Decimal128 *)
| NTypesDecimal128       (* mongoose.Types.Decimal128 *)
| NMixed                 (* mongoose.Schema.Types.Mixed *)
| NUser (name : string). (* any other function *)

(** Values are trees.  [VObj true ps] is a plain object (what
    [_.isPlainObject] accepts), [VObj false ps] an instance of a class; [ps]
    lists the own enumerable properties in [Object.keys] order.  A function
    [VFun f] of a tree has no enumerable property of its own; functions that
    have some, and objects held in two places, are values of the store of
    the second embedding below. *)
Inductive Val : Type :=
| VUndef
| VNull
| VBool (b : bool)
| VNum (z : Z)
| VStr (s : string)
| VFun (f : Native)
| VArr (xs : list Val)
| VObj (plain : bool) (ps : list (string * Val)).

Definition Props := list (string * Val).

Module JS.

Definition native_eqb (a b : Native) : bool :=
  match a, b with
  | NString, NString | NNumber, NNumber | NBoolean, NBoolean
  | NDate, NDate | NBuffer, NBuffer | NMap, NMap
  | NSchemaObjectId, NSchemaObjectId | NTypesObjectId, NTypesObjectId
  | NSchemaDecimal128, NSchemaDecimal128
  | NTypesDecimal128, NTypesDecimal128 | NMixed, NMixed => true
  | NUser x, NUser y => String.eqb x y
  | _, _ => false
  end.

(** [v === a] where [a] is a primitive or a function. *)
Definition strictEq (v a : Val) : bool :=
  match v, a with
  | VUndef, VUndef | VNull, VNull => true
  | VBool x, VBool y => Bool.eqb x y
  | VNum x, VNum y => Z.eqb x y
  | VStr x, VStr y => String.eqb x y
  | VFun x, VFun y => native_eqb x y
  | _, _ => false
  end.

Definition truthy (v : Val) : bool :=
  match v with
  | VUndef | VNull => false
  | VBool b => b
  | VNum z => negb (Z.eqb z 0)
  | VStr s => negb (String.eqb s EmptyString)
  | VFun _ | VArr _ | VObj _ _ => true
  end.

Definition nullish (v : Val) : bool :=
  match v with VUndef | VNull => true | _ => false end.

(** [a ?? b] *)
Definition coalesce (a b : Val) : Val := if nullish a then b else a.

Fixpoint lookup (k : string) (ps : Props) : option Val :=
  match ps with
  | [] => None
  | (k', v) :: r => if String.eqb k k' then Some v else lookup k r
  end.

(** [o[k] = v] on the property list: replace in place, or append (property
    names that are array indices, which JavaScript lists first, are not
    treated apart). *)
Fixpoint assign (k : string) (v : Val) (ps : Props) : Props :=
  match ps with
  | [] => [(k, v)]
  | (k', v') :: r =>
      if String.eqb k k' then (k, v) :: r else (k', v') :: assign k v r
  end.

(** A canonical array index: the decimal numeral of a natural number. *)
Definition index_of (k : string) (n : nat) : option nat :=
  let fix go (i fuel : nat) :=
    match fuel with
    | O => None
    | S f => if String.eqb (Str.of_nat i) k then Some i else go (S i) f
    end in
  go 0 n.

Definition char_at (s : string) (i : nat) : Val :=
  match String.get i s with
  | Some c => VStr (String c EmptyString)
  | None => VUndef
  end.

(** Properties of function objects.  Only the properties the generator can
    observe are listed: mongoose marks its Mixed type with [schemaName]. *)
Definition funProp (f : Native) (k : string) : Val :=
  match f with
  | NMixed => if String.eqb k "schemaName" then VStr "Mixed" else VUndef
  | _ => VUndef
  end.

(** [v[k]] for a value that is neither [null] nor [undefined]. *)
Definition prop (v : Val) (k : string) : Val :=
  match v with
  | VObj _ ps => match lookup k ps with Some x => x | None => VUndef end
  | VArr xs =>
      if String.eqb k "length" then VNum (Z.of_nat (List.length xs))
      else match index_of k (List.length xs) with
           | Some i => nth i xs VUndef
           | None => VUndef
           end
  | VStr s =>
      if String.eqb k "length" then VNum (Z.of_nat (String.length s))
      else match index_of k (String.length s) with
           | Some i => char_at s i
           | None => VUndef
           end
  | VFun f => funProp f k
  | _ => VUndef
  end.

(** [v.k]: reading a property of [null] or [undefined] throws. *)
Definition get (v : Val) (k : string) : Res Val :=
  if nullish v then TypeError else Ok (prop v k).

(** [v?.k] *)
Definition optGet (v : Val) (k : string) : Val :=
  if nullish v then VUndef else prop v k.

(** [v.k = x], the value of [v] afterwards.  The module is compiled in strict
    mode: writing to [null], [undefined] or a primitive throws.  Function
    objects and arrays accept the write, but the model keeps no named
    property for them. *)
Definition set (v : Val) (k : string) (x : Val) : Res Val :=
  match v with
  | VUndef | VNull | VBool _ | VNum _ | VStr _ => TypeError
  | VObj p ps => Ok (VObj p (assign k x ps))
  | VFun _ | VArr _ => Ok v
  end.

Fixpoint indexed_from (i : nat) (xs : list Val) : Props :=
  match xs with
  | [] => []
  | x :: r => (Str.of_nat i, x) :: indexed_from (S i) r
  end.

Fixpoint chars_from (i : nat) (s : string) : Props :=
  match s with
  | EmptyString => []
  | String c r => (Str.of_nat i, VStr (String c EmptyString)) :: chars_from (S i) r
  end.

(** Own enumerable properties in [Object.keys] order. *)
Definition entries (v : Val) : Props :=
  match v with
  | VObj _ ps => ps
  | VArr xs => indexed_from 0 xs
  | VStr s => chars_from 0 s
  | _ => []
  end.

(** [Object.keys(v)] *)
Definition keys (v : Val) : Res (list string) :=
  if nullish v then TypeError else Ok (List.map fst (entries v)).

Definition isArray (v : Val) : bool :=
  match v with VArr _ => true | _ => false end.

Definition isPlainObject (v : Val) : bool :=
  match v with VObj true _ => true | _ => false end.

(** [v > 0] for the [length] values the generator tests. *)
Definition gtZero (v : Val) : bool :=
  match v with
  | VNum z => Z.ltb 0 z
  | VBool b => b
  | _ => false
  end.

(** [String(v)] as used by [Array.prototype.join] on the elements. *)
Fixpoint toStr (v : Val) : string :=
  match v with
  | VUndef | VNull => EmptyString
  | VBool true => "true"
  | VBool false => "false"
  | VNum z => Str.of_Z z
  | VStr s => s
  | VFun _ => "function () { [native code] }"
  | VArr xs =>
      (fix go (l : list Val) : string :=
         match l with
         | [] => EmptyString
         | [x] => toStr x
         | x :: r => (toStr x ++ "," ++ go r)%string
         end) xs
  | VObj _ _ => "[object Object]"
  end.

(** [_.cloneDeep]: on immutable trees the copy of an object is the object
    itself; cloning a function gives an empty object. *)
Definition cloneDeep (v : Val) : Val :=
  match v with
  | VFun _ => VObj true []
  | _ => v
  end.

End JS.

(* ------------------------------------------------------------------------- *)
(** ** Leaf functions of the generator *)

Inductive FuncType : Type := methods | statics | query.

(** [shouldLeanIncludeVirtuals]: the [toObject] options of the schema decide
    whether virtual properties belong to the lean shape. *)
Definition shouldLeanIncludeVirtuals (schema : Val) : Res bool :=
  options <- JS.get schema "options" ;;
  let toObjectOptions :=
    JS.coalesce (JS.optGet options "toObject") (VObj true []) in
  virtuals <- JS.get toObjectOptions "virtuals" ;;
  getters <- JS.get toObjectOptions "getters" ;;
  if (negb (JS.truthy virtuals) && negb (JS.truthy getters))
     || (JS.strictEq virtuals (VBool false) && JS.strictEq getters (VBool true))
  then Ok false
  else Ok true.

Definition nl : string := String (ascii_of_nat 10) EmptyString.

(** [makeLine]; [newline] is left at its default [true] by every caller. *)
Definition makeLine (key val : string) (isOptional : bool) : string :=
  let line := EmptyString in
  let line :=
    if negb (String.eqb key EmptyString)
    then line ++ key ++ (if isOptional then "?" else EmptyString) ++ ": "
    else line in
  let line := line ++ val ++ ";" in
  line ++ nl.

Module Regex.

(** The pattern of [getFuncType]: an opening parenthesis, an optional group
    made of "this: ", word characters and an optional ", ", a first capture
    of any characters, the text ") => ", and a second capture of any
    characters. *)

Definition is_line_end (c : ascii) : bool :=
  Ascii.eqb c (ascii_of_nat 10) || Ascii.eqb c (ascii_of_nat 13).

(** The part of [s] that a capture can cover: up to the first line
    terminator. *)
Fixpoint line_of (s : string) : string :=
  match s with
  | EmptyString => EmptyString
  | String c r => if is_line_end c then EmptyString else String c (line_of r)
  end.

Fixpoint skip_word (s : string) : string :=
  match s with
  | String c r => if Str.is_word c then skip_word r else s
  | EmptyString => EmptyString
  end.

(** The optional receiver group, matched greedily. *)
Definition skip_this (s : string) : string :=
  if Str.startsWith "this: " s then
    let s1 := skip_word (Str.drop 6 s) in
    if Str.startsWith ", " s1 then Str.drop 2 s1 else s1
  else s.

(** The two captures on one line: the first one is greedy, so the split is
    at the last occurrence of ") => ". *)
Fixpoint split_last (s : string) : option (string * string) :=
  match s with
  | EmptyString => None
  | String c r =>
      match split_last r with
      | Some (before, after) => Some (String c before, after)
      | None =>
          if Str.startsWith ") => " s then Some (EmptyString, Str.drop 5 s) else None
      end
  end.

(** [s.match(pattern)]: the leftmost opening parenthesis from which the
    pattern matches; the result is the pair of the two capture groups. *)
Fixpoint exec (s : string) : option (string * string) :=
  match s with
  | EmptyString => None
  | String c r =>
      if Ascii.eqb c "(" then
        match split_last (skip_this (line_of r)) with
        | Some m => Some m
        | None => exec r
        end
      else exec r
  end.

End Regex.

(** [getFuncType] *)
Definition getFuncType (funcSignature : string) (funcType : FuncType)
    (modelName : string) : string :=
  let m := Regex.exec funcSignature in
  let params := option_map fst m in
  let returnType := option_map snd m in
  let paramsPart :=
    match params with
    | Some p => if Nat.ltb 0 (String.length p) then ", " ++ p else EmptyString
    | None => EmptyString
    end in
  let ret := match returnType with Some r => r | None => "any" end in
  match funcType with
  | query =>
      "<Q extends mongoose.Query<any, " ++ modelName ++ "Document>>(this: Q"
        ++ paramsPart ++ ") => Q"
  | methods =>
      "(this: " ++ modelName ++ "Document" ++ paramsPart ++ ") => " ++ ret
  | statics =>
      "(this: " ++ modelName ++ "Model" ++ paramsPart ++ ") => " ++ ret
  end.

(** [getSubDocName]; [modelName] defaults to the empty string at the call
    that omits it. *)
Definition capitalize (p : string) : Res string :=
  match p with
  | EmptyString => TypeError          (* p[0] is undefined *)
  | String c r => Ok (String (Str.upper c) (Str.drop 1 p))
  end.

Definition getSubDocName (path modelName : string) : Res string :=
  parts <- mapM capitalize (Str.split "." path) ;;
  let subDocName := modelName ++ Str.join EmptyString parts in
  let subDocName :=
    if Str.endsWith "s" subDocName then Str.dropLast subDocName
    else subDocName in
  Ok subDocName.

(** [parseFunctions] *)
Definition parseFunctions (funcs : Val) (modelName : string)
    (funcType : FuncType) : Res string :=
  ks <- JS.keys funcs ;;
  Ok (fold_left
        (fun interfaceString key =>
           if String.eqb key "initializeTimestamps" then interfaceString
           else
             let funcSignature := "(...args: any[]) => any" in
             let type := getFuncType funcSignature funcType modelName in
             interfaceString ++ makeLine key type false)
        ks EmptyString).

(* ------------------------------------------------------------------------- *)
(** ** The [flat] package: [flatten] and [unflatten]

    [parseSchema] rewrites the schema tree through these two library
    functions.  The model follows version 5 of the package with the default
    delimiter; a path segment counts as numeric when it is a (possibly empty)
    string of decimal digits, and named properties on arrays are not
    represented. *)

Module Flat.

Definition isObjectTag (v : Val) : bool :=
  match v with VObj _ _ | VArr _ => true | _ => false end.

(** The test that makes [flatten] descend into a value. *)
Definition descends (safe : bool) (v : Val) : bool :=
  match v with
  | VObj _ (_ :: _) => true
  | VArr (_ :: _) => negb safe
  | _ => false
  end.

Definition newKey (prev key : string) : string :=
  if String.eqb prev EmptyString then key else prev ++ "." ++ key.

Fixpoint step (safe : bool) (object : Val) (prev : string) (output : Props)
    {struct object} : Props :=
  match object with
  | VObj _ ps =>
      (fix go (l : Props) (output : Props) {struct l} : Props :=
         match l with
         | [] => output
         | (key, value) :: r =>
             go r (if descends safe value
                   then step safe value (newKey prev key) output
                   else JS.assign (newKey prev key) value output)
         end) ps output
  | VArr xs =>
      (fix go (l : list Val) (i : nat) (output : Props) {struct l} : Props :=
         match l with
         | [] => output
         | value :: r =>
             go r (S i)
                (if descends safe value
                 then step safe value (newKey prev (Str.of_nat i)) output
                 else JS.assign (newKey prev (Str.of_nat i)) value output)
         end) xs 0 output
  | VStr s =>
      fold_left (fun out kv => JS.assign (newKey prev (fst kv)) (snd kv) out)
                (JS.chars_from 0 s) output
  | _ => output
  end.

(** [flatten(target, { safe })] *)
Definition flatten (safe : bool) (target : Val) : Res Props :=
  if JS.nullish target then TypeError else Ok (step safe target EmptyString []).

Inductive Key : Type := KNum (n : nat) | KStr (s : string).

Fixpoint all_digits (s : string) : bool :=
  match s with
  | EmptyString => true
  | String c r => Str.is_digit c && all_digits r
  end.

Fixpoint digits_value (s : string) (acc : nat) : nat :=
  match s with
  | EmptyString => acc
  | String c r => digits_value r (10 * acc + (nat_of_ascii c - 48))
  end.

(** [getkey]: a segment written in decimal digits is an array index.  (A
    segment [Number] reads in another notation, signed or with an exponent,
    is kept as a name.) *)
Definition getkey (seg : string) : Key :=
  if all_digits seg then KNum (digits_value seg 0) else KStr seg.

Definition key_name (k : Key) : string :=
  match k with KNum n => Str.of_nat n | KStr s => s end.

Definition isNum (k : Key) : bool :=
  match k with KNum _ => true | KStr _ => false end.

(** [recipient[key]] *)
Definition getKey (recipient : Val) (k : Key) : Val :=
  match recipient, k with
  | VArr xs, KNum n => nth n xs VUndef
  | VArr _, KStr _ => VUndef
  | _, _ => JS.optGet recipient (key_name k)
  end.

Fixpoint set_nth (n : nat) (x : Val) (xs : list Val) : list Val :=
  match n, xs with
  | O, [] => [x]
  | O, _ :: r => x :: r
  | S m, [] => VUndef :: set_nth m x []
  | S m, y :: r => y :: set_nth m x r
  end.

(** [recipient[key] = x] *)
Definition setKey (recipient : Val) (k : Key) (x : Val) : Val :=
  match recipient, k with
  | VArr xs, KNum n => VArr (set_nth n x xs)
  | VObj p ps, _ => VObj p (JS.assign (key_name k) x ps)
  | _, _ => recipient
  end.

(** [isEmpty] *)
Definition isEmpty (v : Val) : bool :=
  if negb (JS.truthy v) then true
  else match v with
       | VArr xs => match xs with [] => true | _ => false end
       | VObj _ ps => match ps with [] => true | _ => false end
       | _ => false
       end.

(** [unflatten] applied to a value stored under a flat key: such a value is
    never a non-empty object, so the call returns it, or a new empty object
    in place of an empty one. *)
Definition unflattenLeaf (v : Val) : Val :=
  match v with
  | VObj _ [] => VObj true []
  | _ => v
  end.

(** The descent of the second pass of [unflatten] along the segments of one
    key; [None] is the early [return] that leaves the result untouched. *)
Fixpoint put (segs : list string) (v : Val) (recipient : Val) : option Val :=
  match segs with
  | [] => Some recipient
  | [last] => Some (setKey recipient (getkey last) (unflattenLeaf v))
  | s1 :: ((s2 :: _) as rest) =>
      let key1 := getkey s1 in
      let key2 := getkey s2 in
      if String.eqb s1 "__proto__" then None
      else
        let cur := getKey recipient key1 in
        if negb (isObjectTag cur) && negb (JS.strictEq cur VUndef) then None
        else
          let cur :=
            if JS.nullish cur
            then (if isNum key2 then VArr [] else VObj true [])
            else cur in
          match put rest v cur with
          | Some sub => Some (setKey recipient key1 sub)
          | None => None
          end
  end.

(** First pass of [unflatten]: nested objects found among the values are
    flattened (arrays included) under their key. *)
Definition addDelimiter (keyPrefix : string) (recipient target : Props) : Props :=
  fold_left (fun result kv =>
               JS.assign (keyPrefix ++ "." ++ fst kv) (snd kv) result)
            target recipient.

Definition normalize (target : Props) : Props :=
  fold_left (fun result kv =>
               let '(key, value) := kv in
               if negb (isObjectTag value) || isEmpty value
               then JS.assign key value result
               else addDelimiter key result (step false value EmptyString []))
            target [].

(** [unflatten(target)] for an object [target]. *)
Definition unflatten (target : Props) : Val :=
  fold_left (fun result kv =>
               match put (Str.split "." (fst kv)) (snd kv) result with
               | Some r => r
               | None => result
               end)
            (normalize target) (VObj true []).

End Flat.

(* ------------------------------------------------------------------------- *)
(** ** Documentation blocks *)

Definition dq : string := String (ascii_of_nat 34) EmptyString.

Definition lines (ls : list string) : string := Str.join nl ls.

Definition getObjectDocs (modelName : string) : string :=
  lines
    [ "/**"
    ; " * Lean version of " ++ modelName ++ "Document (type alias of `" ++ modelName ++ "`)"
    ; " * "
    ; " * Use this type alias to avoid conflicts with model names:"
    ; " * ```"
    ; " * import { " ++ modelName ++ " } from " ++ dq ++ "../models" ++ dq
    ; " * import { " ++ modelName ++ "Object } from " ++ dq ++ "../interfaces/mongoose.gen.ts" ++ dq
    ; " * "
    ; " * const " ++ Str.toLowerCase modelName ++ "Object: " ++ modelName ++ "Object = "
        ++ Str.toLowerCase modelName ++ ".toObject();"
    ; " * ```"
    ; " */" ].

Definition getQueryDocs (modelName : string) : string :=
  lines
    [ "/**"
    ; " * Mongoose Query types"
    ; " * "
    ; " * Use type assertion to ensure " ++ modelName ++ " query type safety:"
    ; " * ```"
    ; " * " ++ modelName ++ "Schema.query = <" ++ modelName ++ "Queries>{ ... };"
    ; " * ```"
    ; " */" ].

Definition getMethodDocs (modelName : string) : string :=
  lines
    [ "/**"
    ; " * Mongoose Method types"
    ; " * "
    ; " * Use type assertion to ensure " ++ modelName ++ " methods type safety:"
    ; " * ```"
    ; " * " ++ modelName ++ "Schema.methods = <" ++ modelName ++ "Methods>{ ... };"
    ; " * ```"
    ; " */" ].

Definition getStaticDocs (modelName : string) : string :=
  lines
    [ "/**"
    ; " * Mongoose Static types"
    ; " * "
    ; " * Use type assertion to ensure " ++ modelName ++ " statics type safety:"
    ; " * ```"
    ; " * " ++ modelName ++ "Schema.statics = <" ++ modelName ++ "Statics>{ ... };"
    ; " * ```"
    ; " */" ].

Definition modelCtorLine (modelName : string) : string :=
  " * const " ++ modelName ++ " = mongoose.model<" ++ modelName ++ "Document, "
    ++ modelName ++ "Model>(" ++ dq ++ modelName ++ dq ++ ", " ++ modelName ++ "Schema);".

Definition getModelDocs (modelName : string) : string :=
  lines
    [ "/**"
    ; " * Mongoose Model type"
    ; " * "
    ; " * Pass this type to the Mongoose Model constructor:"
    ; " * ```"
    ; modelCtorLine modelName
    ; " * ```"
    ; " */" ].

Definition getSchemaDocs (modelName : string) : string :=
  lines
    [ "/**"
    ; " * Mongoose Schema type"
    ; " * "
    ; " * Assign this type to new " ++ modelName ++ " schema instances:"
    ; " * ```"
    ; " * const " ++ modelName ++ "Schema: " ++ modelName ++ "Schema = new mongoose.Schema({ ... })"
    ; " * ```"
    ; " */" ].

Definition getLeanDocs (modelName : string) (fullName : option string) : string :=
  let shown := match fullName with Some f => f | None => modelName end in
  let noFull := match fullName with
                | Some f => String.eqb f EmptyString
                | None => true
                end in
  let same := match fullName with
              | Some f => String.eqb modelName f
              | None => false
              end in
  lines
    [ "/**"
    ; " * Lean version of " ++ shown ++ "Document"
    ; " * "
    ; " * This has all Mongoose getters & functions removed. This type will be returned from `"
        ++ modelName ++ "Document.toObject()`."
        ++ (if noFull || same
            then " To avoid conflicts with model names, use the type alias `"
                   ++ modelName ++ "Object`."
            else EmptyString)
    ; " * ```"
    ; " * const " ++ Str.toLowerCase modelName ++ "Object = "
        ++ Str.toLowerCase modelName ++ ".toObject();"
    ; " * ```"
    ; " */" ].

Definition getSubdocumentDocs (modelName path : string) : string :=
  lines
    [ "/**"
    ; " * Mongoose Embedded Document type"
    ; " * "
    ; " * Type of `" ++ modelName ++ "Document[" ++ dq ++ path ++ dq ++ "]` element."
    ; " */" ].

Definition getDocumentDocs (modelName : string) : string :=
  lines
    [ "/**"
    ; " * Mongoose Document type"
    ; " * "
    ; " * Pass this type to the Mongoose Model constructor:"
    ; " * ```"
    ; modelCtorLine modelName
    ; " * ```"
    ; " */" ].

(* ------------------------------------------------------------------------- *)
(** ** The type-tag resolver *)

(** The [switch] of [convertBaseTypeToTs] on the mongoose type. *)
Inductive Tag : Type :=
| TString | TNumber | TDecimal128 | TBoolean | TDate | TBuffer | TObjectId
| TOther.

Definition tagOf (mongooseType : Val) : Tag :=
  match mongooseType with
  | VFun NString => TString
  | VFun NNumber => TNumber
  | VFun NSchemaDecimal128 | VFun NTypesDecimal128 => TDecimal128
  | VFun NBoolean => TBoolean
  | VFun NDate => TDate
  | VFun NBuffer => TBuffer
  | VFun NSchemaObjectId | VFun NTypesObjectId => TObjectId
  | VStr s =>
      if String.eqb s "String" then TString
      else if String.eqb s "Number" then TNumber
      else if String.eqb s "Buffer" then TBuffer
      else if String.eqb s "ObjectId" then TObjectId
      else TOther
  | _ => TOther
  end.

(** [val.enum.join(sep)]: only arrays have a [join] method. *)
Definition joinEnum (enum : Val) (sep : string) : Res string :=
  match enum with
  | VArr xs => Ok (Str.join sep (List.map JS.toStr xs))
  | _ => TypeError
  end.

(** [convertBaseTypeToTs]; [None] is the [undefined] result. *)
Definition convertBaseTypeToTs (key : string) (val : Val) (isDocument : bool)
    : Res (option string) :=
  schemaName <- JS.get val "schemaName" ;;
  type <- JS.get val "type" ;;
  if JS.strictEq schemaName (VStr "Mixed")
     || JS.strictEq (JS.optGet type "schemaName") (VStr "Mixed")
  then Ok (Some "any")
  else
    let mongooseType :=
      if JS.strictEq type (VFun NMap) then JS.prop val "of" else type in
    match tagOf mongooseType with
    | TString =>
        let enum := JS.prop val "enum" in
        if JS.gtZero (JS.optGet enum "length")
        then joined <- joinEnum enum (dq ++ " | " ++ dq) ;;
             Ok (Some (dq ++ joined ++ dq))
        else Ok (Some "string")
    | TNumber =>
        if negb (String.eqb key "__v") then Ok (Some "number") else Ok None
    | TDecimal128 =>
        Ok (Some (if isDocument then "mongoose.Types.Decimal128" else "number"))
    | TBoolean => Ok (Some "boolean")
    | TDate => Ok (Some "Date")
    | TBuffer => Ok (Some "Buffer")
    | TObjectId => Ok (Some "mongoose.Types.ObjectId")
    | TOther => Ok (Some "{}")
    end.

(* ------------------------------------------------------------------------- *)
(** ** The schema tree compiler *)

(** Values that [parseKey] expands into [{ type: val }]. *)
Definition isDirectType (val : Val) : bool :=
  match val with
  | VFun NString | VFun NNumber | VFun NBoolean | VFun NDate | VFun NBuffer
  | VFun NSchemaObjectId | VFun NTypesObjectId
  | VFun NTypesDecimal128 | VFun NSchemaDecimal128 => true
  | VStr s => String.eqb s "String" || String.eqb s "Number" || String.eqb s "Buffer"
  | _ => false
  end.

(** Keys of mongoose internals that never become members. *)
Definition metadataKeys : list string :=
  [ "get"; "set"; "schemaName"; "defaultOptions"; "_checkRequired"; "_cast"
  ; "checkRequired"; "cast"; "__v" ].

Definition isMetadataKey (key : string) : bool :=
  existsb (String.eqb key) metadataKeys.

Definition nonEmpty (s : string) : bool := negb (String.eqb s EmptyString).

(** The array wrapper applied by [parseKey]. *)
Definition wrapArray (isDocument : bool) (isSubdocArray : Val) (valType : string)
    : string :=
  if isDocument then
    "mongoose.Types." ++ (if JS.truthy isSubdocArray then "Document" else EmptyString)
      ++ "Array<" ++ valType ++ ">"
  else
    let valType :=
      if Str.includes " " valType then "(" ++ valType ++ ")" else valType in
    valType ++ "[]".

Section ParseKey.

(** The nested call [parseSchema({ schema: { tree: val }, ... })] and the
    schema and shape of the enclosing [parseSchema] call. *)
Variable nested : Val -> Res string.
Variable schema : Val.
Variable isDocument : bool.

(** The first part of [parseKey]: array detection; returns the payload,
    [isArray] and [isOptional]. *)
Definition normalizeArray (valOriginal : Val) : Res (Val * bool * bool) :=
  let val :=
    if JS.isPlainObject valOriginal then JS.cloneDeep valOriginal
    else valOriginal in
  required <- JS.get val "required" ;;
  let isOptional := negb (JS.truthy required) in
  let isArray := JS.isArray val in
  if isArray then
    let val := JS.prop val "0" in
    d <- JS.get val "_isDefaultSetToUndefined" ;;
    Ok (val, true, JS.truthy (JS.coalesce d (VBool false)))
  else
    let type := JS.prop val "type" in
    if JS.isArray type then
      val <- JS.set val "type" (JS.prop type "0") ;;
      inner <- JS.get (JS.prop val "type") "type" ;;
      if JS.truthy inner then
        let innerRef := JS.prop (JS.prop val "type") "ref" in
        val <- (if JS.truthy innerRef then JS.set val "ref" innerRef else Ok val) ;;
        val <- JS.set val "type" (JS.prop (JS.prop val "type") "type") ;;
        Ok (val, true, false)
      else Ok (val, true, isOptional)
    else Ok (val, false, isOptional).

(** The branch of [parseKey] that resolves the member type: [None] is an
    early [return ""], otherwise the type (possibly [undefined]) and the
    optional flag. *)
Definition resolveType (key : string) (val : Val) (isOptional : bool)
    : Res (option (option string * bool)) :=
  if JS.truthy (JS.prop val "_inferredInterfaceName") then
    Ok (Some (Some (JS.toStr (JS.prop val "_inferredInterfaceName")
                      ++ (if isDocument then "Document" else EmptyString)),
              isOptional))
  else if JS.truthy (JS.prop val "path") && JS.truthy (JS.prop val "path")
          && JS.truthy (JS.prop val "setters")
          && JS.truthy (JS.prop val "getters") then
    if String.eqb key "id" then Ok None
    else
      include <- (if negb isDocument
                  then shouldLeanIncludeVirtuals schema else Ok true) ;;
      if negb include then Ok None
      else Ok (Some (Some "any", false))
  else if nonEmpty key && isMetadataKey key then Ok None
  else if JS.truthy (JS.prop val "ref") then
    docRef <- match JS.prop val "ref" with
              | VStr r => Ok (Str.removeFirst "'" r)
              | _ => TypeError
              end ;;
    docRef <- (if Str.includes "." docRef
               then getSubDocName docRef EmptyString else Ok docRef) ;;
    Ok (Some (Some (if isDocument
                    then docRef ++ "Document[" ++ dq ++ "_id" ++ dq ++ "] | "
                           ++ docRef ++ "Document"
                    else docRef ++ "[" ++ dq ++ "_id" ++ dq ++ "] | " ++ docRef),
              isOptional))
  else
    let isOptional := if String.eqb key "_id" then false else isOptional in
    convertedType <- convertBaseTypeToTs key val isDocument ;;
    match convertedType with
    | Some t =>
        if String.eqb t "{}" then
          valType <- nested val ;;
          Ok (Some (Some valType, false))
        else Ok (Some (Some t, isOptional))
    | None => Ok (Some (None, isOptional))
    end.

(** [parseKey] *)
Definition parseKey (key : string) (valOriginal : Val) : Res string :=
  '(val, isArray, isOptional) <- normalizeArray valOriginal ;;
  let val := if isDirectType val then VObj true [("type", val)] else val in
  type <- JS.get val "type" ;;
  let isMap := JS.strictEq type (VFun NMap) in
  resolved <- resolveType key val isOptional ;;
  match resolved with
  | None => Ok EmptyString
  | Some (None, _) => Ok EmptyString
  | Some (Some valType, isOptional) =>
      if negb (nonEmpty valType) then Ok EmptyString
      else
        let valType :=
          if isMap then
            (if isDocument then "mongoose.Types.Map<" ++ valType ++ ">"
             else "Map<string, " ++ valType ++ ">")
          else valType in
        let valType :=
          if String.eqb valType "Buffer" && isDocument
          then "mongoose.Types.Buffer" else valType in
        let valType :=
          if isArray
          then wrapArray isDocument (JS.prop val "_isSubdocArray") valType
          else valType in
        Ok (makeLine key valType isOptional)
  end.

End ParseKey.

Fixpoint foldM {A S} (f : S -> A -> Res S) (xs : list A) (s : S) : Res S :=
  match xs with
  | [] => Ok s
  | x :: r => s' <- f s x ;; foldM f r s'
  end.

Definition truthyName (modelName : option string) : bool :=
  match modelName with Some n => nonEmpty n | None => false end.

Definition exportKw (isAugmented : bool) : string :=
  if isAugmented then EmptyString else "export ".

Section ProcessChild.

(** The recursive call of [processChild]:
    [parseSchema({ schema, modelName, header, isDocument, footer, isAugmented })]. *)
Variable recur : Val -> string -> string -> Res string.
Variable isDocument isAugmented : bool.
Variable rootPath : string.

Definition childHeader (name path : string) (isSubdocArray : bool) : string :=
  let header :=
    if isDocument
    then (if isSubdocArray then getSubdocumentDocs rootPath path
          else getDocumentDocs rootPath)
    else getLeanDocs rootPath (Some name) in
  let header := header ++ (if isAugmented then nl else nl ++ "export ") in
  if isDocument then
    header ++ "interface " ++ name ++ "Document extends "
      ++ (if isSubdocArray then "mongoose.Types.EmbeddedDocument"
          else "mongoose.Document<mongoose.Types.ObjectId>, " ++ name ++ "Methods")
      ++ " {" ++ nl
  else header ++ "interface " ++ name ++ " {" ++ nl.

(** One iteration of [schema.childSchemas.forEach(processChild(modelName))];
    the state is [flatSchemaTree] and [childInterfaces]. *)
Definition processChild (st : Props * string) (child : Val)
    : Res (Props * string) :=
  let '(flatSchemaTree, childInterfaces) := st in
  model <- JS.get child "model" ;;
  path <- JS.get model "path" ;;
  let isSubdocArray := JS.prop model "$isArraySubdocument" in
  path <- match path with VStr p => Ok p | _ => TypeError end ;;
  name <- getSubDocName path rootPath ;;
  cschema <- JS.get child "schema" ;;
  cschema <- JS.set cschema "_isReplacedWithSchema" (VBool true) ;;
  cschema <- JS.set cschema "_inferredInterfaceName" (VStr name) ;;
  cschema <- JS.set cschema "_isSubdocArray" isSubdocArray ;;
  cschema <-
    (if JS.truthy isSubdocArray then
       let defaultValuePath := path ++ ".default" in
       match JS.lookup defaultValuePath flatSchemaTree with
       | Some VUndef => JS.set cschema "_isDefaultSetToUndefined" (VBool true)
       | _ => Ok cschema
       end
     else Ok cschema) ;;
  let flatSchemaTree :=
    JS.assign path
      (if JS.truthy isSubdocArray then VArr [cschema] else cschema)
      flatSchemaTree in
  let flatSchemaTree :=
    filter (fun kv =>
              negb (Str.startsWith path (fst kv)
                    && Nat.ltb (String.length path) (String.length (fst kv))))
           flatSchemaTree in
  out <- recur cschema name (childHeader name path (JS.truthy isSubdocArray)) ;;
  Ok (flatSchemaTree, childInterfaces ++ out).

End ProcessChild.

(** The auxiliary types emitted once per model. *)
Definition auxiliaryTypes (schema : Val) (modelName : string) (isAugmented : bool)
    : Res string :=
  let template :=
    getObjectDocs modelName
      ++ nl ++ exportKw isAugmented ++ "type " ++ modelName ++ "Object = "
      ++ modelName ++ nl ++ nl in
  queryKeys <- JS.keys (JS.prop schema "query") ;;
  template <-
    (if Nat.ltb 0 (List.length queryKeys) then
       q <- parseFunctions (JS.coalesce (JS.prop schema "query") (VObj true []))
                           modelName query ;;
       Ok (template ++ getQueryDocs modelName
             ++ nl ++ exportKw isAugmented ++ "type " ++ modelName ++ "Queries = {" ++ nl
             ++ q ++ "}" ++ nl ++ nl
             ++ (if isAugmented then EmptyString
                 else "declare module " ++ dq ++ "mongoose" ++ dq ++ " {")
             ++ "interface Query<ResultType, DocType extends Document> extends "
             ++ modelName ++ "Queries {}"
             ++ (if isAugmented then EmptyString else "}") ++ nl ++ nl)
     else Ok template) ;;
  m <- parseFunctions (JS.prop schema "methods") modelName methods ;;
  let template :=
    template ++ getMethodDocs modelName
      ++ nl ++ exportKw isAugmented ++ "type " ++ modelName ++ "Methods = {" ++ nl
      ++ m ++ "}" ++ nl ++ nl in
  s <- parseFunctions (JS.prop schema "statics") modelName statics ;;
  let template :=
    template ++ getStaticDocs modelName
      ++ nl ++ exportKw isAugmented ++ "type " ++ modelName ++ "Statics = {" ++ nl
      ++ s ++ "}" ++ nl ++ nl in
  let modelExtend := "mongoose.Model<" ++ modelName ++ "Document>" in
  let template :=
    template ++ getModelDocs modelName
      ++ nl ++ exportKw isAugmented ++ "interface " ++ modelName ++ "Model extends "
      ++ modelExtend ++ ", " ++ modelName ++ "Statics {}" ++ nl ++ nl in
  Ok (template ++ getSchemaDocs modelName
        ++ nl ++ exportKw isAugmented ++ "type " ++ modelName
        ++ "Schema = mongoose.Schema<" ++ modelName ++ "Document, " ++ modelName
        ++ "Model>" ++ nl ++ nl).

(** [parseSchema].  The first argument bounds the depth of the recursion
    (nested objects and child schemas). *)
Fixpoint parseSchema (fuel : nat) (schemaOriginal : Val)
    (modelName : option string) (addModel isDocument : bool)
    (header footer : string) (isAugmented : bool) {struct fuel} : Res string :=
  match fuel with
  | O => Diverge
  | S fuel' =>
      let template := EmptyString in
      let schema := JS.cloneDeep schemaOriginal in
      childSchemas <- JS.get schema "childSchemas" ;;
      '(schema, template) <-
        (if JS.gtZero (JS.optGet childSchemas "length") && truthyName modelName
         then
           flatSchemaTree <- Flat.flatten true (JS.prop schema "tree") ;;
           children <- match childSchemas with
                       | VArr xs => Ok xs
                       | _ => TypeError
                       end ;;
           '(flatSchemaTree, childInterfaces) <-
             foldM (processChild
                      (fun child name header =>
                         parseSchema fuel' child (Some name) false isDocument
                                     header ("}" ++ nl ++ nl) isAugmented)
                      isDocument isAugmented
                      (match modelName with Some n => n | None => EmptyString end))
                   children (flatSchemaTree, EmptyString) ;;
           schema <- JS.set schema "tree" (Flat.unflatten flatSchemaTree) ;;
           Ok (schema, template ++ childInterfaces)
         else Ok (schema, template)) ;;
      template <-
        (if negb isDocument && JS.truthy (JS.prop schema "statics")
            && truthyName modelName && addModel
         then
           aux <- auxiliaryTypes schema
                    (match modelName with Some n => n | None => EmptyString end)
                    isAugmented ;;
           Ok (template ++ aux)
         else Ok template) ;;
      let template := template ++ header in
      let schemaTree := JS.prop schema "tree" in
      ks <- JS.keys schemaTree ;;
      template <-
        foldM (fun template key =>
                 line <- parseKey
                           (fun val =>
                              parseSchema fuel' (VObj true [("tree", val)]) None
                                          false isDocument ("{" ++ nl) "}" true)
                           schema isDocument key (JS.prop schemaTree key) ;;
                 Ok (template ++ line))
              ks template ;;
      Ok (template ++ footer)
  end.

(* ------------------------------------------------------------------------- *)
(** ** The structural patch pass

    [replaceModelTypes] edits the parsed output through ts-morph.  The syntax
    tree is modelled by the node kinds the pass navigates: statements (type
    aliases, interfaces, module declarations), type literals and their
    members.  Type expressions are kept as text. *)

Inductive Member : Type :=
| PropertySignature (name : string) (type : option string)
| OtherMember (text : string).

Inductive TypeNode : Type :=
| TypeLiteral (members : list Member)
| OtherType (text : string).

Inductive Statement : Type :=
| TypeAliasDeclaration (name : string) (type : TypeNode)
| InterfaceDeclaration (name : string) (members : list Member)
| ModuleDeclaration (name : string) (body : option (list Statement))
| OtherStatement (text : string).

Definition SourceFile := list Statement.

(** One entry of [ModelTypes]: objects whose values are strings. *)
Record Types : Type := mkTypes
  { t_methods : list (string * string)
  ; t_statics : list (string * string)
  ; t_query : list (string * string)
  ; t_virtuals : list (string * string) }.

Definition ModelTypes := list (string * Types).

(** [LoadedSchemas] *)
Definition LoadedSchemas := list (string * Val).

Fixpoint lookupStr (k : string) (m : list (string * string)) : option string :=
  match m with
  | [] => None
  | (k', v) :: r => if String.eqb k k' then Some v else lookupStr k r
  end.

(** The tables of [ModelTypes] are plain objects: a name that is not an own
    key is looked up in [Object.prototype]. *)
Definition objectPrototypeNames : list string :=
  [ "constructor"; "__defineGetter__"; "__defineSetter__"; "hasOwnProperty"
  ; "__lookupGetter__"; "__lookupSetter__"; "isPrototypeOf"
  ; "propertyIsEnumerable"; "toString"; "valueOf"; "__proto__"
  ; "toLocaleString" ].

(** [table[name]] *)
Inductive Found : Type :=
| Own (newType : string)   (* an entry of the table *)
| Inherited                (* a function or object of [Object.prototype] *)
| Missing.                 (* undefined *)

Definition tableGet (table : list (string * string)) (name : string) : Found :=
  match lookupStr name table with
  | Some newType => Own newType
  | None =>
      if existsb (String.eqb name) objectPrototypeNames then Inherited else Missing
  end.

(** [prop.setType(text)] of ts-morph for a string: the type of the property
    afterwards; a blank text removes the type. *)
Definition setType (text : string) : option string :=
  if Str.isBlank text then None else Some text.

(** [prop.setType(value)] of ts-morph for a value inherited from
    [Object.prototype].  A function is called as a writer function, with the
    writer as argument and no receiver: [Object] and [toString] return
    without writing, and the empty text removes the type; the other
    functions of [Object.prototype] throw on their missing receiver.  The
    prototype object itself ([__proto__]) writes nothing either. *)
Definition setInherited (name : string) : Res (option string) :=
  if existsb (String.eqb name) ["constructor"; "toString"; "__proto__"]
  then Ok None else TypeError.

(** The callback of the passes over the property signatures of a type alias:
    [const newType = table[prop.getName()];
     if (newType) prop.setType(getFuncType(newType, ...))];
    the result is the type of the property afterwards.  An inherited value is
    truthy and has no [match] method, so [getFuncType] throws on it. *)
Definition setTypeFrom (table : list (string * string))
    (render : string -> string) (name : string) (type : option string)
    : Res (option string) :=
  match tableGet table name with
  | Own newType => if nonEmpty newType then Ok (setType (render newType)) else Ok type
  | Inherited => TypeError
  | Missing => Ok type
  end.

(** The callback of the passes over the property signatures of an interface:
    [const newType = virtuals[prop.getName()]; if (newType) prop.setType(newType)]. *)
Definition setVirtualType (table : list (string * string)) (name : string)
    (type : option string) : Res (option string) :=
  match tableGet table name with
  | Own newType => if nonEmpty newType then Ok (setType newType) else Ok type
  | Inherited => setInherited name
  | Missing => Ok type
  end.

(** [members.getChildrenOfKind(PropertySignature).forEach(callback)] *)
Definition forEachProperty (callback : string -> option string -> Res (option string))
    (ms : list Member) : Res (list Member) :=
  mapM (fun m =>
          match m with
          | PropertySignature name type =>
              type <- callback name type ;; Ok (PropertySignature name type)
          | OtherMember _ => Ok m
          end) ms.

(** [root.getTypeAlias(name)?.getFirstChildByKind(TypeLiteral)?.<edit>]: the
    first alias of that name is the one navigated to, and only if its type
    is a type literal. *)
Fixpoint onTypeAlias (name : string) (edit : list Member -> Res (list Member))
    (root : list Statement) : Res (list Statement) :=
  match root with
  | [] => Ok []
  | TypeAliasDeclaration n ty :: r =>
      if String.eqb n name then
        match ty with
        | TypeLiteral ms =>
            ms <- edit ms ;; Ok (TypeAliasDeclaration n (TypeLiteral ms) :: r)
        | OtherType _ => Ok root
        end
      else r <- onTypeAlias name edit r ;; Ok (TypeAliasDeclaration n ty :: r)
  | s :: r => r <- onTypeAlias name edit r ;; Ok (s :: r)
  end.

(** [root.getInterface(name)?.<edit>] *)
Fixpoint onInterface (name : string) (edit : list Member -> Res (list Member))
    (root : list Statement) : Res (list Statement) :=
  match root with
  | [] => Ok []
  | InterfaceDeclaration n ms :: r =>
      if String.eqb n name
      then ms <- edit ms ;; Ok (InterfaceDeclaration n ms :: r)
      else r <- onInterface name edit r ;; Ok (InterfaceDeclaration n ms :: r)
  | s :: r => r <- onInterface name edit r ;; Ok (s :: r)
  end.

Definition patchTypeAlias (name : string) (table : list (string * string))
    (render : string -> string) : list Statement -> Res (list Statement) :=
  onTypeAlias name (forEachProperty (setTypeFrom table render)).

Definition patchInterface (name : string) (table : list (string * string))
    : list Statement -> Res (list Statement) :=
  onInterface name (forEachProperty (setVirtualType table)).

(** The block of the first module declaration, edited in place; [None] when
    there is no module declaration or the first one has no block. *)
Fixpoint inFirstModule (edit : list Statement -> Res (list Statement))
    (l : list Statement) : option (Res (list Statement)) :=
  match l with
  | [] => None
  | ModuleDeclaration n body :: r =>
      match body with
      | Some block =>
          Some (block <- edit block ;; Ok (ModuleDeclaration n (Some block) :: r))
      | None => None
      end
  | s :: r =>
      match inFirstModule edit r with
      | Some r' => Some (r' <- r' ;; Ok (s :: r'))
      | None => None
      end
  end.

(** [getRoot]: edits apply to the block of the first module declaration when
    the output is an augmentation and that declaration has a block, and to
    the source file otherwise. *)
Definition onRoot (isAugmented : bool) (edit : list Statement -> Res (list Statement))
    (sourceFile : SourceFile) : Res SourceFile :=
  if isAugmented then
    match inFirstModule edit sourceFile with
    | Some sf => sf
    | None => edit sourceFile
    end
  else edit sourceFile.

Fixpoint lookupSchema (k : string) (m : LoadedSchemas) : Val :=
  match m with
  | [] => VUndef
  | (k', v) :: r => if String.eqb k k' then v else lookupSchema k r
  end.

Definition nonEmptyTable (m : list (string * string)) : bool :=
  Nat.ltb 0 (List.length m).

(** The body of the [forEach] over [Object.entries(modelTypes)]. *)
Definition replaceOne (schemas : LoadedSchemas) (isAugmented : bool)
    (sourceFile : SourceFile) (entry : string * Types) : Res SourceFile :=
  let '(modelName, types) := entry in
  sourceFile <-
    (if nonEmptyTable (t_methods types) then
       onRoot isAugmented
         (patchTypeAlias (modelName ++ "Methods") (t_methods types)
            (fun newType => getFuncType newType methods modelName))
         sourceFile
     else Ok sourceFile) ;;
  sourceFile <-
    (if nonEmptyTable (t_statics types) then
       onRoot isAugmented
         (patchTypeAlias (modelName ++ "Statics") (t_statics types)
            (fun newType => getFuncType newType statics modelName))
         sourceFile
     else Ok sourceFile) ;;
  sourceFile <-
    (if nonEmptyTable (t_query types) then
       onRoot isAugmented
         (patchTypeAlias (modelName ++ "Queries") (t_query types)
            (fun newType => getFuncType newType query modelName))
         sourceFile
     else Ok sourceFile) ;;
  if nonEmptyTable (t_virtuals types) then
    sourceFile <-
      onRoot isAugmented
        (patchInterface (modelName ++ "Document") (t_virtuals types)) sourceFile ;;
    include <- shouldLeanIncludeVirtuals (lookupSchema modelName schemas) ;;
    if include
    then onRoot isAugmented (patchInterface modelName (t_virtuals types)) sourceFile
    else Ok sourceFile
  else Ok sourceFile.

(** [replaceModelTypes]: the source file after the pass. *)
Definition replaceModelTypes (sourceFile : SourceFile) (modelTypes : ModelTypes)
    (schemas : LoadedSchemas) (isAugmented : bool) : Res SourceFile :=
  foldM (replaceOne schemas isAugmented) modelTypes sourceFile.

(* ------------------------------------------------------------------------- *)
(** ** Loading the schemas

    [loadSchemas] asks Node for each module ([require]) and for the base name
    of its path ([path.parse]); both answers are inputs here.  A mongoose
    model is a function object with own properties [modelName] and [schema];
    as the loader only reads properties, a model is represented by an object
    carrying them. *)

(** What [require(singleModelPath)] did. *)
Inductive Required : Type :=
| Loaded (exportedData : Val)
| RequireFailed (message : string).

Record ModelFile : Type := mkModelFile
  { singleModelPath : string
  ; filenameRoot : string            (* path.parse(singleModelPath).name *)
  ; required : Required }.

(** [checkAndRegisterModel]: the registry afterwards and the returned flag. *)
Definition checkAndRegisterModel (schemas : LoadedSchemas) (obj : Val)
    : LoadedSchemas * bool :=
  if negb (JS.truthy (JS.optGet obj "modelName"))
     || negb (JS.truthy (JS.optGet obj "schema"))
  then (schemas, false)
  else (JS.assign (JS.toStr (JS.prop obj "modelName")) (JS.prop obj "schema") schemas,
        true).

(** [a || b || ...] over calls of [checkAndRegisterModel]: the first object
    that registers stops the chain. *)
Fixpoint registerFirst (schemas : LoadedSchemas) (objs : list Val)
    : LoadedSchemas * bool :=
  match objs with
  | [] => (schemas, false)
  | obj :: r =>
      let '(schemas', ok) := checkAndRegisterModel schemas obj in
      if ok then (schemas', true) else registerFirst schemas' r
  end.

(** [s.charAt(0).toUpperCase() + s.slice(1)] *)
Definition upperFirst (s : string) : string :=
  match s with
  | EmptyString => EmptyString
  | String c r => String (Str.upper c) r
  end.

Definition noModelError (path : string) : string :=
  "A module was found at " ++ path
    ++ ", but no exported models were found. Please ensure this file exports a Mongoose Model (preferably default export).".

(** The body of [modelsPaths.forEach(...)]. *)
Definition loadOne (schemas : LoadedSchemas) (file : ModelFile) : Res LoadedSchemas :=
  match required file with
  | RequireFailed message =>
      if Str.includes ("Cannot find module '" ++ singleModelPath file ++ "'") message
      then Throw ("Could not find a module at path " ++ singleModelPath file ++ ".")
      else Throw message
  | Loaded exportedData =>
      default <- JS.get exportedData "default" ;;
      let '(schemas, ok) := registerFirst schemas [default; exportedData] in
      if ok then Ok schemas
      else
        let modelName := upperFirst (filenameRoot file) in
        let collectionNameUppercased := modelName ++ "s" in
        let modelNameLowercase :=
          Str.toLowerCase
            (if Str.endsWith "s" (filenameRoot file)
             then Str.dropLast (filenameRoot file) else filenameRoot file) in
        let collectionName := modelNameLowercase ++ "s" in
        let '(schemas, ok) :=
          registerFirst schemas
            [ JS.prop exportedData modelName
            ; JS.prop exportedData modelNameLowercase
            ; JS.prop exportedData collectionName
            ; JS.prop exportedData collectionNameUppercased ] in
        if ok then Ok schemas
        else
          let '(schemas, ok) :=
            registerFirst schemas (List.map snd (JS.entries exportedData)) in
          if ok then Ok schemas
          else Throw (noModelError (singleModelPath file))
  end.

(** [loadSchemas] *)
Definition loadSchemas (modelsPaths : list ModelFile) : Res LoadedSchemas :=
  foldM loadOne modelsPaths [].

(* ------------------------------------------------------------------------- *)
(** ** Assembling the output

    [generateTypes] drives the writer ts-morph hands to it; the model is the
    sequence of calls it makes on that writer. *)

Inductive WriterOp : Type :=
| Write (text : string)
| BlankLine.

Definition MAIN_HEADER : string :=
  "/* tslint:disable */" ++ nl ++ "/* eslint-disable */" ++ nl ++ nl
    ++ "// ######################################## THIS FILE WAS GENERATED BY MONGOOSE-TSGEN ######################################## //"
    ++ nl ++ nl
    ++ "// NOTE: ANY CHANGES MADE WILL BE OVERWRITTEN ON SUBSEQUENT EXECUTIONS OF MONGOOSE-TSGEN.".

Definition IMPORTS : string :=
  "import mongoose from " ++ dq ++ "mongoose" ++ dq ++ ";".

Definition MODULE_DECLARATION_HEADER : string :=
  "declare module " ++ dq ++ "mongoose" ++ dq ++ " {".

Definition MODULE_DECLARATION_FOOTER : string := "}".

(** The body of [Object.keys(schemas).forEach(...)]: the writer calls made
    for one model. *)
Definition generateModel (fuel : nat) (schemas : LoadedSchemas) (isAugmented : bool)
    (modelName : string) : Res (list WriterOp) :=
  let schema := lookupSchema modelName schemas in
  leanInterfaceStr <-
    parseSchema fuel schema (Some modelName) true false
      (getLeanDocs modelName None ++ nl ++ exportKw isAugmented
         ++ "interface " ++ modelName ++ " {" ++ nl)
      "}" isAugmented ;;
  tree <- JS.get schema "tree" ;;
  idVal <- JS.get tree "_id" ;;
  idType <- convertBaseTypeToTs "_id" idVal true ;;
  let _idType := match idType with Some t => t | None => "undefined" end in
  documentInterfaceStr <-
    parseSchema fuel schema (Some modelName) true true
      (getDocumentDocs modelName ++ nl ++ exportKw isAugmented
         ++ "interface " ++ modelName ++ "Document extends mongoose.Document<"
         ++ _idType ++ ">, " ++ modelName ++ "Methods {" ++ nl)
      "}" isAugmented ;;
  Ok [Write leanInterfaceStr; BlankLine; Write documentInterfaceStr; BlankLine].

(** [generateTypes]: the calls on the writer, in order. *)
Definition generateTypes (fuel : nat) (schemas : LoadedSchemas) (isAugmented : bool)
    (imports : list string) : Res (list WriterOp) :=
  let ops := [Write MAIN_HEADER; BlankLine; Write IMPORTS] in
  let ops :=
    if Nat.ltb 0 (List.length imports)
    then List.app ops [Write (Str.join nl imports)] else ops in
  let ops := List.app ops [BlankLine] in
  let ops :=
    if isAugmented
    then List.app ops [Write MODULE_DECLARATION_HEADER; BlankLine] else ops in
  ops <- foldM (fun ops modelName =>
                  modelOps <- generateModel fuel schemas isAugmented modelName ;;
                  Ok (List.app ops modelOps))
               (List.map fst schemas) ops ;;
  Ok (if isAugmented then List.app ops [Write MODULE_DECLARATION_FOOTER] else ops).

(* ------------------------------------------------------------------------- *)
(** ** The same compiler over a store

    [parseSchema] clones its argument and then edits objects in place.  To
    state what happens to the objects of the caller, this second embedding
    keeps objects in a store: a value is a primitive, a function or a
    reference, [_.cloneDeep] allocates copies, and every assignment of the
    source is a write to the store.  Objects are the ones lodash copies
    (plain objects, class instances, arrays), with their own properties.
    Functions are objects lodash does not copy: a function found in a value
    is shared between the copy and the original, so the store keeps the
    properties of each function apart from the values that hold it, and a
    write to a function is seen by all its holders. *)

Module Store.

Inductive HVal : Type :=
| HUndef
| HNull
| HBool (b : bool)
| HNum (z : Z)
| HStr (s : string)
| HFun (f : Native)
| HRef (l : nat).

Inductive Obj : Type :=
| OObj (plain : bool) (ps : list (string * HVal))
| OArr (xs : list HVal).

Definition HProps := list (string * HVal).

(** The store.  The object at location [l] is the [l]-th element of
    [objects].  A function is an object too: [functions] holds, for each
    function that has some, the own enumerable properties it was given, by
    its owner or by an assignment of the generator.  A function is named by
    its [Native] tag, so that every holder of the function sees the same
    properties. *)
Record Heap : Type := mkHeap
  { objects : list Obj
  ; functions : list (Native * HProps) }.

Definition empty : Heap := mkHeap [] [].

(** A computation over the store; the store is kept when it throws. *)
Definition M (A : Type) : Type := Heap -> Res A * Heap.

Definition ret {A} (a : A) : M A := fun h => (Ok a, h).

Definition throw {A} : M A := fun h => (Throw "TypeError", h).

Definition diverge {A} : M A := fun h => (Diverge, h).

Definition mbind {A B} (m : M A) (k : A -> M B) : M B :=
  fun h =>
    match m h with
    | (Ok a, h') => k a h'
    | (Throw e, h') => (Throw e, h')
    | (Diverge, h') => (Diverge, h')
    end.

Definition lift {A} (r : Res A) : M A := fun h => (r, h).

Notation "x <~ m ;; k" := (mbind m (fun x => k))
  (at level 61, m at next level, right associativity).

Notation "' p <~ m ;; k" := (mbind m (fun x => match x with p => k end))
  (at level 61, p pattern, m at next level, right associativity).

Fixpoint mfold {A S} (f : S -> A -> M S) (xs : list A) (s : S) : M S :=
  match xs with
  | [] => ret s
  | x :: r => s' <~ f s x ;; mfold f r s'
  end.

(** *** Store primitives *)

Fixpoint update (l : nat) (o : Obj) (h : list Obj) : list Obj :=
  match l, h with
  | _, [] => []
  | O, _ :: r => o :: r
  | S l', x :: r => x :: update l' o r
  end.

Definition setObject (l : nat) (o : Obj) (h : Heap) : Heap :=
  mkHeap (update l o (objects h)) (functions h).

(** [new]: the object is placed at the first unused location. *)
Definition alloc (o : Obj) : M HVal :=
  fun h => (Ok (HRef (List.length (objects h))),
            mkHeap (List.app (objects h) [o]) (functions h)).

Definition truthy (v : HVal) : bool :=
  match v with
  | HUndef | HNull => false
  | HBool b => b
  | HNum z => negb (Z.eqb z 0)
  | HStr s => negb (String.eqb s EmptyString)
  | HFun _ | HRef _ => true
  end.

Definition nullish (v : HVal) : bool :=
  match v with HUndef | HNull => true | _ => false end.

Definition coalesce (a b : HVal) : HVal := if nullish a then b else a.

(** [v === a]; references are compared by location. *)
Definition strictEq (v a : HVal) : bool :=
  match v, a with
  | HUndef, HUndef | HNull, HNull => true
  | HBool x, HBool y => Bool.eqb x y
  | HNum x, HNum y => Z.eqb x y
  | HStr x, HStr y => String.eqb x y
  | HFun x, HFun y => JS.native_eqb x y
  | HRef x, HRef y => Nat.eqb x y
  | _, _ => false
  end.

Fixpoint lookup (k : string) (ps : HProps) : option HVal :=
  match ps with
  | [] => None
  | (k', v) :: r => if String.eqb k k' then Some v else lookup k r
  end.

Fixpoint assign (k : string) (v : HVal) (ps : HProps) : HProps :=
  match ps with
  | [] => [(k, v)]
  | (k', v') :: r =>
      if String.eqb k k' then (k, v) :: r else (k', v') :: assign k v r
  end.

Definition char_at (s : string) (i : nat) : HVal :=
  match String.get i s with
  | Some c => HStr (String c EmptyString)
  | None => HUndef
  end.

(** What a function has without having been given it: the static
    [schemaName] of the mongoose class [Mixed].  (The [name] and [length]
    every function has are left out; the generator reads [length] only of
    what it takes for an array.) *)
Definition funProp (f : Native) (k : string) : HVal :=
  match f with
  | NMixed => if String.eqb k "schemaName" then HStr "Mixed" else HUndef
  | _ => HUndef
  end.

Fixpoint ownProps (f : Native) (fs : list (Native * HProps)) : HProps :=
  match fs with
  | [] => []
  | (g, ps) :: r => if JS.native_eqb f g then ps else ownProps f r
  end.

Fixpoint setOwnProps (f : Native) (ps : HProps) (fs : list (Native * HProps))
    : list (Native * HProps) :=
  match fs with
  | [] => [(f, ps)]
  | (g, qs) :: r =>
      if JS.native_eqb f g then (g, ps) :: r else (g, qs) :: setOwnProps f ps r
  end.

(** [v[k]] in store [h], for [v] neither [null] nor [undefined]. *)
Definition propIn (h : Heap) (v : HVal) (k : string) : HVal :=
  match v with
  | HRef l =>
      match nth_error (objects h) l with
      | Some (OObj _ ps) =>
          match lookup k ps with Some x => x | None => HUndef end
      | Some (OArr xs) =>
          if String.eqb k "length" then HNum (Z.of_nat (List.length xs))
          else match JS.index_of k (List.length xs) with
               | Some i => nth i xs HUndef
               | None => HUndef
               end
      | None => HUndef
      end
  | HStr s =>
      if String.eqb k "length" then HNum (Z.of_nat (String.length s))
      else match JS.index_of k (String.length s) with
           | Some i => char_at s i
           | None => HUndef
           end
  | HFun f =>
      match lookup k (ownProps f (functions h)) with
      | Some x => x
      | None => funProp f k
      end
  | _ => HUndef
  end.

(** [v[k]] without the null check ([v?.k] on a nullish [v] is undefined). *)
Definition prop (v : HVal) (k : string) : M HVal :=
  fun h => (Ok (if nullish v then HUndef else propIn h v k), h).

(** [v.k] *)
Definition get (v : HVal) (k : string) : M HVal :=
  if nullish v then throw else prop v k.

(** [v.k = x] for a property name that is not an array index.  A function
    takes the property like any object, and every holder of the function
    sees it. *)
Definition set (v : HVal) (k : string) (x : HVal) : M unit :=
  fun h =>
    match v with
    | HUndef | HNull | HBool _ | HNum _ | HStr _ => (Throw "TypeError", h)
    | HFun f =>
        (Ok tt,
         mkHeap (objects h)
                (setOwnProps f (assign k x (ownProps f (functions h)))
                             (functions h)))
    | HRef l =>
        match nth_error (objects h) l with
        | Some (OObj p ps) => (Ok tt, setObject l (OObj p (assign k x ps)) h)
        | _ => (Ok tt, h)
        end
    end.

(** The object a value refers to, for a value that is not a function. *)
Definition deref (v : HVal) : M (option Obj) :=
  fun h => (Ok (match v with HRef l => nth_error (objects h) l | _ => None end), h).

Fixpoint indexed_from (i : nat) (xs : list HVal) : HProps :=
  match xs with
  | [] => []
  | x :: r => (Str.of_nat i, x) :: indexed_from (S i) r
  end.

Fixpoint chars_from (i : nat) (s : string) : HProps :=
  match s with
  | EmptyString => []
  | String c r => (Str.of_nat i, HStr (String c EmptyString)) :: chars_from (S i) r
  end.

(** Own enumerable properties, in [Object.keys] order. *)
Definition entries (v : HVal) : M HProps :=
  fun h =>
    (Ok (match v with
         | HRef l =>
             match nth_error (objects h) l with
             | Some (OObj _ ps) => ps
             | Some (OArr xs) => indexed_from 0 xs
             | None => []
             end
         | HStr s => chars_from 0 s
         | HFun f => ownProps f (functions h)
         | _ => []
         end), h).

(** [Object.keys(v)] *)
Definition keys (v : HVal) : M (list string) :=
  if nullish v then throw else ps <~ entries v ;; ret (List.map fst ps).

Definition isArray (v : HVal) : M bool :=
  o <~ deref v ;; ret (match o with Some (OArr _) => true | _ => false end).

Definition isPlainObject (v : HVal) : M bool :=
  o <~ deref v ;; ret (match o with Some (OObj true _) => true | _ => false end).

Definition gtZero (v : HVal) : bool :=
  match v with
  | HNum z => Z.ltb 0 z
  | HBool b => b
  | _ => false
  end.

(** [a.push(x)] *)
Definition push (v : HVal) (x : HVal) : M unit :=
  fun h =>
    match v with
    | HRef l =>
        match nth_error (objects h) l with
        | Some (OArr xs) => (Ok tt, setObject l (OArr (List.app xs [x])) h)
        | _ => (Ok tt, h)
        end
    | _ => (Ok tt, h)
    end.

(** *** [_.cloneDeep]

    Objects and arrays are copied into new locations; [memo] is the stack
    lodash keeps to copy an object reached twice only once.  A function found
    inside the value is not copied: the copy holds the very function, with
    the properties it has; cloning a function itself gives an empty
    object. *)

Fixpoint seen (l : nat) (memo : list (nat * HVal)) : option HVal :=
  match memo with
  | [] => None
  | (l', v) :: r => if Nat.eqb l l' then Some v else seen l r
  end.

Fixpoint baseClone (fuel : nat) (v : HVal) (memo : list (nat * HVal))
    {struct fuel} : M (HVal * list (nat * HVal)) :=
  match fuel with
  | O => diverge
  | S fuel' =>
      match v with
      | HRef l =>
          match seen l memo with
          | Some copy => ret (copy, memo)
          | None =>
              o <~ deref v ;;
              match o with
              | None => throw
              | Some (OObj p ps) =>
                  copy <~ alloc (OObj p []) ;;
                  memo <~ mfold (fun memo kv =>
                                   '(x, memo) <~ baseClone fuel' (snd kv) memo ;;
                                   _ <~ set copy (fst kv) x ;;
                                   ret memo)
                                ps ((l, copy) :: memo) ;;
                  ret (copy, memo)
              | Some (OArr xs) =>
                  copy <~ alloc (OArr []) ;;
                  memo <~ mfold (fun memo x =>
                                   '(x', memo) <~ baseClone fuel' x memo ;;
                                   _ <~ push copy x' ;;
                                   ret memo)
                                xs ((l, copy) :: memo) ;;
                  ret (copy, memo)
              end
          end
      | _ => ret (v, memo)
      end
  end.

Definition cloneDeep (fuel : nat) (v : HVal) : M HVal :=
  match v with
  | HFun _ => alloc (OObj true [])
  | _ => '(copy, _) <~ baseClone fuel v [] ;; ret copy
  end.

(** *** The [flat] package over the store *)

Definition isObjectTag (v : HVal) : M bool :=
  o <~ deref v ;; ret (match o with Some _ => true | None => false end).

Definition descends (safe : bool) (v : HVal) : M bool :=
  o <~ deref v ;;
  ret (match o with
       | Some (OObj _ (_ :: _)) => true
       | Some (OArr (_ :: _)) => negb safe
       | _ => false
       end).

Fixpoint step (fuel : nat) (safe : bool) (object : HVal) (prev : string)
    (output : HProps) {struct fuel} : M HProps :=
  match fuel with
  | O => diverge
  | S fuel' =>
      ps <~ entries object ;;
      mfold (fun output kv =>
               d <~ descends safe (snd kv) ;;
               if d then step fuel' safe (snd kv) (Flat.newKey prev (fst kv)) output
               else ret (assign (Flat.newKey prev (fst kv)) (snd kv) output))
            ps output
  end.

(** [flatten(target, { safe })]; the result is a new object that only the
    caller of [flatten] holds, kept here as its list of properties. *)
Definition flatten (fuel : nat) (safe : bool) (target : HVal) : M HProps :=
  if nullish target then throw else step fuel safe target EmptyString [].

Definition getKey (recipient : HVal) (k : Flat.Key) : M HVal :=
  o <~ deref recipient ;;
  match o, k with
  | Some (OArr xs), Flat.KNum n => ret (nth n xs HUndef)
  | Some (OArr _), Flat.KStr _ => ret HUndef
  | _, _ => prop recipient (Flat.key_name k)
  end.

Fixpoint set_nth (n : nat) (x : HVal) (xs : list HVal) : list HVal :=
  match n, xs with
  | O, [] => [x]
  | O, _ :: r => x :: r
  | S m, [] => HUndef :: set_nth m x []
  | S m, y :: r => y :: set_nth m x r
  end.

Definition setKey (recipient : HVal) (k : Flat.Key) (x : HVal) : M unit :=
  fun h =>
    match recipient with
    | HRef l =>
        match nth_error (objects h) l, k with
        | Some (OArr xs), Flat.KNum n =>
            (Ok tt, setObject l (OArr (set_nth n x xs)) h)
        | Some (OObj p ps), _ =>
            (Ok tt, setObject l (OObj p (assign (Flat.key_name k) x ps)) h)
        | _, _ => (Ok tt, h)
        end
    | _ => (Ok tt, h)
    end.

Definition isEmpty (v : HVal) : M bool :=
  if negb (truthy v) then ret true
  else o <~ deref v ;;
       ret (match o with
            | Some (OArr []) | Some (OObj _ []) => true
            | _ => false
            end).

(** [unflatten] of a value stored under a flat key: an object gives a new
    empty object, anything else is returned as it is. *)
Definition unflattenLeaf (v : HVal) : M HVal :=
  o <~ deref v ;;
  match o with
  | Some (OObj _ _) => alloc (OObj true [])
  | _ => ret v
  end.

Fixpoint put (segs : list string) (v : HVal) (recipient : HVal) : M unit :=
  match segs with
  | [] => ret tt
  | [last] =>
      leaf <~ unflattenLeaf v ;;
      setKey recipient (Flat.getkey last) leaf
  | s1 :: ((s2 :: _) as rest) =>
      if String.eqb s1 "__proto__" then ret tt
      else
        cur <~ getKey recipient (Flat.getkey s1) ;;
        isobject <~ isObjectTag cur ;;
        if negb isobject && negb (strictEq cur HUndef) then ret tt
        else
          cur <~ (if nullish cur then
                    fresh <~ alloc (if Flat.isNum (Flat.getkey s2)
                                    then OArr [] else OObj true []) ;;
                    _ <~ setKey recipient (Flat.getkey s1) fresh ;;
                    ret fresh
                  else ret cur) ;;
          put rest v cur
  end.

Definition addDelimiter (keyPrefix : string) (recipient target : HProps) : HProps :=
  fold_left (fun result kv => assign (keyPrefix ++ "." ++ fst kv) (snd kv) result)
            target recipient.

Definition normalize (fuel : nat) (target : HProps) : M HProps :=
  mfold (fun result kv =>
           isObject <~ isObjectTag (snd kv) ;;
           empty <~ isEmpty (snd kv) ;;
           if negb isObject || empty then ret (assign (fst kv) (snd kv) result)
           else
             flat <~ step fuel false (snd kv) EmptyString [] ;;
             ret (addDelimiter (fst kv) result flat))
        target [].

(** [unflatten(target)] *)
Definition unflatten (fuel : nat) (target : HProps) : M HVal :=
  target <~ normalize fuel target ;;
  result <~ alloc (OObj true []) ;;
  _ <~ mfold (fun (_ : unit) kv => put (Str.split "." (fst kv)) (snd kv) result)
             target tt ;;
  ret result.

(** *** The generator over the store *)

Definition shouldLeanIncludeVirtuals (schema : HVal) : M bool :=
  options <~ get schema "options" ;;
  toObject <~ prop options "toObject" ;;
  toObjectOptions <~ (if nullish toObject then alloc (OObj true [])
                      else ret toObject) ;;
  virtuals <~ get toObjectOptions "virtuals" ;;
  getters <~ get toObjectOptions "getters" ;;
  if (negb (truthy virtuals) && negb (truthy getters))
     || (strictEq virtuals (HBool false) && strictEq getters (HBool true))
  then ret false
  else ret true.

Definition parseFunctions (funcs : HVal) (modelName : string)
    (funcType : FuncType) : M string :=
  ks <~ keys funcs ;;
  ret (fold_left
         (fun interfaceString key =>
            if String.eqb key "initializeTimestamps" then interfaceString
            else
              let funcSignature := "(...args: any[]) => any" in
              let type := getFuncType funcSignature funcType modelName in
              interfaceString ++ makeLine key type false)
         ks EmptyString).

(** [String(v)] for the elements of a joined array and for concatenation. *)
Fixpoint toStr (fuel : nat) (v : HVal) {struct fuel} : M string :=
  match fuel with
  | O => diverge
  | S fuel' =>
      match v with
      | HUndef | HNull => ret EmptyString
      | HBool true => ret "true"
      | HBool false => ret "false"
      | HNum z => ret (Str.of_Z z)
      | HStr s => ret s
      | HFun _ => ret "function () { [native code] }"
      | HRef _ =>
          o <~ deref v ;;
          match o with
          | Some (OArr xs) =>
              strs <~ mfold (fun acc x => s <~ toStr fuel' x ;; ret (List.app acc [s]))
                            xs [] ;;
              ret (Str.join "," strs)
          | _ => ret "[object Object]"
          end
      end
  end.

Definition tagOf (mongooseType : HVal) : Tag :=
  match mongooseType with
  | HFun NString => TString
  | HFun NNumber => TNumber
  | HFun NSchemaDecimal128 | HFun NTypesDecimal128 => TDecimal128
  | HFun NBoolean => TBoolean
  | HFun NDate => TDate
  | HFun NBuffer => TBuffer
  | HFun NSchemaObjectId | HFun NTypesObjectId => TObjectId
  | HStr s =>
      if String.eqb s "String" then TString
      else if String.eqb s "Number" then TNumber
      else if String.eqb s "Buffer" then TBuffer
      else if String.eqb s "ObjectId" then TObjectId
      else TOther
  | _ => TOther
  end.

Definition joinEnum (fuel : nat) (enum : HVal) (sep : string) : M string :=
  o <~ deref enum ;;
  match o with
  | Some (OArr xs) =>
      strs <~ mfold (fun acc x => s <~ toStr fuel x ;; ret (List.app acc [s])) xs [] ;;
      ret (Str.join sep strs)
  | _ => throw
  end.

Definition convertBaseTypeToTs (fuel : nat) (key : string) (val : HVal)
    (isDocument : bool) : M (option string) :=
  schemaName <~ get val "schemaName" ;;
  type <~ get val "type" ;;
  typeSchemaName <~ prop type "schemaName" ;;
  if strictEq schemaName (HStr "Mixed") || strictEq typeSchemaName (HStr "Mixed")
  then ret (Some "any")
  else
    mongooseType <~ (if strictEq type (HFun NMap) then prop val "of" else ret type) ;;
    match tagOf mongooseType with
    | TString =>
        enum <~ prop val "enum" ;;
        len <~ prop enum "length" ;;
        if gtZero len
        then joined <~ joinEnum fuel enum (dq ++ " | " ++ dq) ;;
             ret (Some (dq ++ joined ++ dq))
        else ret (Some "string")
    | TNumber =>
        if negb (String.eqb key "__v") then ret (Some "number") else ret None
    | TDecimal128 =>
        ret (Some (if isDocument then "mongoose.Types.Decimal128" else "number"))
    | TBoolean => ret (Some "boolean")
    | TDate => ret (Some "Date")
    | TBuffer => ret (Some "Buffer")
    | TObjectId => ret (Some "mongoose.Types.ObjectId")
    | TOther => ret (Some "{}")
    end.

Definition isDirectType (val : HVal) : bool :=
  match val with
  | HFun NString | HFun NNumber | HFun NBoolean | HFun NDate | HFun NBuffer
  | HFun NSchemaObjectId | HFun NTypesObjectId
  | HFun NTypesDecimal128 | HFun NSchemaDecimal128 => true
  | HStr s => String.eqb s "String" || String.eqb s "Number" || String.eqb s "Buffer"
  | _ => false
  end.

Section ParseKey.

Variable fuel : nat.
Variable nested : HVal -> M string.
Variable schema : HVal.
Variable isDocument : bool.

Definition normalizeArray (valOriginal : HVal) : M (HVal * bool * bool) :=
  plain <~ isPlainObject valOriginal ;;
  val <~ (if plain then cloneDeep fuel valOriginal else ret valOriginal) ;;
  required <~ get val "required" ;;
  let isOptional := negb (truthy required) in
  isArr <~ isArray val ;;
  if isArr then
    val <~ prop val "0" ;;
    d <~ get val "_isDefaultSetToUndefined" ;;
    ret (val, true, truthy (coalesce d (HBool false)))
  else
    type <~ prop val "type" ;;
    typeIsArr <~ isArray type ;;
    if typeIsArr then
      first <~ prop type "0" ;;
      _ <~ set val "type" first ;;
      type <~ prop val "type" ;;
      inner <~ get type "type" ;;
      if truthy inner then
        innerRef <~ prop type "ref" ;;
        _ <~ (if truthy innerRef then set val "ref" innerRef else ret tt) ;;
        type <~ prop val "type" ;;
        inner <~ prop type "type" ;;
        _ <~ set val "type" inner ;;
        ret (val, true, false)
      else ret (val, true, isOptional)
    else ret (val, false, isOptional).

Definition resolveType (key : string) (val : HVal) (isOptional : bool)
    : M (option (option string * bool)) :=
  inferred <~ prop val "_inferredInterfaceName" ;;
  if truthy inferred then
    name <~ toStr fuel inferred ;;
    ret (Some (Some (name ++ (if isDocument then "Document" else EmptyString)),
               isOptional))
  else
    path <~ prop val "path" ;;
    setters <~ prop val "setters" ;;
    getters <~ prop val "getters" ;;
    if truthy path && truthy path && truthy setters && truthy getters then
      if String.eqb key "id" then ret None
      else
        include <~ (if negb isDocument
                    then shouldLeanIncludeVirtuals schema else ret true) ;;
        if negb include then ret None
        else ret (Some (Some "any", false))
    else if nonEmpty key && isMetadataKey key then ret None
    else
      ref <~ prop val "ref" ;;
      if truthy ref then
        docRef <~ match ref with
                  | HStr r => ret (Str.removeFirst "'" r)
                  | _ => throw
                  end ;;
        docRef <~ (if Str.includes "." docRef
                   then lift (getSubDocName docRef EmptyString) else ret docRef) ;;
        ret (Some (Some (if isDocument
                         then docRef ++ "Document[" ++ dq ++ "_id" ++ dq ++ "] | "
                                ++ docRef ++ "Document"
                         else docRef ++ "[" ++ dq ++ "_id" ++ dq ++ "] | " ++ docRef),
                   isOptional))
      else
        let isOptional := if String.eqb key "_id" then false else isOptional in
        convertedType <~ convertBaseTypeToTs fuel key val isDocument ;;
        match convertedType with
        | Some t =>
            if String.eqb t "{}" then
              valType <~ nested val ;;
              ret (Some (Some valType, false))
            else ret (Some (Some t, isOptional))
        | None => ret (Some (None, isOptional))
        end.

Definition parseKey (key : string) (valOriginal : HVal) : M string :=
  '(val, isArr, isOptional) <~ normalizeArray valOriginal ;;
  val <~ (if isDirectType val then alloc (OObj true [("type", val)]) else ret val) ;;
  type <~ get val "type" ;;
  let isMap := strictEq type (HFun NMap) in
  resolved <~ resolveType key val isOptional ;;
  match resolved with
  | None => ret EmptyString
  | Some (None, _) => ret EmptyString
  | Some (Some valType, isOptional) =>
      if negb (nonEmpty valType) then ret EmptyString
      else
        let valType :=
          if isMap then
            (if isDocument then "mongoose.Types.Map<" ++ valType ++ ">"
             else "Map<string, " ++ valType ++ ">")
          else valType in
        let valType :=
          if String.eqb valType "Buffer" && isDocument
          then "mongoose.Types.Buffer" else valType in
        isSubdocArray <~ prop val "_isSubdocArray" ;;
        let valType :=
          if isArr
          then (if isDocument then
                  "mongoose.Types."
                    ++ (if truthy isSubdocArray then "Document" else EmptyString)
                    ++ "Array<" ++ valType ++ ">"
                else
                  (if Str.includes " " valType then "(" ++ valType ++ ")" else valType)
                    ++ "[]")
          else valType in
        ret (makeLine key valType isOptional)
  end.

End ParseKey.

Section ProcessChild.

Variable recur : HVal -> string -> string -> M string.
Variable isDocument isAugmented : bool.
Variable rootPath : string.

Definition processChild (st : HProps * string) (child : HVal)
    : M (HProps * string) :=
  let '(flatSchemaTree, childInterfaces) := st in
  model <~ get child "model" ;;
  path <~ get model "path" ;;
  isSubdocArray <~ prop model "$isArraySubdocument" ;;
  path <~ match path with HStr p => ret p | _ => throw end ;;
  name <~ lift (getSubDocName path rootPath) ;;
  cschema <~ get child "schema" ;;
  _ <~ set cschema "_isReplacedWithSchema" (HBool true) ;;
  _ <~ set cschema "_inferredInterfaceName" (HStr name) ;;
  _ <~ set cschema "_isSubdocArray" isSubdocArray ;;
  _ <~ (if truthy isSubdocArray then
          let defaultValuePath := path ++ ".default" in
          match lookup defaultValuePath flatSchemaTree with
          | Some HUndef => set cschema "_isDefaultSetToUndefined" (HBool true)
          | _ => ret tt
          end
        else ret tt) ;;
  entry <~ (if truthy isSubdocArray then alloc (OArr [cschema]) else ret cschema) ;;
  let flatSchemaTree := assign path entry flatSchemaTree in
  let flatSchemaTree :=
    filter (fun kv =>
              negb (Str.startsWith path (fst kv)
                    && Nat.ltb (String.length path) (String.length (fst kv))))
           flatSchemaTree in
  out <~ recur cschema name
           (childHeader isDocument isAugmented rootPath name path
                        (truthy isSubdocArray)) ;;
  ret (flatSchemaTree, childInterfaces ++ out).

End ProcessChild.

Definition auxiliaryTypes (schema : HVal) (modelName : string) (isAugmented : bool)
    : M string :=
  let template :=
    getObjectDocs modelName
      ++ nl ++ exportKw isAugmented ++ "type " ++ modelName ++ "Object = "
      ++ modelName ++ nl ++ nl in
  q <~ prop schema "query" ;;
  queryKeys <~ keys q ;;
  template <~
    (if Nat.ltb 0 (List.length queryKeys) then
       funcs <~ (if nullish q then alloc (OObj true []) else ret q) ;;
       qs <~ parseFunctions funcs modelName query ;;
       ret (template ++ getQueryDocs modelName
              ++ nl ++ exportKw isAugmented ++ "type " ++ modelName ++ "Queries = {" ++ nl
              ++ qs ++ "}" ++ nl ++ nl
              ++ (if isAugmented then EmptyString
                  else "declare module " ++ dq ++ "mongoose" ++ dq ++ " {")
              ++ "interface Query<ResultType, DocType extends Document> extends "
              ++ modelName ++ "Queries {}"
              ++ (if isAugmented then EmptyString else "}") ++ nl ++ nl)
     else ret template) ;;
  ms <~ prop schema "methods" ;;
  m <~ parseFunctions ms modelName methods ;;
  let template :=
    template ++ getMethodDocs modelName
      ++ nl ++ exportKw isAugmented ++ "type " ++ modelName ++ "Methods = {" ++ nl
      ++ m ++ "}" ++ nl ++ nl in
  ss <~ prop schema "statics" ;;
  s <~ parseFunctions ss modelName statics ;;
  let template :=
    template ++ getStaticDocs modelName
      ++ nl ++ exportKw isAugmented ++ "type " ++ modelName ++ "Statics = {" ++ nl
      ++ s ++ "}" ++ nl ++ nl in
  let modelExtend := "mongoose.Model<" ++ modelName ++ "Document>" in
  let template :=
    template ++ getModelDocs modelName
      ++ nl ++ exportKw isAugmented ++ "interface " ++ modelName ++ "Model extends "
      ++ modelExtend ++ ", " ++ modelName ++ "Statics {}" ++ nl ++ nl in
  ret (template ++ getSchemaDocs modelName
         ++ nl ++ exportKw isAugmented ++ "type " ++ modelName
         ++ "Schema = mongoose.Schema<" ++ modelName ++ "Document, " ++ modelName
         ++ "Model>" ++ nl ++ nl).

(** [parseSchema] over the store. *)
Fixpoint parseSchema (fuel : nat) (schemaOriginal : HVal)
    (modelName : option string) (addModel isDocument : bool)
    (header footer : string) (isAugmented : bool) {struct fuel} : M string :=
  match fuel with
  | O => diverge
  | S fuel' =>
      let template := EmptyString in
      schema <~ cloneDeep fuel' schemaOriginal ;;
      childSchemas <~ get schema "childSchemas" ;;
      len <~ prop childSchemas "length" ;;
      template <~
        (if gtZero len && truthyName modelName
         then
           tree <~ prop schema "tree" ;;
           flatSchemaTree <~ flatten fuel' true tree ;;
           o <~ deref childSchemas ;;
           children <~ match o with
                       | Some (OArr xs) => ret xs
                       | _ => throw
                       end ;;
           '(flatSchemaTree, childInterfaces) <~
             mfold (processChild
                      (fun child name header =>
                         parseSchema fuel' child (Some name) false isDocument
                                     header ("}" ++ nl ++ nl) isAugmented)
                      isDocument isAugmented
                      (match modelName with Some n => n | None => EmptyString end))
                   children (flatSchemaTree, EmptyString) ;;
           schemaTree <~ unflatten fuel' flatSchemaTree ;;
           _ <~ set schema "tree" schemaTree ;;
           ret (template ++ childInterfaces)
         else ret template) ;;
      sts <~ prop schema "statics" ;;
      template <~
        (if negb isDocument && truthy sts && truthyName modelName && addModel
         then
           aux <~ auxiliaryTypes schema
                    (match modelName with Some n => n | None => EmptyString end)
                    isAugmented ;;
           ret (template ++ aux)
         else ret template) ;;
      let template := template ++ header in
      schemaTree <~ prop schema "tree" ;;
      ks <~ keys schemaTree ;;
      template <~
        mfold (fun template key =>
                 val <~ prop schemaTree key ;;
                 line <~ parseKey fuel'
                           (fun val =>
                              sub <~ alloc (OObj true [("tree", val)]) ;;
                              parseSchema fuel' sub None false isDocument
                                          ("{" ++ nl) "}" true)
                           schema isDocument key val ;;
                 ret (template ++ line))
              ks template ;;
      ret (template ++ footer)
  end.

(** *** Building a store from a tree *)

Fixpoint store (v : Val) : M HVal :=
  match v with
  | VUndef => ret HUndef
  | VNull => ret HNull
  | VBool b => ret (HBool b)
  | VNum z => ret (HNum z)
  | VStr s => ret (HStr s)
  | VFun f => ret (HFun f)
  | VArr xs =>
      items <~ (fix go (l : list Val) : M (list HVal) :=
                  match l with
                  | [] => ret []
                  | x :: r => y <~ store x ;; ys <~ go r ;; ret (y :: ys)
                  end) xs ;;
      alloc (OArr items)
  | VObj p ps =>
      props <~ (fix go (l : Props) : M HProps :=
                  match l with
                  | [] => ret []
                  | (k, x) :: r => y <~ store x ;; ys <~ go r ;; ret ((k, y) :: ys)
                  end) ps ;;
      alloc (OObj p props)
  end.

End Store.

(* ========================================================================= *)
(** * Properties *)

Unset Implicit Arguments.

(** ** Vocabulary of the properties *)

(** A schema whose [toObject] options carry the two flags. *)
Definition schemaWithToObject (virtuals getters : Val) : Val :=
  VObj false
    [("options",
      VObj true [("toObject",
                  VObj true [("virtuals", virtuals); ("getters", getters)])])].

Definition excludedCombinations : list (bool * bool) :=
  filter (fun vg =>
            match shouldLeanIncludeVirtuals
                    (schemaWithToObject (VBool (fst vg)) (VBool (snd vg))) with
            | Ok false => true
            | _ => false
            end)
         [(false, false); (false, true); (true, false); (true, true)].

(** A flag of the [toObject] options: set to a boolean, or left unset. *)
Definition flag (f : option bool) : Val :=
  match f with Some b => VBool b | None => VUndef end.

(** The member type [parseFunctions] renders for each role: the default
    signature with the receiver bound by [getFuncType]. *)
Definition defaultMemberType (funcType : FuncType) (modelName : string) : string :=
  match funcType with
  | methods => "(this: " ++ modelName ++ "Document, ...args: any[]) => any"
  | statics => "(this: " ++ modelName ++ "Model, ...args: any[]) => any"
  | query =>
      "<Q extends mongoose.Query<any, " ++ modelName
        ++ "Document>>(this: Q, ...args: any[]) => Q"
  end.

(** A path segment with its first letter capitalized. *)
Definition capitalizeFirst (p : string) : string :=
  match p with
  | EmptyString => EmptyString
  | String c r => String (Str.upper c) r
  end.

(** The candidate name of the specification: the owning name followed by the
    capitalized segments of the path. *)
Definition candidateName (path modelName : string) : string :=
  modelName ++ Str.join EmptyString (List.map capitalizeFirst (Str.split "." path)).

(** A schema with the given tree and nothing else. *)
Definition treeSchema (tree : Props) : Val := VObj false [("tree", VObj true tree)].

(** The entry of the tree is a hoisted sub-entity or a virtual property,
    the two kinds of entries [parseKey] resolves before any field rule. *)
Definition isHoisted (val : Val) : bool :=
  JS.truthy (JS.prop val "_inferredInterfaceName").

Definition isVirtual (val : Val) : bool :=
  JS.truthy (JS.prop val "path") && JS.truthy (JS.prop val "setters")
  && JS.truthy (JS.prop val "getters").

(** A field whose native type tag is numeric: the bare tag, or a field
    object whose [type] is the tag (and which is not another kind of tree
    entry: a hoisted sub-entity, a virtual property, a Mixed type). *)
Definition numericField (val : Val) : bool :=
  match val with
  | VFun NNumber => true
  | VStr s => String.eqb s "Number"
  | VObj _ _ =>
      match tagOf (JS.prop val "type") with
      | TNumber =>
          negb (isHoisted val) && negb (isVirtual val)
          && negb (JS.strictEq (JS.prop val "schemaName") (VStr "Mixed"))
      | _ => false
      end
  | _ => false
  end.

(** The field object [parseKey] hands to the resolver: a bare tag is
    expanded into [{ type: tag }]. *)
Definition expanded (val : Val) : Val :=
  if isDirectType val then VObj true [("type", val)] else val.

(** The nested call of [parseKey] inside a [parseSchema] call with budget
    [S fuel]. *)
Definition nestedCall (fuel : nat) (isDocument : bool) (val : Val) : Res string :=
  parseSchema fuel (VObj true [("tree", val)]) None false isDocument
              ("{" ++ nl) "}" true.

(** The lines of the fields of a tree, in order. *)
Definition fieldLines (fuel : nat) (isDocument : bool) (tree : Props)
    : Res (list string) :=
  mapM (fun key =>
          parseKey (nestedCall fuel isDocument) (treeSchema tree) isDocument key
                   (JS.prop (VObj true tree) key))
       (List.map fst tree).

(** A field that declares a reference name and is neither an array nor a
    map, nor a hoisted or virtual entry. *)
Definition refField (val : Val) : bool :=
  match val with
  | VObj _ _ =>
      negb (JS.isArray (JS.prop val "type"))
      && negb (JS.strictEq (JS.prop val "type") (VFun NMap))
      && negb (isHoisted val) && negb (isVirtual val)
      && match JS.prop val "ref" with
         | VStr r => nonEmpty r
         | _ => false
         end
  | _ => false
  end.

(** The name a reference resolves to: the declared name without its first
    apostrophe, renamed by the sub-entity namer when it contains a dot. *)
Definition referenceName (r : string) : Res string :=
  let docRef := Str.removeFirst "'" r in
  if Str.includes "." docRef then getSubDocName docRef EmptyString else Ok docRef.

Definition refUnion (isDocument : bool) (docRef : string) : string :=
  if isDocument
  then docRef ++ "Document[" ++ dq ++ "_id" ++ dq ++ "] | " ++ docRef ++ "Document"
  else docRef ++ "[" ++ dq ++ "_id" ++ dq ++ "] | " ++ docRef.

Definition postSchema : Val :=
  treeSchema
    [ ("title", VObj true [("type", VFun NString); ("required", VBool true)])
    ; ("views", VFun NNumber)
    ; ("authorId", VObj true [("type", VFun NSchemaObjectId); ("ref", VStr "User")]) ].

(** The type the resolver switches on, and the Mixed marker it tests first. *)
Definition mongooseTypeOf (val : Val) : Val :=
  if JS.strictEq (JS.prop val "type") (VFun NMap)
  then JS.prop val "of" else JS.prop val "type".

Definition isMixed (val : Val) : bool :=
  JS.strictEq (JS.prop val "schemaName") (VStr "Mixed")
  || JS.strictEq (JS.optGet (JS.prop val "type") "schemaName") (VStr "Mixed").

(** [below r1 r2]: [r1] is the outcome [r2], unless the budget ran out
    before [r1] was reached. *)
Definition below {A} (r1 r2 : Res A) : Prop := r1 = Diverge \/ r1 = r2.

(** Whether the lean interface of an entry is patched too; this does not
    depend on the source file. *)
Definition includeOf (schemas : LoadedSchemas) (entry : string * Types) : Res bool :=
  if nonEmptyTable (t_virtuals (snd entry))
  then shouldLeanIncludeVirtuals (lookupSchema (fst entry) schemas)
  else Ok false.

(** Three lists related position by position. *)
Inductive Forall3 {A : Type} (R : A -> A -> A -> Prop)
  : list A -> list A -> list A -> Prop :=
| Forall3_nil : Forall3 R [] [] []
| Forall3_cons a b c la lb lc :
    R a b c -> Forall3 R la lb lc -> Forall3 R (a :: la) (b :: lb) (c :: lc).

(** [memberRel a b f]: the three members are the same member, and the type
    of [b] is that of [a] or that of [f]. *)
Definition memberRel (a b f : Member) : Prop :=
  match a, b, f with
  | PropertySignature n ta, PropertySignature n' tb, PropertySignature n'' tf =>
      n' = n /\ n'' = n /\ (tb = ta \/ tb = tf)
  | OtherMember x, OtherMember y, OtherMember z => y = x /\ z = x
  | _, _, _ => False
  end.

Definition membersRel : list Member -> list Member -> list Member -> Prop :=
  Forall3 memberRel.

(** The same relation on statements; [Inner] relates the bodies of module
    declarations. *)
Definition stmtRel (Inner : option (list Statement) -> option (list Statement)
                            -> option (list Statement) -> Prop)
    (a b f : Statement) : Prop :=
  match a, b, f with
  | TypeAliasDeclaration n (TypeLiteral x), TypeAliasDeclaration n' (TypeLiteral y),
    TypeAliasDeclaration n'' (TypeLiteral z) =>
      n' = n /\ n'' = n /\ membersRel x y z
  | TypeAliasDeclaration n (OtherType t), TypeAliasDeclaration n' (OtherType t'),
    TypeAliasDeclaration n'' (OtherType t'') =>
      n' = n /\ n'' = n /\ t' = t /\ t'' = t
  | InterfaceDeclaration n x, InterfaceDeclaration n' y, InterfaceDeclaration n'' z =>
      n' = n /\ n'' = n /\ membersRel x y z
  | ModuleDeclaration n x, ModuleDeclaration n' y, ModuleDeclaration n'' z =>
      n' = n /\ n'' = n /\ Inner x y z
  | OtherStatement t, OtherStatement t', OtherStatement t'' => t' = t /\ t'' = t
  | _, _, _ => False
  end.

Definition sameBody (x y z : option (list Statement)) : Prop := y = x /\ z = x.

Definition blockRel : list Statement -> list Statement -> list Statement -> Prop :=
  Forall3 (stmtRel sameBody).

Definition bodyRel (x y z : option (list Statement)) : Prop :=
  match x, y, z with
  | Some a, Some b, Some c => blockRel a b c
  | None, None, None => True
  | _, _, _ => False
  end.

Definition fileRel : SourceFile -> SourceFile -> SourceFile -> Prop :=
  Forall3 (stmtRel bodyRel).

(** A callback that, for each property name, overwrites the type with a
    value that depends on the name only, or leaves the type as it is, or
    throws. *)
Definition steady (cb : string -> option string -> Res (option string)) : Prop :=
  forall n,
    (exists c, forall t, cb n t = Ok c)
    \/ (forall t, cb n t = Ok t)
    \/ (forall t, cb n t = Throw "TypeError").

(** An edit of member lists that keeps related triples related: when it
    succeeds on the first list it succeeds on the second, and patching
    both keeps the triple related; when it succeeds on the second list it
    succeeds on the third, and patching both keeps the triple related. *)
Definition memberStep (edit : list Member -> Res (list Member)) : Prop :=
  (forall x y z x',
      membersRel x y z -> edit x = Ok x' ->
      exists y', edit y = Ok y' /\ membersRel x' y' z)
  /\ (forall x y z y',
         membersRel x y z -> edit y = Ok y' ->
         exists z', edit z = Ok z' /\ membersRel x y' z').

(** The same for an edit of statement lists. *)
Definition stmtStep (Inner : option (list Statement) -> option (list Statement)
                             -> option (list Statement) -> Prop)
    (E : list Statement -> Res (list Statement)) : Prop :=
  (forall A B F A',
      Forall3 (stmtRel Inner) A B F -> E A = Ok A' ->
      exists B', E B = Ok B' /\ Forall3 (stmtRel Inner) A' B' F)
  /\ (forall A B F B',
         Forall3 (stmtRel Inner) A B F -> E B = Ok B' ->
         exists F', E F = Ok F' /\ Forall3 (stmtRel Inner) A B' F').

(** An outcome of the pass: a result, or the TypeError of JavaScript. *)
Definition benign {A} (r : Res A) : Prop :=
  match r with
  | Ok _ => True
  | Throw e => e = "TypeError"
  | Diverge => False
  end.

(** A member name for which the table holds no override: no entry or an
    empty one, and nothing inherited under that name. *)
Definition noOverride (table : list (string * string)) (name : string) : bool :=
  match tableGet table name with
  | Own newType => negb (nonEmpty newType)
  | Inherited => false
  | Missing => true
  end.

(** A member name for which no table of the model types holds an override. *)
Definition untouched (modelTypes : ModelTypes) (name : string) : bool :=
  forallb (fun entry : string * Types =>
             noOverride (t_methods (snd entry)) name
             && noOverride (t_statics (snd entry)) name
             && noOverride (t_query (snd entry)) name
             && noOverride (t_virtuals (snd entry)) name)
          modelTypes.

(** [keptMember K a b]: [b] is the member [a], with the type of [a] when
    [K] holds of its name. *)
Definition keptMember (K : string -> bool) (a b : Member) : Prop :=
  match a, b with
  | PropertySignature n t, PropertySignature n' t' =>
      n' = n /\ (K n = true -> t' = t)
  | OtherMember x, OtherMember y => y = x
  | _, _ => False
  end.

(** The same on statements, position by position; [Inner] relates the
    bodies of module declarations. *)
Definition keptStmt (K : string -> bool)
    (Inner : option (list Statement) -> option (list Statement) -> Prop)
    (a b : Statement) : Prop :=
  match a, b with
  | TypeAliasDeclaration n (TypeLiteral x), TypeAliasDeclaration n' (TypeLiteral y) =>
      n' = n /\ Forall2 (keptMember K) x y
  | TypeAliasDeclaration n (OtherType t), TypeAliasDeclaration n' (OtherType t') =>
      n' = n /\ t' = t
  | InterfaceDeclaration n x, InterfaceDeclaration n' y =>
      n' = n /\ Forall2 (keptMember K) x y
  | ModuleDeclaration n x, ModuleDeclaration n' y => n' = n /\ Inner x y
  | OtherStatement t, OtherStatement t' => t' = t
  | _, _ => False
  end.

Definition keptBody (K : string -> bool) (x y : option (list Statement)) : Prop :=
  match x, y with
  | Some a, Some b => Forall2 (keptStmt K eq) a b
  | None, None => True
  | _, _ => False
  end.

(** [keptFile K sourceFile patched]: the two files have the same statements
    and members, and every property signature whose name satisfies [K] has
    the same type in both. *)
Definition keptFile (K : string -> bool) : SourceFile -> SourceFile -> Prop :=
  Forall2 (keptStmt K (keptBody K)).

Definition sampleFile : SourceFile :=
  [ OtherStatement "import mongoose from mongoose"
  ; ModuleDeclaration "mongoose"
      (Some
         [ InterfaceDeclaration "User"
             [ PropertySignature "name" (Some "any")
             ; PropertySignature "email" (Some "string") ]
         ; TypeAliasDeclaration "UserMethods"
             (TypeLiteral
                [ PropertySignature "isAdult"
                    (Some "(this: UserDocument, ...args: any[]) => any")
                ; PropertySignature "rename"
                    (Some "(this: UserDocument, ...args: any[]) => any") ])
         ; InterfaceDeclaration "UserDocument"
             [ PropertySignature "name" (Some "any") ] ]) ].

Definition sampleTypes : ModelTypes :=
  [ ("User",
     mkTypes [("isAdult", "(this: UserDocument, age: number) => boolean")]
             [] [] [("name", "string")]) ].

Definition sampleSchemas : LoadedSchemas :=
  [("User", schemaWithToObject (VBool true) (VBool false))].

Definition samplePatched : SourceFile :=
  [ OtherStatement "import mongoose from mongoose"
  ; ModuleDeclaration "mongoose"
      (Some
         [ InterfaceDeclaration "User"
             [ PropertySignature "name" (Some "string")
             ; PropertySignature "email" (Some "string") ]
         ; TypeAliasDeclaration "UserMethods"
             (TypeLiteral
                [ PropertySignature "isAdult"
                    (Some "(this: UserDocument, age: number) => boolean")
                ; PropertySignature "rename"
                    (Some "(this: UserDocument, ...args: any[]) => any") ])
         ; InterfaceDeclaration "UserDocument"
             [ PropertySignature "name" (Some "string") ] ]) ].

(** *** The objects of the caller

    The vocabulary of the property that [parseSchema] leaves the objects of
    its caller alone, over the store. *)

Module Caller.
Import Store.

Section Objects.

(** The store at the time of the call; its objects are the objects of the
    caller. *)
Variable h0 : Heap.

(** The objects of the caller that its functions share with every copy:
    the objects that can be reached from a property of a function. *)
Variable shared : nat -> bool.

(** A value is free to change when it does not refer to an object of the
    caller, or only to a shared one. *)
Definition fresh (v : HVal) : Prop :=
  match v with
  | HRef l => List.length (objects h0) <= l \/ shared l = true
  | _ => True
  end.

Definition freshProps (ps : HProps) : Prop := Forall (fun kv => fresh (snd kv)) ps.

Definition freshObj (o : Obj) : Prop :=
  match o with
  | OObj _ ps => freshProps ps
  | OArr xs => Forall fresh xs
  end.

(** The objects of the caller that are not shared are as they were at the
    call, and the other objects (shared, or allocated since) and the
    properties of the functions only refer to objects that are free to
    change. *)
Definition Good (h : Heap) : Prop :=
  List.length (objects h0) <= List.length (objects h)
  /\ (forall l, l < List.length (objects h0) -> shared l = false ->
                nth_error (objects h) l = nth_error (objects h0) l)
  /\ (forall l o, fresh (HRef l) ->
                  nth_error (objects h) l = Some o -> freshObj o)
  /\ Forall (fun e => freshProps (snd e)) (functions h).

(** [m] keeps the store good and its results satisfy [Q]. *)
Definition Spec {A} (m : M A) (Q : A -> Prop) : Prop :=
  forall h, Good h -> Good (snd (m h)) /\ forall a, fst (m h) = Ok a -> Q a.

Definition any {A} (_ : A) : Prop := True.

Definition freshOpt (o : option Obj) : Prop :=
  match o with Some o => freshObj o | None => True end.

Definition freshMemo (memo : list (nat * HVal)) : Prop :=
  Forall (fun e => fresh (snd e)) memo.

Definition freshPayload (r : HVal * bool * bool) : Prop := fresh (fst (fst r)).

Definition freshState (st : HProps * string) : Prop := freshProps (fst st).

End Objects.

(** A value that is not an object. *)
Definition scalar (v : HVal) : bool :=
  match v with
  | HRef _ => false
  | _ => true
  end.

(** No function of the store has a property of its own that is an object. *)
Definition scalarFunctions (h : Heap) : Prop :=
  Forall (fun e => Forall (fun kv => scalar (snd kv) = true) (snd e)) (functions h).

Definition sharedValue (shared : nat -> bool) (v : HVal) : bool :=
  match v with
  | HRef l => shared l
  | _ => true
  end.

Definition sharedProps (shared : nat -> bool) (ps : HProps) : bool :=
  forallb (fun kv => sharedValue shared (snd kv)) ps.

Definition sharedObj (shared : nat -> bool) (o : Obj) : bool :=
  match o with
  | OObj _ ps => sharedProps shared ps
  | OArr xs => forallb (sharedValue shared) xs
  end.

(** [shared] holds of every object that can be reached from a property of a
    function: of the objects the functions have as properties, and of the
    objects a shared object refers to. *)
Definition sharedClosed (shared : nat -> bool) (h : Heap) : Prop :=
  Forall (fun e => sharedProps shared (snd e) = true) (functions h)
  /\ forall l o, shared l = true -> nth_error (objects h) l = Some o ->
                 sharedObj shared o = true.

(** Nothing is shared. *)
Definition nothingShared (l : nat) : bool := false.

(** The first object of the store is shared. *)
Definition firstShared (l : nat) : bool := Nat.eqb l 0.

(** A schema whose field [x] is the function [f], where [f.type] is the
    array [[Number]]. *)
Definition typedStore : Heap :=
  mkHeap [ OArr [HFun NNumber]
         ; OObj true [("x", HFun (NUser "f"))]
         ; OObj false [("tree", HRef 1)] ]
         [ (NUser "f", [("type", HRef 0)]) ].

(** A schema whose field [x] is the function [f], where [f.items] is an
    instance of a class with [type] the array [[Number]]. *)
Definition reachStore : Heap :=
  mkHeap [ OArr [HFun NNumber]
         ; OObj false [("type", HRef 0)]
         ; OObj true [("x", HFun (NUser "f"))]
         ; OObj false [("tree", HRef 2)] ]
         [ (NUser "f", [("items", HRef 1)]) ].

(** A schema whose fields are a required function-valued field and a plain
    object naming the same function as its type. *)
Definition flagStore : Heap :=
  mkHeap [ OObj true [("type", HFun (NUser "f"))]
         ; OObj true [("x", HFun (NUser "f")); ("y", HRef 0)]
         ; OObj false [("tree", HRef 1)] ]
         [ (NUser "f", [("required", HBool true)]) ].

(** A user schema with a nested address schema and an array of pet
    sub-documents, as mongoose presents it: the tree holds the child schemas
    and [childSchemas] lists them with their paths. *)
Definition addressSchema : Val :=
  VObj false
    [ ("tree", VObj true
         [ ("street", VFun NString)
         ; ("city", VObj true [("type", VFun NString); ("required", VBool true)]) ]) ].

Definition petSchema : Val :=
  VObj false [("tree", VObj true [("name", VFun NString)])].

Definition userSchema : Val :=
  VObj false
    [ ("tree", VObj true
         [ ("name", VFun NString)
         ; ("address", addressSchema)
         ; ("pets", VArr [petSchema])
         ; ("scores", VObj false [("type", VArr [VFun NNumber])]) ])
    ; ("childSchemas", VArr
         [ VObj true [ ("schema", addressSchema)
                     ; ("model", VObj false [("path", VStr "address")]) ]
         ; VObj true [ ("schema", petSchema)
                     ; ("model", VObj false [ ("path", VStr "pets")
                                            ; ("$isArraySubdocument", VBool true) ]) ] ]) ].

Definition userStore : Heap := snd (store userSchema empty).

(** A user schema whose fields [home] and [work] hold one and the same
    address schema, listed as a child schema under each of the two paths. *)
Definition twoPaths : Heap :=
  mkHeap [ OObj true [("city", HFun NString)]
         ; OObj false [("tree", HRef 0)]
         ; OObj true [("home", HRef 1); ("work", HRef 1)]
         ; OObj false [("path", HStr "home")]
         ; OObj false [("path", HStr "work")]
         ; OObj true [("schema", HRef 1); ("model", HRef 3)]
         ; OObj true [("schema", HRef 1); ("model", HRef 4)]
         ; OArr [HRef 5; HRef 6]
         ; OObj false [("tree", HRef 2); ("childSchemas", HRef 7)] ]
         [].

(** The same schema as a tree, where each occurrence of the address schema
    is a tree of its own. *)
Definition twoTrees : Val :=
  let address := VObj false [("tree", VObj true [("city", VFun NString)])] in
  VObj false
    [ ("tree", VObj true [("home", address); ("work", address)])
    ; ("childSchemas", VArr
         [ VObj true [ ("schema", address)
                     ; ("model", VObj false [("path", VStr "home")]) ]
         ; VObj true [ ("schema", address)
                     ; ("model", VObj false [("path", VStr "work")]) ] ]) ].

(** The call returned a text that ends with [p]. *)
Definition outputEnds (p : string) (r : Res string) : bool :=
  match r with
  | Ok out => Str.endsWith p out
  | _ => false
  end.

Definition userRef : HVal :=
  match fst (store userSchema empty) with Ok v => v | _ => HUndef end.

End Caller.

(** *** A second call

    The store a second call runs on is the store of the first call together
    with the objects the first call allocated.  A run on the larger store is
    compared with the run on the smaller one through the renaming of
    locations that moves every object allocated by the run past the extra
    objects. *)

Module Extension.
Import Store.

(** Every reference is to one of the first [n] objects. *)
Definition inStore (n : nat) (v : HVal) : bool :=
  match v with
  | HRef l => Nat.ltb l n
  | _ => true
  end.

Definition propsIn (n : nat) (ps : HProps) : bool :=
  forallb (fun kv => inStore n (snd kv)) ps.

Definition objIn (n : nat) (o : Obj) : bool :=
  match o with
  | OObj _ ps => propsIn n ps
  | OArr xs => forallb (inStore n) xs
  end.

(** The objects and the functions of the store only refer to objects of
    the store. *)
Definition closed (h : Heap) : bool :=
  forallb (objIn (List.length (objects h))) (objects h)
  && forallb (fun e => propsIn (List.length (objects h)) (snd e)) (functions h).

(** Store [h1] holds the objects of [h] as they are in [h], before any
    other, and the functions have in [h1] the properties they have in
    [h]. *)
Definition sameCaller (h h1 : Heap) : Prop :=
  firstn (List.length (objects h)) (objects h1) = objects h
  /\ functions h1 = functions h.

Section Move.

(** The number of objects of the caller, and the objects that stand behind
    them in the larger store. *)
Variable n : nat.
Variable extra : list Obj.

(** With the extra objects behind the first [k], the object at [l] is
    found at [place k l]. *)
Definition place (k l : nat) : nat :=
  if Nat.ltb l k then l else l + List.length extra.

Definition move (l : nat) : nat := place n l.

Definition moveV (v : HVal) : HVal :=
  match v with
  | HRef l => HRef (move l)
  | _ => v
  end.

Definition moveP (ps : HProps) : HProps :=
  List.map (fun kv => (fst kv, moveV (snd kv))) ps.

Definition moveO (o : Obj) : Obj :=
  match o with
  | OObj p ps => OObj p (moveP ps)
  | OArr xs => OArr (List.map moveV xs)
  end.

Definition moveF (fs : list (Native * HProps)) : list (Native * HProps) :=
  List.map (fun e => (fst e, moveP (snd e))) fs.

(** The objects with [extra] put in after the first [k]. *)
Definition splice (k : nat) (os : list Obj) : list Obj :=
  List.app (List.map moveO (firstn k os))
           (List.app extra (List.map moveO (skipn k os))).

Definition moveH (h : Heap) : Heap :=
  mkHeap (splice n (objects h)) (moveF (functions h)).

Definition moveM (memo : list (nat * HVal)) : list (nat * HVal) :=
  List.map (fun e => (move (fst e), moveV (snd e))) memo.

Definition movePair (r : HVal * list (nat * HVal)) : HVal * list (nat * HVal) :=
  (moveV (fst r), moveM (snd r)).

Definition movePayload (r : HVal * bool * bool) : HVal * bool * bool :=
  (moveV (fst (fst r)), snd (fst r), snd r).

Definition moveState (st : HProps * string) : HProps * string :=
  (moveP (fst st), snd st).

Definition same {A : Type} (a : A) : A := a.

Definition mapRes {A : Type} (f : A -> A) (r : Res A) : Res A :=
  match r with
  | Ok a => Ok (f a)
  | Throw e => Throw e
  | Diverge => Diverge
  end.

(** [mB] on the larger store does what [mA] does on the smaller one, up to
    the renaming. *)
Definition Sim {A : Type} (mv : A -> A) (mA mB : M A) : Prop :=
  forall h, n <= List.length (objects h) ->
    List.length (objects h) <= List.length (objects (snd (mA h)))
    /\ mB (moveH h) = (mapRes mv (fst (mA h)), moveH (snd (mA h))).

End Move.

End Extension.

(** *** Known call signatures *)

Fixpoint allWord (s : string) : bool :=
  match s with
  | EmptyString => true
  | String c r => Str.is_word c && allWord r
  end.

(** The text of an arrow signature with the given receiver. *)
Definition arrowWith (receiver params ret : string) : string :=
  "(this: " ++ receiver
    ++ (if String.eqb params EmptyString then EmptyString else ", " ++ params)
    ++ ") => " ++ ret.

(** The text of an arrow signature that names no receiver. *)
Definition arrowPlain (params ret : string) : string :=
  "(" ++ params ++ ") => " ++ ret.

Definition queryGeneric (modelName : string) : string :=
  "<Q extends mongoose.Query<any, " ++ modelName ++ "Document>>".

(** What [getFuncType] renders from the captures of a signature. *)
Definition boundSignature (funcType : FuncType) (modelName params ret : string)
    : string :=
  match funcType with
  | methods => arrowWith (modelName ++ "Document") params ret
  | statics => arrowWith (modelName ++ "Model") params ret
  | query => queryGeneric modelName ++ arrowWith "Q" params "Q"
  end.

(** A text on one line that holds no ") => ". *)
Definition arrowFree (s : string) : Prop := Regex.split_last s = None.

Definition oneLine (s : string) : Prop := Regex.line_of s = s.

(** *** The skeleton of a source file: everything but the types of property
    signatures. *)

Definition eraseMember (m : Member) : Member :=
  match m with
  | PropertySignature name _ => PropertySignature name None
  | OtherMember _ => m
  end.

Definition eraseTop (s : Statement) : Statement :=
  match s with
  | TypeAliasDeclaration n (TypeLiteral ms) =>
      TypeAliasDeclaration n (TypeLiteral (List.map eraseMember ms))
  | InterfaceDeclaration n ms => InterfaceDeclaration n (List.map eraseMember ms)
  | _ => s
  end.

(** Types are erased in the statements of the file and in those of the
    blocks of its module declarations, the two places the pass can reach. *)
Definition eraseStatement (s : Statement) : Statement :=
  match s with
  | ModuleDeclaration n (Some block) =>
      ModuleDeclaration n (Some (List.map eraseTop block))
  | _ => eraseTop s
  end.

Definition skeleton (sourceFile : SourceFile) : SourceFile :=
  List.map eraseStatement sourceFile.

(** The source file has a module declaration whose block [getRoot] returns. *)
Definition hasModuleBlock (sourceFile : SourceFile) : bool :=
  match inFirstModule (fun block => Ok block) sourceFile with
  | Some _ => true
  | None => false
  end.

(** *** Exports that are models *)

(** What [checkAndRegisterModel] accepts: a value with a truthy [modelName]
    and a truthy [schema]. *)
Definition isModel (obj : Val) : bool :=
  JS.truthy (JS.optGet obj "modelName") && JS.truthy (JS.optGet obj "schema").

(** The registry after the schema of a model was registered. *)
Definition registered (schemas : LoadedSchemas) (model : Val) : LoadedSchemas :=
  JS.assign (JS.toStr (JS.prop model "modelName")) (JS.prop model "schema") schemas.

(** *** The layout of the generated file *)

(** What [generateTypes] writes before the first model and after the last. *)
Definition preamble (isAugmented : bool) (imports : list string) : list WriterOp :=
  List.app [Write MAIN_HEADER; BlankLine; Write IMPORTS]
    (List.app (match imports with
               | [] => []
               | _ :: _ => [Write (Str.join nl imports)]
               end)
       (BlankLine ::
          (if isAugmented then [Write MODULE_DECLARATION_HEADER; BlankLine] else []))).

Definition closing (isAugmented : bool) : list WriterOp :=
  if isAugmented then [Write MODULE_DECLARATION_FOOTER] else [].

(** The writer calls of one model: two texts, a blank line after each. *)
Definition isModelBlock (ops : list WriterOp) : Prop :=
  exists leanInterfaceStr documentInterfaceStr : string,
    ops = [Write leanInterfaceStr; BlankLine; Write documentInterfaceStr; BlankLine].

(** A model schema as mongoose builds it: a tree with its [_id], and the
    tables of methods, statics and query helpers. *)
Definition accountSchema : Val :=
  VObj false
    [ ("tree", VObj true
                 [ ("_id", VObj true [("type", VStr "ObjectId")])
                 ; ("email", VObj true [("type", VFun NString); ("required", VBool true)]) ])
    ; ("methods", VObj true [("verify", VFun (NUser "verify"))])
    ; ("statics", VObj true [])
    ; ("query", VObj true []) ].

(** The [_id] entry of the tree of a schema, read as the source reads it
    but without failing on the way. *)
Definition idEntry (schema : Val) : Val :=
  JS.optGet (JS.optGet schema "tree") "_id".

(** *** The member line of a field *)

(** The type [parseKey] writes for a resolved type: wrapped for a map, the
    buffer class in the live shape, wrapped for an array. *)
Definition memberType (isDocument : bool) (val : Val) (isArray : bool)
    (valType : string) : string :=
  let valType :=
    if JS.strictEq (JS.prop val "type") (VFun NMap) then
      (if isDocument then "mongoose.Types.Map<" ++ valType ++ ">"
       else "Map<string, " ++ valType ++ ">")
    else valType in
  let valType :=
    if String.eqb valType "Buffer" && isDocument
    then "mongoose.Types.Buffer" else valType in
  if isArray
  then wrapArray isDocument (JS.prop val "_isSubdocArray") valType
  else valType.

(** An entry of the tree that is an array in neither of the two forms. *)
Definition notArrayForm (val : Val) : bool :=
  negb (JS.nullish val) && negb (JS.isArray val)
  && negb (JS.isArray (JS.prop val "type")).

(** A field object that is neither a hoisted sub-entity, nor a virtual
    property, nor a reference. *)
Definition plainField (val : Val) : bool :=
  negb (isHoisted val) && negb (isVirtual val)
  && negb (JS.truthy (JS.prop val "ref")).

(** The optional flag of a field: [_id] is never optional. *)
Definition fieldOptional (key : string) (val : Val) : bool :=
  if String.eqb key "_id" then false
  else negb (JS.truthy (JS.prop val "required")).

(** An entry of the tree that is a virtual property (and not declared as an
    array or a map). *)
Definition virtualEntry (val : Val) : bool :=
  notArrayForm val && negb (isHoisted (expanded val)) && isVirtual (expanded val)
  && negb (JS.strictEq (JS.prop (expanded val) "type") (VFun NMap)).

(** A child schema as [processChild] leaves it in the tree: an object that
    carries the name of its interface (and is not declared as a map). *)
Definition hoistedAs (name : string) (child : Val) : Prop :=
  (exists p ps, child = VObj p ps)
  /\ JS.prop child "_inferredInterfaceName" = VStr name
  /\ nonEmpty name = true
  /\ JS.strictEq (JS.prop child "type") (VFun NMap) = false.

(** The name of the interface of a sub-entity in each shape. *)
Definition interfaceName (isDocument : bool) (name : string) : string :=
  name ++ (if isDocument then "Document" else EmptyString).

(** *** Enumerations *)

(** A string literal of the output, and the union of the literals of the
    values of an enumeration. *)
Definition literal (v : Val) : string := dq ++ JS.toStr v ++ dq.

Definition literalUnion (values : list Val) : string :=
  Str.join " | " (List.map literal values).

(** A field the resolver reads as text: not a Mixed type, with the string
    type tag (for a map, on the type of its values). *)
Definition textField (val : Val) : bool :=
  negb (JS.nullish val) && negb (isMixed val)
  && match tagOf (mongooseTypeOf val) with TString => true | _ => false end.

(** *** The flat tree of a schema with child schemas *)

(** A key of the flat tree that [processChild] deletes for the path of a
    child: a longer key that starts with the path. *)
Definition shadowedBy (path key : string) : bool :=
  Str.startsWith path key && Nat.ltb (String.length path) (String.length key).

(** *** Fields that cannot be read *)

(** A field value [parseKey] cannot read: null or undefined, or an array in
    either form whose first element is null, undefined or missing. *)
Definition unreadable (val : Val) : bool :=
  match val with
  | VUndef | VNull => true
  | VArr _ => JS.nullish (JS.prop val "0")
  | VObj _ _ =>
      JS.isArray (JS.prop val "type")
      && JS.nullish (JS.prop (JS.prop val "type") "0")
  | _ => false
  end.

(** *** The parts of the output of [parseSchema] *)

(** The first step of [parseSchema]: with child schemas and a model name,
    the interfaces of the children and the copy of the schema whose tree
    holds the children in place; otherwise the copy of the schema and no
    text. *)
Definition hoistChildren (fuel : nat) (schemaOriginal : Val)
    (modelName : option string) (isDocument isAugmented : bool)
    : Res (Val * string) :=
  let schema := JS.cloneDeep schemaOriginal in
  childSchemas <- JS.get schema "childSchemas" ;;
  if JS.gtZero (JS.optGet childSchemas "length") && truthyName modelName
  then
    flatSchemaTree <- Flat.flatten true (JS.prop schema "tree") ;;
    children <- match childSchemas with
                | VArr xs => Ok xs
                | _ => TypeError
                end ;;
    '(flatSchemaTree, childInterfaces) <-
      foldM (processChild
               (fun child name header =>
                  parseSchema fuel child (Some name) false isDocument
                              header ("}" ++ nl ++ nl) isAugmented)
               isDocument isAugmented
               (match modelName with Some n => n | None => EmptyString end))
            children (flatSchemaTree, EmptyString) ;;
    schema <- JS.set schema "tree" (Flat.unflatten flatSchemaTree) ;;
    Ok (schema, childInterfaces)
  else Ok (schema, EmptyString).

(** The second step: the auxiliary types of a model, in the plain shape
    only. *)
Definition auxiliaryPart (schema : Val) (modelName : option string)
    (addModel isDocument isAugmented : bool) : Res string :=
  if negb isDocument && JS.truthy (JS.prop schema "statics")
     && truthyName modelName && addModel
  then auxiliaryTypes schema
         (match modelName with Some n => n | None => EmptyString end) isAugmented
  else Ok EmptyString.

(** The third step: the lines of the keys of the tree, in order. *)
Definition memberLines (fuel : nat) (schema : Val) (isDocument : bool)
    : Res (list string) :=
  ks <- JS.keys (JS.prop schema "tree") ;;
  mapM (fun key =>
          parseKey (nestedCall fuel isDocument) schema isDocument key
                   (JS.prop (JS.prop schema "tree") key))
       ks.

(** *** The array form with a typed element *)

(** What [parseKey] makes of the field [{ type: [inner], ... }] when the
    element [inner] carries its own [type]: the field with the type of the
    element, and its reference if it has one, lifted one level up. *)
Definition elementField (val inner : Val) : Val :=
  match val with
  | VObj p ps =>
      let ps := JS.assign "type" inner ps in
      let ps :=
        if JS.truthy (JS.prop inner "ref")
        then JS.assign "ref" (JS.prop inner "ref") ps else ps in
      VObj p (JS.assign "type" (JS.prop inner "type") ps)
  | _ => val
  end.

(** ** Lemmas and theorems *)

(** ** Strings *)

Lemma append_nil_r (s : string) : s ++ EmptyString = s.
Proof. induction s as [|c s IH]; simpl; [reflexivity | now rewrite IH]. Qed.

Lemma append_assoc (a b c : string) : (a ++ b) ++ c = a ++ (b ++ c).
Proof. induction a as [|x a IH]; simpl; [reflexivity | now rewrite IH]. Qed.

Lemma rev_acc_append (s acc : string) : Str.rev_acc s acc = Str.rev s ++ acc.
Proof.
  unfold Str.rev. revert acc.
  induction s as [|c s IH]; intros acc; simpl; [reflexivity|].
  rewrite (IH (String c EmptyString)), IH, append_assoc. reflexivity.
Qed.

Lemma rev_cons (c : ascii) (s : string) :
  Str.rev (String c s) = Str.rev s ++ String c EmptyString.
Proof. unfold Str.rev at 1. simpl. apply rev_acc_append. Qed.

Lemma startsWith_one_append (c : ascii) (a b : string) :
  a <> EmptyString ->
  Str.startsWith (String c EmptyString) (a ++ b)
  = Str.startsWith (String c EmptyString) a.
Proof. destruct a; simpl; [congruence | reflexivity]. Qed.

Lemma rev_nonempty (c : ascii) (s : string) : Str.rev (String c s) <> EmptyString.
Proof.
  rewrite rev_cons. destruct (Str.rev s); simpl; discriminate.
Qed.

(** [endsWith] with a one-character suffix holds exactly of the strings that
    are some prefix followed by that character, and [dropLast] is that
    prefix. *)
Lemma endsWith_one_dropLast (c : ascii) (s : string) :
  Str.endsWith (String c EmptyString) s = true ->
  s = Str.dropLast s ++ String c EmptyString.
Proof.
  unfold Str.endsWith. change (Str.rev (String c EmptyString)) with (String c EmptyString).
  induction s as [|x s IH]; [simpl; discriminate|].
  destruct s as [|y s'].
  - simpl. destruct (Ascii.eqb_spec c x); [subst; reflexivity | discriminate].
  - intros H. rewrite rev_cons in H.
    rewrite (@startsWith_one_append c (Str.rev (String y s')) (String x EmptyString))
      in H by apply rev_nonempty.
    specialize (IH H).
    change (Str.dropLast (String x (String y s')))
      with (String x (Str.dropLast (String y s'))).
    simpl. f_equal. exact IH.
Qed.

Lemma endsWith_one_intro (c : ascii) (r : string) :
  Str.endsWith (String c EmptyString) (r ++ String c EmptyString) = true.
Proof.
  unfold Str.endsWith. change (Str.rev (String c EmptyString)) with (String c EmptyString).
  induction r as [|x r IH].
  - simpl. now rewrite Ascii.eqb_refl.
  - change (String x r ++ String c EmptyString)
      with (String x (r ++ String c EmptyString)).
    rewrite rev_cons.
    rewrite (@startsWith_one_append c (Str.rev (r ++ String c EmptyString))
               (String x EmptyString)); [exact IH|].
    destruct (r ++ String c EmptyString) eqn:E.
    + destruct r; discriminate.
    + apply rev_nonempty.
Qed.

(** ** The lean-virtuals decision *)

(** C2, as stated, fails: with boolean flags two of the four combinations
    exclude virtual properties from the lean shape, not one. *)
Lemma shouldLeanIncludeVirtuals_two_exclusions :
  List.length excludedCombinations <> 1
  /\ excludedCombinations = [(false, false); (false, true)].
Proof. split; [vm_compute; discriminate | reflexivity]. Qed.

(** C2, amended: each flag being true, false or unset, the lean shape
    includes virtual properties when [virtuals] is true, or when [virtuals]
    is unset and [getters] is true, and excludes them otherwise.  So with
    both flags booleans the decision is the [virtuals] flag alone (two of the
    four combinations exclude), and with each flag true or unset only the
    combination with both unset excludes. *)
Theorem shouldLeanIncludeVirtuals_flags (virtuals getters : option bool) :
  shouldLeanIncludeVirtuals (schemaWithToObject (flag virtuals) (flag getters))
  = Ok (match virtuals, getters with
        | Some v, _ => v
        | None, Some g => g
        | None, None => false
        end).
Proof. destruct virtuals as [[|]|], getters as [[|]|]; reflexivity. Qed.

(** ** Function collections *)

Lemma join_empty_cons (x : string) (r : list string) :
  Str.join EmptyString (x :: r) = x ++ Str.join EmptyString r.
Proof.
  destruct r as [|y r]; simpl; [now rewrite append_nil_r | reflexivity].
Qed.

Lemma getFuncType_default (funcType : FuncType) (modelName : string) :
  getFuncType "(...args: any[]) => any" funcType modelName
  = defaultMemberType funcType modelName.
Proof.
  unfold getFuncType.
  change (Regex.exec "(...args: any[]) => any")
    with (Some ("...args: any[]", "any")).
  destruct funcType; simpl; rewrite ?append_assoc; reflexivity.
Qed.

Lemma fold_left_lines (g : string -> string) (p : string -> bool)
    (ks : list string) (acc : string) :
  fold_left (fun s key => if p key then s else s ++ g key) ks acc
  = acc ++ Str.join EmptyString (List.map g (filter (fun k => negb (p k)) ks)).
Proof.
  revert acc. induction ks as [|k ks IH]; intros acc; simpl.
  - now rewrite append_nil_r.
  - rewrite IH. destruct (p k); cbn [negb List.map]; [reflexivity|].
    rewrite join_empty_cons, append_assoc. reflexivity.
Qed.

(** C1, as stated, fails: the member rendered for an unknown signature is not
    the literal default signature, and it differs between roles. *)
Lemma parseFunctions_default_not_literal :
  let funcs := VObj true [("findByName", VFun (NUser "findByName"))] in
  parseFunctions funcs "User" methods
    = Ok ("findByName: (this: UserDocument, ...args: any[]) => any;" ++ nl)
  /\ parseFunctions funcs "User" methods
     <> Ok (makeLine "findByName" "(...args: any[]) => any" false)
  /\ parseFunctions funcs "User" query <> parseFunctions funcs "User" methods.
Proof.
  cbv zeta. split; [reflexivity | split; vm_compute; discriminate].
Qed.

(** C1, amended: for every function collection, [parseFunctions] renders each
    member other than [initializeTimestamps] with the default signature
    passed through [getFuncType], that is with the receiver of its role
    bound: the document type for instance methods, the model type for
    statics, and a generic query type (also as return type) for query
    helpers. *)
Theorem parseFunctions_default (funcs : Val) (modelName : string)
    (funcType : FuncType) :
  parseFunctions funcs modelName funcType
  = ks <- JS.keys funcs ;;
    Ok (Str.join EmptyString
          (List.map
             (fun key => makeLine key (defaultMemberType funcType modelName) false)
             (filter (fun key => negb (String.eqb key "initializeTimestamps")) ks))).
Proof.
  unfold parseFunctions. destruct (JS.keys funcs) as [ks| |]; simpl; try reflexivity.
  rewrite getFuncType_default.
  rewrite (fold_left_lines
             (fun key => makeLine key (defaultMemberType funcType modelName) false)
             (fun key => String.eqb key "initializeTimestamps")).
  reflexivity.
Qed.

(** ** The sub-entity namer *)

Lemma mapM_capitalize (segs : list string) :
  forallb nonEmpty segs = true ->
  mapM capitalize segs = Ok (List.map capitalizeFirst segs).
Proof.
  induction segs as [|p segs IH]; simpl; [reflexivity|].
  intros H. apply andb_prop in H as [Hp Hs].
  destruct p as [|c r]; [discriminate|].
  rewrite (IH Hs). reflexivity.
Qed.

(** C6: on a dotted path (every segment non-empty) [getSubDocName] returns,
    for any owning name, the owning name followed by the capitalized
    segments, with exactly one trailing character removed when that
    candidate ends in "s"; [address.city] under [User] gives
    [UserAddressCity]. *)
Theorem getSubDocName_spec (path modelName : string) :
  forallb nonEmpty (Str.split "." path) = true ->
  (exists name,
      getSubDocName path modelName = Ok name
      /\ (Str.endsWith "s" (candidateName path modelName) = true ->
          candidateName path modelName = name ++ "s")
      /\ (Str.endsWith "s" (candidateName path modelName) = false ->
          name = candidateName path modelName))
  /\ getSubDocName "address.city" "User" = Ok "UserAddressCity".
Proof.
  intros H. split; [|reflexivity].
  unfold getSubDocName. rewrite (mapM_capitalize _ H). simpl.
  fold (candidateName path modelName).
  destruct (Str.endsWith "s" (candidateName path modelName)) eqn:E.
  - eexists. split; [reflexivity|]. split; [|discriminate].
    intros _. now apply endsWith_one_dropLast.
  - eexists. split; [reflexivity|]. split; [discriminate | reflexivity].
Qed.

Lemma getSubDocName_spec_witness :
  forallb nonEmpty (Str.split "." "friends.pets") = true
  /\ (exists name,
         getSubDocName "friends.pets" "User" = Ok name
         /\ (Str.endsWith "s" (candidateName "friends.pets" "User") = true ->
             candidateName "friends.pets" "User" = name ++ "s")
         /\ (Str.endsWith "s" (candidateName "friends.pets" "User") = false ->
             name = candidateName "friends.pets" "User")).
Proof.
  split; [reflexivity|].
  apply (getSubDocName_spec "friends.pets" "User"). reflexivity.
Defined.

(** ** Fields of the schema tree *)

Lemma tagOf_number (t : Val) :
  tagOf t = TNumber -> t = VFun NNumber \/ t = VStr "Number".
Proof.
  destruct t as [| | | |s|f| |]; simpl; try discriminate.
  - destruct (String.eqb_spec s "String"); [discriminate|].
    destruct (String.eqb_spec s "Number"); [subst; auto|].
    destruct (String.eqb s "Buffer"); [discriminate|].
    destruct (String.eqb s "ObjectId"); discriminate.
  - destruct f; try discriminate. auto.
Qed.

Lemma foldM_append (f : string -> Res string) (ks : list string) (acc : string) :
  foldM (fun template key => line <- f key ;; Ok (template ++ line)) ks acc
  = ls <- mapM f ks ;; Ok (acc ++ Str.join EmptyString ls).
Proof.
  revert acc. induction ks as [|k ks IH]; intros acc; cbn [foldM mapM bind].
  - simpl. now rewrite append_nil_r.
  - destruct (f k) as [l| |]; cbn [bind]; try reflexivity.
    rewrite IH. destruct (mapM f ks) as [ls| |]; cbn [bind]; try reflexivity.
    rewrite join_empty_cons, append_assoc. reflexivity.
Qed.

(** On a schema that has only a tree, [parseSchema] is the header, the lines
    of the fields, and the footer. *)
Lemma parseSchema_treeSchema (fuel : nat) (tree : Props)
    (addModel isDocument isAugmented : bool) (header footer : string) :
  parseSchema (S fuel) (treeSchema tree) None addModel isDocument
              header footer isAugmented
  = ls <- fieldLines fuel isDocument tree ;;
    Ok ((header ++ Str.join EmptyString ls) ++ footer).
Proof.
  unfold fieldLines.
  transitivity
    (template <-
       foldM (fun template key =>
                line <- parseKey (nestedCall fuel isDocument) (treeSchema tree)
                                 isDocument key (JS.prop (VObj true tree) key) ;;
                Ok (template ++ line))
             (List.map fst tree) header ;;
     Ok (template ++ footer)).
  - destruct isDocument; reflexivity.
  - rewrite foldM_append.
    destruct (mapM _ (List.map fst tree)) as [ls| |]; reflexivity.
Qed.

Lemma cloneDeep_plain (val : Val) :
  (if JS.isPlainObject val then JS.cloneDeep val else val) = val.
Proof. destruct val as [| | | | | | |[|] ps]; reflexivity. Qed.

(** [parseKey] on an entry that is neither an array nor a hoisted or virtual
    entry, under a metadata key: nothing is emitted. *)
Lemma parseKey_metadata (nested : Val -> Res string) (schema : Val)
    (isDocument : bool) (key : string) (val : Val) :
  JS.nullish val = false ->
  JS.isArray val = false ->
  JS.isArray (JS.prop val "type") = false ->
  isHoisted (expanded val) = false ->
  isVirtual (expanded val) = false ->
  nonEmpty key && isMetadataKey key = true ->
  parseKey nested schema isDocument key val = Ok EmptyString.
Proof.
  intros Hn Ha Ht Hh Hv Hk.
  unfold parseKey, normalizeArray.
  rewrite cloneDeep_plain.
  unfold JS.get at 1. rewrite Hn. cbn [bind]. rewrite Ha, Ht. cbn [bind].
  fold (expanded val).
  assert (He : JS.nullish (expanded val) = false).
  { unfold expanded. destruct (isDirectType val); [reflexivity | exact Hn]. }
  unfold JS.get. rewrite He. cbn [bind].
  unfold resolveType. unfold isHoisted in Hh. rewrite Hh.
  unfold isVirtual in Hv.
  destruct (JS.truthy (JS.prop (expanded val) "path")) eqn:P.
  - cbn [andb] in Hv |- *. rewrite Hv, Hk. reflexivity.
  - cbn [andb]. rewrite Hk. reflexivity.
Qed.

Lemma numericField_shape (val : Val) :
  numericField val = true ->
  JS.nullish val = false /\ JS.isArray val = false
  /\ JS.isArray (JS.prop val "type") = false
  /\ isHoisted (expanded val) = false /\ isVirtual (expanded val) = false
  /\ JS.strictEq (JS.prop (expanded val) "schemaName") (VStr "Mixed") = false
  /\ (JS.prop (expanded val) "type" = VFun NNumber
      \/ JS.prop (expanded val) "type" = VStr "Number").
Proof.
  intros H.
  destruct val as [| | | |s|f|xs|p ps]; unfold numericField in H; try discriminate.
  - apply String.eqb_eq in H. subst s. repeat split; auto.
  - destruct f; try discriminate. repeat split; auto.
  - destruct (tagOf (JS.prop (VObj p ps) "type")) eqn:T; try discriminate.
    apply andb_prop in H as [H Hm]. apply andb_prop in H as [Hh Hv].
    apply negb_true_iff in Hh, Hv, Hm.
    apply tagOf_number in T.
    change (expanded (VObj p ps)) with (VObj p ps).
    repeat split; auto.
    destruct T as [-> | ->]; reflexivity.
Qed.

(** C7: a field with a numeric type tag whose key is [__v] resolves to no
    type, and the compiler emits nothing for it, in the plain and in the
    live shape: the output is the header followed by the footer. *)
Theorem version_key_omitted (fuel : nat) (val : Val) (isDocument isAugmented : bool)
    (header footer : string) :
  numericField val = true ->
  parseSchema (S fuel) (treeSchema [("__v", val)]) None false isDocument
              header footer isAugmented
  = Ok (header ++ footer)
  /\ convertBaseTypeToTs "__v" (expanded val) isDocument = Ok None.
Proof.
  intros H.
  destruct (numericField_shape val H) as (Hn & Ha & Ht & Hh & Hv & Hm & T).
  split.
  - rewrite parseSchema_treeSchema. unfold fieldLines.
    cbn [List.map fst mapM].
    change (JS.prop (VObj true [("__v", val)]) "__v") with val.
    rewrite (parseKey_metadata _ _ _ "__v" val Hn Ha Ht Hh Hv eq_refl).
    cbn. now rewrite append_nil_r.
  - assert (He : JS.nullish (expanded val) = false).
    { unfold expanded. destruct (isDirectType val); [reflexivity | exact Hn]. }
    unfold convertBaseTypeToTs, JS.get. rewrite He. cbn [bind].
    rewrite Hm. cbn [orb].
    destruct T as [-> | ->]; reflexivity.
Qed.

Lemma version_key_omitted_witness :
  numericField (VObj true [("type", VFun NNumber); ("select", VBool false)]) = true
  /\ parseSchema 1
       (treeSchema [("__v", VObj true [("type", VFun NNumber); ("select", VBool false)])])
       None false true "{" "}" false
     = Ok ("{" ++ "}").
Proof.
  split; [reflexivity|].
  apply (version_key_omitted 0
           (VObj true [("type", VFun NNumber); ("select", VBool false)])
           true false "{" "}").
  reflexivity.
Defined.

(** C3 fails on the code for the [type] form: an array of numbers declared
    as [{ type: [Number] }] without [required] is emitted as an optional
    member in both shapes, while the bare form [[Number]] is emitted as a
    required one. *)
Theorem number_array_type_form_optional (fuel : nat) (isDocument : bool) :
  parseSchema (S fuel)
    (treeSchema [ ("scores", VObj true [("type", VArr [VFun NNumber])])
                ; ("marks", VArr [VFun NNumber]) ])
    None false isDocument EmptyString EmptyString false
  = Ok (if isDocument
        then "scores?: mongoose.Types.Array<number>;" ++ nl
               ++ "marks: mongoose.Types.Array<number>;" ++ nl
        else "scores?: number[];" ++ nl ++ "marks: number[];" ++ nl).
Proof. destruct isDocument; reflexivity. Qed.

(** C5, as stated, fails: an apostrophe in the declared reference name is
    removed before the union is built, so the emitted type is not the union
    over the declared name. *)
Lemma reference_name_apostrophe_removed :
  let val := VObj true [("type", VFun NSchemaObjectId); ("ref", VStr "User's")] in
  parseSchema 1 (treeSchema [("owner", val)]) None false false
              EmptyString EmptyString false
    = Ok ("owner?: Users[" ++ dq ++ "_id" ++ dq ++ "] | Users;" ++ nl)
  /\ parseSchema 1 (treeSchema [("owner", val)]) None false false
                 EmptyString EmptyString false
     <> Ok (makeLine "owner" (refUnion false "User's") true).
Proof. cbv zeta. split; [reflexivity | vm_compute; discriminate]. Qed.

Lemma length_append (a b : string) :
  String.length (a ++ b) = String.length a + String.length b.
Proof. induction a as [|c a IH]; simpl; [reflexivity | now rewrite IH]. Qed.

Lemma refUnion_nonEmpty (isDocument : bool) (docRef : string) :
  nonEmpty (refUnion isDocument docRef) = true.
Proof. unfold refUnion. destruct isDocument, docRef; reflexivity. Qed.

Lemma refUnion_not_buffer (isDocument : bool) (docRef : string) :
  String.eqb (refUnion isDocument docRef) "Buffer" = false.
Proof.
  apply String.eqb_neq. intros E.
  apply (f_equal String.length) in E. revert E.
  unfold refUnion. destruct isDocument;
    rewrite !length_append; simpl; lia.
Qed.

Lemma refField_shape (val : Val) :
  refField val = true ->
  JS.nullish val = false /\ JS.isArray val = false /\ expanded val = val
  /\ JS.isArray (JS.prop val "type") = false
  /\ JS.strictEq (JS.prop val "type") (VFun NMap) = false
  /\ isHoisted val = false /\ isVirtual val = false.
Proof.
  destruct val as [| | | | | | |p ps]; try discriminate.
  unfold refField. intros H.
  repeat (apply andb_prop in H; destruct H as [H ?]).
  repeat match goal with
         | h : negb _ = true |- _ => apply negb_true_iff in h
         end.
  repeat match goal with
         | h : negb _ = true |- _ => apply negb_true_iff in h
         end.
  repeat split; try assumption; try reflexivity.
Qed.

(** C5, amended: a field that declares a reference name R (and is not under
    a metadata key) is emitted with the union of the identifier type of D
    and D itself, in the plain shape over D and in the live shape over
    DDocument, where D is R without its first apostrophe, renamed by the
    sub-entity namer when it contains a dot; the member is optional exactly
    when the field has no truthy [required]; the [authorId] field of the
    Post entity gives the line of the specification. *)
Theorem reference_field_union (nested : Val -> Res string) (schema : Val)
    (isDocument : bool) (key : string) (val : Val) (r docRef : string) :
  refField val = true ->
  isMetadataKey key = false ->
  JS.prop val "ref" = VStr r ->
  referenceName r = Ok docRef ->
  parseKey nested schema isDocument key val
    = Ok (makeLine key (refUnion isDocument docRef)
                   (negb (JS.truthy (JS.prop val "required"))))
  /\ fieldLines 0 false
       [("authorId", VObj true [("type", VFun NSchemaObjectId); ("ref", VStr "User")])]
     = Ok ["authorId?: User[" ++ dq ++ "_id" ++ dq ++ "] | User;" ++ nl].
Proof.
  intros Hf Hk Hr Hd. split; [|reflexivity].
  destruct (refField_shape val Hf) as (Hn & Ha & He & Ht & Hm & Hh & Hv).
  assert (Href : JS.truthy (JS.prop val "ref") = true).
  { destruct val; try discriminate. unfold refField in Hf.
    rewrite Hr in *. apply andb_prop in Hf as [_ Hf]. exact Hf. }
  unfold parseKey, normalizeArray. rewrite cloneDeep_plain.
  unfold JS.get at 1. rewrite Hn. cbn [bind]. rewrite Ha, Ht. cbn [bind].
  fold (expanded val). rewrite He.
  unfold JS.get. rewrite Hn. cbn [bind]. rewrite Hm.
  unfold resolveType. unfold isHoisted in Hh. rewrite Hh.
  unfold isVirtual in Hv.
  assert (Hv' : JS.truthy (JS.prop val "path") && JS.truthy (JS.prop val "path")
                && JS.truthy (JS.prop val "setters")
                && JS.truthy (JS.prop val "getters") = false).
  { destruct (JS.truthy (JS.prop val "path")); [exact Hv | reflexivity]. }
  rewrite Hv', Hk, andb_false_r, Href, Hr.
  cbn [bind]. unfold referenceName in Hd.
  destruct (Str.includes "." (Str.removeFirst "'" r)).
  - rewrite Hd. cbn [bind]. fold (refUnion isDocument docRef).
    rewrite refUnion_nonEmpty, refUnion_not_buffer. reflexivity.
  - injection Hd as <-. cbn [bind].
    fold (refUnion isDocument (Str.removeFirst "'" r)).
    rewrite refUnion_nonEmpty, refUnion_not_buffer. reflexivity.
Qed.

Lemma reference_field_union_witness :
  let val := VObj true [ ("type", VFun NSchemaObjectId)
                       ; ("ref", VStr "blog.authors"); ("required", VBool true) ] in
  refField val = true
  /\ isMetadataKey "author" = false
  /\ referenceName "blog.authors" = Ok "BlogAuthor"
  /\ parseKey (fun _ => Diverge) VUndef true "author" val
     = Ok (makeLine "author" (refUnion true "BlogAuthor") false).
Proof.
  cbv zeta.
  split; [reflexivity|]. split; [reflexivity|]. split; [reflexivity|].
  apply (reference_field_union (fun _ => Diverge) VUndef true "author"
           (VObj true [ ("type", VFun NSchemaObjectId)
                      ; ("ref", VStr "blog.authors"); ("required", VBool true) ])
           "blog.authors" "BlogAuthor");
    reflexivity.
Defined.

(** ** Failure behaviour *)

(** C4, as stated, fails: a field declared as an empty array (an array of
    mixed values in mongoose) makes [parseSchema] throw, and the fields
    around it are not emitted. *)
Lemma parseSchema_throws_on_empty_array :
  parseSchema 1 (treeSchema [("name", VFun NString); ("tags", VArr [])])
              None false false EmptyString EmptyString false
    = Throw "TypeError"
  /\ parseSchema 7 (treeSchema [("name", VFun NString); ("tags", VArr [])])
                 None false true EmptyString EmptyString false
     = Throw "TypeError".
Proof. split; reflexivity. Qed.

(** ** Independence of the recursion budget *)

Lemma below_refl {A} (r : Res A) : below r r.
Proof. right. reflexivity. Qed.

Lemma below_trans {A} (r1 r2 r3 : Res A) :
  below r1 r2 -> below r2 r3 -> below r1 r3.
Proof.
  intros [-> | ->]; [left; reflexivity | intros H; exact H].
Qed.

Lemma bind_below {A B} (m1 m2 : Res A) (k1 k2 : A -> Res B) :
  below m1 m2 -> (forall a, below (k1 a) (k2 a)) ->
  below (bind m1 k1) (bind m2 k2).
Proof.
  intros [-> | ->] Hk; [left; reflexivity|].
  destruct m2; cbn [bind]; [apply Hk | right; reflexivity | left; reflexivity].
Qed.

Lemma foldM_below {A S} (f1 f2 : S -> A -> Res S) (xs : list A) (s : S) :
  (forall s x, below (f1 s x) (f2 s x)) ->
  below (foldM f1 xs s) (foldM f2 xs s).
Proof.
  intros Hf. revert s. induction xs as [|x xs IH]; intros s; cbn [foldM].
  - apply below_refl.
  - apply bind_below; [apply Hf | exact IH].
Qed.

Ltac below_step :=
  match goal with
  | |- below ?x ?x => apply below_refl
  | |- below (bind _ _) (bind _ _) => apply bind_below; [|intros]
  | |- below (if ?c then _ else _) (if ?c then _ else _) => destruct c
  | |- below (match ?x with _ => _ end) (match ?x with _ => _ end) => destruct x
  end.

Lemma resolveType_below (n1 n2 : Val -> Res string) (schema : Val)
    (isDocument : bool) (key : string) (val : Val) (isOptional : bool) :
  (forall v, below (n1 v) (n2 v)) ->
  below (resolveType n1 schema isDocument key val isOptional)
        (resolveType n2 schema isDocument key val isOptional).
Proof.
  intros Hn. unfold resolveType.
  repeat first [ below_step | apply Hn ].
Qed.

Lemma parseKey_below (n1 n2 : Val -> Res string) (schema : Val)
    (isDocument : bool) (key : string) (val : Val) :
  (forall v, below (n1 v) (n2 v)) ->
  below (parseKey n1 schema isDocument key val)
        (parseKey n2 schema isDocument key val).
Proof.
  intros Hn. unfold parseKey.
  apply bind_below; [apply below_refl|]. intros [[v isArray] isOptional].
  apply bind_below; [apply below_refl|]. intros type.
  apply bind_below; [apply resolveType_below; exact Hn|]. intros resolved.
  apply below_refl.
Qed.

Lemma processChild_below (r1 r2 : Val -> string -> string -> Res string)
    (isDocument isAugmented : bool) (rootPath : string)
    (st : Props * string) (child : Val) :
  (forall c n h, below (r1 c n h) (r2 c n h)) ->
  below (processChild r1 isDocument isAugmented rootPath st child)
        (processChild r2 isDocument isAugmented rootPath st child).
Proof.
  intros Hr. unfold processChild. destruct st as [flat acc].
  repeat first [ below_step | apply Hr ].
Qed.

Lemma parseSchema_step_below (fuel : nat) :
  forall (schema : Val) (modelName : option string) (addModel isDocument : bool)
         (header footer : string) (isAugmented : bool),
    below (parseSchema fuel schema modelName addModel isDocument header footer isAugmented)
          (parseSchema (S fuel) schema modelName addModel isDocument header footer
                       isAugmented).
Proof.
  induction fuel as [|fuel IH]; intros; [left; reflexivity|].
  remember (S fuel) as n eqn:En.
  cbn [parseSchema]. rewrite En at 1. cbn [parseSchema]. subst n.
  apply bind_below; [apply below_refl|]. intros childSchemas.
  apply bind_below.
  - destruct (JS.gtZero (JS.optGet childSchemas "length") && truthyName modelName);
      [|apply below_refl].
    apply bind_below; [apply below_refl|]. intros flat.
    apply bind_below; [apply below_refl|]. intros children.
    apply bind_below; [|intros; apply below_refl].
    apply foldM_below. intros st child.
    apply processChild_below. intros c n h. apply IH.
  - intros [schema' template].
    apply bind_below; [apply below_refl|]. intros template'.
    apply bind_below; [apply below_refl|]. intros ks.
    apply bind_below; [|intros; apply below_refl].
    apply foldM_below. intros t key.
    apply bind_below; [|intros; apply below_refl].
    apply parseKey_below. intros v. apply IH.
Qed.

Lemma parseSchema_mono (fuel1 fuel2 : nat) :
  fuel1 <= fuel2 ->
  forall (schema : Val) (modelName : option string) (addModel isDocument : bool)
         (header footer : string) (isAugmented : bool),
    below (parseSchema fuel1 schema modelName addModel isDocument header footer
                       isAugmented)
          (parseSchema fuel2 schema modelName addModel isDocument header footer
                       isAugmented).
Proof.
  induction 1 as [|m Hle IH]; intros; [apply below_refl|].
  eapply below_trans; [apply IH | apply parseSchema_step_below].
Qed.

(** Two runs on the same tree that come to an end, whatever recursion
    budget each one had, end the same way: with the same text or with the
    same exception. *)
Lemma parseSchema_budget_independent (fuel1 fuel2 : nat) (schema : Val)
    (modelName : option string) (addModel isDocument : bool)
    (header footer : string) (isAugmented : bool) (run1 run2 : Res string) :
  parseSchema fuel1 schema modelName addModel isDocument header footer isAugmented
    = run1 ->
  parseSchema fuel2 schema modelName addModel isDocument header footer isAugmented
    = run2 ->
  definite run1 -> definite run2 ->
  run1 = run2.
Proof.
  intros E1 E2 D1 D2.
  pose proof (parseSchema_mono fuel1 (Nat.max fuel1 fuel2) (Nat.le_max_l _ _)
                schema modelName addModel isDocument header footer isAugmented) as B1.
  pose proof (parseSchema_mono fuel2 (Nat.max fuel1 fuel2) (Nat.le_max_r _ _)
                schema modelName addModel isDocument header footer isAugmented) as B2.
  rewrite E1 in B1. rewrite E2 in B2.
  destruct B1 as [B1 | B1]; [contradiction|].
  destruct B2 as [B2 | B2]; [contradiction|].
  congruence.
Qed.

(** ** The structural patch pass *)

Lemma Forall3_refl {A} (R : A -> A -> A -> Prop) (l : list A) :
  (forall a, R a a a) -> Forall3 R l l l.
Proof. intros H. induction l; constructor; auto. Qed.

Lemma Forall3_collapse {A} (R : A -> A -> A -> Prop) (F B : list A) :
  (forall f b, R f b f -> b = f) -> Forall3 R F B F -> B = F.
Proof.
  intros H. revert B. induction F as [|f F IH]; intros B HR; inversion HR; subst.
  - reflexivity.
  - f_equal; [apply H; assumption | apply IH; assumption].
Qed.

Lemma memberRel_refl (m : Member) : memberRel m m m.
Proof. destruct m; simpl; auto. Qed.

Lemma memberRel_collapse (f b : Member) : memberRel f b f -> b = f.
Proof.
  destruct f, b; simpl; try contradiction.
  - intros (-> & _ & [-> | ->]); reflexivity.
  - intros (-> & _). reflexivity.
Qed.

Lemma stmtRel_refl Inner (s : Statement) :
  (forall x, Inner x x x) -> stmtRel Inner s s s.
Proof.
  intros H. destruct s as [n [ms|t] | n ms | n body | t]; simpl; repeat split; auto.
  - apply Forall3_refl, memberRel_refl.
  - apply Forall3_refl, memberRel_refl.
Qed.

Lemma stmtRel_collapse Inner (f b : Statement) :
  (forall x y, Inner x y x -> y = x) -> stmtRel Inner f b f -> b = f.
Proof.
  intros H.
  destruct f as [n [ms|t] | n ms | n body | t],
           b as [n' [ms'|t'] | n' ms' | n' body' | t']; simpl; try contradiction.
  - intros (-> & _ & HR). do 2 f_equal.
    apply (Forall3_collapse memberRel); [apply memberRel_collapse | exact HR].
  - intros (-> & _ & -> & _). reflexivity.
  - intros (-> & _ & HR). f_equal.
    apply (Forall3_collapse memberRel); [apply memberRel_collapse | exact HR].
  - intros (-> & _ & HR). f_equal. apply H. exact HR.
  - intros (-> & _). reflexivity.
Qed.

Lemma fileRel_refl (sf : SourceFile) : fileRel sf sf sf.
Proof.
  apply Forall3_refl. intros s. apply stmtRel_refl.
  intros [block|]; simpl; [|exact I].
  apply Forall3_refl. intros s'. apply stmtRel_refl.
  intros x. split; reflexivity.
Qed.

Lemma fileRel_collapse (F B : SourceFile) : fileRel F B F -> B = F.
Proof.
  apply Forall3_collapse. intros f b. apply stmtRel_collapse.
  intros [x|] [y|]; simpl; try contradiction; [|reflexivity].
  intros HR. f_equal. revert HR.
  apply Forall3_collapse. intros f' b'. apply stmtRel_collapse.
  intros x' y' [-> _]. reflexivity.
Qed.

(** *** The callbacks *)

Lemma setTypeFrom_steady (table : list (string * string)) (render : string -> string) :
  steady (setTypeFrom table render).
Proof.
  intros n. unfold setTypeFrom. destruct (tableGet table n) as [newType| |].
  - destruct (nonEmpty newType); [left; eexists; reflexivity | right; left; reflexivity].
  - right; right; reflexivity.
  - right; left; reflexivity.
Qed.

Lemma setVirtualType_steady (table : list (string * string)) :
  steady (setVirtualType table).
Proof.
  intros n. unfold setVirtualType, setInherited.
  destruct (tableGet table n) as [newType| |].
  - destruct (nonEmpty newType); [left; eexists; reflexivity | right; left; reflexivity].
  - destruct (existsb _ _); [left; eexists; reflexivity | right; right; reflexivity].
  - right; left; reflexivity.
Qed.

(** *** Edits keep related files related *)

Lemma forEachProperty_step (cb : string -> option string -> Res (option string)) :
  steady cb -> memberStep (forEachProperty cb).
Proof.
  intros Hcb. unfold forEachProperty. split.
  - intros x y z x' HR. revert x'.
    induction HR as [|a b f la lb lc Hm HR IH]; intros x' E; cbn [mapM] in E |- *.
    + injection E as <-. exists []. split; [reflexivity | constructor].
    + destruct a as [n ta|ta], b as [n' tb|tb], f as [n'' tf|tf]; simpl in Hm;
        try contradiction.
      * destruct Hm as (-> & -> & Hb).
        destruct (Hcb n) as [[c Hc] | [Hi | Ht]].
        -- rewrite Hc in E |- *. cbn [bind] in E |- *.
           destruct (mapM _ la) as [la'| |]; cbn [bind] in E; try discriminate.
           injection E as <-. destruct (IH la' eq_refl) as (lb' & -> & HR').
           eexists. split; [reflexivity|]. constructor; [|exact HR'].
           simpl. auto.
        -- rewrite Hi in E |- *. cbn [bind] in E |- *.
           destruct (mapM _ la) as [la'| |]; cbn [bind] in E; try discriminate.
           injection E as <-. destruct (IH la' eq_refl) as (lb' & -> & HR').
           eexists. split; [reflexivity|]. constructor; [|exact HR'].
           simpl. auto.
        -- rewrite Ht in E. discriminate.
      * destruct Hm as (-> & ->). cbn [bind] in E |- *.
        destruct (mapM _ la) as [la'| |]; cbn [bind] in E; try discriminate.
        injection E as <-. destruct (IH la' eq_refl) as (lb' & -> & HR').
        eexists. split; [reflexivity|]. constructor; [|exact HR']. simpl. auto.
  - intros x y z y' HR. revert y'.
    induction HR as [|a b f la lb lc Hm HR IH]; intros y' E; cbn [mapM] in E |- *.
    + injection E as <-. exists []. split; [reflexivity | constructor].
    + destruct a as [n ta|ta], b as [n' tb|tb], f as [n'' tf|tf]; simpl in Hm;
        try contradiction.
      * destruct Hm as (-> & -> & Hb).
        destruct (Hcb n) as [[c Hc] | [Hi | Ht]].
        -- rewrite Hc in E |- *. cbn [bind] in E |- *.
           destruct (mapM _ lb) as [lb'| |]; cbn [bind] in E; try discriminate.
           injection E as <-. destruct (IH lb' eq_refl) as (lc' & -> & HR').
           eexists. split; [reflexivity|]. constructor; [|exact HR'].
           simpl. auto.
        -- rewrite Hi in E |- *. cbn [bind] in E |- *.
           destruct (mapM _ lb) as [lb'| |]; cbn [bind] in E; try discriminate.
           injection E as <-. destruct (IH lb' eq_refl) as (lc' & -> & HR').
           eexists. split; [reflexivity|]. constructor; [|exact HR'].
           simpl. auto.
        -- rewrite Ht in E. discriminate.
      * destruct Hm as (-> & ->). cbn [bind] in E |- *.
        destruct (mapM _ lb) as [lb'| |]; cbn [bind] in E; try discriminate.
        injection E as <-. destruct (IH lb' eq_refl) as (lc' & -> & HR').
        eexists. split; [reflexivity|]. constructor; [|exact HR']. simpl. auto.
Qed.

Ltac step_tail E IH la Hs :=
  let r := fresh "r" in
  let HR' := fresh "HR" in
  match type of E with
  | bind ?m _ = Ok _ =>
      destruct m as [r| |] eqn:?; cbn [bind] in E; try discriminate;
      injection E as <-; destruct (IH r eq_refl) as (? & -> & HR');
      eexists; split; [reflexivity|]; constructor; [exact Hs | exact HR']
  end.

Lemma onTypeAlias_step Inner (name : string) (edit : list Member -> Res (list Member)) :
  memberStep edit -> stmtStep Inner (onTypeAlias name edit).
Proof.
  intros [He1 He2]. split.
  - intros A B F A' HR. revert A'.
    induction HR as [|a b f la lb lc Hs HR IH]; intros A' E.
    + injection E as <-. exists []. split; [reflexivity | constructor].
    + destruct a as [n [x|t] | n x | n x | t], b as [n' [y|t'] | n' y | n' y | t'],
               f as [n'' [z|t''] | n'' z | n'' z | t'']; simpl in Hs;
        try contradiction; cbn [onTypeAlias] in E |- *.
      * destruct Hs as (-> & -> & Hm). destruct (String.eqb n name).
        -- destruct (edit x) as [x'| |] eqn:Ex; cbn [bind] in E; try discriminate.
           injection E as <-. destruct (He1 x y z x' Hm Ex) as (y' & -> & Hm').
           eexists. split; [reflexivity|]. constructor; [|exact HR].
           simpl. auto.
        -- assert (Hs : stmtRel Inner (TypeAliasDeclaration n (TypeLiteral x))
                                (TypeAliasDeclaration n (TypeLiteral y))
                                (TypeAliasDeclaration n (TypeLiteral z)))
             by (simpl; auto).
           step_tail E IH la Hs.
      * destruct Hs as (-> & -> & -> & ->). destruct (String.eqb n name).
        -- injection E as <-. eexists. split; [reflexivity|].
           constructor; [simpl; auto | exact HR].
        -- assert (Hs : stmtRel Inner (TypeAliasDeclaration n (OtherType t))
                                (TypeAliasDeclaration n (OtherType t))
                                (TypeAliasDeclaration n (OtherType t)))
             by (simpl; auto).
           step_tail E IH la Hs.
      * step_tail E IH la Hs.
      * step_tail E IH la Hs.
      * step_tail E IH la Hs.
  - intros A B F B' HR. revert B'.
    induction HR as [|a b f la lb lc Hs HR IH]; intros B' E.
    + injection E as <-. exists []. split; [reflexivity | constructor].
    + destruct a as [n [x|t] | n x | n x | t], b as [n' [y|t'] | n' y | n' y | t'],
               f as [n'' [z|t''] | n'' z | n'' z | t'']; simpl in Hs;
        try contradiction; cbn [onTypeAlias] in E |- *.
      * destruct Hs as (-> & -> & Hm). destruct (String.eqb n name).
        -- destruct (edit y) as [y'| |] eqn:Ey; cbn [bind] in E; try discriminate.
           injection E as <-. destruct (He2 x y z y' Hm Ey) as (z' & -> & Hm').
           eexists. split; [reflexivity|]. constructor; [|exact HR].
           simpl. auto.
        -- assert (Hs : stmtRel Inner (TypeAliasDeclaration n (TypeLiteral x))
                                (TypeAliasDeclaration n (TypeLiteral y))
                                (TypeAliasDeclaration n (TypeLiteral z)))
             by (simpl; auto).
           step_tail E IH lb Hs.
      * destruct Hs as (-> & -> & -> & ->). destruct (String.eqb n name).
        -- injection E as <-. eexists. split; [reflexivity|].
           constructor; [simpl; auto | exact HR].
        -- assert (Hs : stmtRel Inner (TypeAliasDeclaration n (OtherType t))
                                (TypeAliasDeclaration n (OtherType t))
                                (TypeAliasDeclaration n (OtherType t)))
             by (simpl; auto).
           step_tail E IH lb Hs.
      * step_tail E IH lb Hs.
      * step_tail E IH lb Hs.
      * step_tail E IH lb Hs.
Qed.

Lemma onInterface_step Inner (name : string) (edit : list Member -> Res (list Member)) :
  memberStep edit -> stmtStep Inner (onInterface name edit).
Proof.
  intros [He1 He2]. split.
  - intros A B F A' HR. revert A'.
    induction HR as [|a b f la lb lc Hs HR IH]; intros A' E.
    + injection E as <-. exists []. split; [reflexivity | constructor].
    + destruct a as [n [x|t] | n x | n x | t], b as [n' [y|t'] | n' y | n' y | t'],
               f as [n'' [z|t''] | n'' z | n'' z | t'']; simpl in Hs;
        try contradiction; cbn [onInterface] in E |- *.
      * step_tail E IH la Hs.
      * step_tail E IH la Hs.
      * destruct Hs as (-> & -> & Hm). destruct (String.eqb n name).
        -- destruct (edit x) as [x'| |] eqn:Ex; cbn [bind] in E; try discriminate.
           injection E as <-. destruct (He1 x y z x' Hm Ex) as (y' & -> & Hm').
           eexists. split; [reflexivity|]. constructor; [|exact HR].
           simpl. auto.
        -- assert (Hs : stmtRel Inner (InterfaceDeclaration n x)
                                (InterfaceDeclaration n y) (InterfaceDeclaration n z))
             by (simpl; auto).
           step_tail E IH la Hs.
      * step_tail E IH la Hs.
      * step_tail E IH la Hs.
  - intros A B F B' HR. revert B'.
    induction HR as [|a b f la lb lc Hs HR IH]; intros B' E.
    + injection E as <-. exists []. split; [reflexivity | constructor].
    + destruct a as [n [x|t] | n x | n x | t], b as [n' [y|t'] | n' y | n' y | t'],
               f as [n'' [z|t''] | n'' z | n'' z | t'']; simpl in Hs;
        try contradiction; cbn [onInterface] in E |- *.
      * step_tail E IH lb Hs.
      * step_tail E IH lb Hs.
      * destruct Hs as (-> & -> & Hm). destruct (String.eqb n name).
        -- destruct (edit y) as [y'| |] eqn:Ey; cbn [bind] in E; try discriminate.
           injection E as <-. destruct (He2 x y z y' Hm Ey) as (z' & -> & Hm').
           eexists. split; [reflexivity|]. constructor; [|exact HR].
           simpl. auto.
        -- assert (Hs : stmtRel Inner (InterfaceDeclaration n x)
                                (InterfaceDeclaration n y) (InterfaceDeclaration n z))
             by (simpl; auto).
           step_tail E IH lb Hs.
      * step_tail E IH lb Hs.
      * step_tail E IH lb Hs.
Qed.

Lemma inFirstModule_step (E : list Statement -> Res (list Statement)) :
  stmtStep sameBody E ->
  forall A B F, fileRel A B F ->
    match inFirstModule E A, inFirstModule E B, inFirstModule E F with
    | None, None, None => True
    | Some ra, Some rb, Some rf =>
        (forall A', ra = Ok A' -> exists B', rb = Ok B' /\ fileRel A' B' F)
        /\ (forall B', rb = Ok B' -> exists F', rf = Ok F' /\ fileRel A B' F')
    | _, _, _ => False
    end.
Proof.
  intros [HE1 HE2] A B F HR.
  induction HR as [|a b f la lb lc Hs HR IH]; [exact I|].
  destruct a as [n [x|t] | n x | n x | t], b as [n' [y|t'] | n' y | n' y | t'],
           f as [n'' [z|t''] | n'' z | n'' z | t'']; simpl in Hs; try contradiction;
    cbn [inFirstModule];
    try (destruct (inFirstModule E la) as [ra|], (inFirstModule E lb) as [rb|],
                  (inFirstModule E lc) as [rf|]; try contradiction; try exact I;
         split;
         [ intros A' E1; destruct ra as [ra'| |]; cbn [bind] in E1; try discriminate;
           injection E1 as <-; destruct (proj1 IH ra' eq_refl) as (rb' & -> & HR');
           eexists; split; [reflexivity|]; constructor; [exact Hs | exact HR']
         | intros B' E1; destruct rb as [rb'| |]; cbn [bind] in E1; try discriminate;
           injection E1 as <-; destruct (proj2 IH rb' eq_refl) as (rf' & -> & HR');
           eexists; split; [reflexivity|]; constructor; [exact Hs | exact HR'] ]).
  destruct Hs as (-> & -> & Hb).
  destruct x as [x|], y as [y|], z as [z|]; simpl in Hb; try contradiction;
    [|exact I].
  split.
  - intros A' E1. destruct (E x) as [x'| |] eqn:Ex; cbn [bind] in E1; try discriminate.
    injection E1 as <-. destruct (HE1 x y z x' Hb Ex) as (y' & -> & Hb').
    eexists. split; [reflexivity|]. constructor; [|exact HR]. simpl. auto.
  - intros B' E1. destruct (E y) as [y'| |] eqn:Ey; cbn [bind] in E1; try discriminate.
    injection E1 as <-. destruct (HE2 x y z y' Hb Ey) as (z' & -> & Hb').
    eexists. split; [reflexivity|]. constructor; [|exact HR]. simpl. auto.
Qed.

Lemma onRoot_step (isAugmented : bool) (E : list Statement -> Res (list Statement)) :
  stmtStep sameBody E -> stmtStep bodyRel E -> stmtStep bodyRel (onRoot isAugmented E).
Proof.
  intros H0 H1. unfold onRoot. destruct isAugmented; [|exact H1].
  split.
  - intros A B F A' HR E1.
    pose proof (inFirstModule_step E H0 A B F HR) as Hm.
    destruct (inFirstModule E A), (inFirstModule E B), (inFirstModule E F);
      try contradiction.
    + apply (proj1 Hm). exact E1.
    + apply (proj1 H1 A B F A' HR E1).
  - intros A B F B' HR E1.
    pose proof (inFirstModule_step E H0 A B F HR) as Hm.
    destruct (inFirstModule E A), (inFirstModule E B), (inFirstModule E F);
      try contradiction.
    + apply (proj2 Hm). exact E1.
    + apply (proj2 H1 A B F B' HR E1).
Qed.

Lemma step_ret Inner : stmtStep Inner (fun A => Ok A).
Proof.
  split.
  - intros A B F A' HR [= <-]. exists B. auto.
  - intros A B F B' HR [= <-]. exists F. auto.
Qed.

Lemma step_bind Inner (E1 E2 : list Statement -> Res (list Statement)) :
  stmtStep Inner E1 -> stmtStep Inner E2 ->
  stmtStep Inner (fun A => A1 <- E1 A ;; E2 A1).
Proof.
  intros [H1 H1'] [H2 H2']. split.
  - intros A B F A' HR E.
    destruct (E1 A) as [A1| |] eqn:EA; cbn [bind] in E; try discriminate.
    destruct (H1 A B F A1 HR EA) as (B1 & -> & HR1). cbn [bind].
    apply (H2 A1 B1 F A' HR1 E).
  - intros A B F B' HR E.
    destruct (E1 B) as [B1| |] eqn:EB; cbn [bind] in E; try discriminate.
    destruct (H1' A B F B1 HR EB) as (F1 & -> & HR1). cbn [bind].
    apply (H2' A B1 F1 B' HR1 E).
Qed.

Lemma step_when Inner (c : bool) (E : list Statement -> Res (list Statement)) :
  stmtStep Inner E -> stmtStep Inner (fun A => if c then E A else Ok A).
Proof. intros H. destruct c; [exact H | apply step_ret]. Qed.

Lemma step_read Inner {X} (r : Res X) (k : X -> list Statement -> Res (list Statement)) :
  (forall i, stmtStep Inner (k i)) -> stmtStep Inner (fun A => i <- r ;; k i A).
Proof.
  intros H. destruct r as [i| |]; cbn [bind]; [apply H| |];
    (split; intros; discriminate).
Qed.

Lemma patchTypeAlias_step Inner (name : string) (table : list (string * string))
    (render : string -> string) :
  stmtStep Inner (patchTypeAlias name table render).
Proof. apply onTypeAlias_step, forEachProperty_step, setTypeFrom_steady. Qed.

Lemma patchInterface_step Inner (name : string) (table : list (string * string)) :
  stmtStep Inner (patchInterface name table).
Proof. apply onInterface_step, forEachProperty_step, setVirtualType_steady. Qed.

Lemma replaceOne_step (schemas : LoadedSchemas) (isAugmented : bool)
    (entry : string * Types) :
  stmtStep bodyRel (fun sourceFile => replaceOne schemas isAugmented sourceFile entry).
Proof.
  destruct entry as [modelName types]. unfold replaceOne.
  assert (Ha : forall name table render,
             stmtStep bodyRel (onRoot isAugmented (patchTypeAlias name table render)))
    by (intros; apply onRoot_step; apply patchTypeAlias_step).
  assert (Hi : forall name table,
             stmtStep bodyRel (onRoot isAugmented (patchInterface name table)))
    by (intros; apply onRoot_step; apply patchInterface_step).
  apply (step_bind bodyRel
           (fun A => if nonEmptyTable (t_methods types)
                     then onRoot isAugmented
                            (patchTypeAlias (modelName ++ "Methods") (t_methods types)
                               (fun newType => getFuncType newType methods modelName)) A
                     else Ok A)); [apply step_when, Ha|].
  apply (step_bind bodyRel
           (fun A => if nonEmptyTable (t_statics types)
                     then onRoot isAugmented
                            (patchTypeAlias (modelName ++ "Statics") (t_statics types)
                               (fun newType => getFuncType newType statics modelName)) A
                     else Ok A)); [apply step_when, Ha|].
  apply (step_bind bodyRel
           (fun A => if nonEmptyTable (t_query types)
                     then onRoot isAugmented
                            (patchTypeAlias (modelName ++ "Queries") (t_query types)
                               (fun newType => getFuncType newType query modelName)) A
                     else Ok A)); [apply step_when, Ha|].
  destruct (nonEmptyTable (t_virtuals types)); [|apply step_ret].
  apply (step_bind bodyRel
           (onRoot isAugmented
              (patchInterface (modelName ++ "Document") (t_virtuals types)))
           (fun A =>
              include <- shouldLeanIncludeVirtuals (lookupSchema modelName schemas) ;;
              if include
              then onRoot isAugmented (patchInterface modelName (t_virtuals types)) A
              else Ok A)); [apply Hi|].
  apply (step_read bodyRel
           (shouldLeanIncludeVirtuals (lookupSchema modelName schemas))
           (fun include A =>
              if include
              then onRoot isAugmented (patchInterface modelName (t_virtuals types)) A
              else Ok A)).
  intros include. apply step_when, Hi.
Qed.

Lemma replaceModelTypes_step (modelTypes : ModelTypes) (schemas : LoadedSchemas)
    (isAugmented : bool) :
  stmtStep bodyRel
    (fun sourceFile => replaceModelTypes sourceFile modelTypes schemas isAugmented).
Proof.
  unfold replaceModelTypes.
  induction modelTypes as [|e mt IH]; cbn [foldM]; [apply step_ret|].
  apply (step_bind bodyRel (fun A => replaceOne schemas isAugmented A e)
           (fun A => foldM (replaceOne schemas isAugmented) mt A));
    [apply replaceOne_step | exact IH].
Qed.

(** *** Members without an override *)

Lemma keptMembers_refl (K : string -> bool) (ms : list Member) :
  Forall2 (keptMember K) ms ms.
Proof. induction ms as [|[n t|x] ms IH]; constructor; simpl; auto. Qed.

Lemma keptStmts_refl (K : string -> bool)
    (Inner : option (list Statement) -> option (list Statement) -> Prop)
    (A : list Statement) :
  (forall b, Inner b b) -> Forall2 (keptStmt K Inner) A A.
Proof.
  intros H. induction A as [|s A IH]; constructor; [|exact IH].
  destruct s as [n [ms|t] | n ms | n body | t]; simpl; auto using keptMembers_refl.
Qed.

Lemma keptBody_refl (K : string -> bool) (b : option (list Statement)) :
  keptBody K b b.
Proof. destruct b; simpl; [|exact I]. apply keptStmts_refl. reflexivity. Qed.

Lemma keptFile_refl (K : string -> bool) (A : SourceFile) : keptFile K A A.
Proof. apply keptStmts_refl, keptBody_refl. Qed.

Lemma keptMember_trans (K : string -> bool) (a b c : Member) :
  keptMember K a b -> keptMember K b c -> keptMember K a c.
Proof.
  destruct a as [n t|u], b as [n' t'|u'], c as [n'' t''|u'']; simpl;
    try contradiction.
  - intros (-> & H1) (-> & H2). split; [reflexivity|].
    intros Hk. rewrite (H2 Hk). apply H1, Hk.
  - congruence.
Qed.

Lemma Forall2_trans_with {A} (R : A -> A -> Prop) (x y z : list A) :
  (forall a b c, R a b -> R b c -> R a c) ->
  Forall2 R x y -> Forall2 R y z -> Forall2 R x z.
Proof.
  intros HR H. revert z. induction H as [|a b la lb Hab _ IH]; intros z Hz;
    inversion Hz; subst; constructor; [eapply HR; eassumption | apply IH; assumption].
Qed.

Lemma keptStmt_trans (K : string -> bool)
    (Inner : option (list Statement) -> option (list Statement) -> Prop)
    (a b c : Statement) :
  (forall x y z, Inner x y -> Inner y z -> Inner x z) ->
  keptStmt K Inner a b -> keptStmt K Inner b c -> keptStmt K Inner a c.
Proof.
  intros HI.
  destruct a as [n [x|t] | n x | n x | t], b as [n' [y|t'] | n' y | n' y | t'],
           c as [n'' [z|t''] | n'' z | n'' z | t'']; simpl; try contradiction.
  - intros (-> & H1) (-> & H2). split; [reflexivity|].
    apply (Forall2_trans_with _ x y z (keptMember_trans K) H1 H2).
  - intros (-> & ->) (-> & ->). auto.
  - intros (-> & H1) (-> & H2). split; [reflexivity|].
    apply (Forall2_trans_with _ x y z (keptMember_trans K) H1 H2).
  - intros (-> & H1) (-> & H2). split; [reflexivity|]. apply (HI x y z H1 H2).
  - congruence.
Qed.

Lemma keptBody_trans (K : string -> bool) (x y z : option (list Statement)) :
  keptBody K x y -> keptBody K y z -> keptBody K x z.
Proof.
  destruct x as [x|], y as [y|], z as [z|]; simpl; try contradiction; [|auto].
  apply Forall2_trans_with. intros a b c. apply keptStmt_trans. congruence.
Qed.

Lemma keptFile_trans (K : string -> bool) (A B C : SourceFile) :
  keptFile K A B -> keptFile K B C -> keptFile K A C.
Proof.
  apply Forall2_trans_with. intros a b c. apply keptStmt_trans.
  apply keptBody_trans.
Qed.

Lemma forEachProperty_kept (K : string -> bool)
    (cb : string -> option string -> Res (option string)) :
  (forall n t, K n = true -> cb n t = Ok t) ->
  forall x x', forEachProperty cb x = Ok x' -> Forall2 (keptMember K) x x'.
Proof.
  intros H. unfold forEachProperty.
  induction x as [|m x IH]; intros x' E; cbn [mapM] in E.
  - injection E as <-. constructor.
  - destruct m as [n t|u].
    + destruct (cb n t) as [t'| |] eqn:Ec; cbn [bind] in E; try discriminate.
      destruct (mapM _ x) as [r| |]; cbn [bind] in E; try discriminate.
      injection E as <-. constructor; [|apply IH; reflexivity].
      simpl. split; [reflexivity|]. intros Hk. rewrite (H n t Hk) in Ec. congruence.
    + cbn [bind] in E.
      destruct (mapM _ x) as [r| |]; cbn [bind] in E; try discriminate.
      injection E as <-. constructor; [reflexivity | apply IH; reflexivity].
Qed.

Ltac kept_tail E IH Hs :=
  match type of E with
  | bind ?m _ = Ok _ =>
      destruct m as [?r| |] eqn:?; cbn [bind] in E; try discriminate;
      injection E as <-; constructor; [exact Hs | apply IH; reflexivity]
  end.

Lemma onTypeAlias_kept (K : string -> bool)
    (Inner : option (list Statement) -> option (list Statement) -> Prop)
    (name : string) (edit : list Member -> Res (list Member)) :
  (forall x x', edit x = Ok x' -> Forall2 (keptMember K) x x') ->
  (forall b, Inner b b) ->
  forall A A', onTypeAlias name edit A = Ok A' -> Forall2 (keptStmt K Inner) A A'.
Proof.
  intros He HI. induction A as [|s A IH]; intros A' E; cbn [onTypeAlias] in E.
  - injection E as <-. constructor.
  - assert (Hs : keptStmt K Inner s s).
    { destruct s as [n [ms|t] | n ms | n body | t]; simpl;
        auto using keptMembers_refl. }
    destruct s as [n [ms|t] | n ms | n body | t]; try (kept_tail E IH Hs).
    + destruct (String.eqb n name); [|kept_tail E IH Hs].
      destruct (edit ms) as [ms'| |] eqn:Em; cbn [bind] in E; try discriminate.
      injection E as <-. constructor; [|apply keptStmts_refl, HI].
      simpl. split; [reflexivity | apply He, Em].
    + destruct (String.eqb n name); [|kept_tail E IH Hs].
      injection E as <-. apply keptStmts_refl, HI.
Qed.

Lemma onInterface_kept (K : string -> bool)
    (Inner : option (list Statement) -> option (list Statement) -> Prop)
    (name : string) (edit : list Member -> Res (list Member)) :
  (forall x x', edit x = Ok x' -> Forall2 (keptMember K) x x') ->
  (forall b, Inner b b) ->
  forall A A', onInterface name edit A = Ok A' -> Forall2 (keptStmt K Inner) A A'.
Proof.
  intros He HI. induction A as [|s A IH]; intros A' E; cbn [onInterface] in E.
  - injection E as <-. constructor.
  - assert (Hs : keptStmt K Inner s s).
    { destruct s as [n [ms|t] | n ms | n body | t]; simpl;
        auto using keptMembers_refl. }
    destruct s as [n ty | n ms | n body | t]; try (kept_tail E IH Hs).
    destruct (String.eqb n name); [|kept_tail E IH Hs].
    destruct (edit ms) as [ms'| |] eqn:Em; cbn [bind] in E; try discriminate.
    injection E as <-. constructor; [|apply keptStmts_refl, HI].
    simpl. split; [reflexivity | apply He, Em].
Qed.

Lemma inFirstModule_kept (K : string -> bool)
    (E : list Statement -> Res (list Statement)) :
  (forall A A', E A = Ok A' -> Forall2 (keptStmt K eq) A A') ->
  forall A r A', inFirstModule E A = Some r -> r = Ok A' -> keptFile K A A'.
Proof.
  intros HE. induction A as [|s A IH]; intros r A' Hm Hr; cbn [inFirstModule] in Hm;
    [discriminate|].
  assert (Hs : keptStmt K (keptBody K) s s).
  { destruct s as [n [ms|t] | n ms | n body | t]; simpl;
      auto using keptMembers_refl, keptBody_refl. }
  destruct s as [n ty | n ms | n [block|] | t];
    try (destruct (inFirstModule E A) as [r'|]; [|discriminate];
         injection Hm as <-; destruct r' as [A1| |]; cbn [bind] in Hr;
         try discriminate; injection Hr as <-;
         constructor; [exact Hs | apply (IH _ A1 eq_refl eq_refl)]).
  - injection Hm as <-.
    destruct (E block) as [block'| |] eqn:Eb; cbn [bind] in Hr; try discriminate.
    injection Hr as <-. constructor; [|apply keptFile_refl].
    simpl. split; [reflexivity | apply HE, Eb].
  - discriminate.
Qed.

Lemma onRoot_kept (K : string -> bool) (isAugmented : bool)
    (E : list Statement -> Res (list Statement)) :
  (forall A A', E A = Ok A' -> Forall2 (keptStmt K eq) A A') ->
  (forall A A', E A = Ok A' -> keptFile K A A') ->
  forall A A', onRoot isAugmented E A = Ok A' -> keptFile K A A'.
Proof.
  intros H0 H1 A A'. unfold onRoot. destruct isAugmented; [|apply H1].
  destruct (inFirstModule E A) as [r|] eqn:Em; [|apply H1].
  apply (inFirstModule_kept K E H0 A r A' Em).
Qed.

Lemma setTypeFrom_kept (table : list (string * string)) (render : string -> string)
    (n : string) (t : option string) :
  noOverride table n = true -> setTypeFrom table render n t = Ok t.
Proof.
  unfold noOverride, setTypeFrom. destruct (tableGet table n) as [newType| |];
    try discriminate; [|reflexivity].
  intros H. apply negb_true_iff in H. now rewrite H.
Qed.

Lemma setVirtualType_kept (table : list (string * string))
    (n : string) (t : option string) :
  noOverride table n = true -> setVirtualType table n t = Ok t.
Proof.
  unfold noOverride, setVirtualType. destruct (tableGet table n) as [newType| |];
    try discriminate; [|reflexivity].
  intros H. apply negb_true_iff in H. now rewrite H.
Qed.

Lemma patchTypeAlias_kept (K : string -> bool) (isAugmented : bool) (name : string)
    (table : list (string * string)) (render : string -> string) :
  (forall n, K n = true -> noOverride table n = true) ->
  forall A A', onRoot isAugmented (patchTypeAlias name table render) A = Ok A' ->
               keptFile K A A'.
Proof.
  intros H. apply onRoot_kept; unfold patchTypeAlias.
  - apply onTypeAlias_kept; [|reflexivity].
    apply forEachProperty_kept. intros n t Hk. apply setTypeFrom_kept, H, Hk.
  - apply onTypeAlias_kept; [|apply keptBody_refl].
    apply forEachProperty_kept. intros n t Hk. apply setTypeFrom_kept, H, Hk.
Qed.

Lemma patchInterface_kept (K : string -> bool) (isAugmented : bool) (name : string)
    (table : list (string * string)) :
  (forall n, K n = true -> noOverride table n = true) ->
  forall A A', onRoot isAugmented (patchInterface name table) A = Ok A' ->
               keptFile K A A'.
Proof.
  intros H. apply onRoot_kept; unfold patchInterface.
  - apply onInterface_kept; [|reflexivity].
    apply forEachProperty_kept. intros n t Hk. apply setVirtualType_kept, H, Hk.
  - apply onInterface_kept; [|apply keptBody_refl].
    apply forEachProperty_kept. intros n t Hk. apply setVirtualType_kept, H, Hk.
Qed.

Lemma replaceOne_kept (K : string -> bool) (schemas : LoadedSchemas)
    (isAugmented : bool) (entry : string * Types) :
  (forall n, K n = true ->
             noOverride (t_methods (snd entry)) n
             && noOverride (t_statics (snd entry)) n
             && noOverride (t_query (snd entry)) n
             && noOverride (t_virtuals (snd entry)) n = true) ->
  forall A A', replaceOne schemas isAugmented A entry = Ok A' -> keptFile K A A'.
Proof.
  destruct entry as [modelName types]. cbn [snd]. intros H.
  assert (Hm : forall n, K n = true -> noOverride (t_methods types) n = true).
  { intros n Hk. specialize (H n Hk).
    repeat (apply andb_prop in H; destruct H as [H ?]). exact H. }
  assert (Hs : forall n, K n = true -> noOverride (t_statics types) n = true).
  { intros n Hk. specialize (H n Hk).
    repeat (apply andb_prop in H; destruct H as [H ?]). assumption. }
  assert (Hq : forall n, K n = true -> noOverride (t_query types) n = true).
  { intros n Hk. specialize (H n Hk).
    repeat (apply andb_prop in H; destruct H as [H ?]). assumption. }
  assert (Hv : forall n, K n = true -> noOverride (t_virtuals types) n = true).
  { intros n Hk. specialize (H n Hk).
    repeat (apply andb_prop in H; destruct H as [H ?]). assumption. }
  intros A A' E. unfold replaceOne in E.
  assert (Step : forall (c : bool) (P : SourceFile -> Res SourceFile) (X X' : SourceFile),
             (forall Y Y', P Y = Ok Y' -> keptFile K Y Y') ->
             (if c then P X else Ok X) = Ok X' -> keptFile K X X').
  { intros c P X X' HP. destruct c; [apply HP|].
    intros [= <-]. apply keptFile_refl. }
  match type of E with
  | bind ?m _ = _ => destruct m as [A1| |] eqn:E1; cbn [bind] in E; try discriminate
  end.
  apply (Step _ _ _ _ (patchTypeAlias_kept K isAugmented _ _ _ Hm)) in E1.
  match type of E with
  | bind ?m _ = _ => destruct m as [A2| |] eqn:E2; cbn [bind] in E; try discriminate
  end.
  apply (Step _ _ _ _ (patchTypeAlias_kept K isAugmented _ _ _ Hs)) in E2.
  match type of E with
  | bind ?m _ = _ => destruct m as [A3| |] eqn:E3; cbn [bind] in E; try discriminate
  end.
  apply (Step _ _ _ _ (patchTypeAlias_kept K isAugmented _ _ _ Hq)) in E3.
  apply (keptFile_trans K A A1 A' E1), (keptFile_trans K A1 A2 A' E2),
    (keptFile_trans K A2 A3 A' E3).
  destruct (nonEmptyTable (t_virtuals types)).
  - destruct (onRoot isAugmented (patchInterface (modelName ++ "Document") _) A3)
      as [A4| |] eqn:E4; cbn [bind] in E; try discriminate.
    apply (patchInterface_kept K isAugmented _ _ Hv) in E4.
    apply (keptFile_trans K A3 A4 A' E4).
    destruct (shouldLeanIncludeVirtuals _) as [[|]| |]; cbn [bind] in E;
      try discriminate.
    + apply (patchInterface_kept K isAugmented _ _ Hv _ _ E).
    + injection E as <-. apply keptFile_refl.
  - injection E as <-. apply keptFile_refl.
Qed.

Lemma replaceModelTypes_kept (K : string -> bool) (schemas : LoadedSchemas)
    (isAugmented : bool) (modelTypes : ModelTypes) :
  (forall n, K n = true -> untouched modelTypes n = true) ->
  forall A A', replaceModelTypes A modelTypes schemas isAugmented = Ok A' ->
               keptFile K A A'.
Proof.
  unfold replaceModelTypes.
  induction modelTypes as [|e mt IH]; intros H A A' E; cbn [foldM] in E.
  - injection E as <-. apply keptFile_refl.
  - destruct (replaceOne schemas isAugmented A e) as [A1| |] eqn:E1; cbn [bind] in E;
      try discriminate.
    apply (keptFile_trans K A A1 A').
    + apply (replaceOne_kept K schemas isAugmented e); [|exact E1].
      intros n Hk. specialize (H n Hk). cbn [untouched forallb] in H.
      apply andb_prop in H as [H _]. exact H.
    + apply IH; [|exact E]. intros n Hk. specialize (H n Hk).
      cbn [untouched forallb] in H. apply andb_prop in H as [_ H]. exact H.
Qed.




(** ** The objects of the caller *)

Module Frame.
Import Store.
Import Caller.

Section Objects.

Variable h0 : Heap.
Variable shared : nat -> bool.

Local Abbreviation fresh := (Caller.fresh h0 shared).
Local Abbreviation freshProps := (Caller.freshProps h0 shared).
Local Abbreviation freshObj := (Caller.freshObj h0 shared).
Local Abbreviation Good := (Caller.Good h0 shared).
Local Abbreviation Spec := (Caller.Spec h0 shared).
Local Abbreviation freshOpt := (Caller.freshOpt h0 shared).
Local Abbreviation freshMemo := (Caller.freshMemo h0 shared).
Local Abbreviation freshPayload := (Caller.freshPayload h0 shared).
Local Abbreviation freshState := (Caller.freshState h0 shared).

Lemma Good_length (h : Heap) :
  Good h -> List.length (objects h0) <= List.length (objects h).
Proof. intros [H _]. exact H. Qed.

Lemma spec_ret {A} (a : A) (Q : A -> Prop) : Q a -> Spec (ret a) Q.
Proof. intros H h G. split; [exact G|]. simpl. intros b [= <-]. exact H. Qed.

Lemma spec_throw {A} (Q : A -> Prop) : Spec throw Q.
Proof. intros h G. split; [exact G|]. simpl. discriminate. Qed.

Lemma spec_diverge {A} (Q : A -> Prop) : Spec diverge Q.
Proof. intros h G. split; [exact G|]. simpl. discriminate. Qed.

Lemma spec_lift {A} (r : Res A) : Spec (lift r) any.
Proof. intros h G. split; [exact G|]. intros; exact I. Qed.

Lemma spec_bind {A B} (m : M A) (k : A -> M B) (Q : A -> Prop) (R : B -> Prop) :
  Spec m Q -> (forall a, Q a -> Spec (k a) R) -> Spec (mbind m k) R.
Proof.
  intros Hm Hk h G. unfold mbind.
  destruct (Hm h G) as [G' HQ]. destruct (m h) as [[a|e|] h']; cbn [fst snd] in *.
  - apply Hk; [apply HQ; reflexivity | exact G'].
  - split; [exact G' | discriminate].
  - split; [exact G' | discriminate].
Qed.

Lemma spec_weaken {A} (m : M A) (Q Q' : A -> Prop) :
  Spec m Q -> (forall a, Q a -> Q' a) -> Spec m Q'.
Proof.
  intros Hm HQ h G. destruct (Hm h G) as [G' H]. split; [exact G'|].
  intros a E. apply HQ, H, E.
Qed.

Lemma spec_mfold {A S} (f : S -> A -> M S) (P : A -> Prop) (Inv : S -> Prop)
    (xs : list A) (s : S) :
  Forall P xs -> Inv s ->
  (forall s x, Inv s -> P x -> Spec (f s x) Inv) ->
  Spec (mfold f xs s) Inv.
Proof.
  intros HP Hs Hf. revert s Hs.
  induction HP as [|x xs Hx HP IH]; intros s Hs; cbn [mfold].
  - apply spec_ret. exact Hs.
  - eapply spec_bind; [apply Hf; assumption|]. intros s' Hs'. apply IH. exact Hs'.
Qed.

(** A computation that only reads the store. *)
Lemma spec_read {A} (m : M A) :
  (forall h, snd (m h) = h) -> Spec m any.
Proof. intros H h G. rewrite H. split; [exact G | intros; exact I]. Qed.

(** *** Store primitives *)

Lemma nth_error_update (l l' : nat) (o : Obj) (h : list Obj) :
  nth_error (update l o h) l'
  = if Nat.eqb l' l then (if Nat.ltb l (List.length h) then Some o else None)
    else nth_error h l'.
Proof.
  revert l l'. induction h as [|x h IH]; intros l l'.
  - destruct l; simpl; destruct l'; simpl;
      try destruct (Nat.eqb _ _); reflexivity.
  - destruct l as [|l]; destruct l' as [|l']; simpl; try reflexivity.
    rewrite IH. reflexivity.
Qed.

Lemma length_update (l : nat) (o : Obj) (h : list Obj) :
  List.length (update l o h) = List.length h.
Proof.
  revert l. induction h as [|x h IH]; intros [|l]; simpl; try reflexivity.
  f_equal. apply IH.
Qed.

Lemma Good_update (h : Heap) (l : nat) (o : Obj) :
  Good h -> fresh (HRef l) -> freshObj o -> Good (setObject l o h).
Proof.
  intros (Hlen & Hf & Hc & Hn) Hl Ho. unfold setObject.
  split; [|split; [|split]]; cbn [objects functions].
  - rewrite length_update. exact Hlen.
  - intros l' Hl' Hs. rewrite nth_error_update.
    destruct (Nat.eqb_spec l' l) as [->|_]; [|apply Hf; assumption].
    destruct Hl as [Hl | Hl]; [lia | congruence].
  - intros l' o' Hl' E. rewrite nth_error_update in E.
    destruct (Nat.eqb l' l).
    + destruct (Nat.ltb l (List.length (objects h))); [|discriminate].
      injection E as <-. exact Ho.
    + eapply Hc; eassumption.
  - exact Hn.
Qed.

Lemma Good_alloc (h : Heap) (o : Obj) :
  Good h -> freshObj o -> Good (mkHeap (List.app (objects h) [o]) (functions h)).
Proof.
  intros (Hlen & Hf & Hc & Hn) Ho.
  split; [|split; [|split]]; cbn [objects functions].
  - rewrite length_app. lia.
  - intros l Hl Hs. rewrite nth_error_app1 by lia. apply Hf; assumption.
  - intros l o' Hl E.
    destruct (Nat.lt_ge_cases l (List.length (objects h))) as [Hlt | Hge].
    + rewrite nth_error_app1 in E by exact Hlt. eapply Hc; eassumption.
    + rewrite nth_error_app2 in E by exact Hge.
      destruct (l - List.length (objects h)) as [|k]; simpl in E.
      * injection E as <-. exact Ho.
      * destruct k; discriminate.
  - exact Hn.
Qed.

Lemma fresh_ownProps (f : Native) (fs : list (Native * HProps)) :
  Forall (fun e => freshProps (snd e)) fs -> freshProps (ownProps f fs).
Proof.
  induction 1 as [|[g ps] fs Hps _ IH]; cbn [ownProps]; [constructor|].
  destruct (JS.native_eqb f g); [exact Hps | exact IH].
Qed.

Lemma fresh_setOwnProps (f : Native) (ps : HProps) (fs : list (Native * HProps)) :
  freshProps ps -> Forall (fun e => freshProps (snd e)) fs ->
  Forall (fun e => freshProps (snd e)) (setOwnProps f ps fs).
Proof.
  intros Hps. induction 1 as [|[g qs] fs Hqs Hfs IH]; cbn [setOwnProps].
  - constructor; [exact Hps | constructor].
  - destruct (JS.native_eqb f g); constructor; auto.
Qed.

Lemma spec_alloc (o : Obj) : freshObj o -> Spec (alloc o) fresh.
Proof.
  intros Ho h G. cbn [alloc fst snd]. split.
  - apply Good_alloc; assumption.
  - intros a [= <-]. left. apply Good_length. exact G.
Qed.

Lemma fresh_lookup (k : string) (ps : HProps) :
  freshProps ps -> fresh (match lookup k ps with Some x => x | None => HUndef end).
Proof.
  induction 1 as [|[k' v] ps Hv _ IH]; simpl; [exact I|].
  destruct (String.eqb k k'); [exact Hv | exact IH].
Qed.

Lemma fresh_nth (i : nat) (xs : list HVal) :
  Forall fresh xs -> fresh (nth i xs HUndef).
Proof.
  intros H. revert i. induction H as [|x xs Hx _ IH]; intros [|i]; simpl; auto.
Qed.

Lemma fresh_char_at (s : string) (i : nat) : fresh (char_at s i).
Proof. unfold char_at. destruct (String.get i s); exact I. Qed.

Lemma fresh_funProp (f : Native) (k : string) : fresh (funProp f k).
Proof. destruct f; simpl; try exact I. destruct (String.eqb k "schemaName"); exact I. Qed.

Lemma fresh_propIn (h : Heap) (v : HVal) (k : string) :
  Good h -> fresh v -> fresh (propIn h v k).
Proof.
  intros (_ & _ & Hc & Hn) Hv. destruct v as [| | | |s|f|l]; simpl; try exact I.
  - destruct (String.eqb k "length"); [exact I|].
    destruct (JS.index_of k (String.length s)); [apply fresh_char_at | exact I].
  - pose proof (fresh_lookup k _ (fresh_ownProps f _ Hn)) as Hl.
    destruct (lookup k (ownProps f (functions h))); [exact Hl | apply fresh_funProp].
  - destruct (nth_error (objects h) l) as [[p ps|xs]|] eqn:E; [| |exact I].
    + apply fresh_lookup. exact (Hc l _ Hv E).
    + destruct (String.eqb k "length"); [exact I|].
      destruct (JS.index_of k (List.length xs)); [|exact I].
      apply fresh_nth. exact (Hc l _ Hv E).
Qed.

Lemma spec_prop (v : HVal) (k : string) : fresh v -> Spec (prop v k) fresh.
Proof.
  intros Hv h G. cbn [prop fst snd]. split; [exact G|].
  intros a [= <-]. destruct (nullish v); [exact I|]. apply fresh_propIn; assumption.
Qed.

Lemma spec_get (v : HVal) (k : string) : fresh v -> Spec (get v k) fresh.
Proof.
  intros Hv. unfold get. destruct (nullish v); [apply spec_throw | apply spec_prop, Hv].
Qed.

Lemma spec_prop_any (v : HVal) (k : string) : Spec (prop v k) any.
Proof. apply spec_read. reflexivity. Qed.

Lemma spec_get_any (v : HVal) (k : string) : Spec (get v k) any.
Proof. apply spec_read. intros h. unfold get. destruct (nullish v); reflexivity. Qed.

Lemma fresh_assign (k : string) (x : HVal) (ps : HProps) :
  fresh x -> freshProps ps -> freshProps (assign k x ps).
Proof.
  intros Hx. induction 1 as [|[k' v] ps Hv Hps IH]; simpl.
  - constructor; [exact Hx | constructor].
  - destruct (String.eqb k k'); constructor; auto.
Qed.

Lemma spec_set (v : HVal) (k : string) (x : HVal) :
  fresh v -> fresh x -> Spec (set v k x) any.
Proof.
  intros Hv Hx h G. split; [|intros; exact I].
  destruct v as [| | | | |f|l]; cbn [set snd]; try exact G.
  - destruct G as (Hlen & Hf & Hc & Hn). split; [|split; [|split]];
      cbn [objects functions]; [exact Hlen | exact Hf | exact Hc |].
    apply fresh_setOwnProps; [|exact Hn].
    apply fresh_assign; [exact Hx | apply fresh_ownProps, Hn].
  - destruct (nth_error (objects h) l) as [[p ps|xs]|] eqn:E; cbn [snd]; try exact G.
    apply Good_update; [exact G | exact Hv |].
    apply fresh_assign; [exact Hx|]. destruct G as (_ & _ & Hc & _). exact (Hc l _ Hv E).
Qed.

Lemma Forall_app_one (xs : list HVal) (x : HVal) :
  Forall fresh xs -> fresh x -> Forall fresh (List.app xs [x]).
Proof.
  intros Hxs Hx. apply Forall_app. split; [exact Hxs | constructor; [exact Hx | constructor]].
Qed.

Lemma spec_push (v x : HVal) : fresh v -> fresh x -> Spec (push v x) any.
Proof.
  intros Hv Hx h G. split; [|intros; exact I].
  destruct v as [| | | | | |l]; cbn [push snd]; try exact G.
  destruct (nth_error (objects h) l) as [[p ps|xs]|] eqn:E; cbn [snd]; try exact G.
  apply Good_update; [exact G | exact Hv |].
  apply Forall_app_one; [|exact Hx]. destruct G as (_ & _ & Hc & _). exact (Hc l _ Hv E).
Qed.

Lemma fresh_set_nth (n : nat) (x : HVal) (xs : list HVal) :
  fresh x -> Forall fresh xs -> Forall fresh (set_nth n x xs).
Proof.
  intros Hx. revert xs. induction n as [|n IH]; intros xs Hxs.
  - destruct xs; simpl; [repeat constructor; exact Hx|].
    inversion Hxs; subst. constructor; assumption.
  - destruct xs; simpl.
    + constructor; [exact I | apply IH; constructor].
    + inversion Hxs; subst. constructor; [assumption | apply IH; assumption].
Qed.

Lemma spec_setKey (recipient : HVal) (k : Flat.Key) (x : HVal) :
  fresh recipient -> fresh x -> Spec (setKey recipient k x) any.
Proof.
  intros Hv Hx h G. split; [|intros; exact I].
  destruct recipient as [| | | | | |l]; cbn [setKey snd]; try exact G.
  destruct (nth_error (objects h) l) as [[p ps|xs]|] eqn:E; [| |exact G].
  - destruct k; cbn [snd]; (apply Good_update; [exact G | exact Hv |]);
      (apply fresh_assign; [exact Hx|]); destruct G as (_ & _ & Hc & _); exact (Hc l _ Hv E).
  - destruct k; cbn [snd]; [|exact G].
    apply Good_update; [exact G | exact Hv |].
    apply fresh_set_nth; [exact Hx|]. destruct G as (_ & _ & Hc & _). exact (Hc l _ Hv E).
Qed.

Lemma spec_deref (v : HVal) : fresh v -> Spec (deref v) freshOpt.
Proof.
  intros Hv h G. cbn [deref fst snd]. split; [exact G|].
  intros a [= <-]. destruct v as [| | | | | |l]; try exact I.
  destruct (nth_error (objects h) l) eqn:E; [|exact I].
  destruct G as (_ & _ & Hc & _). exact (Hc l _ Hv E).
Qed.

Lemma spec_deref_any (v : HVal) : Spec (deref v) any.
Proof. apply spec_read. reflexivity. Qed.

Lemma fresh_indexed_from (i : nat) (xs : list HVal) :
  Forall fresh xs -> freshProps (indexed_from i xs).
Proof.
  intros H. revert i. induction H as [|x xs Hx _ IH]; intros i; simpl; constructor.
  - exact Hx.
  - apply IH.
Qed.

Lemma fresh_chars_from (i : nat) (s : string) : freshProps (chars_from i s).
Proof.
  revert i. induction s as [|c s IH]; intros i; simpl; constructor.
  - exact I.
  - apply IH.
Qed.

Lemma spec_entries (v : HVal) : fresh v -> Spec (entries v) freshProps.
Proof.
  intros Hv h G. cbn [entries fst snd]. split; [exact G|].
  intros a [= <-]. destruct v as [| | | |s|f|l]; try constructor.
  - apply fresh_chars_from.
  - destruct G as (_ & _ & _ & Hn). apply fresh_ownProps, Hn.
  - destruct (nth_error (objects h) l) as [[p ps|xs]|] eqn:E; [| |constructor];
      destruct G as (_ & _ & Hc & _); pose proof (Hc l _ Hv E) as Ho.
    + exact Ho.
    + apply fresh_indexed_from. exact Ho.
Qed.

Lemma spec_keys (v : HVal) : Spec (keys v) any.
Proof.
  apply spec_read. intros h. unfold keys. destruct (nullish v); reflexivity.
Qed.

Lemma spec_isArray (v : HVal) : Spec (isArray v) any.
Proof. apply spec_read. reflexivity. Qed.

Lemma spec_isPlainObject (v : HVal) : Spec (isPlainObject v) any.
Proof. apply spec_read. reflexivity. Qed.

Lemma spec_isObjectTag (v : HVal) : Spec (isObjectTag v) any.
Proof. apply spec_read. reflexivity. Qed.

Lemma spec_descends (safe : bool) (v : HVal) : Spec (descends safe v) any.
Proof. apply spec_read. reflexivity. Qed.

Lemma spec_isEmpty (v : HVal) : Spec (isEmpty v) any.
Proof.
  apply spec_read. intros h. unfold isEmpty. destruct (negb (truthy v)); reflexivity.
Qed.

Lemma spec_getKey (recipient : HVal) (k : Flat.Key) :
  fresh recipient -> Spec (getKey recipient k) fresh.
Proof.
  intros Hv. unfold getKey.
  eapply spec_bind; [apply spec_deref; exact Hv|].
  intros [[p ps|xs]|] Ho; simpl in Ho.
  - apply spec_prop. exact Hv.
  - destruct k; apply spec_ret; [apply fresh_nth; exact Ho | exact I].
  - apply spec_prop. exact Hv.
Qed.

(** *** [_.cloneDeep] returns new objects only *)

Lemma fresh_seen (l : nat) (memo : list (nat * HVal)) (copy : HVal) :
  freshMemo memo -> seen l memo = Some copy -> fresh copy.
Proof.
  induction 1 as [|[l' v] memo Hv _ IH]; simpl; [discriminate|].
  destruct (Nat.eqb l l'); [intros [= <-]; exact Hv | exact IH].
Qed.

Lemma spec_baseClone (fuel : nat) :
  forall (v : HVal) (memo : list (nat * HVal)),
    freshMemo memo ->
    Spec (baseClone fuel v memo)
         (fun r => (match v with HRef _ => fresh (fst r) | _ => fst r = v end)
                   /\ freshMemo (snd r)).
Proof.
  induction fuel as [|fuel IH]; intros v memo Hm; cbn [baseClone];
    [apply spec_diverge|].
  destruct v as [| | | | | |l]; try (apply spec_ret; split; [reflexivity | exact Hm]).
  destruct (seen l memo) as [copy|] eqn:Es.
  { apply spec_ret. split; [exact (fresh_seen l memo copy Hm Es) | exact Hm]. }
  eapply spec_bind; [apply spec_deref_any|].
  intros [[p ps|xs]|] _; [| |apply spec_throw].
  - eapply spec_bind; [apply spec_alloc; constructor|]. intros copy Hc.
    eapply spec_bind.
    + apply (spec_mfold _ any freshMemo).
      * clear. induction ps; constructor; [exact I | assumption].
      * constructor; [exact Hc | exact Hm].
      * intros memo' kv Hm' _.
        eapply spec_bind; [apply IH; exact Hm'|]. intros [x memo''] [Hx Hm''].
        cbn [fst snd] in Hx, Hm''.
        assert (Hfx : fresh x).
        { destruct (snd kv); try (rewrite Hx; exact I); exact Hx. }
        eapply spec_bind; [apply spec_set; assumption|]. intros _ _.
        apply spec_ret. exact Hm''.
    + intros memo' Hm'. apply spec_ret. split; [exact Hc | exact Hm'].
  - eapply spec_bind; [apply spec_alloc; constructor|]. intros copy Hc.
    eapply spec_bind.
    + apply (spec_mfold _ any freshMemo).
      * clear. induction xs; constructor; [exact I | assumption].
      * constructor; [exact Hc | exact Hm].
      * intros memo' x0 Hm' _.
        eapply spec_bind; [apply IH; exact Hm'|]. intros [x memo''] [Hx Hm''].
        cbn [fst snd] in Hx, Hm''.
        assert (Hfx : fresh x).
        { destruct x0; try (rewrite Hx; exact I); exact Hx. }
        eapply spec_bind; [apply spec_push; assumption|]. intros _ _.
        apply spec_ret. exact Hm''.
    + intros memo' Hm'. apply spec_ret. split; [exact Hc | exact Hm'].
Qed.

Lemma spec_cloneDeep (fuel : nat) (v : HVal) : Spec (cloneDeep fuel v) fresh.
Proof.
  unfold cloneDeep.
  destruct v as [| | | | |f|l];
    try (eapply spec_bind; [apply spec_baseClone; constructor|];
         intros [copy memo] [Hc _]; cbn [fst] in Hc; apply spec_ret;
         try (rewrite Hc; exact I); exact Hc).
  apply spec_alloc. constructor.
Qed.

(** *** The [flat] functions keep to new objects *)

Lemma Forall_any {A} (xs : list A) : Forall any xs.
Proof. induction xs; constructor; [exact I | assumption]. Qed.

Lemma spec_step (fuel : nat) :
  forall (safe : bool) (object : HVal) (prev : string) (output : HProps),
    fresh object -> freshProps output ->
    Spec (step fuel safe object prev output) freshProps.
Proof.
  induction fuel as [|fuel IH]; intros safe object prev output Ho Hout;
    cbn [step]; [apply spec_diverge|].
  eapply spec_bind; [apply spec_entries; exact Ho|]. intros ps Hps.
  apply (spec_mfold _ (fun kv => fresh (snd kv)) freshProps); [exact Hps | exact Hout|].
  intros out kv Hout' Hkv.
  eapply spec_bind; [apply spec_descends|]. intros [|] _.
  - apply IH; assumption.
  - apply spec_ret. apply fresh_assign; assumption.
Qed.

Lemma spec_flatten (fuel : nat) (safe : bool) (target : HVal) :
  fresh target -> Spec (flatten fuel safe target) freshProps.
Proof.
  intros Ht. unfold flatten. destruct (nullish target); [apply spec_throw|].
  apply spec_step; [exact Ht | constructor].
Qed.

Lemma fresh_addDelimiter (keyPrefix : string) (recipient target : HProps) :
  freshProps recipient -> freshProps target ->
  freshProps (addDelimiter keyPrefix recipient target).
Proof.
  unfold addDelimiter. intros Hr Ht. revert recipient Hr.
  induction Ht as [|kv target Hkv _ IH]; intros recipient Hr; cbn [fold_left];
    [exact Hr|].
  apply IH. apply fresh_assign; assumption.
Qed.

Lemma spec_normalize (fuel : nat) (target : HProps) :
  freshProps target -> Spec (normalize fuel target) freshProps.
Proof.
  intros Ht. unfold normalize.
  apply (spec_mfold _ (fun kv => fresh (snd kv)) freshProps); [exact Ht | constructor|].
  intros result kv Hr Hkv.
  eapply spec_bind; [apply spec_isObjectTag|]. intros isObject _.
  eapply spec_bind; [apply spec_isEmpty|]. intros empty _.
  destruct (negb isObject || empty).
  - apply spec_ret. apply fresh_assign; assumption.
  - eapply spec_bind; [apply spec_step; [exact Hkv | constructor]|].
    intros flat Hflat. apply spec_ret. apply fresh_addDelimiter; assumption.
Qed.

Lemma spec_unflattenLeaf (v : HVal) : fresh v -> Spec (unflattenLeaf v) fresh.
Proof.
  intros Hv. unfold unflattenLeaf.
  eapply spec_bind; [apply spec_deref_any|]. intros [[p ps|xs]|] _.
  - apply spec_alloc. constructor.
  - apply spec_ret. exact Hv.
  - apply spec_ret. exact Hv.
Qed.

Lemma spec_put (segs : list string) :
  forall (v recipient : HVal),
    fresh v -> fresh recipient -> Spec (put segs v recipient) any.
Proof.
  induction segs as [|s1 rest IH]; intros v recipient Hv Hr; cbn [put].
  - apply spec_ret. exact I.
  - destruct rest as [|s2 rest'].
    + eapply spec_bind; [apply spec_unflattenLeaf; exact Hv|]. intros leaf Hl.
      apply spec_setKey; assumption.
    + destruct (String.eqb s1 "__proto__"); [apply spec_ret; exact I|].
      eapply spec_bind; [apply spec_getKey; exact Hr|]. intros cur Hcur.
      eapply spec_bind; [apply spec_isObjectTag|]. intros isobject _.
      destruct (negb isobject && negb (strictEq cur HUndef));
        [apply spec_ret; exact I|].
      eapply (spec_bind _ _ fresh).
      * destruct (nullish cur); [|apply spec_ret; exact Hcur].
        eapply spec_bind.
        { apply spec_alloc. destruct (Flat.isNum (Flat.getkey s2)); constructor. }
        intros new Hnew.
        eapply spec_bind; [apply spec_setKey; assumption|]. intros _ _.
        apply spec_ret. exact Hnew.
      * intros cur' Hcur'. apply IH; assumption.
Qed.

Lemma spec_unflatten (fuel : nat) (target : HProps) :
  freshProps target -> Spec (unflatten fuel target) fresh.
Proof.
  intros Ht. unfold unflatten.
  eapply spec_bind; [apply spec_normalize; exact Ht|]. intros target' Ht'.
  eapply spec_bind; [apply spec_alloc; constructor|]. intros result Hres.
  eapply spec_bind.
  - apply (spec_mfold _ (fun kv => fresh (snd kv)) any); [exact Ht' | exact I|].
    intros _ kv _ Hkv. apply spec_put; assumption.
  - intros _ _. apply spec_ret. exact Hres.
Qed.

(** *** The generator keeps to new objects *)

Ltac spec_reads :=
  repeat first
    [ apply spec_ret; exact I
    | apply spec_throw
    | apply spec_diverge
    | apply spec_lift
    | eapply spec_bind;
      [ first [ apply spec_get_any | apply spec_prop_any | apply spec_keys
              | apply spec_deref_any | apply spec_isArray | apply spec_lift ]
      | intros ]
    | match goal with
      | |- Spec (if ?c then _ else _) _ => destruct c
      | |- Spec (match ?x with _ => _ end) _ => destruct x
      end ].

Lemma spec_shouldLeanIncludeVirtuals (schema : HVal) :
  Spec (shouldLeanIncludeVirtuals schema) any.
Proof.
  unfold shouldLeanIncludeVirtuals.
  eapply spec_bind; [apply spec_get_any|]. intros options _.
  eapply spec_bind; [apply spec_prop_any|]. intros toObject _.
  eapply (spec_bind _ _ any).
  - destruct (nullish toObject); [|apply spec_ret; exact I].
    eapply spec_weaken; [apply spec_alloc; constructor | intros; exact I].
  - intros toObjectOptions _. spec_reads.
Qed.

Lemma spec_parseFunctions (funcs : HVal) (modelName : string) (funcType : FuncType) :
  Spec (parseFunctions funcs modelName funcType) any.
Proof. unfold parseFunctions. spec_reads. Qed.

Lemma spec_toStr (fuel : nat) : forall v : HVal, Spec (toStr fuel v) any.
Proof.
  induction fuel as [|fuel IH]; intros v; cbn [toStr]; [apply spec_diverge|].
  destruct v as [| |[|]| | | |l]; try (apply spec_ret; exact I).
  eapply spec_bind; [apply spec_deref_any|]. intros [[p ps|xs]|] _;
    try (apply spec_ret; exact I).
  eapply spec_bind; [|intros; apply spec_ret; exact I].
  apply (spec_mfold _ any any); [apply Forall_any | exact I|].
  intros acc x _ _. eapply spec_bind; [apply IH|]. intros. apply spec_ret. exact I.
Qed.

Lemma spec_joinEnum (fuel : nat) (enum : HVal) (sep : string) :
  Spec (joinEnum fuel enum sep) any.
Proof.
  unfold joinEnum.
  eapply spec_bind; [apply spec_deref_any|]. intros [[p ps|xs]|] _;
    try apply spec_throw.
  eapply spec_bind; [|intros; apply spec_ret; exact I].
  apply (spec_mfold _ any any); [apply Forall_any | exact I|].
  intros acc x _ _. eapply spec_bind; [apply spec_toStr|].
  intros. apply spec_ret. exact I.
Qed.

Lemma spec_convertBaseTypeToTs (fuel : nat) (key : string) (val : HVal)
    (isDocument : bool) :
  Spec (convertBaseTypeToTs fuel key val isDocument) any.
Proof.
  unfold convertBaseTypeToTs.
  eapply spec_bind; [apply spec_get_any|]. intros schemaName _.
  eapply spec_bind; [apply spec_get_any|]. intros type _.
  eapply spec_bind; [apply spec_prop_any|]. intros typeSchemaName _.
  destruct (_ || _); [apply spec_ret; exact I|].
  eapply (spec_bind _ _ any).
  { destruct (strictEq type (HFun NMap));
      [apply spec_prop_any | apply spec_ret; exact I]. }
  intros mongooseType _.
  destruct (tagOf mongooseType); try (apply spec_ret; exact I).
  - eapply spec_bind; [apply spec_prop_any|]. intros enum _.
    eapply spec_bind; [apply spec_prop_any|]. intros len _.
    destruct (gtZero len); [|apply spec_ret; exact I].
    eapply spec_bind; [apply spec_joinEnum|]. intros. apply spec_ret. exact I.
  - destruct (negb _); apply spec_ret; exact I.
Qed.

Lemma spec_normalizeArray (fuel : nat) (valOriginal : HVal) :
  fresh valOriginal -> Spec (normalizeArray fuel valOriginal) freshPayload.
Proof.
  intros Hv. unfold normalizeArray.
  eapply spec_bind; [apply spec_isPlainObject|]. intros plain _.
  eapply (spec_bind _ _ fresh).
  { destruct plain; [apply spec_cloneDeep | apply spec_ret; exact Hv]. }
  intros val Hval.
  eapply spec_bind; [apply spec_get_any|]. intros required _.
  eapply spec_bind; [apply spec_isArray|]. intros [|] _.
  - eapply spec_bind; [apply spec_prop; exact Hval|]. intros val0 H0.
    eapply spec_bind; [apply spec_get_any|]. intros d _.
    apply spec_ret. exact H0.
  - eapply spec_bind; [apply spec_prop; exact Hval|]. intros type Ht.
    eapply spec_bind; [apply spec_isArray|]. intros [|] _;
      [|apply spec_ret; exact Hval].
    eapply spec_bind; [apply spec_prop; exact Ht|]. intros first Hf.
    eapply spec_bind; [apply spec_set; assumption|]. intros _ _.
    eapply spec_bind; [apply spec_prop; exact Hval|]. intros type' Ht'.
    eapply spec_bind; [apply spec_get; exact Ht'|]. intros inner Hi.
    destruct (truthy inner); [|apply spec_ret; exact Hval].
    eapply spec_bind; [apply spec_prop; exact Ht'|]. intros innerRef Hr.
    eapply (spec_bind _ _ any).
    { destruct (truthy innerRef);
        [apply spec_set; assumption | apply spec_ret; exact I]. }
    intros _ _.
    eapply spec_bind; [apply spec_prop; exact Hval|]. intros type'' Ht''.
    eapply spec_bind; [apply spec_prop; exact Ht''|]. intros inner' Hi'.
    eapply spec_bind; [apply spec_set; assumption|]. intros _ _.
    apply spec_ret. exact Hval.
Qed.

Lemma spec_resolveType (fuel : nat) (nested : HVal -> M string) (schema : HVal)
    (isDocument : bool) (key : string) (val : HVal) (isOptional : bool) :
  (forall v, fresh v -> Spec (nested v) any) ->
  fresh val ->
  Spec (resolveType fuel nested schema isDocument key val isOptional) any.
Proof.
  intros Hn Hv. unfold resolveType.
  eapply spec_bind; [apply spec_prop_any|]. intros inferred _.
  destruct (truthy inferred).
  { eapply spec_bind; [apply spec_toStr|]. intros. apply spec_ret. exact I. }
  eapply spec_bind; [apply spec_prop_any|]. intros path _.
  eapply spec_bind; [apply spec_prop_any|]. intros setters _.
  eapply spec_bind; [apply spec_prop_any|]. intros getters _.
  destruct (_ && _).
  { destruct (String.eqb key "id"); [apply spec_ret; exact I|].
    eapply (spec_bind _ _ any).
    - destruct (negb isDocument);
        [apply spec_shouldLeanIncludeVirtuals | apply spec_ret; exact I].
    - intros include _. destruct (negb include); apply spec_ret; exact I. }
  destruct (_ && _); [apply spec_ret; exact I|].
  eapply spec_bind; [apply spec_prop_any|]. intros ref _.
  destruct (truthy ref).
  { eapply (spec_bind _ _ any).
    - destruct ref; try apply spec_throw. apply spec_ret. exact I.
    - intros docRef _. eapply (spec_bind _ _ any).
      + destruct (Str.includes "." docRef); [apply spec_lift | apply spec_ret; exact I].
      + intros. apply spec_ret. exact I. }
  eapply spec_bind; [apply spec_convertBaseTypeToTs|]. intros [t|] _;
    [|apply spec_ret; exact I].
  destruct (String.eqb t "{}"); [|apply spec_ret; exact I].
  eapply spec_bind; [apply Hn; exact Hv|]. intros. apply spec_ret. exact I.
Qed.

Lemma spec_parseKey (fuel : nat) (nested : HVal -> M string) (schema : HVal)
    (isDocument : bool) (key : string) (valOriginal : HVal) :
  (forall v, fresh v -> Spec (nested v) any) ->
  fresh valOriginal ->
  Spec (parseKey fuel nested schema isDocument key valOriginal) any.
Proof.
  intros Hn Hv. unfold parseKey.
  eapply spec_bind; [apply spec_normalizeArray; exact Hv|].
  intros [[val isArr] isOptional] Hval. unfold Caller.freshPayload in Hval. cbn [fst] in Hval.
  eapply (spec_bind _ _ fresh).
  { destruct (isDirectType val); [|apply spec_ret; exact Hval].
    apply spec_alloc. constructor; [exact Hval | constructor]. }
  intros val' Hval'.
  eapply spec_bind; [apply spec_get_any|]. intros type _.
  eapply spec_bind; [apply spec_resolveType; assumption|].
  intros [[[valType|] isOptional']|] _; try (apply spec_ret; exact I).
  destruct (negb (nonEmpty valType)); [apply spec_ret; exact I|].
  eapply spec_bind; [apply spec_prop_any|]. intros. apply spec_ret. exact I.
Qed.

Lemma fresh_filter (p : string * HVal -> bool) (ps : HProps) :
  freshProps ps -> freshProps (filter p ps).
Proof.
  induction 1 as [|kv ps Hkv _ IH]; cbn [filter]; [constructor|].
  destruct (p kv); [constructor; assumption | exact IH].
Qed.

Lemma spec_processChild (recur : HVal -> string -> string -> M string)
    (isDocument isAugmented : bool) (rootPath : string)
    (st : HProps * string) (child : HVal) :
  (forall c n h, Spec (recur c n h) any) ->
  freshState st -> fresh child ->
  Spec (processChild recur isDocument isAugmented rootPath st child) freshState.
Proof.
  intros Hr Hst Hc. unfold processChild. destruct st as [flat acc].
  unfold Caller.freshState in Hst. cbn [fst] in Hst.
  eapply spec_bind; [apply spec_get; exact Hc|]. intros model Hm.
  eapply spec_bind; [apply spec_get; exact Hm|]. intros path _.
  eapply spec_bind; [apply spec_prop; exact Hm|]. intros isSubdocArray Hs.
  eapply (spec_bind _ _ any).
  { destruct path; try apply spec_throw. apply spec_ret. exact I. }
  intros path' _.
  eapply spec_bind; [apply spec_lift|]. intros name _.
  eapply spec_bind; [apply spec_get; exact Hc|]. intros cschema Hcs.
  eapply spec_bind; [apply spec_set; [exact Hcs | exact I]|]. intros _ _.
  eapply spec_bind; [apply spec_set; [exact Hcs | exact I]|]. intros _ _.
  eapply spec_bind; [apply spec_set; assumption|]. intros _ _.
  eapply (spec_bind _ _ any).
  { destruct (truthy isSubdocArray); [|apply spec_ret; exact I].
    destruct (lookup _ flat) as [[| | | | | |]|]; try (apply spec_ret; exact I).
    apply spec_set; [exact Hcs | exact I]. }
  intros _ _.
  eapply (spec_bind _ _ fresh).
  { destruct (truthy isSubdocArray); [|apply spec_ret; exact Hcs].
    apply spec_alloc. constructor; [exact Hcs | constructor]. }
  intros entry He.
  eapply spec_bind; [apply Hr|]. intros out _.
  apply spec_ret. unfold Caller.freshState. cbn [fst].
  apply fresh_filter, fresh_assign; assumption.
Qed.

Lemma spec_auxiliaryTypes (schema : HVal) (modelName : string) (isAugmented : bool) :
  Spec (auxiliaryTypes schema modelName isAugmented) any.
Proof.
  unfold auxiliaryTypes.
  eapply spec_bind; [apply spec_prop_any|]. intros q _.
  eapply spec_bind; [apply spec_keys|]. intros queryKeys _.
  eapply (spec_bind _ _ any).
  { destruct (Nat.ltb 0 (List.length queryKeys)); [|apply spec_ret; exact I].
    eapply (spec_bind _ _ any).
    - destruct (nullish q); [|apply spec_ret; exact I].
      eapply spec_weaken; [apply spec_alloc; constructor | intros; exact I].
    - intros funcs _. eapply spec_bind; [apply spec_parseFunctions|].
      intros. apply spec_ret. exact I. }
  intros template _.
  eapply spec_bind; [apply spec_prop_any|]. intros ms _.
  eapply spec_bind; [apply spec_parseFunctions|]. intros m _.
  eapply spec_bind; [apply spec_prop_any|]. intros ss _.
  eapply spec_bind; [apply spec_parseFunctions|]. intros s _.
  apply spec_ret. exact I.
Qed.

Lemma spec_parseSchema (fuel : nat) :
  forall (schemaOriginal : HVal) (modelName : option string)
         (addModel isDocument : bool) (header footer : string) (isAugmented : bool),
    Spec (parseSchema fuel schemaOriginal modelName addModel isDocument
                      header footer isAugmented) any.
Proof.
  induction fuel as [|fuel IH]; intros; cbn [parseSchema]; [apply spec_diverge|].
  eapply spec_bind; [apply spec_cloneDeep|]. intros schema Hs.
  eapply spec_bind; [apply spec_get; exact Hs|]. intros childSchemas Hcs.
  eapply spec_bind; [apply spec_prop_any|]. intros len _.
  eapply (spec_bind _ _ any).
  { destruct (gtZero len && truthyName modelName); [|apply spec_ret; exact I].
    eapply spec_bind; [apply spec_prop; exact Hs|]. intros tree Ht.
    eapply spec_bind; [apply spec_flatten; exact Ht|]. intros flat Hflat.
    eapply spec_bind; [apply spec_deref; exact Hcs|]. intros o Ho.
    eapply (spec_bind _ _ (Forall fresh)).
    { destruct o as [[p ps|xs]|]; try apply spec_throw. apply spec_ret. exact Ho. }
    intros children Hch.
    eapply spec_bind.
    { apply (spec_mfold _ fresh freshState); [exact Hch | exact Hflat|].
      intros st child Hst Hc. apply spec_processChild; [|exact Hst | exact Hc].
      intros c n h. apply IH. }
    intros [flat' childInterfaces] Hst. unfold Caller.freshState in Hst. cbn [fst] in Hst.
    eapply spec_bind; [apply spec_unflatten; exact Hst|]. intros schemaTree Htree.
    eapply spec_bind; [apply spec_set; assumption|]. intros _ _.
    apply spec_ret. exact I. }
  intros template _.
  eapply spec_bind; [apply spec_prop_any|]. intros sts _.
  eapply (spec_bind _ _ any).
  { destruct (_ && _); [|apply spec_ret; exact I].
    eapply spec_bind; [apply spec_auxiliaryTypes|]. intros. apply spec_ret. exact I. }
  intros template' _.
  eapply spec_bind; [apply spec_prop; exact Hs|]. intros schemaTree Htree.
  eapply spec_bind; [apply spec_keys|]. intros ks _.
  eapply spec_bind; [|intros; apply spec_ret; exact I].
  apply (spec_mfold _ any any); [apply Forall_any | exact I|].
  intros t key _ _.
  eapply spec_bind; [apply spec_prop; exact Htree|]. intros val Hval.
  eapply spec_bind; [|intros; apply spec_ret; exact I].
  apply spec_parseKey; [|exact Hval].
  intros v Hv.
  eapply spec_bind.
  { apply spec_alloc. constructor; [exact Hv | constructor]. }
  intros sub _. apply IH.
Qed.

End Objects.


Lemma shared_fresh (h : Heap) (shared : nat -> bool) (ps : HProps) :
  sharedProps shared ps = true -> Caller.freshProps h shared ps.
Proof.
  unfold sharedProps. induction ps as [|[k v] ps IH]; cbn [forallb snd]; intros H;
    constructor.
  - apply andb_prop in H. destruct H as [Hv _].
    destruct v; try exact I. right. exact Hv.
  - apply IH. apply andb_prop in H. apply H.
Qed.

Lemma shared_fresh_list (h : Heap) (shared : nat -> bool) (xs : list HVal) :
  forallb (sharedValue shared) xs = true -> Forall (Caller.fresh h shared) xs.
Proof.
  induction xs as [|v xs IH]; cbn [forallb]; intros H; constructor.
  - apply andb_prop in H. destruct H as [Hv _].
    destruct v; try exact I. right. exact Hv.
  - apply IH. apply andb_prop in H. apply H.
Qed.

Lemma Good_start (h : Heap) (shared : nat -> bool) :
  sharedClosed shared h -> Caller.Good h shared h.
Proof.
  intros [Hfun Hobj]. split; [apply Nat.le_refl|]. split; [reflexivity|]. split.
  - intros l o [Hl | Hl] E.
    + apply nth_error_None in Hl. congruence.
    + specialize (Hobj l o Hl E). destruct o as [p ps|xs]; cbn [sharedObj] in Hobj.
      * apply shared_fresh, Hobj.
      * apply shared_fresh_list, Hobj.
  - induction Hfun as [|e fs He _ IH]; constructor.
    + apply shared_fresh, He.
    + exact IH.
Qed.

Lemma scalar_shared (h : Heap) : scalarFunctions h -> sharedClosed nothingShared h.
Proof.
  intros Hs. split; [|discriminate].
  unfold scalarFunctions in Hs.
  induction Hs as [|[g qs] fs He _ IH]; constructor; [|exact IH].
  unfold sharedProps. cbn [snd] in *.
  induction He as [|[k v] ps Hv _ IHp]; [reflexivity|].
  cbn [forallb snd]. rewrite IHp. destruct v; try reflexivity. discriminate.
Qed.



(** Without the clone of its caller, [parseKey] does edit the object it is
    given: a field value that is not a plain object is normalised in
    place. *)
Lemma parseKey_edits_in_place :
  let h := mkHeap [OArr [HFun NNumber]; OObj false [("type", HRef 0)]] [] in
  objects (snd (parseKey 3 (fun _ => ret EmptyString) HUndef false "scores" (HRef 1) h))
  = [OArr [HFun NNumber]; OObj false [("type", HFun NNumber)]].
Proof. reflexivity. Qed.

End Frame.

(** On the user schema the two embeddings produce the same text, and the run
    over the store allocates copies. *)
Lemma store_and_tree_agree_on_user :
  fst (Store.parseSchema 9 Caller.userRef (Some "User") false false
                         "{" "}" false Caller.userStore)
  = parseSchema 9 Caller.userSchema (Some "User") false false "{" "}" false
  /\ List.length (Store.objects Caller.userStore)
     < List.length
         (Store.objects
            (snd (Store.parseSchema 9 Caller.userRef (Some "User") false false
                                    "{" "}" false Caller.userStore))).
Proof. split; vm_compute; [reflexivity | lia]. Qed.

(** A child schema held under two paths is one object, and each of the two
    hoisting steps marks it with a name: over the store both fields are
    typed by the name given last.  In a tree every occurrence is a tree of
    its own, and each field is typed by the name of its own path. *)
Lemma child_schema_under_two_paths :
  Caller.outputEnds ("{home?: UserWork;" ++ nl ++ "work?: UserWork;" ++ nl ++ "}")
    (fst (Store.parseSchema 9 (Store.HRef 8) (Some "User") false false "{" "}" false
                            Caller.twoPaths)) = true
  /\ Caller.outputEnds ("{home?: UserHome;" ++ nl ++ "work?: UserWork;" ++ nl ++ "}")
       (parseSchema 9 Caller.twoTrees (Some "User") false false "{" "}" false) = true.
Proof. split; vm_compute; reflexivity. Qed.

(** ** A second call *)

Module Repeat.
Import Store.
Import Extension.

Section Move.

Variable n : nat.
Variable extra : list Obj.

Local Abbreviation place := (Extension.place extra).
Local Abbreviation move := (Extension.move n extra).
Local Abbreviation moveV := (Extension.moveV n extra).
Local Abbreviation moveP := (Extension.moveP n extra).
Local Abbreviation moveO := (Extension.moveO n extra).
Local Abbreviation moveF := (Extension.moveF n extra).
Local Abbreviation splice := (Extension.splice n extra).
Local Abbreviation moveH := (Extension.moveH n extra).
Local Abbreviation moveM := (Extension.moveM n extra).
Local Abbreviation movePair := (Extension.movePair n extra).
Local Abbreviation movePayload := (Extension.movePayload n extra).
Local Abbreviation moveState := (Extension.moveState n extra).
Local Abbreviation Sim := (Extension.Sim n extra).

(** *** The renaming *)

Lemma move_eqb (l l' : nat) : Nat.eqb (move l) (move l') = Nat.eqb l l'.
Proof.
  unfold Extension.move, Extension.place.
  destruct (Nat.ltb_spec l n), (Nat.ltb_spec l' n);
    destruct (Nat.eqb_spec l l') as [->|Hne];
    try reflexivity; try (apply Nat.eqb_refl); try lia; apply Nat.eqb_neq; lia.
Qed.

Lemma truthy_move (v : HVal) : truthy (moveV v) = truthy v.
Proof. destruct v; reflexivity. Qed.

Lemma nullish_move (v : HVal) : nullish (moveV v) = nullish v.
Proof. destruct v; reflexivity. Qed.

Lemma gtZero_move (v : HVal) : gtZero (moveV v) = gtZero v.
Proof. destruct v; reflexivity. Qed.

Lemma tagOf_move (v : HVal) : tagOf (moveV v) = tagOf v.
Proof. destruct v; reflexivity. Qed.

Lemma isDirectType_move (v : HVal) : isDirectType (moveV v) = isDirectType v.
Proof. destruct v; reflexivity. Qed.

Lemma strictEq_move (v c : HVal) :
  Caller.scalar c = true -> strictEq (moveV v) c = strictEq v c.
Proof. destruct v, c; try reflexivity. discriminate. Qed.

Lemma coalesce_move (a b : HVal) :
  coalesce (moveV a) (moveV b) = moveV (coalesce a b).
Proof. unfold coalesce. rewrite nullish_move. destruct (nullish a); reflexivity. Qed.

Lemma lookup_move (k : string) (ps : HProps) :
  lookup k (moveP ps) = option_map moveV (lookup k ps).
Proof.
  induction ps as [|[k' v] ps IH]; simpl; [reflexivity|].
  destruct (String.eqb k k'); [reflexivity | exact IH].
Qed.

Lemma assign_move (k : string) (x : HVal) (ps : HProps) :
  assign k (moveV x) (moveP ps) = moveP (assign k x ps).
Proof.
  induction ps as [|[k' v] ps IH]; simpl; [reflexivity|].
  destruct (String.eqb k k'); simpl; [reflexivity|]. f_equal. exact IH.
Qed.

Lemma nth_move (i : nat) (xs : list HVal) :
  nth i (List.map moveV xs) HUndef = moveV (nth i xs HUndef).
Proof.
  revert i. induction xs as [|x xs IH]; intros [|i]; simpl; try reflexivity.
  apply IH.
Qed.

Lemma ownProps_move (f : Native) (fs : list (Native * HProps)) :
  ownProps f (moveF fs) = moveP (ownProps f fs).
Proof.
  induction fs as [|[g ps] fs IH]; simpl; [reflexivity|].
  destruct (JS.native_eqb f g); [reflexivity | exact IH].
Qed.

Lemma setOwnProps_move (f : Native) (ps : HProps) (fs : list (Native * HProps)) :
  setOwnProps f (moveP ps) (moveF fs) = moveF (setOwnProps f ps fs).
Proof.
  induction fs as [|[g qs] fs IH]; simpl; [reflexivity|].
  destruct (JS.native_eqb f g); simpl; [reflexivity|]. f_equal. exact IH.
Qed.

Lemma funProp_move (f : Native) (k : string) : moveV (funProp f k) = funProp f k.
Proof.
  destruct f; try reflexivity. simpl. destruct (String.eqb k "schemaName"); reflexivity.
Qed.

Lemma char_at_move (s : string) (i : nat) : moveV (char_at s i) = char_at s i.
Proof. unfold char_at. destruct (String.get i s); reflexivity. Qed.

Lemma indexed_from_move (i : nat) (xs : list HVal) :
  indexed_from i (List.map moveV xs) = moveP (indexed_from i xs).
Proof.
  revert i. induction xs as [|x xs IH]; intros i; simpl; [reflexivity|].
  f_equal. apply IH.
Qed.

Lemma chars_from_move (i : nat) (s : string) : moveP (chars_from i s) = chars_from i s.
Proof.
  revert i. induction s as [|c s IH]; intros i; simpl; [reflexivity|].
  f_equal. apply IH.
Qed.

Lemma keys_move (ps : HProps) : List.map fst (moveP ps) = List.map fst ps.
Proof. induction ps as [|[k v] ps IH]; simpl; [reflexivity|]. f_equal. exact IH. Qed.

Lemma seen_move (l : nat) (memo : list (nat * HVal)) :
  seen (move l) (moveM memo) = option_map moveV (seen l memo).
Proof.
  induction memo as [|[l' v] memo IH]; simpl; [reflexivity|].
  rewrite move_eqb. destruct (Nat.eqb l l'); [reflexivity | exact IH].
Qed.

Lemma set_nth_move (i : nat) (x : HVal) (xs : list HVal) :
  set_nth i (moveV x) (List.map moveV xs) = List.map moveV (set_nth i x xs).
Proof.
  revert xs. induction i as [|i IH]; intros [|y xs]; simpl; try reflexivity.
  - f_equal. exact (IH []).
  - f_equal. apply IH.
Qed.

(** *** The larger store *)

Lemma update_map (l : nat) (o : Obj) (os : list Obj) :
  update l (moveO o) (List.map moveO os) = List.map moveO (update l o os).
Proof.
  revert l. induction os as [|x os IH]; intros [|l]; simpl; try reflexivity.
  f_equal. apply IH.
Qed.

Lemma update_past (l : nat) (o : Obj) (pre os : list Obj) :
  update (l + List.length pre) o (List.app pre os) = List.app pre (update l o os).
Proof.
  induction pre as [|x pre IH]; simpl.
  - rewrite Nat.add_0_r. reflexivity.
  - rewrite Nat.add_succ_r. simpl. f_equal. exact IH.
Qed.

Lemma nth_error_past (l : nat) (pre os : list Obj) :
  nth_error (List.app pre os) (l + List.length pre) = nth_error os l.
Proof.
  induction pre as [|x pre IH]; simpl.
  - rewrite Nat.add_0_r. reflexivity.
  - rewrite Nat.add_succ_r. simpl. exact IH.
Qed.

Lemma splice_cons (k : nat) (x : Obj) (os : list Obj) :
  splice (S k) (x :: os) = moveO x :: splice k os.
Proof. reflexivity. Qed.

Lemma place_S (k l : nat) : place (S k) (S l) = S (place k l).
Proof.
  unfold Extension.place. change (Nat.ltb (S l) (S k)) with (Nat.ltb l k).
  destruct (Nat.ltb l k); reflexivity.
Qed.

Lemma nth_error_splice (k : nat) :
  forall (os : list Obj) (l : nat),
    k <= List.length os ->
    nth_error (splice k os) (place k l) = option_map moveO (nth_error os l).
Proof.
  induction k as [|k IH]; intros os l Hk.
  - unfold Extension.place, Extension.splice. cbn [Nat.ltb Nat.leb firstn skipn List.map List.app].
    rewrite nth_error_past. apply nth_error_map.
  - destruct os as [|x os]; [simpl in Hk; lia|].
    rewrite splice_cons. destruct l as [|l]; [reflexivity|].
    rewrite place_S. simpl. apply IH. simpl in Hk. lia.
Qed.

Lemma update_splice (k : nat) :
  forall (os : list Obj) (l : nat) (o : Obj),
    k <= List.length os ->
    update (place k l) (moveO o) (splice k os) = splice k (update l o os).
Proof.
  induction k as [|k IH]; intros os l o Hk.
  - unfold Extension.place, Extension.splice. cbn [Nat.ltb Nat.leb firstn skipn List.map List.app].
    rewrite update_past, update_map. reflexivity.
  - destruct os as [|x os]; [simpl in Hk; lia|].
    destruct l as [|l]; [reflexivity|].
    rewrite place_S. cbn [update]. rewrite !splice_cons. f_equal.
    apply IH. simpl in Hk. lia.
Qed.

Lemma splice_snoc (k : nat) :
  forall (os : list Obj) (o : Obj),
    k <= List.length os ->
    splice k (List.app os [o]) = List.app (splice k os) [moveO o].
Proof.
  induction k as [|k IH]; intros os o Hk.
  - unfold Extension.splice. cbn [firstn skipn List.map List.app].
    rewrite map_app, app_assoc. reflexivity.
  - destruct os as [|x os]; [simpl in Hk; lia|].
    change (List.app (x :: os) [o]) with (x :: List.app os [o]).
    rewrite !splice_cons. simpl. f_equal. apply IH. simpl in Hk. lia.
Qed.

Lemma length_splice (k : nat) (os : list Obj) :
  List.length (splice k os) = List.length os + List.length extra.
Proof.
  unfold Extension.splice. rewrite !length_app, !length_map.
  rewrite <- (firstn_skipn k os) at 3. rewrite length_app. lia.
Qed.

Lemma nth_error_moveH (h : Heap) (l : nat) :
  n <= List.length (objects h) ->
  nth_error (objects (moveH h)) (move l) = option_map moveO (nth_error (objects h) l).
Proof. intros Hn. apply (nth_error_splice n), Hn. Qed.

Lemma setObject_moveH (h : Heap) (l : nat) (o : Obj) :
  n <= List.length (objects h) ->
  setObject (move l) (moveO o) (moveH h) = moveH (setObject l o h).
Proof.
  intros Hn. unfold setObject, Extension.moveH. cbn [objects functions]. f_equal.
  apply (update_splice n), Hn.
Qed.

Lemma propIn_moveH (h : Heap) (v : HVal) (k : string) :
  n <= List.length (objects h) ->
  propIn (moveH h) (moveV v) k = moveV (propIn h v k).
Proof.
  intros Hn. destruct v as [| | | |s|f|l]; try reflexivity.
  - simpl. destruct (String.eqb k "length"); [reflexivity|].
    destruct (JS.index_of k (String.length s)); [|reflexivity].
    symmetry. apply char_at_move.
  - cbn [Extension.moveV propIn Extension.moveH functions].
    rewrite ownProps_move, lookup_move.
    destruct (lookup k (ownProps f (functions h))); [reflexivity|].
    symmetry. apply funProp_move.
  - cbn [Extension.moveV propIn]. rewrite nth_error_moveH by exact Hn.
    destruct (nth_error (objects h) l) as [[p ps|xs]|]; cbn [option_map Extension.moveO];
      [| |reflexivity].
    + rewrite lookup_move. destruct (lookup k ps); reflexivity.
    + rewrite length_map. destruct (String.eqb k "length"); [reflexivity|].
      destruct (JS.index_of k (List.length xs)); [|reflexivity].
      apply nth_move.
Qed.

(** *** Computations *)

Lemma mapRes_same {A} (r : Res A) : mapRes same r = r.
Proof. destruct r; reflexivity. Qed.

Lemma sim_ret {A} (mv : A -> A) (a b : A) : mv a = b -> Sim mv (ret a) (ret b).
Proof. intros <- h Hn. split; [apply Nat.le_refl | reflexivity]. Qed.

Lemma sim_throw {A} (mv : A -> A) : Sim mv throw throw.
Proof. intros h Hn. split; [apply Nat.le_refl | reflexivity]. Qed.

Lemma sim_diverge {A} (mv : A -> A) : Sim mv diverge diverge.
Proof. intros h Hn. split; [apply Nat.le_refl | reflexivity]. Qed.

Lemma sim_lift {A} (r : Res A) : Sim same (lift r) (lift r).
Proof.
  intros h Hn. split; [apply Nat.le_refl|]. unfold lift. cbn [fst snd].
  rewrite mapRes_same. reflexivity.
Qed.

Lemma sim_bind {A B} (mvA : A -> A) (mvB : B -> B) (mA mB : M A) (kA kB : A -> M B) :
  Sim mvA mA mB ->
  (forall a, Sim mvB (kA a) (kB (mvA a))) ->
  Sim mvB (mbind mA kA) (mbind mB kB).
Proof.
  intros Hm Hk h Hn. unfold mbind.
  destruct (Hm h Hn) as [Hlen E]. rewrite E.
  destruct (mA h) as [[a|e|] h']; cbn [fst snd mapRes] in *.
  - destruct (Hk a h' (Nat.le_trans _ _ _ Hn Hlen)) as [Hlen' E'].
    split; [exact (Nat.le_trans _ _ _ Hlen Hlen') | exact E'].
  - split; [exact Hlen | reflexivity].
  - split; [exact Hlen | reflexivity].
Qed.

Lemma sim_mfold {X S} (mvX : X -> X) (mvS : S -> S) (f g : S -> X -> M S)
    (xs : list X) :
  (forall s x, Sim mvS (f s x) (g (mvS s) (mvX x))) ->
  forall s, Sim mvS (mfold f xs s) (mfold g (List.map mvX xs) (mvS s)).
Proof.
  intros Hf. induction xs as [|x xs IH]; intros s; cbn [mfold List.map].
  - apply sim_ret. reflexivity.
  - eapply sim_bind; [apply Hf|]. intros s'. apply IH.
Qed.

(** A computation that only reads the store. *)
Lemma sim_read {A} (mv : A -> A) (fA fB : Heap -> A) :
  (forall h, n <= List.length (objects h) -> fB (moveH h) = mv (fA h)) ->
  Sim mv (fun h => (Ok (fA h), h)) (fun h => (Ok (fB h), h)).
Proof.
  intros H h Hn. split; [apply Nat.le_refl|]. cbn [fst snd mapRes].
  rewrite (H h Hn). reflexivity.
Qed.

(** *** Store primitives *)

Lemma sim_alloc (o : Obj) : Sim moveV (alloc o) (alloc (moveO o)).
Proof.
  intros h Hn. unfold alloc. cbn [fst snd objects mapRes]. split.
  - rewrite length_app. lia.
  - unfold Extension.moveH. cbn [objects functions].
    rewrite (splice_snoc n) by exact Hn. rewrite length_splice.
    unfold Extension.moveV, Extension.move, Extension.place.
    destruct (Nat.ltb_spec (List.length (objects h)) n); [lia | reflexivity].
Qed.

Lemma sim_prop (v : HVal) (k : string) : Sim moveV (prop v k) (prop (moveV v) k).
Proof.
  apply sim_read. intros h Hn. rewrite nullish_move.
  destruct (nullish v); [reflexivity | apply propIn_moveH, Hn].
Qed.

Lemma sim_get (v : HVal) (k : string) : Sim moveV (get v k) (get (moveV v) k).
Proof.
  unfold get. rewrite nullish_move. destruct (nullish v);
    [apply sim_throw | apply sim_prop].
Qed.

Lemma sim_set (v : HVal) (k : string) (x : HVal) :
  Sim same (set v k x) (set (moveV v) k (moveV x)).
Proof.
  intros h Hn. destruct v as [| | | | |f|l];
    try (split; [apply Nat.le_refl | reflexivity]).
  - split; [apply Nat.le_refl|]. cbn [set Extension.moveV fst snd mapRes].
    unfold Extension.moveH at 1 2 3. cbn [objects functions].
    rewrite ownProps_move, assign_move, setOwnProps_move. reflexivity.
  - cbn [set Extension.moveV]. rewrite nth_error_moveH by exact Hn.
    destruct (nth_error (objects h) l) as [[p ps|xs]|];
      cbn [option_map Extension.moveO fst snd mapRes];
      try (split; [apply Nat.le_refl | reflexivity]).
    split.
    + unfold setObject. cbn [objects]. rewrite Frame.length_update. apply Nat.le_refl.
    + rewrite assign_move.
      change (OObj p (moveP (assign k x ps))) with (moveO (OObj p (assign k x ps))).
      rewrite setObject_moveH by exact Hn. reflexivity.
Qed.

Lemma sim_deref (v : HVal) :
  Sim (option_map moveO) (deref v) (deref (moveV v)).
Proof.
  apply sim_read. intros h Hn. destruct v as [| | | | | |l]; try reflexivity.
  apply nth_error_moveH, Hn.
Qed.

Lemma sim_entries (v : HVal) : Sim moveP (entries v) (entries (moveV v)).
Proof.
  apply sim_read. intros h Hn. destruct v as [| | | |s|f|l]; try reflexivity.
  - symmetry. apply chars_from_move.
  - apply ownProps_move.
  - cbn [Extension.moveV]. rewrite nth_error_moveH by exact Hn.
    destruct (nth_error (objects h) l) as [[p ps|xs]|]; cbn [option_map Extension.moveO];
      [reflexivity | apply indexed_from_move | reflexivity].
Qed.

Lemma sim_keys (v : HVal) : Sim same (keys v) (keys (moveV v)).
Proof.
  unfold keys. rewrite nullish_move. destruct (nullish v); [apply sim_throw|].
  eapply sim_bind; [apply sim_entries|]. intros ps. apply sim_ret.
  symmetry. apply keys_move.
Qed.

Lemma sim_isArray (v : HVal) : Sim same (isArray v) (isArray (moveV v)).
Proof.
  unfold isArray. eapply sim_bind; [apply sim_deref|].
  intros [[p ps|xs]|]; apply sim_ret; reflexivity.
Qed.

Lemma sim_isPlainObject (v : HVal) :
  Sim same (isPlainObject v) (isPlainObject (moveV v)).
Proof.
  unfold isPlainObject. eapply sim_bind; [apply sim_deref|].
  intros [[p ps|xs]|]; apply sim_ret; reflexivity.
Qed.

Lemma sim_isObjectTag (v : HVal) : Sim same (isObjectTag v) (isObjectTag (moveV v)).
Proof.
  unfold isObjectTag. eapply sim_bind; [apply sim_deref|].
  intros [[p ps|xs]|]; apply sim_ret; reflexivity.
Qed.

Lemma sim_descends (safe : bool) (v : HVal) :
  Sim same (descends safe v) (descends safe (moveV v)).
Proof.
  unfold descends. eapply sim_bind; [apply sim_deref|].
  intros [[p [|kv ps]|[|x xs]]|]; apply sim_ret; reflexivity.
Qed.

Lemma sim_isEmpty (v : HVal) : Sim same (isEmpty v) (isEmpty (moveV v)).
Proof.
  unfold isEmpty. rewrite truthy_move. destruct (negb (truthy v));
    [apply sim_ret; reflexivity|].
  eapply sim_bind; [apply sim_deref|].
  intros [[p [|kv ps]|[|x xs]]|]; apply sim_ret; reflexivity.
Qed.

Lemma sim_push (v x : HVal) : Sim same (push v x) (push (moveV v) (moveV x)).
Proof.
  intros h Hn. destruct v as [| | | | | |l];
    try (split; [apply Nat.le_refl | reflexivity]).
  cbn [push Extension.moveV]. rewrite nth_error_moveH by exact Hn.
  destruct (nth_error (objects h) l) as [[p ps|xs]|];
    cbn [option_map Extension.moveO fst snd mapRes];
    try (split; [apply Nat.le_refl | reflexivity]).
  split.
  - unfold setObject. cbn [objects]. rewrite Frame.length_update. apply Nat.le_refl.
  - change [moveV x] with (List.map moveV [x]). rewrite <- map_app.
    change (OArr (List.map moveV (List.app xs [x]))) with (moveO (OArr (List.app xs [x]))).
    rewrite setObject_moveH by exact Hn. reflexivity.
Qed.

Lemma sim_getKey (recipient : HVal) (k : Flat.Key) :
  Sim moveV (getKey recipient k) (getKey (moveV recipient) k).
Proof.
  unfold getKey. eapply sim_bind; [apply sim_deref|].
  intros [[p ps|xs]|]; cbn [option_map Extension.moveO]; try apply sim_prop.
  destruct k; apply sim_ret; [symmetry; apply nth_move | reflexivity].
Qed.

Lemma sim_setKey (recipient : HVal) (k : Flat.Key) (x : HVal) :
  Sim same (setKey recipient k x) (setKey (moveV recipient) k (moveV x)).
Proof.
  intros h Hn. destruct recipient as [| | | | | |l];
    try (split; [apply Nat.le_refl | reflexivity]).
  cbn [setKey Extension.moveV]. rewrite nth_error_moveH by exact Hn.
  destruct (nth_error (objects h) l) as [[p ps|xs]|];
    cbn [option_map Extension.moveO];
    try (split; [apply Nat.le_refl | reflexivity]).
  - assert (E : forall k0,
               (Ok tt, setObject (move l) (OObj p (assign k0 (moveV x) (moveP ps))) (moveH h))
               = (mapRes same (Ok tt), moveH (setObject l (OObj p (assign k0 x ps)) h))).
    { intros k0. rewrite assign_move.
      change (OObj p (moveP (assign k0 x ps))) with (moveO (OObj p (assign k0 x ps))).
      rewrite setObject_moveH by exact Hn. reflexivity. }
    destruct k; cbn [fst snd]; (split;
      [unfold setObject; cbn [objects]; rewrite Frame.length_update; apply Nat.le_refl
      | apply E]).
  - destruct k; cbn [fst snd mapRes];
      try (split; [apply Nat.le_refl | reflexivity]).
    split.
    + unfold setObject. cbn [objects]. rewrite Frame.length_update. apply Nat.le_refl.
    + rewrite set_nth_move.
      change (OArr (List.map moveV (set_nth n0 x xs))) with (moveO (OArr (set_nth n0 x xs))).
      rewrite setObject_moveH by exact Hn. reflexivity.
Qed.

(** *** [_.cloneDeep] *)

Lemma sim_baseClone (fuel : nat) :
  forall (v : HVal) (memo : list (nat * HVal)),
    Sim movePair (baseClone fuel v memo) (baseClone fuel (moveV v) (moveM memo)).
Proof.
  induction fuel as [|fuel IH]; intros v memo; cbn [baseClone]; [apply sim_diverge|].
  destruct v as [| | | | | |l]; try (apply sim_ret; reflexivity).
  cbn [Extension.moveV]. rewrite seen_move.
  destruct (seen l memo) as [copy|]; cbn [option_map]; [apply sim_ret; reflexivity|].
  eapply sim_bind; [apply (sim_deref (HRef l))|].
  intros [[p ps|xs]|]; cbn [option_map Extension.moveO]; [| |apply sim_throw].
  - eapply sim_bind; [apply (sim_alloc (OObj p []))|]. intros copy.
    eapply sim_bind.
    + apply (sim_mfold (fun kv => (fst kv, moveV (snd kv))) moveM
               _ _ ps) with (s := (l, copy) :: memo).
      intros memo' kv. cbn [fst snd].
      eapply sim_bind; [apply IH|]. intros [x memo'']. cbn [Extension.movePair fst snd].
      eapply sim_bind; [apply sim_set|]. intros _. apply sim_ret. reflexivity.
    + intros memo'. apply sim_ret. reflexivity.
  - eapply sim_bind; [apply (sim_alloc (OArr []))|]. intros copy.
    eapply sim_bind.
    + apply (sim_mfold moveV moveM _ _ xs) with (s := (l, copy) :: memo).
      intros memo' x0.
      eapply sim_bind; [apply IH|]. intros [x memo'']. cbn [Extension.movePair fst snd].
      eapply sim_bind; [apply sim_push|]. intros _. apply sim_ret. reflexivity.
    + intros memo'. apply sim_ret. reflexivity.
Qed.

Lemma sim_cloneDeep (fuel : nat) (v : HVal) :
  Sim moveV (cloneDeep fuel v) (cloneDeep fuel (moveV v)).
Proof.
  unfold cloneDeep.
  destruct v as [| | | | |f|l]; cbn [Extension.moveV].
  6: apply (sim_alloc (OObj true [])).
  all: match goal with
       | |- Extension.Sim _ _ _ (mbind (baseClone _ ?v _) _) _ =>
           eapply sim_bind; [apply (sim_baseClone fuel v [])|]
       end.
  all: intros [copy memo]; unfold Extension.movePair; cbn [fst snd].
  all: apply sim_ret; reflexivity.
Qed.

(** *** The [flat] package *)

Lemma sim_step (fuel : nat) :
  forall (safe : bool) (object : HVal) (prev : string) (output : HProps),
    Sim moveP (step fuel safe object prev output)
        (step fuel safe (moveV object) prev (moveP output)).
Proof.
  induction fuel as [|fuel IH]; intros safe object prev output; cbn [step];
    [apply sim_diverge|].
  eapply sim_bind; [apply sim_entries|]. intros ps.
  apply (sim_mfold (fun kv => (fst kv, moveV (snd kv))) moveP).
  intros out kv. cbn [fst snd].
  eapply sim_bind; [apply sim_descends|]. intros [|]; unfold same.
  - apply IH.
  - apply sim_ret. symmetry. apply assign_move.
Qed.

Lemma sim_flatten (fuel : nat) (safe : bool) (target : HVal) :
  Sim moveP (flatten fuel safe target) (flatten fuel safe (moveV target)).
Proof.
  unfold flatten. rewrite nullish_move. destruct (nullish target); [apply sim_throw|].
  apply (sim_step fuel safe target EmptyString []).
Qed.

Lemma sim_unflattenLeaf (v : HVal) :
  Sim moveV (unflattenLeaf v) (unflattenLeaf (moveV v)).
Proof.
  unfold unflattenLeaf. eapply sim_bind; [apply sim_deref|].
  intros [[p ps|xs]|]; cbn [option_map Extension.moveO].
  - apply (sim_alloc (OObj true [])).
  - apply sim_ret. reflexivity.
  - apply sim_ret. reflexivity.
Qed.

Lemma sim_put (segs : list string) :
  forall (v recipient : HVal),
    Sim same (put segs v recipient) (put segs (moveV v) (moveV recipient)).
Proof.
  induction segs as [|s1 rest IH]; intros v recipient; cbn [put];
    [apply sim_ret; reflexivity|].
  destruct rest as [|s2 rest'].
  - eapply sim_bind; [apply sim_unflattenLeaf|]. intros leaf. apply sim_setKey.
  - destruct (String.eqb s1 "__proto__"); [apply sim_ret; reflexivity|].
    eapply sim_bind; [apply sim_getKey|]. intros cur.
    eapply sim_bind; [apply sim_isObjectTag|]. intros isobject. unfold same.
    rewrite strictEq_move by reflexivity.
    destruct (negb isobject && negb (strictEq cur HUndef));
      [apply sim_ret; reflexivity|].
    eapply (sim_bind moveV).
    + rewrite nullish_move. destruct (nullish cur); [|apply sim_ret; reflexivity].
      eapply sim_bind.
      { destruct (Flat.isNum (Flat.getkey s2));
          [apply (sim_alloc (OArr [])) | apply (sim_alloc (OObj true []))]. }
      intros new. eapply sim_bind; [apply sim_setKey|]. intros _.
      apply sim_ret. reflexivity.
    + intros cur'. apply IH.
Qed.

Lemma addDelimiter_move (keyPrefix : string) (recipient target : HProps) :
  addDelimiter keyPrefix (moveP recipient) (moveP target)
  = moveP (addDelimiter keyPrefix recipient target).
Proof.
  unfold addDelimiter. revert recipient.
  induction target as [|kv target IH]; intros recipient;
    cbn [fold_left List.map Extension.moveP fst snd]; [reflexivity|].
  rewrite assign_move. apply IH.
Qed.

Lemma sim_normalize (fuel : nat) (target : HProps) :
  Sim moveP (normalize fuel target) (normalize fuel (moveP target)).
Proof.
  unfold normalize.
  apply (sim_mfold (fun kv => (fst kv, moveV (snd kv))) moveP _ _ target) with (s := []).
  intros result kv. cbn [fst snd].
  eapply sim_bind; [apply sim_isObjectTag|]. intros isObject.
  eapply sim_bind; [apply sim_isEmpty|]. intros empty. unfold same.
  destruct (negb isObject || empty).
  - apply sim_ret. symmetry. apply assign_move.
  - eapply sim_bind; [apply (sim_step fuel false (snd kv) EmptyString [])|].
    intros flat. apply sim_ret. symmetry. apply addDelimiter_move.
Qed.

Lemma sim_unflatten (fuel : nat) (target : HProps) :
  Sim moveV (unflatten fuel target) (unflatten fuel (moveP target)).
Proof.
  unfold unflatten.
  eapply sim_bind; [apply sim_normalize|]. intros target'.
  eapply sim_bind; [apply (sim_alloc (OObj true []))|]. intros result.
  eapply sim_bind.
  - apply (sim_mfold (fun kv => (fst kv, moveV (snd kv))) same _ _ target') with (s := tt).
    intros s kv. cbn [fst snd]. apply sim_put.
  - intros _. apply sim_ret. reflexivity.
Qed.

(** *** The generator *)

Lemma sim_shouldLeanIncludeVirtuals (schema : HVal) :
  Sim same (shouldLeanIncludeVirtuals schema) (shouldLeanIncludeVirtuals (moveV schema)).
Proof.
  unfold shouldLeanIncludeVirtuals.
  eapply sim_bind; [apply sim_get|]. intros options.
  eapply sim_bind; [apply sim_prop|]. intros toObject.
  eapply (sim_bind moveV).
  { rewrite nullish_move. destruct (nullish toObject);
      [apply (sim_alloc (OObj true [])) | apply sim_ret; reflexivity]. }
  intros toObjectOptions.
  eapply sim_bind; [apply sim_get|]. intros virtuals.
  eapply sim_bind; [apply sim_get|]. intros getters.
  rewrite !truthy_move, !strictEq_move by reflexivity.
  destruct (_ || _); apply sim_ret; reflexivity.
Qed.

Lemma sim_parseFunctions (funcs : HVal) (modelName : string) (funcType : FuncType) :
  Sim same (parseFunctions funcs modelName funcType)
      (parseFunctions (moveV funcs) modelName funcType).
Proof.
  unfold parseFunctions. eapply sim_bind; [apply sim_keys|]. intros ks.
  apply sim_ret. reflexivity.
Qed.

Lemma sim_toStr (fuel : nat) : forall v : HVal, Sim same (toStr fuel v) (toStr fuel (moveV v)).
Proof.
  induction fuel as [|fuel IH]; intros v; cbn [toStr]; [apply sim_diverge|].
  destruct v as [| |[|]| | | |l]; try (apply sim_ret; reflexivity).
  cbn [Extension.moveV]. eapply sim_bind; [apply (sim_deref (HRef l))|].
  intros [[p ps|xs]|]; cbn [option_map Extension.moveO];
    try (apply sim_ret; reflexivity).
  eapply sim_bind; [|intros strs; apply sim_ret; reflexivity].
  apply (sim_mfold moveV same _ _ xs) with (s := []).
  intros acc x. eapply sim_bind; [apply IH|]. intros s. apply sim_ret. reflexivity.
Qed.

Lemma sim_joinEnum (fuel : nat) (enum : HVal) (sep : string) :
  Sim same (joinEnum fuel enum sep) (joinEnum fuel (moveV enum) sep).
Proof.
  unfold joinEnum. eapply sim_bind; [apply sim_deref|].
  intros [[p ps|xs]|]; cbn [option_map Extension.moveO]; try apply sim_throw.
  eapply sim_bind; [|intros strs; apply sim_ret; reflexivity].
  apply (sim_mfold moveV same _ _ xs) with (s := []).
  intros acc x. eapply sim_bind; [apply sim_toStr|]. intros s. apply sim_ret. reflexivity.
Qed.

Lemma sim_convertBaseTypeToTs (fuel : nat) (key : string) (val : HVal)
    (isDocument : bool) :
  Sim same (convertBaseTypeToTs fuel key val isDocument)
      (convertBaseTypeToTs fuel key (moveV val) isDocument).
Proof.
  unfold convertBaseTypeToTs.
  eapply sim_bind; [apply sim_get|]. intros schemaName.
  eapply sim_bind; [apply sim_get|]. intros type.
  eapply sim_bind; [apply sim_prop|]. intros typeSchemaName.
  rewrite !strictEq_move by reflexivity.
  destruct (_ || _); [apply sim_ret; reflexivity|].
  eapply (sim_bind moveV).
  { destruct (strictEq type (HFun NMap)); [apply sim_prop | apply sim_ret; reflexivity]. }
  intros mongooseType. rewrite tagOf_move.
  destruct (tagOf mongooseType); try (apply sim_ret; reflexivity).
  - eapply sim_bind; [apply sim_prop|]. intros enum.
    eapply sim_bind; [apply sim_prop|]. intros len. rewrite gtZero_move.
    destruct (gtZero len); [|apply sim_ret; reflexivity].
    eapply sim_bind; [apply sim_joinEnum|]. intros joined. apply sim_ret. reflexivity.
  - destruct (negb _); apply sim_ret; reflexivity.
Qed.

Lemma sim_normalizeArray (fuel : nat) (valOriginal : HVal) :
  Sim movePayload (normalizeArray fuel valOriginal)
      (normalizeArray fuel (moveV valOriginal)).
Proof.
  unfold normalizeArray.
  eapply sim_bind; [apply sim_isPlainObject|]. intros plain. unfold same.
  eapply (sim_bind moveV).
  { destruct plain; [apply sim_cloneDeep | apply sim_ret; reflexivity]. }
  intros val.
  eapply sim_bind; [apply sim_get|]. intros required. rewrite truthy_move.
  eapply sim_bind; [apply sim_isArray|]. intros [|]; unfold same.
  - eapply sim_bind; [apply sim_prop|]. intros val0.
    eapply sim_bind; [apply sim_get|]. intros d.
    apply sim_ret. unfold Extension.movePayload. cbn [fst snd].
    change (HBool false) with (moveV (HBool false)) at 2.
    rewrite coalesce_move, truthy_move. reflexivity.
  - eapply sim_bind; [apply sim_prop|]. intros type.
    eapply sim_bind; [apply sim_isArray|]. intros [|]; unfold same;
      [|apply sim_ret; reflexivity].
    eapply sim_bind; [apply sim_prop|]. intros first.
    eapply sim_bind; [apply sim_set|]. intros _.
    eapply sim_bind; [apply sim_prop|]. intros type'.
    eapply sim_bind; [apply sim_get|]. intros inner. rewrite truthy_move.
    destruct (truthy inner); [|apply sim_ret; reflexivity].
    eapply sim_bind; [apply sim_prop|]. intros innerRef.
    eapply (sim_bind same).
    { rewrite truthy_move. destruct (truthy innerRef);
        [apply sim_set | apply sim_ret; reflexivity]. }
    intros _.
    eapply sim_bind; [apply sim_prop|]. intros type''.
    eapply sim_bind; [apply sim_prop|]. intros inner'.
    eapply sim_bind; [apply sim_set|]. intros _.
    apply sim_ret. reflexivity.
Qed.

Lemma sim_resolveType (fuel : nat) (nested : HVal -> M string) (schema : HVal)
    (isDocument : bool) (key : string) (val : HVal) (isOptional : bool) :
  (forall v, Sim same (nested v) (nested (moveV v))) ->
  Sim same (resolveType fuel nested schema isDocument key val isOptional)
      (resolveType fuel nested (moveV schema) isDocument key (moveV val) isOptional).
Proof.
  intros Hn. unfold resolveType.
  eapply sim_bind; [apply sim_prop|]. intros inferred. rewrite truthy_move.
  destruct (truthy inferred).
  { eapply sim_bind; [apply sim_toStr|]. intros name. apply sim_ret. reflexivity. }
  eapply sim_bind; [apply sim_prop|]. intros path.
  eapply sim_bind; [apply sim_prop|]. intros setters.
  eapply sim_bind; [apply sim_prop|]. intros getters.
  rewrite !truthy_move.
  destruct (_ && _).
  { destruct (String.eqb key "id"); [apply sim_ret; reflexivity|].
    eapply (sim_bind same).
    - destruct (negb isDocument);
        [apply sim_shouldLeanIncludeVirtuals | apply sim_ret; reflexivity].
    - intros include. unfold same. destruct (negb include); apply sim_ret; reflexivity. }
  destruct (_ && _); [apply sim_ret; reflexivity|].
  eapply sim_bind; [apply sim_prop|]. intros ref. rewrite truthy_move.
  destruct (truthy ref).
  { eapply (sim_bind same).
    - destruct ref; try apply sim_throw. apply sim_ret. reflexivity.
    - intros docRef. unfold same. eapply (sim_bind same).
      + destruct (Str.includes "." docRef); [apply sim_lift | apply sim_ret; reflexivity].
      + intros docRef'. apply sim_ret. reflexivity. }
  eapply sim_bind; [apply sim_convertBaseTypeToTs|]. intros [t|]; unfold same;
    [|apply sim_ret; reflexivity].
  destruct (String.eqb t "{}"); [|apply sim_ret; reflexivity].
  eapply sim_bind; [apply Hn|]. intros valType. apply sim_ret. reflexivity.
Qed.

Lemma sim_parseKey (fuel : nat) (nested : HVal -> M string) (schema : HVal)
    (isDocument : bool) (key : string) (valOriginal : HVal) :
  (forall v, Sim same (nested v) (nested (moveV v))) ->
  Sim same (parseKey fuel nested schema isDocument key valOriginal)
      (parseKey fuel nested (moveV schema) isDocument key (moveV valOriginal)).
Proof.
  intros Hn. unfold parseKey.
  eapply sim_bind; [apply sim_normalizeArray|].
  intros [[val isArr] isOptional]. cbn [Extension.movePayload fst snd].
  eapply (sim_bind moveV).
  { rewrite isDirectType_move. destruct (isDirectType val);
      [|apply sim_ret; reflexivity].
    apply (sim_alloc (OObj true [("type", val)])). }
  intros val'.
  eapply sim_bind; [apply sim_get|]. intros type.
  rewrite strictEq_move by reflexivity.
  eapply sim_bind; [apply sim_resolveType; exact Hn|].
  intros [[[valType|] isOptional']|]; unfold same; try (apply sim_ret; reflexivity).
  destruct (negb (nonEmpty valType)); [apply sim_ret; reflexivity|].
  eapply sim_bind; [apply sim_prop|]. intros isSubdocArray. rewrite truthy_move.
  apply sim_ret. reflexivity.
Qed.

Lemma filter_move (p : string -> bool) (ps : HProps) :
  filter (fun kv => p (fst kv)) (moveP ps) = moveP (filter (fun kv => p (fst kv)) ps).
Proof.
  induction ps as [|[k v] ps IH]; cbn [filter List.map Extension.moveP fst snd];
    [reflexivity|].
  destruct (p k); cbn [List.map fst snd]; [f_equal|]; exact IH.
Qed.

Lemma sim_processChild (recur : HVal -> string -> string -> M string)
    (isDocument isAugmented : bool) (rootPath : string)
    (st : HProps * string) (child : HVal) :
  (forall c name header, Sim same (recur c name header) (recur (moveV c) name header)) ->
  Sim moveState (processChild recur isDocument isAugmented rootPath st child)
      (processChild recur isDocument isAugmented rootPath (moveState st) (moveV child)).
Proof.
  intros Hr. unfold processChild. destruct st as [flat acc].
  cbn [Extension.moveState fst snd].
  eapply sim_bind; [apply sim_get|]. intros model.
  eapply sim_bind; [apply sim_get|]. intros path.
  eapply sim_bind; [apply sim_prop|]. intros isSubdocArray.
  eapply (sim_bind same).
  { destruct path; try apply sim_throw. apply sim_ret. reflexivity. }
  intros path'. unfold same.
  eapply sim_bind; [apply sim_lift|]. intros name. unfold same.
  eapply sim_bind; [apply sim_get|]. intros cschema.
  eapply sim_bind; [apply (sim_set cschema _ (HBool true))|]. intros _.
  eapply sim_bind; [apply (sim_set cschema _ (HStr name))|]. intros _.
  eapply sim_bind; [apply sim_set|]. intros _.
  rewrite !truthy_move, lookup_move.
  eapply (sim_bind same).
  { destruct (truthy isSubdocArray); [|apply sim_ret; reflexivity].
    destruct (lookup _ flat) as [[| | | | | |]|]; cbn [option_map Extension.moveV];
      try (apply sim_ret; reflexivity).
    apply (sim_set cschema _ (HBool true)). }
  intros _.
  eapply (sim_bind moveV).
  { destruct (truthy isSubdocArray); [|apply sim_ret; reflexivity].
    apply (sim_alloc (OArr [cschema])). }
  intros entry.
  eapply sim_bind; [apply Hr|]. intros out. unfold same.
  apply sim_ret. unfold Extension.moveState. cbn [fst snd]. f_equal.
  rewrite assign_move.
  symmetry.
  apply (filter_move
           (fun k => negb (Str.startsWith path' k
                           && Nat.ltb (String.length path') (String.length k)))).
Qed.

Lemma sim_auxiliaryTypes (schema : HVal) (modelName : string) (isAugmented : bool) :
  Sim same (auxiliaryTypes schema modelName isAugmented)
      (auxiliaryTypes (moveV schema) modelName isAugmented).
Proof.
  unfold auxiliaryTypes.
  eapply sim_bind; [apply sim_prop|]. intros q.
  eapply sim_bind; [apply sim_keys|]. intros queryKeys. unfold same.
  eapply (sim_bind same).
  { destruct (Nat.ltb 0 (List.length queryKeys)); [|apply sim_ret; reflexivity].
    eapply (sim_bind moveV).
    - rewrite nullish_move. destruct (nullish q);
        [apply (sim_alloc (OObj true [])) | apply sim_ret; reflexivity].
    - intros funcs. eapply sim_bind; [apply sim_parseFunctions|].
      intros qs. apply sim_ret. reflexivity. }
  intros template. unfold same.
  eapply sim_bind; [apply sim_prop|]. intros ms.
  eapply sim_bind; [apply sim_parseFunctions|]. intros m. unfold same.
  eapply sim_bind; [apply sim_prop|]. intros ss.
  eapply sim_bind; [apply sim_parseFunctions|]. intros s.
  apply sim_ret. reflexivity.
Qed.

Lemma sim_parseSchema (fuel : nat) :
  forall (schemaOriginal : HVal) (modelName : option string)
         (addModel isDocument : bool) (header footer : string) (isAugmented : bool),
    Sim same
        (parseSchema fuel schemaOriginal modelName addModel isDocument
                     header footer isAugmented)
        (parseSchema fuel (moveV schemaOriginal) modelName addModel isDocument
                     header footer isAugmented).
Proof.
  induction fuel as [|fuel IH]; intros; cbn [parseSchema]; [apply sim_diverge|].
  eapply sim_bind; [apply sim_cloneDeep|]. intros schema.
  eapply sim_bind; [apply sim_get|]. intros childSchemas.
  eapply sim_bind; [apply sim_prop|]. intros len. rewrite gtZero_move.
  eapply (sim_bind same).
  { destruct (gtZero len && truthyName modelName); [|apply sim_ret; reflexivity].
    eapply sim_bind; [apply sim_prop|]. intros tree.
    eapply sim_bind; [apply sim_flatten|]. intros flat.
    eapply sim_bind; [apply sim_deref|]. intros o.
    eapply (sim_bind (List.map moveV)).
    { destruct o as [[p ps|xs]|]; cbn [option_map Extension.moveO];
        try apply sim_throw. apply sim_ret. reflexivity. }
    intros children.
    eapply (sim_bind moveState).
    { apply (sim_mfold moveV moveState _ _ children) with (s := (flat, EmptyString)).
      intros st child. apply sim_processChild.
      intros c name h. apply IH. }
    intros [flat' childInterfaces]. cbn [Extension.moveState fst snd].
    eapply sim_bind; [apply sim_unflatten|]. intros schemaTree.
    eapply sim_bind; [apply sim_set|]. intros _.
    apply sim_ret. reflexivity. }
  intros template. unfold same.
  eapply sim_bind; [apply sim_prop|]. intros sts. rewrite truthy_move.
  eapply (sim_bind same).
  { destruct (_ && _); [|apply sim_ret; reflexivity].
    eapply sim_bind; [apply sim_auxiliaryTypes|]. intros aux. apply sim_ret. reflexivity. }
  intros template'. unfold same.
  eapply sim_bind; [apply sim_prop|]. intros schemaTree.
  eapply sim_bind; [apply sim_keys|]. intros ks. unfold same.
  eapply sim_bind; [|intros t; apply sim_ret; reflexivity].
  rewrite <- (map_id ks) at 2.
  apply (sim_mfold (fun k : string => k) same _ _ ks).
  intros t key.
  eapply sim_bind; [apply sim_prop|]. intros val.
  eapply sim_bind; [|intros line; apply sim_ret; reflexivity].
  apply sim_parseKey.
  intros v.
  eapply sim_bind; [apply (sim_alloc (OObj true [("tree", v)]))|].
  intros sub. apply IH.
Qed.

End Move.

(** *** The store after the first call *)

Lemma moveV_inStore (n : nat) (extra : list Obj) (v : HVal) :
  inStore n v = true -> moveV n extra v = v.
Proof.
  destruct v as [| | | | | |l]; try reflexivity. cbn [inStore moveV].
  unfold move, place. intros ->. reflexivity.
Qed.

Lemma moveP_propsIn (n : nat) (extra : list Obj) (ps : HProps) :
  propsIn n ps = true -> moveP n extra ps = ps.
Proof.
  unfold propsIn. induction ps as [|[k v] ps IH]; cbn [forallb List.map moveP fst snd];
    [reflexivity|].
  intros H. apply andb_prop in H. destruct H as [Hv Hps].
  rewrite (moveV_inStore n extra v Hv). f_equal. apply IH, Hps.
Qed.

Lemma moveO_objIn (n : nat) (extra : list Obj) (o : Obj) :
  objIn n o = true -> moveO n extra o = o.
Proof.
  destruct o as [p ps|xs]; cbn [objIn moveO]; intros H.
  - rewrite (moveP_propsIn n extra ps H). reflexivity.
  - f_equal. induction xs as [|x xs IH]; [reflexivity|].
    cbn [forallb] in H. apply andb_prop in H. destruct H as [Hx Hxs].
    cbn [List.map]. rewrite (moveV_inStore n extra x Hx). f_equal. apply IH, Hxs.
Qed.

Lemma moveO_closed (n : nat) (extra os : list Obj) :
  forallb (objIn n) os = true -> List.map (moveO n extra) os = os.
Proof.
  induction os as [|o os IH]; cbn [forallb List.map]; [reflexivity|].
  intros H. apply andb_prop in H. destruct H as [Ho Hos].
  rewrite (moveO_objIn n extra o Ho). f_equal. apply IH, Hos.
Qed.

Lemma moveF_closed (n : nat) (extra : list Obj) (fs : list (Native * HProps)) :
  forallb (fun e => propsIn n (snd e)) fs = true -> moveF n extra fs = fs.
Proof.
  induction fs as [|[f ps] fs IH]; cbn [forallb List.map moveF fst snd]; [reflexivity|].
  intros H. apply andb_prop in H. destruct H as [Hps Hfs].
  rewrite (moveP_propsIn n extra ps Hps). f_equal. apply IH, Hfs.
Qed.

(** The store the second call runs on is the store of the first call with
    the objects allocated since behind those of the caller. *)
Lemma second_store (h h1 : Heap) :
  closed h = true -> sameCaller h h1 ->
  moveH (List.length (objects h)) (skipn (List.length (objects h)) (objects h1)) h = h1.
Proof.
  intros Hc [Ho Hf]. unfold closed in Hc. apply andb_prop in Hc.
  destruct Hc as [Hco Hcf].
  unfold moveH, splice. rewrite firstn_all, skipn_all.
  cbn [List.map]. rewrite app_nil_r.
  rewrite (moveO_closed _ _ _ Hco), (moveF_closed _ _ _ Hcf).
  rewrite <- Ho at 1. rewrite firstn_skipn, <- Hf.
  destruct h1; reflexivity.
Qed.

Lemma parseSchema_again (fuel : nat) (h h1 : Heap)
    (schemaOriginal : HVal) (modelName : option string)
    (addModel isDocument : bool) (header footer : string) (isAugmented : bool) :
  closed h = true ->
  inStore (List.length (objects h)) schemaOriginal = true ->
  sameCaller h h1 ->
  fst (parseSchema fuel schemaOriginal modelName addModel isDocument
                   header footer isAugmented h1)
  = fst (parseSchema fuel schemaOriginal modelName addModel isDocument
                     header footer isAugmented h).
Proof.
  intros Hc Hs Hsame.
  pose proof (sim_parseSchema (List.length (objects h))
                (skipn (List.length (objects h)) (objects h1)) fuel
                schemaOriginal modelName addModel isDocument header footer isAugmented
                h (Nat.le_refl _)) as [_ E].
  rewrite (moveV_inStore _ _ _ Hs), (second_store h h1 Hc Hsame) in E.
  rewrite E. cbn [fst]. apply mapRes_same.
Qed.




End Repeat.

(** ** Rendering known call signatures *)

Lemma line_of_append (a b : string) :
  oneLine a -> Regex.line_of (a ++ b) = a ++ Regex.line_of b.
Proof.
  unfold oneLine. induction a as [|c a IH]; simpl; [reflexivity|].
  destruct (Regex.is_line_end c); [discriminate|].
  intros [= H]. now rewrite (IH H).
Qed.

Lemma oneLine_append (a b : string) : oneLine a -> oneLine b -> oneLine (a ++ b).
Proof. intros Ha Hb. unfold oneLine. rewrite line_of_append by exact Ha. now rewrite Hb. Qed.

Lemma split_last_arrow (params ret : string) :
  arrowFree ret ->
  Regex.split_last (params ++ ") => " ++ ret) = Some (params, ret).
Proof.
  unfold arrowFree. intros Hr.
  assert (Hbase : Regex.split_last (") => " ++ ret) = Some (EmptyString, ret)).
  { cbn [append Regex.split_last]. rewrite Hr.
    destruct ret as [|c ret']; cbn; reflexivity. }
  induction params as [|c params IH]; [exact Hbase|].
  change (String c params ++ ") => " ++ ret)
    with (String c (params ++ ") => " ++ ret)).
  cbn [Regex.split_last]. rewrite IH. reflexivity.
Qed.

Lemma skip_word_stop (receiver rest : string) :
  allWord receiver = true ->
  match rest with
  | EmptyString => True
  | String c _ => Str.is_word c = false
  end ->
  Regex.skip_word (receiver ++ rest) = rest.
Proof.
  intros Hw Hr. induction receiver as [|c receiver IH]; simpl.
  - destruct rest as [|c r]; [reflexivity|]. simpl. now rewrite Hr.
  - simpl in Hw. apply andb_prop in Hw as [Hc Hw]. rewrite Hc. apply IH, Hw.
Qed.

Lemma paramsPart_length (params : string) :
  Nat.ltb 0 (String.length params) = negb (String.eqb params EmptyString).
Proof. destruct params; reflexivity. Qed.

Lemma getFuncType_of_captures (sig : string) (funcType : FuncType)
    (modelName params ret : string) :
  Regex.exec sig = Some (params, ret) ->
  getFuncType sig funcType modelName = boundSignature funcType modelName params ret.
Proof.
  intros E. unfold getFuncType. rewrite E. cbn [option_map fst snd].
  rewrite paramsPart_length.
  unfold boundSignature, arrowWith, queryGeneric.
  destruct funcType, (String.eqb params EmptyString); cbn [negb];
    rewrite ?append_assoc; cbn [append]; rewrite ?append_assoc; reflexivity.
Qed.

Lemma exec_paren (body : string) :
  Regex.exec (String "(" body)
  = match Regex.split_last (Regex.skip_this (Regex.line_of body)) with
    | Some m => Some m
    | None => Regex.exec body
    end.
Proof. reflexivity. Qed.

Lemma word_not_line_end (c : ascii) :
  Str.is_word c = true -> Regex.is_line_end c = false.
Proof.
  intros H. unfold Regex.is_line_end.
  destruct (Ascii.eqb_spec c (ascii_of_nat 10)); [subst; discriminate|].
  destruct (Ascii.eqb_spec c (ascii_of_nat 13)); [subst; discriminate|].
  reflexivity.
Qed.

Lemma allWord_oneLine (s : string) : allWord s = true -> oneLine s.
Proof.
  unfold oneLine. induction s as [|c s IH]; [reflexivity|].
  simpl. intros H. apply andb_prop in H as [Hc Hs].
  rewrite (word_not_line_end c Hc), (IH Hs). reflexivity.
Qed.

Lemma skip_this_receiver (receiver rest : string) :
  allWord receiver = true ->
  match rest with
  | EmptyString => True
  | String c _ => Str.is_word c = false
  end ->
  Regex.skip_this ("this: " ++ receiver ++ rest)
  = if Str.startsWith ", " rest then Str.drop 2 rest else rest.
Proof.
  intros Hw Hr. unfold Regex.skip_this.
  change (Str.startsWith "this: " ("this: " ++ receiver ++ rest)) with true.
  change (Str.drop 6 ("this: " ++ receiver ++ rest)) with (receiver ++ rest).
  cbv iota. rewrite (skip_word_stop receiver rest Hw Hr). reflexivity.
Qed.

(** X1: a known signature that names a receiver keeps its parameters and its
    return type and gets the receiver of its role instead: the document type
    for a method, the model type for a static; a query helper gets the
    generic query type as receiver and as return type. *)
Theorem getFuncType_rebinds_receiver (funcType : FuncType)
    (modelName receiver params ret : string) :
  allWord receiver = true ->
  oneLine params -> oneLine ret -> arrowFree ret ->
  getFuncType (arrowWith receiver params ret) funcType modelName
  = boundSignature funcType modelName params ret.
Proof.
  intros Hw Hp Hr Hf. apply getFuncType_of_captures.
  set (tail := (if String.eqb params EmptyString then EmptyString
                else ", " ++ params) ++ ") => " ++ ret).
  change (arrowWith receiver params ret)
    with (String "(" ("this: " ++ receiver ++ tail)).
  rewrite exec_paren.
  assert (Htail : oneLine tail).
  { unfold tail. apply oneLine_append.
    - destruct (String.eqb params EmptyString); [reflexivity|].
      apply oneLine_append; [reflexivity | exact Hp].
    - apply oneLine_append; [reflexivity | exact Hr]. }
  assert (Hline : oneLine ("this: " ++ receiver ++ tail)).
  { apply oneLine_append; [reflexivity|].
    apply oneLine_append; [apply allWord_oneLine, Hw | exact Htail]. }
  rewrite Hline.
  rewrite skip_this_receiver;
    [|exact Hw | unfold tail; destruct (String.eqb params EmptyString); reflexivity].
  unfold tail. destruct (String.eqb_spec params EmptyString) as [-> | Hne].
  - change (Str.startsWith ", " (EmptyString ++ ") => " ++ ret)) with false.
    cbv iota. rewrite (split_last_arrow EmptyString ret Hf). reflexivity.
  - change (Str.startsWith ", " ((", " ++ params) ++ ") => " ++ ret)) with true.
    change (Str.drop 2 ((", " ++ params) ++ ") => " ++ ret))
      with (params ++ ") => " ++ ret).
    cbv iota. rewrite (split_last_arrow params ret Hf). reflexivity.
Qed.

Lemma getFuncType_rebinds_receiver_witness :
  allWord "UserDocument" = true
  /\ oneLine "age: number, cb: (ok: boolean) => void"
  /\ oneLine "Promise<boolean>" /\ arrowFree "Promise<boolean>"
  /\ getFuncType
       "(this: UserDocument, age: number, cb: (ok: boolean) => void) => Promise<boolean>"
       statics "User"
     = "(this: UserModel, age: number, cb: (ok: boolean) => void) => Promise<boolean>".
Proof.
  split; [reflexivity|]. split; [reflexivity|]. split; [reflexivity|].
  split; [reflexivity|].
  apply (getFuncType_rebinds_receiver statics "User" "UserDocument"
           "age: number, cb: (ok: boolean) => void" "Promise<boolean>");
    reflexivity.
Defined.

Lemma startsWith_this_arrow (params ret : string) :
  Str.startsWith "this: " params = false ->
  Str.startsWith "this: " (params ++ ") => " ++ ret) = false.
Proof.
  intros H.
  destruct params as [|c1 [|c2 [|c3 [|c4 [|c5 [|c6 params]]]]]];
    cbn [append Str.startsWith] in H |- *;
    repeat match goal with
           | c : ascii |- context [Ascii.eqb ?a ?c] =>
               destruct (Ascii.eqb_spec a c); [subst c|]
           end;
    cbn in H |- *; try reflexivity; try exact H.
Qed.

(** X2: a known signature that names no receiver keeps its parameters and its
    return type and gets the receiver of its role as first parameter; a query
    helper also gets the generic query type as return type. *)
Theorem getFuncType_adds_receiver (funcType : FuncType)
    (modelName params ret : string) :
  Str.startsWith "this: " params = false ->
  oneLine params -> oneLine ret -> arrowFree ret ->
  getFuncType (arrowPlain params ret) funcType modelName
  = boundSignature funcType modelName params ret.
Proof.
  intros Ht Hp Hr Hf. apply getFuncType_of_captures.
  change (arrowPlain params ret) with (String "(" (params ++ ") => " ++ ret)).
  rewrite exec_paren.
  assert (Hline : oneLine (params ++ ") => " ++ ret)).
  { apply oneLine_append; [exact Hp|]. apply oneLine_append; [reflexivity | exact Hr]. }
  rewrite Hline. unfold Regex.skip_this.
  rewrite (startsWith_this_arrow params ret Ht).
  rewrite (split_last_arrow params ret Hf). reflexivity.
Qed.

Lemma getFuncType_adds_receiver_witness :
  Str.startsWith "this: " "name: string" = false
  /\ oneLine "name: string" /\ oneLine "Promise<UserDocument>"
  /\ arrowFree "Promise<UserDocument>"
  /\ getFuncType "(name: string) => Promise<UserDocument>" query "User"
     = "<Q extends mongoose.Query<any, UserDocument>>(this: Q, name: string) => Q".
Proof.
  split; [reflexivity|]. split; [reflexivity|]. split; [reflexivity|].
  split; [reflexivity|].
  apply (getFuncType_adds_receiver query "User" "name: string" "Promise<UserDocument>");
    reflexivity.
Defined.

Lemma split_last_sound (s before after : string) :
  Regex.split_last s = Some (before, after) -> s = before ++ ") => " ++ after.
Proof.
  revert before. induction s as [|c s IH]; intros before; [discriminate|].
  cbn [Regex.split_last].
  destruct (Regex.split_last s) as [[b a]|].
  - intros [= <- <-]. cbn [append]. f_equal. apply IH. reflexivity.
  - destruct (Str.startsWith ") => " (String c s)) eqn:E; [|discriminate].
    intros [= <- <-]. cbn [append].
    destruct s as [|c2 [|c3 [|c4 [|c5 s']]]]; cbn [Str.startsWith] in E;
      repeat match type of E with
             | context [Ascii.eqb ?a ?b] =>
                 destruct (Ascii.eqb_spec a b); [subst|]; cbn [andb] in E
             end; try discriminate.
    reflexivity.
Qed.

Lemma startsWith_append (p b : string) : Str.startsWith p (p ++ b) = true.
Proof.
  induction p as [|c p IH]; [reflexivity|].
  cbn [append Str.startsWith]. now rewrite Ascii.eqb_refl, IH.
Qed.

Lemma includes_start (p s : string) :
  Str.startsWith p s = true -> Str.includes p s = true.
Proof. intros H. destruct s; cbn [Str.includes]; rewrite H; reflexivity. Qed.

Lemma includes_append (p a b : string) :
  Str.includes p (a ++ p ++ b) = true.
Proof.
  induction a as [|c a IH].
  - change (Str.includes p (p ++ b) = true).
    apply includes_start, startsWith_append.
  - cbn [append Str.includes]. rewrite IH. apply orb_true_r.
Qed.

Lemma line_of_prefix (s : string) : exists rest, s = Regex.line_of s ++ rest.
Proof.
  induction s as [|c s [rest IH]]; [exists EmptyString; reflexivity|].
  cbn [Regex.line_of]. destruct (Regex.is_line_end c).
  - exists (String c s). reflexivity.
  - exists rest. cbn [append]. f_equal. exact IH.
Qed.

Lemma skip_word_suffix (s : string) : exists pre, s = pre ++ Regex.skip_word s.
Proof.
  induction s as [|c s [pre IH]]; [exists EmptyString; reflexivity|].
  cbn [Regex.skip_word]. destruct (Str.is_word c).
  - exists (String c pre). cbn [append]. f_equal. exact IH.
  - exists EmptyString. reflexivity.
Qed.

Lemma drop_suffix (n : nat) (s : string) : exists pre, s = pre ++ Str.drop n s.
Proof.
  revert s. induction n as [|n IH]; intros s; [exists EmptyString; reflexivity|].
  destruct s as [|c s]; [exists EmptyString; reflexivity|].
  destruct (IH s) as [pre H]. exists (String c pre). cbn [append Str.drop].
  f_equal. exact H.
Qed.

Lemma skip_this_suffix (s : string) : exists pre, s = pre ++ Regex.skip_this s.
Proof.
  unfold Regex.skip_this.
  destruct (Str.startsWith "this: " s); [|exists EmptyString; reflexivity].
  destruct (drop_suffix 6 s) as [p1 H1].
  destruct (skip_word_suffix (Str.drop 6 s)) as [p2 H2].
  destruct (Str.startsWith ", " (Regex.skip_word (Str.drop 6 s))).
  - destruct (drop_suffix 2 (Regex.skip_word (Str.drop 6 s))) as [p3 H3].
    exists (p1 ++ p2 ++ p3). rewrite !append_assoc, <- H3, <- H2. exact H1.
  - exists (p1 ++ p2). rewrite append_assoc, <- H2. exact H1.
Qed.

Lemma exec_none (s : string) :
  Str.includes ") => " s = false -> Regex.exec s = None.
Proof.
  induction s as [|c s IH]; [reflexivity|].
  intros H. cbn [Regex.exec].
  assert (Hs : Str.includes ") => " s = false).
  { cbn [Str.includes] in H. apply orb_false_elim in H as [_ H]. exact H. }
  destruct (Ascii.eqb c "("); [|apply IH, Hs].
  destruct (Regex.split_last (Regex.skip_this (Regex.line_of s))) as [[b a]|] eqn:E;
    [|apply IH, Hs].
  exfalso. apply split_last_sound in E.
  destruct (line_of_prefix s) as [rest Hl].
  destruct (skip_this_suffix (Regex.line_of s)) as [pre Hp].
  rewrite E in Hp. rewrite Hp in Hl.
  rewrite Hl in Hs. rewrite !append_assoc in Hs.
  rewrite <- (append_assoc pre b) in Hs.
  rewrite (includes_append ") => " (pre ++ b) (a ++ rest)) in Hs. discriminate.
Qed.

(** X3: a signature text that holds no ") => " (a type name, say) is not
    read: the member is rendered with the receiver of its role alone and,
    for methods and statics, the return type [any]. *)
Theorem getFuncType_unreadable (sig : string) (funcType : FuncType)
    (modelName : string) :
  Str.includes ") => " sig = false ->
  getFuncType sig funcType modelName
  = match funcType with
    | methods => "(this: " ++ modelName ++ "Document) => any"
    | statics => "(this: " ++ modelName ++ "Model) => any"
    | query => queryGeneric modelName ++ "(this: Q) => Q"
    end.
Proof.
  intros H. unfold getFuncType. rewrite (exec_none sig H).
  unfold queryGeneric. destruct funcType; cbn [option_map];
    rewrite ?append_assoc; reflexivity.
Qed.

Lemma getFuncType_unreadable_witness :
  Str.includes ") => " "Handler<User>" = false
  /\ getFuncType "Handler<User>" methods "User" = "(this: UserDocument) => any".
Proof.
  split; [reflexivity|].
  apply (getFuncType_unreadable "Handler<User>" methods "User"). reflexivity.
Defined.

(** ** Edge behaviour of the leaf functions *)

Lemma mapM_capitalize_throws (segs : list string) :
  existsb (fun p => String.eqb p EmptyString) segs = true ->
  mapM capitalize segs = Throw "TypeError".
Proof.
  induction segs as [|p segs IH]; [discriminate|].
  cbn [existsb mapM]. destruct p as [|c r]; [reflexivity|].
  cbn [String.eqb orb capitalize bind]. intros H. rewrite (IH H). reflexivity.
Qed.

(** X4: [getSubDocName] throws on a path with an empty segment (the empty
    path, a leading or trailing dot, two dots in a row), whatever the owning
    name: the first character of that segment is undefined. *)
Theorem getSubDocName_empty_segment (path modelName : string) :
  existsb (fun p => String.eqb p EmptyString) (Str.split "." path) = true ->
  getSubDocName path modelName = Throw "TypeError".
Proof.
  intros H. unfold getSubDocName. rewrite (mapM_capitalize_throws _ H). reflexivity.
Qed.

Lemma getSubDocName_empty_segment_witness :
  existsb (fun p => String.eqb p EmptyString) (Str.split "." "address.") = true
  /\ getSubDocName "address." "User" = Throw "TypeError".
Proof.
  split; [reflexivity|].
  apply (getSubDocName_empty_segment "address." "User"). reflexivity.
Defined.

(** X5: a schema that has no [options], or whose options have no [toObject],
    keeps virtual properties out of the lean shape; asking for a schema that
    is undefined throws. *)
Theorem shouldLeanIncludeVirtuals_default (schema : Val) :
  (JS.nullish schema = false ->
   JS.nullish (JS.optGet (JS.prop schema "options") "toObject") = true ->
   shouldLeanIncludeVirtuals schema = Ok false)
  /\ (JS.nullish schema = true ->
      shouldLeanIncludeVirtuals schema = Throw "TypeError").
Proof.
  split; intros Hn.
  - intros Ht. unfold shouldLeanIncludeVirtuals, JS.get. rewrite Hn. cbn [bind].
    unfold JS.coalesce. rewrite Ht. reflexivity.
  - unfold shouldLeanIncludeVirtuals, JS.get. rewrite Hn. reflexivity.
Qed.

Lemma shouldLeanIncludeVirtuals_default_witness :
  let schema := VObj false [("options", VObj true [("timestamps", VBool true)])] in
  (JS.nullish schema = false
   /\ JS.nullish (JS.optGet (JS.prop schema "options") "toObject") = true
   /\ shouldLeanIncludeVirtuals schema = Ok false)
  /\ (JS.nullish VUndef = true
      /\ shouldLeanIncludeVirtuals VUndef = Throw "TypeError").
Proof.
  cbv zeta. split.
  - split; [reflexivity|]. split; [reflexivity|].
    apply (proj1 (shouldLeanIncludeVirtuals_default
                    (VObj false [("options", VObj true [("timestamps", VBool true)])])));
      reflexivity.
  - split; [reflexivity|].
    apply (proj2 (shouldLeanIncludeVirtuals_default VUndef)). reflexivity.
Defined.

(** ** More on the structural patch pass *)

Lemma benign_bind {A B} (m : Res A) (k : A -> Res B) :
  benign m -> (forall a, benign (k a)) -> benign (bind m k).
Proof. destruct m as [a| |]; cbn [bind benign]; auto. Qed.

Lemma forEachProperty_benign (cb : string -> option string -> Res (option string))
    (ms : list Member) :
  steady cb -> benign (forEachProperty cb ms).
Proof.
  intros Hcb. unfold forEachProperty. induction ms as [|m ms IH]; [exact I|].
  cbn [mapM]. apply benign_bind.
  - destruct m as [n t|u]; [|exact I].
    destruct (Hcb n) as [[c Hc] | [Hi | Ht]];
      [rewrite Hc | rewrite Hi | rewrite Ht]; cbn [bind benign]; auto.
  - intros a. apply benign_bind; [exact IH | intros; exact I].
Qed.

Lemma onTypeAlias_benign (name : string) (edit : list Member -> Res (list Member))
    (root : list Statement) :
  (forall ms, benign (edit ms)) -> benign (onTypeAlias name edit root).
Proof.
  intros He. induction root as [|s r IH]; [exact I|].
  destruct s as [n [ms|t] | n ms | n body | t]; cbn [onTypeAlias];
    try (apply benign_bind; [exact IH | intros; exact I]);
    destruct (String.eqb n name); try exact I;
    apply benign_bind; auto; intros; exact I.
Qed.

Lemma onInterface_benign (name : string) (edit : list Member -> Res (list Member))
    (root : list Statement) :
  (forall ms, benign (edit ms)) -> benign (onInterface name edit root).
Proof.
  intros He. induction root as [|s r IH]; [exact I|].
  destruct s as [n ty | n ms | n body | t]; cbn [onInterface];
    try (apply benign_bind; [exact IH | intros; exact I]).
  destruct (String.eqb n name); apply benign_bind; auto; intros; exact I.
Qed.

Lemma inFirstModule_benign (E : list Statement -> Res (list Statement))
    (l : list Statement) (r : Res (list Statement)) :
  (forall X, benign (E X)) -> inFirstModule E l = Some r -> benign r.
Proof.
  intros HE. revert r. induction l as [|s l IH]; intros r Hm; cbn [inFirstModule] in Hm;
    [discriminate|].
  destruct s as [n ty | n ms | n [block|] | t];
    try (destruct (inFirstModule E l) as [r'|]; [|discriminate];
         injection Hm as <-; apply benign_bind; [apply IH; reflexivity | intros; exact I]).
  - injection Hm as <-. apply benign_bind; [apply HE | intros; exact I].
  - discriminate.
Qed.

Lemma onRoot_benign (isAugmented : bool) (E : list Statement -> Res (list Statement))
    (sf : SourceFile) :
  (forall X, benign (E X)) -> benign (onRoot isAugmented E sf).
Proof.
  intros HE. unfold onRoot. destruct isAugmented; [|apply HE].
  destruct (inFirstModule E sf) as [r|] eqn:Em; [|apply HE].
  apply (inFirstModule_benign E sf r HE Em).
Qed.

Lemma patchTypeAlias_benign (isAugmented : bool) (name : string)
    (table : list (string * string)) (render : string -> string) (sf : SourceFile) :
  benign (onRoot isAugmented (patchTypeAlias name table render) sf).
Proof.
  apply onRoot_benign. intros X. apply onTypeAlias_benign. intros ms.
  apply forEachProperty_benign, setTypeFrom_steady.
Qed.

Lemma patchInterface_benign (isAugmented : bool) (name : string)
    (table : list (string * string)) (sf : SourceFile) :
  benign (onRoot isAugmented (patchInterface name table) sf).
Proof.
  apply onRoot_benign. intros X. apply onInterface_benign. intros ms.
  apply forEachProperty_benign, setVirtualType_steady.
Qed.

Lemma shouldLeanIncludeVirtuals_benign (schema : Val) :
  benign (shouldLeanIncludeVirtuals schema).
Proof.
  unfold shouldLeanIncludeVirtuals, JS.get.
  repeat match goal with
         | |- benign (bind (if ?c then _ else _) _) => destruct c; cbn [bind TypeError]
         | |- benign (if ?c then _ else _) => destruct c
         end; try exact I; reflexivity.
Qed.

Lemma replaceOne_benign (schemas : LoadedSchemas) (isAugmented : bool)
    (sf : SourceFile) (entry : string * Types) :
  benign (replaceOne schemas isAugmented sf entry).
Proof.
  destruct entry as [modelName types]. unfold replaceOne.
  apply benign_bind.
  { destruct (nonEmptyTable _); [apply patchTypeAlias_benign | exact I]. }
  intros A1. apply benign_bind.
  { destruct (nonEmptyTable _); [apply patchTypeAlias_benign | exact I]. }
  intros A2. apply benign_bind.
  { destruct (nonEmptyTable _); [apply patchTypeAlias_benign | exact I]. }
  intros A3. destruct (nonEmptyTable _); [|exact I].
  apply benign_bind; [apply patchInterface_benign|].
  intros A4. apply benign_bind; [apply shouldLeanIncludeVirtuals_benign|].
  intros [|]; [apply patchInterface_benign | exact I].
Qed.

Lemma replaceOne_unloaded_schema (schemas : LoadedSchemas) (isAugmented : bool)
    (sf : SourceFile) (modelName : string) (types : Types) :
  nonEmptyTable (t_virtuals types) = true ->
  JS.nullish (lookupSchema modelName schemas) = true ->
  replaceOne schemas isAugmented sf (modelName, types) = Throw "TypeError".
Proof.
  intros Hv Hs. unfold replaceOne. rewrite Hv. clear Hv.
  assert (Hthrow : shouldLeanIncludeVirtuals (lookupSchema modelName schemas)
                   = Throw "TypeError").
  { unfold shouldLeanIncludeVirtuals, JS.get. rewrite Hs. reflexivity. }
  rewrite Hthrow.
  assert (B : forall {X Y} (m : Res X) (k : X -> Res Y),
             benign m -> (forall a, k a = Throw "TypeError") ->
             bind m k = Throw "TypeError").
  { intros X Y m k Hm Hk. destruct m as [a|e|]; cbn [bind benign] in *;
      [apply Hk | now subst e | contradiction]. }
  apply B.
  { destruct (nonEmptyTable _); [apply patchTypeAlias_benign | exact I]. }
  intros A1. apply B.
  { destruct (nonEmptyTable _); [apply patchTypeAlias_benign | exact I]. }
  intros A2. apply B.
  { destruct (nonEmptyTable _); [apply patchTypeAlias_benign | exact I]. }
  intros A3. apply B; [apply patchInterface_benign|]. reflexivity.
Qed.



Lemma membersRel_erase (x y z : list Member) :
  membersRel x y z -> List.map eraseMember y = List.map eraseMember x.
Proof.
  induction 1 as [|a b c la lb lc Hm _ IH]; [reflexivity|].
  cbn [List.map]. rewrite IH. f_equal.
  destruct a, b, c; simpl in Hm; try contradiction.
  - destruct Hm as (-> & _ & _). reflexivity.
  - destruct Hm as (-> & _). reflexivity.
Qed.

Lemma blockRel_erase (x y z : list Statement) :
  blockRel x y z -> List.map eraseTop y = List.map eraseTop x.
Proof.
  induction 1 as [|a b c la lb lc Hs _ IH]; [reflexivity|].
  cbn [List.map]. rewrite IH. f_equal.
  destruct a as [n [ms|t] | n ms | n body | t],
           b as [n' [ms'|t'] | n' ms' | n' body' | t'],
           c as [n'' [ms''|t''] | n'' ms'' | n'' body'' | t''];
    simpl in Hs; try contradiction.
  - destruct Hs as (-> & _ & Hm). simpl. now rewrite (membersRel_erase _ _ _ Hm).
  - destruct Hs as (-> & _ & -> & _). reflexivity.
  - destruct Hs as (-> & _ & Hm). simpl. now rewrite (membersRel_erase _ _ _ Hm).
  - destruct Hs as (-> & _ & [-> _]). reflexivity.
  - destruct Hs as (-> & _). reflexivity.
Qed.

Lemma fileRel_skeleton (A B C : SourceFile) :
  fileRel A B C -> skeleton B = skeleton A.
Proof.
  unfold skeleton. induction 1 as [|a b c la lb lc Hs _ IH]; [reflexivity|].
  cbn [List.map]. rewrite IH. f_equal.
  destruct a as [n [ms|t] | n ms | n body | t],
           b as [n' [ms'|t'] | n' ms' | n' body' | t'],
           c as [n'' [ms''|t''] | n'' ms'' | n'' body'' | t''];
    simpl in Hs; try contradiction.
  - destruct Hs as (-> & _ & Hm). simpl. now rewrite (membersRel_erase _ _ _ Hm).
  - destruct Hs as (-> & _ & -> & _). reflexivity.
  - destruct Hs as (-> & _ & Hm). simpl. now rewrite (membersRel_erase _ _ _ Hm).
  - destruct Hs as (-> & _ & Hb).
    destruct body as [x|], body' as [y|], body'' as [z|]; simpl in Hb;
      try contradiction; [|reflexivity].
    simpl. now rewrite (blockRel_erase _ _ _ Hb).
  - destruct Hs as (-> & _). reflexivity.
Qed.

(** X7: the pass only rewrites types of property signatures.  When it
    returns, the source file has the same statements in the same order, with
    the same names, the same members and member names, inside and outside
    module declarations: nothing is added, removed, renamed or reordered. *)
Theorem replaceModelTypes_keeps_skeleton (sourceFile patched : SourceFile)
    (modelTypes : ModelTypes) (schemas : LoadedSchemas) (isAugmented : bool) :
  replaceModelTypes sourceFile modelTypes schemas isAugmented = Ok patched ->
  skeleton patched = skeleton sourceFile.
Proof.
  intros H.
  destruct (proj2 (replaceModelTypes_step modelTypes schemas isAugmented)
              sourceFile sourceFile sourceFile patched (fileRel_refl sourceFile) H)
    as (F' & _ & HR).
  apply (fileRel_skeleton sourceFile patched F' HR).
Qed.

Lemma replaceModelTypes_keeps_skeleton_witness :
  replaceModelTypes sampleFile sampleTypes sampleSchemas true = Ok samplePatched
  /\ skeleton samplePatched = skeleton sampleFile.
Proof.
  split; [reflexivity|].
  apply (replaceModelTypes_keeps_skeleton sampleFile samplePatched sampleTypes
           sampleSchemas true).
  reflexivity.
Defined.

Lemma inFirstModule_none (E : list Statement -> Res (list Statement))
    (sf : SourceFile) :
  hasModuleBlock sf = false -> inFirstModule E sf = None.
Proof.
  unfold hasModuleBlock. induction sf as [|s sf IH]; [reflexivity|].
  destruct s as [n ty | n ms | n [block|] | t]; cbn [inFirstModule];
    try discriminate; try reflexivity;
    (destruct (inFirstModule (fun block => Ok block) sf); [discriminate|];
     intros _; rewrite IH; reflexivity).
Qed.

Lemma onRoot_no_module (isAugmented : bool) (E : list Statement -> Res (list Statement))
    (sf : SourceFile) :
  hasModuleBlock sf = false -> onRoot isAugmented E sf = E sf.
Proof.
  intros H. unfold onRoot. destruct isAugmented; [|reflexivity].
  rewrite (inFirstModule_none E sf H). reflexivity.
Qed.

Lemma fileRel_hasModuleBlock (A B C : SourceFile) :
  fileRel A B C -> hasModuleBlock B = hasModuleBlock A.
Proof.
  unfold hasModuleBlock. induction 1 as [|a b c la lb lc Hs _ IH]; [reflexivity|].
  destruct a as [n [ms|t] | n ms | n body | t],
           b as [n' [ms'|t'] | n' ms' | n' body' | t'],
           c as [n'' [ms''|t''] | n'' ms'' | n'' body'' | t''];
    simpl in Hs; try contradiction; cbn [inFirstModule];
    try (destruct (inFirstModule _ la), (inFirstModule _ lb); try discriminate;
         reflexivity).
  destruct Hs as (_ & _ & Hb).
  destruct body as [x|], body' as [y|], body'' as [z|]; simpl in Hb;
    try contradiction; reflexivity.
Qed.

Lemma step_hasModuleBlock (E : SourceFile -> Res SourceFile) (sf sf' : SourceFile) :
  stmtStep bodyRel E -> E sf = Ok sf' -> hasModuleBlock sf' = hasModuleBlock sf.
Proof.
  intros [_ S2] H.
  destruct (S2 sf sf sf sf' (fileRel_refl sf) H) as (F' & _ & HR).
  apply (fileRel_hasModuleBlock sf sf' F' HR).
Qed.

Lemma replaceOne_no_module (schemas : LoadedSchemas) (entry : string * Types)
    (sf : SourceFile) :
  hasModuleBlock sf = false ->
  replaceOne schemas true sf entry = replaceOne schemas false sf entry.
Proof.
  destruct entry as [modelName types]. intros H. unfold replaceOne.
  assert (Ha : forall aug name table render,
             stmtStep bodyRel (onRoot aug (patchTypeAlias name table render)))
    by (intros; apply onRoot_step; apply patchTypeAlias_step).
  assert (Hi : forall aug name table,
             stmtStep bodyRel (onRoot aug (patchInterface name table)))
    by (intros; apply onRoot_step; apply patchInterface_step).
  assert (W : forall (c : bool) (E : list Statement -> Res (list Statement))
                     (X X' : SourceFile),
             stmtStep bodyRel (onRoot false E) ->
             hasModuleBlock X = false ->
             (if c then onRoot false E X else Ok X) = Ok X' ->
             hasModuleBlock X' = false).
  { intros c E X X' HS HX. destruct c.
    - intros HE. now rewrite (step_hasModuleBlock _ X X' HS HE).
    - now intros [= <-]. }
  rewrite (onRoot_no_module true _ sf H), <- (onRoot_no_module false _ sf H).
  match goal with
  | |- bind ?m _ = _ => destruct m as [A1| |] eqn:E1; cbn [bind]; try reflexivity
  end.
  apply (W _ _ _ _ (Ha false _ _ _) H) in E1.
  rewrite (onRoot_no_module true _ A1 E1), <- (onRoot_no_module false _ A1 E1).
  match goal with
  | |- bind ?m _ = _ => destruct m as [A2| |] eqn:E2; cbn [bind]; try reflexivity
  end.
  apply (W _ _ _ _ (Ha false _ _ _) E1) in E2.
  rewrite (onRoot_no_module true _ A2 E2), <- (onRoot_no_module false _ A2 E2).
  match goal with
  | |- bind ?m _ = _ => destruct m as [A3| |] eqn:E3; cbn [bind]; try reflexivity
  end.
  apply (W _ _ _ _ (Ha false _ _ _) E2) in E3.
  destruct (nonEmptyTable (t_virtuals types)); [|reflexivity].
  rewrite (onRoot_no_module true _ A3 E3), <- (onRoot_no_module false _ A3 E3).
  destruct (onRoot false (patchInterface (modelName ++ "Document") _) A3)
    as [A4| |] eqn:E4; cbn [bind]; try reflexivity.
  rewrite <- (step_hasModuleBlock _ A3 A4 (Hi false _ _) E4) in E3.
  destruct (shouldLeanIncludeVirtuals _) as [[|]| |]; cbn [bind]; try reflexivity.
  now rewrite (onRoot_no_module true _ A4 E3), <- (onRoot_no_module false _ A4 E3).
Qed.

(** X8: when the output is said to be an augmentation but the source file
    has no module declaration with a block, the pass falls back to the
    statements of the file itself: it does exactly what it does when the
    output is not an augmentation. *)
Theorem replaceModelTypes_augmented_fallback (sourceFile : SourceFile)
    (modelTypes : ModelTypes) (schemas : LoadedSchemas) :
  hasModuleBlock sourceFile = false ->
  replaceModelTypes sourceFile modelTypes schemas true
  = replaceModelTypes sourceFile modelTypes schemas false.
Proof.
  unfold replaceModelTypes. revert sourceFile.
  induction modelTypes as [|e mt IH]; intros sf H; cbn [foldM]; [reflexivity|].
  rewrite (replaceOne_no_module schemas e sf H).
  destruct (replaceOne schemas false sf e) as [sf'| |] eqn:E; cbn [bind];
    try reflexivity.
  apply IH.
  rewrite (step_hasModuleBlock _ sf sf' (replaceOne_step schemas false e) E).
  exact H.
Qed.

Lemma replaceModelTypes_augmented_fallback_witness :
  let sf := [ InterfaceDeclaration "UserDocument" [PropertySignature "name" (Some "any")]
            ; ModuleDeclaration "later" None ] in
  hasModuleBlock sf = false
  /\ replaceModelTypes sf sampleTypes sampleSchemas true
     = replaceModelTypes sf sampleTypes sampleSchemas false.
Proof.
  cbv zeta. split; [reflexivity|].
  apply (replaceModelTypes_augmented_fallback
           [ InterfaceDeclaration "UserDocument" [PropertySignature "name" (Some "any")]
           ; ModuleDeclaration "later" None ] sampleTypes sampleSchemas).
  reflexivity.
Defined.

(** ** Loading the schemas *)

Lemma checkAndRegisterModel_spec (schemas : LoadedSchemas) (obj : Val) :
  checkAndRegisterModel schemas obj
  = if isModel obj then (registered schemas obj, true) else (schemas, false).
Proof.
  unfold checkAndRegisterModel, isModel, registered.
  destruct (JS.truthy (JS.optGet obj "modelName")),
           (JS.truthy (JS.optGet obj "schema")); reflexivity.
Qed.

Lemma registerFirst_none (schemas : LoadedSchemas) (objs : list Val) :
  forallb (fun obj => negb (isModel obj)) objs = true ->
  registerFirst schemas objs = (schemas, false).
Proof.
  induction objs as [|obj objs IH]; [reflexivity|].
  cbn [forallb registerFirst]. intros H. apply andb_prop in H as [Ho Hs].
  rewrite checkAndRegisterModel_spec. apply negb_true_iff in Ho. rewrite Ho.
  apply IH, Hs.
Qed.

Lemma lookupSchema_assign (k : string) (v : Val) (schemas : LoadedSchemas) :
  lookupSchema k (JS.assign k v schemas) = v.
Proof.
  induction schemas as [|[k' v'] schemas IH]; cbn [JS.assign lookupSchema].
  - now rewrite String.eqb_refl.
  - destruct (String.eqb k k') eqn:E; cbn [lookupSchema].
    + now rewrite String.eqb_refl.
    + rewrite E. exact IH.
Qed.

(** X9: when the default export of a module is a model, its schema is what
    the module contributes, registered under the model's own name whatever
    the file is called and whatever else the module exports; looking that
    name up afterwards gives that schema. *)
Theorem loadOne_default_export (schemas : LoadedSchemas) (file : ModelFile)
    (exportedData : Val) :
  required file = Loaded exportedData ->
  JS.nullish exportedData = false ->
  isModel (JS.prop exportedData "default") = true ->
  loadOne schemas file = Ok (registered schemas (JS.prop exportedData "default"))
  /\ lookupSchema (JS.toStr (JS.prop (JS.prop exportedData "default") "modelName"))
                  (registered schemas (JS.prop exportedData "default"))
     = JS.prop (JS.prop exportedData "default") "schema".
Proof.
  intros Hr Hn Hm. split; [|apply lookupSchema_assign].
  unfold loadOne. rewrite Hr. unfold JS.get. rewrite Hn. cbn [bind registerFirst].
  rewrite checkAndRegisterModel_spec, Hm. reflexivity.
Qed.

Lemma loadOne_default_export_witness :
  let model := VObj false [ ("modelName", VStr "Account")
                          ; ("schema", VObj false [("tree", VObj true [])]) ] in
  let file := mkModelFile "/app/models/user.ts" "user"
                (Loaded (VObj true [("helper", VFun (NUser "helper")); ("default", model)])) in
  loadOne [] file = Ok [("Account", VObj false [("tree", VObj true [])])].
Proof.
  cbv zeta.
  apply (proj1 (loadOne_default_export []
                  (mkModelFile "/app/models/user.ts" "user"
                     (Loaded (VObj true
                        [ ("helper", VFun (NUser "helper"))
                        ; ("default",
                           VObj false [ ("modelName", VStr "Account")
                                      ; ("schema", VObj false [("tree", VObj true [])]) ]) ])))
                  (VObj true
                     [ ("helper", VFun (NUser "helper"))
                     ; ("default",
                        VObj false [ ("modelName", VStr "Account")
                                   ; ("schema", VObj false [("tree", VObj true [])]) ]) ])
                  eq_refl eq_refl eq_refl)).
Defined.

Lemma prop_not_model (p : bool) (ps : Props) (k : string) :
  forallb (fun kv => negb (isModel (snd kv))) ps = true ->
  isModel (JS.prop (VObj p ps) k) = false.
Proof.
  cbn [JS.prop]. induction ps as [|[k' v] ps IH]; [reflexivity|].
  cbn [forallb JS.lookup snd]. intros H. apply andb_prop in H as [Hv Hs].
  destruct (String.eqb k k'); [apply negb_true_iff, Hv | apply IH, Hs].
Qed.

(** X10: a module whose exports object is not a model and exports no model
    makes [loadSchemas] fail with the error that names its path: nothing is
    registered for it, and the modules after it are not looked at. *)
Theorem loadSchemas_no_model (before after : list ModelFile) (file : ModelFile)
    (schemas : LoadedSchemas) (p : bool) (ps : Props) :
  foldM loadOne before [] = Ok schemas ->
  required file = Loaded (VObj p ps) ->
  isModel (VObj p ps) = false ->
  forallb (fun kv => negb (isModel (snd kv))) ps = true ->
  loadSchemas (List.app before (file :: after))
  = Throw (noModelError (singleModelPath file)).
Proof.
  intros Hb Hr Hm Hps. unfold loadSchemas.
  assert (Hone : forall s, loadOne s file = Throw (noModelError (singleModelPath file))).
  { intros s. unfold loadOne. rewrite Hr. cbn [JS.get JS.nullish bind].
    rewrite registerFirst_none.
    2:{ cbn [forallb]. rewrite (prop_not_model p ps "default" Hps), Hm. reflexivity. }
    rewrite registerFirst_none.
    2:{ cbn [forallb]. rewrite !(prop_not_model p ps _ Hps). reflexivity. }
    rewrite registerFirst_none; [reflexivity|].
    cbn [JS.entries]. clear -Hps. induction ps as [|kv ps IH]; [reflexivity|].
    cbn [forallb List.map] in Hps |- *. apply andb_prop in Hps as [Hv Hs].
    rewrite Hv. apply IH, Hs. }
  generalize dependent schemas. generalize (@nil (string * Val)) as start.
  induction before as [|f before IH]; intros start schemas Hb;
    cbn [List.app foldM] in Hb |- *.
  - rewrite Hone. reflexivity.
  - destruct (loadOne start f) as [s'| |]; cbn [bind] in Hb |- *; try discriminate.
    apply (IH s' schemas Hb).
Qed.

Lemma loadSchemas_no_model_witness :
  let exportsUtil := VObj true [("slugify", VFun (NUser "slugify"))] in
  let util := mkModelFile "/app/models/util.ts" "util" (Loaded exportsUtil) in
  foldM loadOne [] [] = Ok []
  /\ isModel exportsUtil = false
  /\ loadSchemas [util] = Throw (noModelError "/app/models/util.ts").
Proof.
  cbv zeta. split; [reflexivity|]. split; [reflexivity|].
  apply (loadSchemas_no_model [] []
           (mkModelFile "/app/models/util.ts" "util"
              (Loaded (VObj true [("slugify", VFun (NUser "slugify"))])))
           [] true [("slugify", VFun (NUser "slugify"))]);
    reflexivity.
Defined.

(** X11: without a default export that is a model (and when the exports
    object is no model itself), the export named after the file, first
    letter capitalised, is the one registered, before any other export is
    tried in the order of the exports. *)
Theorem loadOne_named_after_file (schemas : LoadedSchemas) (file : ModelFile)
    (exportedData : Val) :
  required file = Loaded exportedData ->
  JS.nullish exportedData = false ->
  isModel (JS.prop exportedData "default") = false ->
  isModel exportedData = false ->
  isModel (JS.prop exportedData (upperFirst (filenameRoot file))) = true ->
  loadOne schemas file
  = Ok (registered schemas (JS.prop exportedData (upperFirst (filenameRoot file)))).
Proof.
  intros Hr Hn Hd He Hm. unfold loadOne. rewrite Hr. unfold JS.get. rewrite Hn.
  cbn [bind]. rewrite registerFirst_none by (cbn [forallb]; now rewrite Hd, He).
  cbn [registerFirst]. rewrite checkAndRegisterModel_spec, Hm. reflexivity.
Qed.

Lemma loadOne_named_after_file_witness :
  let schemaOf := fun n => VObj false [("name", VStr n)] in
  let model := fun n => VObj false [("modelName", VStr n); ("schema", schemaOf n)] in
  let file := mkModelFile "/app/models/user.ts" "user"
                (Loaded (VObj true [("Audit", model "Audit"); ("User", model "User")])) in
  loadOne [] file = Ok [("User", schemaOf "User")].
Proof.
  cbv zeta.
  apply (loadOne_named_after_file []
           (mkModelFile "/app/models/user.ts" "user"
              (Loaded (VObj true
                 [ ("Audit", VObj false [ ("modelName", VStr "Audit")
                                        ; ("schema", VObj false [("name", VStr "Audit")]) ])
                 ; ("User", VObj false [ ("modelName", VStr "User")
                                       ; ("schema", VObj false [("name", VStr "User")]) ]) ])))
           (VObj true
              [ ("Audit", VObj false [ ("modelName", VStr "Audit")
                                     ; ("schema", VObj false [("name", VStr "Audit")]) ])
              ; ("User", VObj false [ ("modelName", VStr "User")
                                    ; ("schema", VObj false [("name", VStr "User")]) ]) ]));
    reflexivity.
Defined.

(** ** Assembling the output *)

Lemma foldM_ok_each {A S : Type} (f : S -> A -> Res S) (xs : list A) (s r : S) (x : A) :
  foldM f xs s = Ok r -> In x xs -> exists s1 s2, f s1 x = Ok s2.
Proof.
  revert s. induction xs as [|y xs IH]; intros s H Hin; [destruct Hin|].
  cbn [foldM] in H. destruct (f s y) as [s'| |] eqn:E; cbn [bind] in H; try discriminate.
  destruct Hin as [->|Hin]; [now exists s, s' | apply (IH s' H Hin)].
Qed.

Lemma foldM_blocks {A B : Type} (f : A -> Res (list B)) (xs : list A) (acc : list B) :
  foldM (fun ops x => block <- f x ;; Ok (List.app ops block)) xs acc
  = blocks <- mapM f xs ;; Ok (List.app acc (List.concat blocks)).
Proof.
  revert acc. induction xs as [|x xs IH]; intros acc; cbn [foldM mapM bind].
  - cbn [List.concat]. now rewrite List.app_nil_r.
  - destruct (f x) as [b| |]; cbn [bind]; try reflexivity.
    rewrite IH. destruct (mapM f xs) as [bs| |]; cbn [bind]; try reflexivity.
    cbn [List.concat]. now rewrite List.app_assoc.
Qed.

Lemma mapM_Forall {A B : Type} (f : A -> Res B) (P : B -> Prop) (xs : list A)
    (ys : list B) :
  (forall x y, f x = Ok y -> P y) -> mapM f xs = Ok ys -> Forall P ys.
Proof.
  intros Hf. revert ys. induction xs as [|x xs IH]; intros ys; cbn [mapM].
  - intros [= <-]. constructor.
  - destruct (f x) as [y| |] eqn:E; cbn [bind]; try discriminate.
    destruct (mapM f xs) as [ys'| |]; cbn [bind]; try discriminate.
    intros [= <-]. constructor; [apply (Hf x y E) | now apply IH].
Qed.

Lemma generateModel_block (fuel : nat) (schemas : LoadedSchemas) (isAugmented : bool)
    (modelName : string) (ops : list WriterOp) :
  generateModel fuel schemas isAugmented modelName = Ok ops -> isModelBlock ops.
Proof.
  unfold generateModel.
  repeat match goal with
         | |- bind ?m _ = Ok _ -> _ =>
             destruct m; cbn [bind]; try discriminate
         end.
  intros [= <-]. eexists _, _. reflexivity.
Qed.

(** X13: when [generateTypes] succeeds, what it wrote is the preamble (the
    file header, the mongoose import, the user imports on one write if
    there are any, the opening of the module in augmented mode), then for
    each loaded model, in the order of the registry, its lean text and its
    document text each followed by a blank line, then the closing of the
    module in augmented mode. *)
Theorem generateTypes_layout (fuel : nat) (schemas : LoadedSchemas)
    (isAugmented : bool) (imports : list string) (ops : list WriterOp) :
  generateTypes fuel schemas isAugmented imports = Ok ops ->
  exists blocks : list (list WriterOp),
    mapM (generateModel fuel schemas isAugmented) (List.map fst schemas) = Ok blocks
    /\ Forall isModelBlock blocks
    /\ ops = List.app (preamble isAugmented imports)
               (List.app (List.concat blocks) (closing isAugmented)).
Proof.
  unfold generateTypes. rewrite foldM_blocks.
  destruct (mapM _ (List.map fst schemas)) as [blocks| |] eqn:E; cbn [bind];
    try discriminate.
  intros [= <-]. exists blocks. split; [reflexivity|]. split.
  - apply (mapM_Forall _ _ _ _ (generateModel_block fuel schemas isAugmented) E).
  - unfold preamble, closing.
    destruct isAugmented, imports as [|i imports]; cbn [List.length Nat.ltb Nat.leb];
      cbn [List.app]; rewrite <- ?List.app_assoc; cbn [List.app];
      rewrite ?List.app_nil_r; reflexivity.
Qed.

Lemma generateTypes_layout_witness :
  exists blocks : list (list WriterOp),
    mapM (generateModel 2 [("Account", accountSchema)] true) (List.map fst [("Account", accountSchema)])
      = Ok blocks
    /\ Forall isModelBlock blocks
    /\ match generateTypes 2 [("Account", accountSchema)] true ["import Foo from foo"] with
       | Ok ops => ops
       | _ => []
       end
       = List.app (preamble true ["import Foo from foo"])
           (List.app (List.concat blocks) (closing true)).
Proof.
  apply (generateTypes_layout 2 [("Account", accountSchema)] true ["import Foo from foo"]).
  vm_compute. reflexivity.
Defined.

Lemma generateModel_needs_id (fuel : nat) (schemas : LoadedSchemas) (isAugmented : bool)
    (modelName : string) (ops : list WriterOp) :
  JS.nullish (idEntry (lookupSchema modelName schemas)) = true ->
  generateModel fuel schemas isAugmented modelName <> Ok ops.
Proof.
  unfold generateModel, idEntry, JS.optGet, JS.get. intros Hid.
  destruct (parseSchema fuel _ _ true false _ _ _); cbn [bind]; try discriminate.
  destruct (JS.nullish (lookupSchema modelName schemas)); cbn [bind TypeError];
    try discriminate.
  destruct (JS.nullish (JS.prop (lookupSchema modelName schemas) "tree"));
    cbn [bind TypeError]; try discriminate.
  unfold convertBaseTypeToTs, JS.get. rewrite Hid. discriminate.
Qed.

(** X14: [generateTypes] cannot succeed when the tree of one of the loaded
    schemas has no [_id] entry (a schema declared with [_id: false], for
    one): the type of [_id] is asked for without a test, and no output is
    produced for any model. *)
Theorem generateTypes_needs_id (fuel : nat) (schemas : LoadedSchemas)
    (isAugmented : bool) (imports : list string) (modelName : string) :
  In modelName (List.map fst schemas) ->
  JS.nullish (idEntry (lookupSchema modelName schemas)) = true ->
  forall ops : list WriterOp,
    generateTypes fuel schemas isAugmented imports <> Ok ops.
Proof.
  intros Hin Hid ops. unfold generateTypes.
  match goal with
  | |- bind ?m _ <> _ => destruct m as [r| |] eqn:E
  end; cbn [bind]; try discriminate.
  destruct (foldM_ok_each _ _ _ _ modelName E Hin) as (s1 & s2 & H).
  destruct (generateModel fuel schemas isAugmented modelName) as [b| |] eqn:Eb;
    cbn [bind] in H; try discriminate.
  exfalso. apply (generateModel_needs_id _ _ _ _ _ Hid Eb).
Qed.

Lemma generateTypes_needs_id_witness :
  generateTypes 3 [("Account", accountSchema); ("Post", postSchema)] false []
  <> Ok [].
Proof.
  apply (generateTypes_needs_id 3 [("Account", accountSchema); ("Post", postSchema)]
           false [] "Post").
  - cbn. right. left. reflexivity.
  - reflexivity.
Defined.

(** ** The member line of a field *)

Lemma expanded_nullish (val : Val) :
  JS.nullish val = false -> JS.nullish (expanded val) = false.
Proof.
  intros Hn. unfold expanded. destruct (isDirectType val); [reflexivity | exact Hn].
Qed.

Lemma notArrayForm_shape (val : Val) :
  notArrayForm val = true ->
  JS.nullish val = false /\ JS.isArray val = false
  /\ JS.isArray (JS.prop val "type") = false.
Proof.
  unfold notArrayForm. intros H.
  apply andb_prop in H as [H Ht]. apply andb_prop in H as [Hn Ha].
  apply negb_true_iff in Hn, Ha, Ht. auto.
Qed.

Lemma normalizeArray_field (val : Val) :
  notArrayForm val = true ->
  normalizeArray val = Ok (val, false, negb (JS.truthy (JS.prop val "required"))).
Proof.
  intros H. destruct (notArrayForm_shape val H) as (Hn & Ha & Ht).
  unfold normalizeArray. rewrite cloneDeep_plain.
  unfold JS.get. rewrite Hn. cbn [bind]. rewrite Ha, Ht. reflexivity.
Qed.

(** The end of [parseKey] once the type is resolved. *)
Lemma parseKey_typed (nested : Val -> Res string) (schema : Val) (isDocument : bool)
    (key : string) (valOriginal val : Val) (isArray isOptional opt : bool)
    (t : string) :
  normalizeArray valOriginal = Ok (val, isArray, isOptional) ->
  JS.nullish (expanded val) = false ->
  resolveType nested schema isDocument key (expanded val) isOptional
    = Ok (Some (Some t, opt)) ->
  nonEmpty t = true ->
  parseKey nested schema isDocument key valOriginal
  = Ok (makeLine key (memberType isDocument (expanded val) isArray t) opt).
Proof.
  intros Hnorm He Hres Ht. unfold parseKey. rewrite Hnorm. cbn [bind].
  fold (expanded val). unfold JS.get. rewrite He. cbn [bind].
  rewrite Hres. cbn [bind]. rewrite Ht. reflexivity.
Qed.

Lemma virtual_test (val : Val) :
  JS.truthy (JS.prop val "path") && JS.truthy (JS.prop val "path")
  && JS.truthy (JS.prop val "setters") && JS.truthy (JS.prop val "getters")
  = isVirtual val.
Proof. unfold isVirtual. destruct (JS.truthy (JS.prop val "path")); reflexivity. Qed.

Lemma metadata_test (key : string) :
  nonEmpty key && isMetadataKey key = isMetadataKey key.
Proof. destruct key; reflexivity. Qed.

Lemma resolveType_plain (nested : Val -> Res string) (schema : Val)
    (isDocument : bool) (key : string) (val : Val) (isOptional : bool) :
  plainField val = true ->
  isMetadataKey key = false ->
  resolveType nested schema isDocument key val isOptional
  = convertedType <- convertBaseTypeToTs key val isDocument ;;
    match convertedType with
    | Some t =>
        if String.eqb t "{}" then
          valType <- nested val ;;
          Ok (Some (Some valType, false))
        else Ok (Some (Some t, if String.eqb key "_id" then false else isOptional))
    | None => Ok (Some (None, if String.eqb key "_id" then false else isOptional))
    end.
Proof.
  unfold plainField. intros H Hk.
  apply andb_prop in H as [H Hr]. apply andb_prop in H as [Hh Hv].
  apply negb_true_iff in Hh, Hv, Hr. unfold isHoisted in Hh.
  unfold resolveType. rewrite Hh, virtual_test, Hv, metadata_test, Hk, Hr.
  reflexivity.
Qed.

Lemma convertBaseTypeToTs_nonEmpty (key : string) (val : Val) (isDocument : bool)
    (t : string) :
  convertBaseTypeToTs key val isDocument = Ok (Some t) -> nonEmpty t = true.
Proof.
  unfold convertBaseTypeToTs.
  destruct (JS.get val "schemaName"); cbn [bind]; try discriminate.
  destruct (JS.get val "type"); cbn [bind]; try discriminate.
  destruct (_ || _); [now intros [= <-]|].
  destruct (tagOf _); try (now intros [= <-]).
  - destruct (JS.gtZero _); [|now intros [= <-]].
    destruct (joinEnum _ _); cbn [bind]; try discriminate. now intros [= <-].
  - destruct (negb _); [now intros [= <-] | discriminate].
  - destruct isDocument; now intros [= <-].
Qed.

(** X15: a field that is not an array, a hoisted sub-entity, a virtual
    property or a reference, and whose type is one the resolver knows, gives
    exactly one member line: the resolved type (wrapped for a map, the
    buffer class in the live shape), optional exactly when [required] is
    not truthy; the member of the key [_id] is never optional. *)
Theorem parseKey_scalar_field (nested : Val -> Res string) (schema : Val)
    (isDocument : bool) (key : string) (val : Val) (t : string) :
  notArrayForm val = true ->
  plainField (expanded val) = true ->
  isMetadataKey key = false ->
  convertBaseTypeToTs key (expanded val) isDocument = Ok (Some t) ->
  t <> "{}" ->
  parseKey nested schema isDocument key val
  = Ok (makeLine key (memberType isDocument (expanded val) false t)
                 (fieldOptional key val)).
Proof.
  intros Ha Hp Hk Hc Ht.
  apply (parseKey_typed nested schema isDocument key val val false
           (negb (JS.truthy (JS.prop val "required")))).
  - apply normalizeArray_field, Ha.
  - apply expanded_nullish. now destruct (notArrayForm_shape val Ha).
  - rewrite (resolveType_plain _ _ _ _ _ _ Hp Hk), Hc. cbn [bind].
    apply String.eqb_neq in Ht. rewrite Ht. reflexivity.
  - apply (convertBaseTypeToTs_nonEmpty _ _ _ _ Hc).
Qed.

Lemma parseKey_scalar_field_witness :
  parseKey (fun _ => Diverge) VUndef true "_id"
           (VObj true [("type", VStr "ObjectId"); ("auto", VBool true)])
  = Ok ("_id: mongoose.Types.ObjectId;" ++ nl)
  /\ parseKey (fun _ => Diverge) VUndef true "avatar"
              (VObj true [("type", VFun NBuffer)])
     = Ok ("avatar?: mongoose.Types.Buffer;" ++ nl)
  /\ parseKey (fun _ => Diverge) VUndef false "tags"
              (VObj true [("type", VFun NMap); ("of", VFun NString);
                          ("required", VBool true)])
     = Ok ("tags: Map<string, string>;" ++ nl).
Proof.
  split; [|split].
  - apply (parseKey_scalar_field (fun _ => Diverge) VUndef true "_id"
             (VObj true [("type", VStr "ObjectId"); ("auto", VBool true)])
             "mongoose.Types.ObjectId");
      [reflexivity | reflexivity | reflexivity | reflexivity | discriminate].
  - apply (parseKey_scalar_field (fun _ => Diverge) VUndef true "avatar"
             (VObj true [("type", VFun NBuffer)]) "Buffer");
      [reflexivity | reflexivity | reflexivity | reflexivity | discriminate].
  - apply (parseKey_scalar_field (fun _ => Diverge) VUndef false "tags"
             (VObj true [("type", VFun NMap); ("of", VFun NString);
                         ("required", VBool true)]) "string");
      [reflexivity | reflexivity | reflexivity | reflexivity | discriminate].
Defined.

Lemma parseKey_descends (nested : Val -> Res string) (schema : Val)
    (isDocument : bool) (key : string) (val : Val) :
  notArrayForm val = true ->
  plainField (expanded val) = true ->
  isMetadataKey key = false ->
  convertBaseTypeToTs key (expanded val) isDocument = Ok (Some "{}") ->
  parseKey nested schema isDocument key val
  = valType <- nested (expanded val) ;;
    Ok (if nonEmpty valType
        then makeLine key (memberType isDocument (expanded val) false valType) false
        else EmptyString).
Proof.
  intros Ha Hp Hk Hc.
  assert (He : JS.nullish (expanded val) = false).
  { apply expanded_nullish. now destruct (notArrayForm_shape val Ha). }
  unfold parseKey. rewrite (normalizeArray_field val Ha). cbn [bind].
  fold (expanded val). unfold JS.get. rewrite He. cbn [bind].
  rewrite (resolveType_plain _ _ _ _ _ _ Hp Hk), Hc. cbn [bind String.eqb Ascii.eqb].
  cbn. destruct (nested (expanded val)) as [valType| |]; cbn [bind]; try reflexivity.
  destruct (nonEmpty valType); reflexivity.
Qed.

Lemma nestedCall_step (fuel : nat) (isDocument : bool) (tree : Val) :
  nestedCall (S fuel) isDocument tree
  = ks <- JS.keys tree ;;
    ls <- mapM (fun key =>
                  parseKey (nestedCall fuel isDocument) (VObj true [("tree", tree)])
                           isDocument key (JS.prop tree key)) ks ;;
    Ok ((("{" ++ nl) ++ Str.join EmptyString ls) ++ "}").
Proof.
  transitivity
    (ks <- JS.keys tree ;;
     template <-
       foldM (fun template key =>
                line <- parseKey (nestedCall fuel isDocument)
                                 (VObj true [("tree", tree)])
                                 isDocument key (JS.prop tree key) ;;
                Ok (template ++ line))
             ks ("{" ++ nl) ;;
     Ok (template ++ "}")).
  - destruct isDocument; reflexivity.
  - destruct (JS.keys tree) as [ks| |]; cbn [bind]; try reflexivity.
    rewrite foldM_append.
    destruct (mapM _ ks) as [ls| |]; reflexivity.
Qed.

Lemma nestedCall_braces (fuel : nat) (isDocument : bool) (val : Val) (body : string) :
  nestedCall fuel isDocument val = Ok body ->
  exists members : string, body = "{" ++ nl ++ members ++ "}".
Proof.
  destruct fuel as [|fuel]; [discriminate|]. rewrite nestedCall_step.
  destruct (JS.keys val) as [ks| |]; cbn [bind]; try discriminate.
  destruct (mapM _ ks) as [ls| |]; cbn [bind]; try discriminate.
  intros [= <-]. exists (Str.join EmptyString ls). reflexivity.
Qed.

(** X16: a field whose type the resolver does not know is a nested object:
    its member is the inline block that the nested call returns for the
    field object, between braces, and it is never optional, whatever
    [required] says. *)
Theorem parseKey_nested_object (fuel : nat) (schema : Val) (isDocument : bool)
    (key : string) (val : Val) (body : string) :
  notArrayForm val = true ->
  plainField (expanded val) = true ->
  isMetadataKey key = false ->
  convertBaseTypeToTs key (expanded val) isDocument = Ok (Some "{}") ->
  nestedCall fuel isDocument (expanded val) = Ok body ->
  parseKey (nestedCall fuel isDocument) schema isDocument key val
  = Ok (makeLine key (memberType isDocument (expanded val) false body) false)
  /\ exists members : string, body = "{" ++ nl ++ members ++ "}".
Proof.
  intros Ha Hp Hk Hc Hb.
  destruct (nestedCall_braces fuel isDocument (expanded val) body Hb) as [members Hm].
  split; [|now exists members].
  rewrite (parseKey_descends _ _ _ _ _ Ha Hp Hk Hc), Hb. cbn [bind].
  rewrite Hm. reflexivity.
Qed.

Lemma parseKey_nested_object_witness :
  let address := VObj true [ ("city", VFun NString)
                           ; ("zip", VObj true [("type", VFun NNumber);
                                                ("required", VBool true)]) ] in
  parseKey (nestedCall 1 false) VUndef false "address" address
  = Ok ("address: {" ++ nl ++ "city?: string;" ++ nl ++ "zip: number;" ++ nl
          ++ "};" ++ nl).
Proof.
  cbv zeta.
  apply (proj1 (parseKey_nested_object 1 VUndef false "address"
                  (VObj true [ ("city", VFun NString)
                             ; ("zip", VObj true [("type", VFun NNumber);
                                                  ("required", VBool true)]) ])
                  ("{" ++ nl ++ "city?: string;" ++ nl ++ "zip: number;" ++ nl ++ "}")
                  eq_refl eq_refl eq_refl eq_refl eq_refl)).
Defined.

(** ** A field given as a string *)

Lemma of_nat_starts_with_digit (i : nat) (c : ascii) (r : string) :
  Str.is_digit c = false -> String.eqb (Str.of_nat i) (String c r) = false.
Proof.
  intros Hc. unfold Str.of_nat.
  assert (D : forall d, Ascii.eqb d c = true -> Str.is_digit d = true -> False).
  { intros d E Hd. apply Ascii.eqb_eq in E. subst d. congruence. }
  destruct (Nat.to_uint i); cbn [NilEmpty.string_of_uint String.eqb];
    try reflexivity;
    match goal with
    | |- (if Ascii.eqb ?d c then _ else _) = false =>
        destruct (Ascii.eqb d c) eqn:E; [exfalso; apply (D d E); reflexivity | reflexivity]
    end.
Qed.

Lemma index_of_named (c : ascii) (r : string) (n : nat) :
  Str.is_digit c = false -> JS.index_of (String c r) n = None.
Proof.
  intros Hc. unfold JS.index_of. generalize 0 as i.
  induction n as [|n IH]; intros i; [reflexivity|].
  rewrite (of_nat_starts_with_digit i c r Hc). apply IH.
Qed.

Lemma prop_str_named (s : string) (c : ascii) (r : string) :
  Str.is_digit c = false ->
  String.eqb (String c r) "length" = false ->
  JS.prop (VStr s) (String c r) = VUndef.
Proof.
  intros Hc Hl. cbn [JS.prop]. rewrite Hl, (index_of_named c r _ Hc). reflexivity.
Qed.

Lemma parseKey_string (nested : Val -> Res string) (schema : Val)
    (isDocument : bool) (key s : string) :
  isDirectType (VStr s) = false ->
  isMetadataKey key = false ->
  nested (VStr s) = Diverge ->
  parseKey nested schema isDocument key (VStr s) = Diverge.
Proof.
  intros Hd Hk Hn.
  assert (P : forall c r, Str.is_digit c = false ->
                          String.eqb (String c r) "length" = false ->
                          JS.prop (VStr s) (String c r) = VUndef).
  { intros c r. apply prop_str_named. }
  assert (He : expanded (VStr s) = VStr s) by (unfold expanded; now rewrite Hd).
  rewrite (parseKey_descends nested schema isDocument key (VStr s)).
  - rewrite He, Hn. reflexivity.
  - unfold notArrayForm. rewrite (P "t"%char "ype" eq_refl eq_refl). reflexivity.
  - rewrite He. unfold plainField, isHoisted, isVirtual.
    rewrite (P "_"%char "inferredInterfaceName" eq_refl eq_refl),
      (P "p"%char "ath" eq_refl eq_refl), (P "r"%char "ef" eq_refl eq_refl).
    reflexivity.
  - exact Hk.
  - rewrite He. unfold convertBaseTypeToTs, JS.get. cbn [JS.nullish bind].
    rewrite (P "s"%char "chemaName" eq_refl eq_refl),
      (P "t"%char "ype" eq_refl eq_refl).
    reflexivity.
Qed.

Lemma one_char_not_direct (c : ascii) :
  isDirectType (VStr (String c EmptyString)) = false.
Proof.
  cbn [isDirectType String.eqb].
  destruct (Ascii.eqb c "S"), (Ascii.eqb c "N"), (Ascii.eqb c "B"); reflexivity.
Qed.

Lemma nestedCall_string (fuel : nat) :
  forall (isDocument : bool) (s : string),
    nonEmpty s = true -> nestedCall fuel isDocument (VStr s) = Diverge.
Proof.
  induction fuel as [|fuel IH]; intros isDocument s Hs; [reflexivity|].
  destruct s as [|c r]; [discriminate|].
  rewrite nestedCall_step.
  change (JS.keys (VStr (String c r)))
    with (Ok ("0" :: List.map fst (JS.chars_from 1 r))).
  cbn [bind mapM].
  change (JS.prop (VStr (String c r)) "0") with (VStr (String c EmptyString)).
  rewrite (parseKey_string _ _ _ "0" _ (one_char_not_direct c) eq_refl
             (IH isDocument (String c EmptyString) eq_refl)).
  reflexivity.
Qed.

Lemma parseSchema_treeSchema_named (fuel : nat) (tree : Props)
    (modelName : option string) (addModel isDocument isAugmented : bool)
    (header footer : string) :
  parseSchema (S fuel) (treeSchema tree) modelName addModel isDocument
              header footer isAugmented
  = ls <- fieldLines fuel isDocument tree ;;
    Ok ((header ++ Str.join EmptyString ls) ++ footer).
Proof.
  unfold fieldLines.
  transitivity
    (template <-
       foldM (fun template key =>
                line <- parseKey (nestedCall fuel isDocument) (treeSchema tree)
                                 isDocument key (JS.prop (VObj true tree) key) ;;
                Ok (template ++ line))
             (List.map fst tree) header ;;
     Ok (template ++ footer)).
  - destruct isDocument; reflexivity.
  - rewrite foldM_append.
    destruct (mapM _ (List.map fst tree)) as [ls| |]; reflexivity.
Qed.

Lemma mapM_ok_each {A B : Type} (f : A -> Res B) (xs : list A) (ys : list B) (x : A) :
  mapM f xs = Ok ys -> In x xs -> exists y, f x = Ok y.
Proof.
  revert ys. induction xs as [|a xs IH]; intros ys H Hin; [destruct Hin|].
  cbn [mapM] in H. destruct (f a) as [y| |] eqn:E; cbn [bind] in H; try discriminate.
  destruct (mapM f xs) as [ys'| |]; cbn [bind] in H; try discriminate.
  destruct Hin as [->|Hin]; [now exists y | apply (IH ys' eq_refl Hin)].
Qed.

Lemma lookup_In (key : string) (ps : Props) (v : Val) :
  JS.lookup key ps = Some v -> In key (List.map fst ps).
Proof.
  induction ps as [|[k x] ps IH]; [discriminate|]. cbn [JS.lookup List.map fst In].
  destruct (String.eqb key k) eqn:E.
  - apply String.eqb_eq in E. subst k. now left.
  - intros H. right. apply IH, H.
Qed.

(** X17: a field whose value is a non-empty string other than the three
    type names the compiler expands ([String], [Number], [Buffer]) makes
    [parseSchema] descend into the characters of the string without end:
    whatever the budget, no output is returned for a tree that has such a
    field. *)
Theorem string_field_never_returns (tree : Props) (key s : string) :
  JS.lookup key tree = Some (VStr s) ->
  nonEmpty s = true ->
  isDirectType (VStr s) = false ->
  isMetadataKey key = false ->
  forall (fuel : nat) (modelName : option string) (addModel isDocument : bool)
         (header footer : string) (isAugmented : bool) (out : string),
    parseSchema fuel (treeSchema tree) modelName addModel isDocument header footer
                isAugmented
    <> Ok out.
Proof.
  intros Hl Hs Hd Hk fuel modelName addModel isDocument header footer isAugmented out.
  destruct fuel as [|fuel]; [discriminate|].
  rewrite parseSchema_treeSchema_named.
  destruct (fieldLines fuel isDocument tree) as [ls| |] eqn:E; cbn [bind];
    try discriminate.
  exfalso. unfold fieldLines in E.
  destruct (mapM_ok_each _ _ _ key E (lookup_In key tree _ Hl)) as [l Hp].
  cbn [JS.prop] in Hp. rewrite Hl in Hp.
  rewrite (parseKey_string _ _ _ key s Hd Hk (nestedCall_string fuel isDocument s Hs))
    in Hp.
  discriminate.
Qed.

Lemma string_field_never_returns_witness :
  parseSchema 50
    (treeSchema [ ("name", VFun NString); ("active", VStr "Boolean") ])
    (Some "User") true false "interface User {" "}" false
  <> Ok ("interface User {" ++ "name: string;" ++ nl ++ "}").
Proof.
  apply (string_field_never_returns
           [ ("name", VFun NString); ("active", VStr "Boolean") ] "active" "Boolean");
    reflexivity.
Defined.

(** ** Virtual properties and hoisted sub-entities *)

(** X18: a virtual property is never emitted under the key [id]; under any
    other key it is the member [key: any], never optional, in the live
    shape always, and in the plain shape exactly when
    [shouldLeanIncludeVirtuals] says so for the schema. *)
Theorem parseKey_virtual (nested : Val -> Res string) (schema : Val)
    (isDocument : bool) (key : string) (val : Val) :
  virtualEntry val = true ->
  parseKey nested schema isDocument key val
  = if String.eqb key "id" then Ok EmptyString
    else if isDocument then Ok (makeLine key "any" false)
    else include <- shouldLeanIncludeVirtuals schema ;;
         Ok (if include then makeLine key "any" false else EmptyString).
Proof.
  unfold virtualEntry. intros H.
  apply andb_prop in H as [H Hm]. apply andb_prop in H as [H Hv].
  apply andb_prop in H as [Ha Hh]. apply negb_true_iff in Hm, Hh.
  assert (He : JS.nullish (expanded val) = false).
  { apply expanded_nullish. now destruct (notArrayForm_shape val Ha). }
  unfold parseKey. rewrite (normalizeArray_field val Ha). cbn [bind].
  fold (expanded val). unfold JS.get at 1. rewrite He. cbn [bind].
  unfold resolveType. unfold isHoisted in Hh. rewrite Hh, virtual_test, Hv, Hm.
  destruct (String.eqb key "id"); [reflexivity|].
  destruct isDocument; cbn [negb bind]; [reflexivity|].
  destruct (shouldLeanIncludeVirtuals schema) as [[|]| |]; reflexivity.
Qed.

Lemma parseKey_virtual_witness :
  let fullName := VObj false [ ("path", VStr "fullName")
                             ; ("getters", VArr [VFun (NUser "get")])
                             ; ("setters", VArr [])
                             ; ("options", VObj true []) ] in
  parseKey (fun _ => Diverge) (schemaWithToObject (VBool true) VUndef) false
           "fullName" fullName
  = Ok ("fullName: any;" ++ nl)
  /\ parseKey (fun _ => Diverge) (schemaWithToObject VUndef VUndef) false
              "fullName" fullName
     = Ok EmptyString
  /\ parseKey (fun _ => Diverge) (schemaWithToObject VUndef VUndef) true "id" fullName
     = Ok EmptyString.
Proof.
  cbv zeta. split; [|split].
  - apply (parseKey_virtual (fun _ => Diverge) (schemaWithToObject (VBool true) VUndef)
             false "fullName"). reflexivity.
  - apply (parseKey_virtual (fun _ => Diverge) (schemaWithToObject VUndef VUndef)
             false "fullName"). reflexivity.
  - apply (parseKey_virtual (fun _ => Diverge) (schemaWithToObject VUndef VUndef)
             true "id"). reflexivity.
Defined.

Lemma truthy_coalesce_false (d : Val) :
  JS.truthy (JS.coalesce d (VBool false)) = JS.truthy d.
Proof. destruct d; reflexivity. Qed.

Lemma interfaceName_nonEmpty (isDocument : bool) (name : string) :
  nonEmpty name = true -> nonEmpty (interfaceName isDocument name) = true.
Proof. destruct name; [discriminate | reflexivity]. Qed.

Lemma interfaceName_not_buffer (name : string) :
  String.eqb (interfaceName true name) "Buffer" = false.
Proof.
  apply String.eqb_neq. intros E. apply (f_equal String.length) in E. revert E.
  unfold interfaceName. rewrite length_append. simpl. lia.
Qed.

Lemma memberType_hoisted (isDocument : bool) (child : Val) (isArray : bool)
    (name : string) :
  JS.strictEq (JS.prop child "type") (VFun NMap) = false ->
  memberType isDocument child isArray (interfaceName isDocument name)
  = if isArray
    then wrapArray isDocument (JS.prop child "_isSubdocArray")
                   (interfaceName isDocument name)
    else interfaceName isDocument name.
Proof.
  intros Hm. unfold memberType. rewrite Hm.
  destruct isDocument.
  - rewrite interfaceName_not_buffer. reflexivity.
  - rewrite andb_false_r. reflexivity.
Qed.

Lemma resolveType_hoisted (nested : Val -> Res string) (schema : Val)
    (isDocument : bool) (key : string) (child : Val) (isOptional : bool)
    (name : string) :
  JS.prop child "_inferredInterfaceName" = VStr name ->
  nonEmpty name = true ->
  resolveType nested schema isDocument key child isOptional
  = Ok (Some (Some (interfaceName isDocument name), isOptional)).
Proof.
  intros Hn Hne. unfold resolveType. rewrite Hn. cbn [JS.truthy JS.toStr].
  unfold nonEmpty in Hne. rewrite Hne. reflexivity.
Qed.

(** X19: an entry replaced by a child schema is typed by the interface of
    the sub-entity ([N], [NDocument] in the live shape) whatever its key.
    A single sub-entity is optional unless the schema object carries a
    truthy [required]; an array of sub-entities is wrapped as an array and
    is optional exactly when its default was set to [undefined]. *)
Theorem parseKey_hoisted (nested : Val -> Res string) (schema : Val)
    (isDocument : bool) (key name : string) (child : Val) (rest : list Val) :
  hoistedAs name child ->
  (JS.isArray (JS.prop child "type") = false ->
   parseKey nested schema isDocument key child
   = Ok (makeLine key (interfaceName isDocument name)
                  (negb (JS.truthy (JS.prop child "required")))))
  /\ parseKey nested schema isDocument key (VArr (child :: rest))
     = Ok (makeLine key
             (wrapArray isDocument (JS.prop child "_isSubdocArray")
                        (interfaceName isDocument name))
             (JS.truthy (JS.prop child "_isDefaultSetToUndefined"))).
Proof.
  intros ((p & ps & ->) & Hn & Hne & Hm). split.
  - intros Ht.
    rewrite (parseKey_typed nested schema isDocument key (VObj p ps) (VObj p ps) false
               (negb (JS.truthy (JS.prop (VObj p ps) "required")))
               (negb (JS.truthy (JS.prop (VObj p ps) "required")))
               (interfaceName isDocument name)).
    + change (expanded (VObj p ps)) with (VObj p ps).
      now rewrite (memberType_hoisted _ _ _ _ Hm).
    + apply normalizeArray_field. unfold notArrayForm. now rewrite Ht.
    + reflexivity.
    + apply (resolveType_hoisted _ _ _ _ _ _ _ Hn Hne).
    + apply interfaceName_nonEmpty, Hne.
  - rewrite (parseKey_typed nested schema isDocument key (VArr (VObj p ps :: rest))
               (VObj p ps) true
               (JS.truthy (JS.prop (VObj p ps) "_isDefaultSetToUndefined"))
               (JS.truthy (JS.prop (VObj p ps) "_isDefaultSetToUndefined"))
               (interfaceName isDocument name)).
    + change (expanded (VObj p ps)) with (VObj p ps).
      now rewrite (memberType_hoisted _ _ _ _ Hm).
    + unfold normalizeArray.
      change (JS.isPlainObject (VArr (VObj p ps :: rest))) with false.
      cbn [JS.get JS.nullish bind JS.isArray].
      change (JS.prop (VArr (VObj p ps :: rest)) "0") with (VObj p ps).
      unfold JS.get. cbn [JS.nullish bind].
      now rewrite truthy_coalesce_false.
    + reflexivity.
    + apply (resolveType_hoisted _ _ _ _ _ _ _ Hn Hne).
    + apply interfaceName_nonEmpty, Hne.
Qed.

Lemma parseKey_hoisted_witness :
  let child := VObj false [ ("obj", VObj true [("street", VFun NString)])
                          ; ("_isReplacedWithSchema", VBool true)
                          ; ("_inferredInterfaceName", VStr "UserAddress")
                          ; ("_isSubdocArray", VBool true) ] in
  hoistedAs "UserAddress" child
  /\ parseKey (fun _ => Diverge) VUndef true "addresses" (VArr [child])
     = Ok ("addresses: mongoose.Types.DocumentArray<UserAddressDocument>;" ++ nl).
Proof.
  cbv zeta.
  assert (H : hoistedAs "UserAddress"
                (VObj false [ ("obj", VObj true [("street", VFun NString)])
                            ; ("_isReplacedWithSchema", VBool true)
                            ; ("_inferredInterfaceName", VStr "UserAddress")
                            ; ("_isSubdocArray", VBool true) ])).
  { split; [eexists _, _; reflexivity|]. split; [reflexivity|].
    split; reflexivity. }
  split; [exact H|].
  apply (proj2 (parseKey_hoisted (fun _ => Diverge) VUndef true "addresses"
                  "UserAddress" _ [] H)).
Defined.

(** ** Enumerations *)

Lemma join_literals (x : Val) (xs : list Val) :
  dq ++ Str.join (dq ++ " | " ++ dq) (List.map JS.toStr (x :: xs)) ++ dq
  = literalUnion (x :: xs).
Proof.
  unfold literalUnion. revert x. induction xs as [|y xs IH]; intros x.
  - reflexivity.
  - change (Str.join (dq ++ " | " ++ dq) (List.map JS.toStr (x :: y :: xs)))
      with (JS.toStr x ++ (dq ++ " | " ++ dq)
              ++ Str.join (dq ++ " | " ++ dq) (List.map JS.toStr (y :: xs))).
    change (Str.join " | " (List.map literal (x :: y :: xs)))
      with (literal x ++ " | " ++ Str.join " | " (List.map literal (y :: xs))).
    rewrite <- IH. unfold literal. rewrite !append_assoc. reflexivity.
Qed.

Lemma textField_shape (val : Val) :
  textField val = true ->
  JS.nullish val = false /\ isMixed val = false
  /\ tagOf (mongooseTypeOf val) = TString.
Proof.
  unfold textField. intros H.
  apply andb_prop in H as [H Ht]. apply andb_prop in H as [Hn Hm].
  apply negb_true_iff in Hn, Hm.
  destruct (tagOf (mongooseTypeOf val)); try discriminate. auto.
Qed.

Lemma convertBaseTypeToTs_text (key : string) (val : Val) (isDocument : bool) :
  textField val = true ->
  convertBaseTypeToTs key val isDocument
  = let enum := JS.prop val "enum" in
    if JS.gtZero (JS.optGet enum "length")
    then joined <- joinEnum enum (dq ++ " | " ++ dq) ;;
         Ok (Some (dq ++ joined ++ dq))
    else Ok (Some "string").
Proof.
  intros H. destruct (textField_shape val H) as (Hn & Hm & Ht).
  unfold convertBaseTypeToTs, JS.get. rewrite Hn. cbn [bind].
  unfold isMixed in Hm. rewrite Hm.
  unfold mongooseTypeOf in Ht. rewrite Ht. reflexivity.
Qed.

(** X20: for a text field, an enumeration given as a non-empty array is
    typed as the union of its values written as string literals, in the
    order of the array; an enumeration in any form without a positive
    [length] (the empty array, the object form with [values] and
    [message]) is not looked at, and the type is [string]. *)
Theorem convertBaseTypeToTs_enum (key : string) (val : Val) (isDocument : bool) :
  textField val = true ->
  (forall (x : Val) (xs : list Val),
      JS.prop val "enum" = VArr (x :: xs) ->
      convertBaseTypeToTs key val isDocument = Ok (Some (literalUnion (x :: xs))))
  /\ (JS.gtZero (JS.optGet (JS.prop val "enum") "length") = false ->
      convertBaseTypeToTs key val isDocument = Ok (Some "string")).
Proof.
  intros H. rewrite (convertBaseTypeToTs_text key val isDocument H). cbv zeta. split.
  - intros x xs He. rewrite He.
    assert (Hl : JS.gtZero (JS.optGet (VArr (x :: xs)) "length") = true).
    { reflexivity. }
    rewrite Hl. cbn [joinEnum bind]. now rewrite join_literals.
  - intros Hl. now rewrite Hl.
Qed.

Lemma convertBaseTypeToTs_enum_witness :
  convertBaseTypeToTs "role"
    (VObj true [ ("type", VFun NString)
               ; ("enum", VArr [VStr "admin"; VStr "user"; VNull]) ]) false
  = Ok (Some (dq ++ "admin" ++ dq ++ " | " ++ dq ++ "user" ++ dq ++ " | " ++ dq ++ dq))
  /\ convertBaseTypeToTs "role"
       (VObj true [ ("type", VFun NString)
                  ; ("enum", VObj true [ ("values", VArr [VStr "admin"; VStr "user"])
                                       ; ("message", VStr "unknown role") ]) ]) false
     = Ok (Some "string").
Proof.
  split.
  - apply (proj1 (convertBaseTypeToTs_enum "role"
                    (VObj true [ ("type", VFun NString)
                               ; ("enum", VArr [VStr "admin"; VStr "user"; VNull]) ])
                    false eq_refl)
                 (VStr "admin") [VStr "user"; VNull] eq_refl).
  - apply (proj2 (convertBaseTypeToTs_enum "role"
                    (VObj true [ ("type", VFun NString)
                               ; ("enum", VObj true
                                            [ ("values", VArr [VStr "admin"; VStr "user"])
                                            ; ("message", VStr "unknown role") ]) ])
                    false eq_refl)
                 eq_refl).
Defined.

(** ** Arrays *)

Lemma lookup_assign (k k' : string) (x : Val) (ps : Props) :
  JS.lookup k' (JS.assign k x ps)
  = if String.eqb k' k then Some x else JS.lookup k' ps.
Proof.
  induction ps as [|[k0 v0] ps IH]; cbn [JS.assign JS.lookup].
  - reflexivity.
  - destruct (String.eqb k k0) eqn:E; cbn [JS.lookup].
    + apply String.eqb_eq in E. subst k0.
      destruct (String.eqb k' k); reflexivity.
    + rewrite IH. destruct (String.eqb k' k0) eqn:E0; [|reflexivity].
      apply String.eqb_eq in E0. subst k0.
      rewrite String.eqb_sym, E. reflexivity.
Qed.

Lemma prop_assign_same (p : bool) (k : string) (x : Val) (ps : Props) :
  JS.prop (VObj p (JS.assign k x ps)) k = x.
Proof. cbn [JS.prop]. now rewrite lookup_assign, String.eqb_refl. Qed.

Lemma prop_assign_other (p : bool) (k k' : string) (x : Val) (ps : Props) :
  String.eqb k' k = false ->
  JS.prop (VObj p (JS.assign k x ps)) k' = JS.prop (VObj p ps) k'.
Proof. intros E. cbn [JS.prop]. now rewrite lookup_assign, E. Qed.

Lemma direct_cases (elem : Val) :
  isDirectType elem = true ->
  In elem [ VFun NString; VFun NNumber; VFun NBoolean; VFun NDate; VFun NBuffer
          ; VFun NSchemaObjectId; VFun NTypesObjectId; VFun NTypesDecimal128
          ; VFun NSchemaDecimal128; VStr "String"; VStr "Number"; VStr "Buffer" ].
Proof.
  destruct elem as [| | | |s|f| |]; try discriminate.
  - cbn [isDirectType]. intros H.
    apply orb_prop in H as [H|H]; [apply orb_prop in H as [H|H]|];
      apply String.eqb_eq in H; subst s; cbn; tauto.
  - destruct f; try discriminate; intros _; cbn; tauto.
Qed.

(** X21: an array written as a bare list whose first element is one of the
    type tags the compiler expands is a member that is never optional; its
    element type is the type of that first element, and further elements
    of the list are not looked at. *)
Theorem parseKey_bare_array (nested : Val -> Res string) (schema : Val)
    (isDocument : bool) (key : string) (elem : Val) (rest : list Val) (t : string) :
  isDirectType elem = true ->
  isMetadataKey key = false ->
  convertBaseTypeToTs key (VObj true [("type", elem)]) isDocument = Ok (Some t) ->
  parseKey nested schema isDocument key (VArr (elem :: rest))
  = Ok (makeLine key
          (wrapArray isDocument VUndef
             (if String.eqb t "Buffer" && isDocument
              then "mongoose.Types.Buffer" else t))
          false).
Proof.
  intros Hd Hk Hc.
  assert (He : expanded elem = VObj true [("type", elem)])
    by (unfold expanded; now rewrite Hd).
  assert (Hnorm : normalizeArray (VArr (elem :: rest)) = Ok (elem, true, false)).
  { unfold normalizeArray.
    change (JS.isPlainObject (VArr (elem :: rest))) with false.
    cbn [JS.get JS.nullish bind JS.isArray].
    change (JS.prop (VArr (elem :: rest)) "0") with elem.
    pose proof (direct_cases elem Hd) as Hin. cbn [In] in Hin.
    repeat (destruct Hin as [<-|Hin]; [reflexivity|]). destruct Hin. }
  assert (Hm : JS.strictEq elem (VFun NMap) = false).
  { pose proof (direct_cases elem Hd) as Hin. cbn [In] in Hin.
    repeat (destruct Hin as [<-|Hin]; [reflexivity|]). destruct Hin. }
  assert (Ht : String.eqb t "{}" = false).
  { pose proof (direct_cases elem Hd) as Hin. cbn [In] in Hin.
    unfold convertBaseTypeToTs in Hc.
    repeat (destruct Hin as [<-|Hin];
            [cbn in Hc;
             repeat match type of Hc with
                    | (if ?b then _ else _) = _ => destruct b
                    end;
             try discriminate; injection Hc as <-; destruct isDocument;
             reflexivity|]).
    destruct Hin. }
  rewrite (parseKey_typed nested schema isDocument key (VArr (elem :: rest)) elem
             true false false t Hnorm).
  - rewrite He. unfold memberType.
    change (JS.prop (VObj true [("type", elem)]) "type") with elem.
    rewrite Hm. reflexivity.
  - rewrite He. reflexivity.
  - rewrite He.
    rewrite (resolveType_plain nested schema isDocument key
               (VObj true [("type", elem)]) false eq_refl Hk), Hc.
    cbn [bind]. rewrite Ht. destruct (String.eqb key "_id"); reflexivity.
  - apply (convertBaseTypeToTs_nonEmpty _ _ _ _ Hc).
Qed.

Lemma parseKey_bare_array_witness :
  parseKey (fun _ => Diverge) VUndef true "files" (VArr [VFun NBuffer; VFun NString])
  = Ok ("files: mongoose.Types.Array<mongoose.Types.Buffer>;" ++ nl).
Proof.
  apply (parseKey_bare_array (fun _ => Diverge) VUndef true "files" (VFun NBuffer)
           [VFun NString] "Buffer");
    reflexivity.
Defined.

(** ** The flat tree of a schema with child schemas *)

Lemma startsWith_refl (p : string) : Str.startsWith p p = true.
Proof.
  induction p as [|c p IH]; [reflexivity|].
  cbn [Str.startsWith]. now rewrite Ascii.eqb_refl, IH.
Qed.

Lemma lookup_filter (g : string -> bool) (k : string) (ps : Props) :
  JS.lookup k (filter (fun kv => g (fst kv)) ps)
  = if g k then JS.lookup k ps else None.
Proof.
  induction ps as [|[k0 v0] ps IH]; cbn [filter JS.lookup fst].
  - destruct (g k); reflexivity.
  - destruct (g k0) eqn:G; cbn [JS.lookup]; rewrite IH;
      destruct (String.eqb k k0) eqn:E; try reflexivity;
      apply String.eqb_eq in E; subst k0; rewrite G; reflexivity.
Qed.

(** X23: what one child schema does to the flat tree.  Its path becomes an
    entry; every longer key that starts with the path is deleted, the
    properties under the path and also any sibling field whose name only
    begins with the same letters; the keys that do not start with the path
    are left as they were. *)
Theorem processChild_flat_tree (recur : Val -> string -> string -> Res string)
    (isDocument isAugmented : bool) (rootPath : string)
    (flatSchemaTree flatSchemaTree' : Props) (childInterfaces childInterfaces' : string)
    (child : Val) (path : string) :
  JS.prop (JS.prop child "model") "path" = VStr path ->
  processChild recur isDocument isAugmented rootPath
               (flatSchemaTree, childInterfaces) child
    = Ok (flatSchemaTree', childInterfaces') ->
  (exists entry, JS.lookup path flatSchemaTree' = Some entry)
  /\ (forall key, shadowedBy path key = true ->
                  JS.lookup key flatSchemaTree' = None)
  /\ (forall key, Str.startsWith path key = false ->
                  JS.lookup key flatSchemaTree' = JS.lookup key flatSchemaTree).
Proof.
  intros Hpath H. unfold processChild, JS.get in H.
  destruct (JS.nullish child); cbn [bind TypeError] in H; try discriminate.
  destruct (JS.nullish (JS.prop child "model")); cbn [bind TypeError] in H;
    try discriminate.
  rewrite Hpath in H. cbn [bind] in H.
  repeat match type of H with
         | bind ?m _ = Ok _ => destruct m eqn:?; cbn [bind] in H; try discriminate
         end.
  injection H as <- _.
  match goal with
  | |- context [JS.assign path ?e flatSchemaTree] => set (entry := e)
  end.
  assert (F : forall key,
             JS.lookup key
               (filter (fun kv => negb (Str.startsWith path (fst kv)
                                        && Nat.ltb (String.length path)
                                                   (String.length (fst kv))))
                       (JS.assign path entry flatSchemaTree))
             = if negb (shadowedBy path key)
               then JS.lookup key (JS.assign path entry flatSchemaTree)
               else None).
  { intros key.
    apply (lookup_filter
             (fun k => negb (Str.startsWith path k
                             && Nat.ltb (String.length path) (String.length k)))). }
  split; [|split].
  - exists entry. rewrite F. unfold shadowedBy.
    rewrite Nat.ltb_irrefl, andb_false_r. cbn [negb].
    now rewrite lookup_assign, String.eqb_refl.
  - intros key Hs. rewrite F, Hs. reflexivity.
  - intros key Hs. rewrite F. unfold shadowedBy. rewrite Hs. cbn [andb negb].
    rewrite lookup_assign.
    destruct (String.eqb key path) eqn:E; [|reflexivity].
    apply String.eqb_eq in E. subst key. now rewrite startsWith_refl in Hs.
Qed.

Lemma processChild_flat_tree_witness :
  let child :=
    VObj true [ ("model", VObj true [("path", VStr "tag")])
              ; ("schema", VObj false [("tree", VObj true [("label", VFun NString)])]) ] in
  let flatSchemaTree :=
    [ ("tag.obj.label", VFun NString); ("tags", VArr [VFun NString])
    ; ("title", VFun NString) ] in
  exists flatSchemaTree',
    processChild (fun _ _ _ => Ok EmptyString) false false "Post"
                 (flatSchemaTree, EmptyString) child
      = Ok (flatSchemaTree', EmptyString)
    /\ JS.lookup "tags" flatSchemaTree' = None
    /\ JS.lookup "tag.obj.label" flatSchemaTree' = None
    /\ JS.lookup "title" flatSchemaTree' = Some (VFun NString).
Proof.
  cbv zeta. eexists. split; [reflexivity|].
  destruct (processChild_flat_tree (fun _ _ _ => Ok EmptyString) false false "Post"
              [ ("tag.obj.label", VFun NString); ("tags", VArr [VFun NString])
              ; ("title", VFun NString) ]
              _ EmptyString EmptyString
              (VObj true [ ("model", VObj true [("path", VStr "tag")])
                         ; ("schema",
                            VObj false [("tree", VObj true [("label", VFun NString)])]) ])
              "tag" eq_refl eq_refl) as (_ & Hdel & Hkeep).
  split; [apply (Hdel "tags"); reflexivity|].
  split; [apply (Hdel "tag.obj.label"); reflexivity|].
  rewrite (Hkeep "title" eq_refl). reflexivity.
Defined.

(** ** Fields that are dropped and fields that cannot be read *)

Lemma mapM_app {A B : Type} (f : A -> Res B) (xs ys : list A) :
  mapM f (List.app xs ys)
  = a <- mapM f xs ;; b <- mapM f ys ;; Ok (List.app a b).
Proof.
  induction xs as [|x xs IH]; cbn [List.app mapM bind].
  - destruct (mapM f ys); reflexivity.
  - destruct (f x) as [y| |]; cbn [bind]; try reflexivity.
    rewrite IH. destruct (mapM f xs) as [a| |]; cbn [bind]; try reflexivity.
    destruct (mapM f ys) as [b| |]; reflexivity.
Qed.

Lemma mapM_ext_in {A B : Type} (f g : A -> Res B) (xs : list A) :
  (forall x, In x xs -> f x = g x) -> mapM f xs = mapM g xs.
Proof.
  induction xs as [|x xs IH]; intros H; [reflexivity|]. cbn [mapM].
  rewrite (H x (or_introl eq_refl)), IH; [reflexivity|].
  intros y Hy. apply H. now right.
Qed.

Lemma join_empty_app (a b : list string) :
  Str.join EmptyString (List.app a b)
  = Str.join EmptyString a ++ Str.join EmptyString b.
Proof.
  induction a as [|x a IH]; [reflexivity|].
  change (List.app (x :: a) b) with (x :: List.app a b).
  now rewrite !join_empty_cons, IH, append_assoc.
Qed.

Lemma lookup_app (k : string) (a b : Props) :
  JS.lookup k (List.app a b)
  = match JS.lookup k a with Some v => Some v | None => JS.lookup k b end.
Proof.
  induction a as [|[k' v] a IH]; [reflexivity|]. cbn [List.app JS.lookup].
  destruct (String.eqb k k'); [reflexivity | exact IH].
Qed.

Lemma lookup_notin (k : string) (ps : Props) :
  JS.lookup k ps = None -> ~ In k (List.map fst ps).
Proof.
  induction ps as [|[k' v] ps IH]; [intros _ []|]. cbn [JS.lookup List.map fst In].
  destruct (String.eqb k k') eqn:E; [discriminate|].
  intros H [->|Hin]; [now rewrite String.eqb_refl in E | now apply IH].
Qed.

Lemma lookup_in_first (k : string) (a b : Props) :
  In k (List.map fst a) -> JS.lookup k (List.app a b) = JS.lookup k a.
Proof.
  intros Hin. rewrite lookup_app. destruct (JS.lookup k a) eqn:E; [reflexivity|].
  now destruct (lookup_notin k a E).
Qed.

(** [parseKey] looks at the schema only to decide on virtual properties. *)
Lemma parseKey_schema (nested : Val -> Res string) (schema schema' : Val)
    (isDocument : bool) (key : string) (val : Val) :
  shouldLeanIncludeVirtuals schema = shouldLeanIncludeVirtuals schema' ->
  parseKey nested schema isDocument key val
  = parseKey nested schema' isDocument key val.
Proof.
  intros H. unfold parseKey.
  destruct (normalizeArray val) as [[[v a] o]| |]; cbn [bind]; try reflexivity.
  destruct (JS.get _ "type"); cbn [bind]; try reflexivity.
  unfold resolveType. rewrite H. reflexivity.
Qed.

Lemma parseKey_unreadable (nested : Val -> Res string) (schema : Val)
    (isDocument : bool) (key : string) (val : Val) :
  unreadable val = true ->
  parseKey nested schema isDocument key val = Throw "TypeError".
Proof.
  intros H. unfold parseKey, normalizeArray. rewrite cloneDeep_plain.
  destruct val as [| | | | | |xs|p ps]; try discriminate; try reflexivity.
  - cbn [unreadable] in H.
    cbn [JS.get JS.nullish bind JS.isArray]. unfold JS.get. rewrite H. reflexivity.
  - cbn [unreadable] in H. apply andb_prop in H as [Ha Hn].
    cbn [JS.get JS.nullish bind JS.isArray]. rewrite Ha.
    cbn [JS.set bind]. rewrite prop_assign_same.
    unfold JS.get. rewrite Hn. reflexivity.
Qed.

(** The fields of a tree, compiled inside any schema that has only a tree. *)
Lemma fieldLines_in (fuel : nat) (isDocument : bool) (tree : Props)
    (keys : list string) (other : Props) :
  (forall key, In key keys -> JS.lookup key tree = JS.lookup key other) ->
  mapM (fun key =>
          parseKey (nestedCall fuel isDocument) (treeSchema tree) isDocument key
                   (JS.prop (VObj true tree) key)) keys
  = mapM (fun key =>
            parseKey (nestedCall fuel isDocument) (treeSchema other) isDocument key
                     (JS.prop (VObj true other) key)) keys.
Proof.
  intros H. apply mapM_ext_in. intros key Hin.
  cbn [JS.prop]. rewrite (H key Hin). apply parseKey_schema. reflexivity.
Qed.

(** C4, amended: the compiler has no error handling of its own.  (1) On a
    field object that is not null, a type tag the resolver does not
    recognize resolves to the nested-object sentinel and nothing is thrown
    there.  (2) A field whose type resolves to nothing (the numeric [__v])
    produces no output, wherever it stands in the tree: the output is the
    output for the tree without that field, so the remaining fields are
    still emitted.  (3) On a schema made of a tree, a field whose value
    cannot be read (null, undefined, an array in either form whose first
    element is null, undefined or missing) leaves no output at all, for any
    budget: when the fields before it compile, [parseSchema] throws a
    TypeError. *)
Theorem unrecognized_shapes_degrade :
  (forall (key : string) (val : Val) (isDocument : bool),
      JS.nullish val = false ->
      isMixed val = false ->
      tagOf (mongooseTypeOf val) = TOther ->
      convertBaseTypeToTs key val isDocument = Ok (Some "{}"))
  /\ (forall (fuel : nat) (before after : Props) (val : Val)
        (modelName : option string) (addModel isDocument isAugmented : bool)
        (header footer : string),
         numericField val = true ->
         JS.lookup "__v" (List.app before after) = None ->
         parseSchema fuel (treeSchema (List.app before (("__v", val) :: after)))
                     modelName addModel isDocument header footer isAugmented
         = parseSchema fuel (treeSchema (List.app before after))
                       modelName addModel isDocument header footer isAugmented)
  /\ (forall (tree : Props) (key : string) (val : Val),
         JS.lookup key tree = Some val ->
         unreadable val = true ->
         forall (fuel : nat) (modelName : option string)
                (addModel isDocument isAugmented : bool) (header footer out : string),
           parseSchema fuel (treeSchema tree) modelName addModel isDocument
                       header footer isAugmented
           <> Ok out)
  /\ (forall (fuel : nat) (before after : Props) (key : string) (val : Val)
        (modelName : option string) (addModel isDocument isAugmented : bool)
        (header footer : string) (ls : list string),
         unreadable val = true ->
         JS.lookup key before = None ->
         fieldLines fuel isDocument before = Ok ls ->
         parseSchema (S fuel) (treeSchema (List.app before ((key, val) :: after)))
                     modelName addModel isDocument header footer isAugmented
         = Throw "TypeError").
Proof.
  split; [|split; [|split]].
  - intros key val isDocument Hn Hm Ht.
    unfold convertBaseTypeToTs, JS.get. rewrite Hn. cbn [bind].
    unfold isMixed in Hm. rewrite Hm.
    unfold mongooseTypeOf in Ht. rewrite Ht. reflexivity.
  - intros fuel before after val modelName addModel isDocument isAugmented
           header footer Hv Hl.
    destruct fuel as [|fuel]; [reflexivity|].
    rewrite !parseSchema_treeSchema_named. unfold fieldLines.
    rewrite !List.map_app. cbn [List.map fst]. rewrite !mapM_app. cbn [mapM].
    pose proof (lookup_notin _ _ Hl) as Hnot. rewrite List.map_app in Hnot.
    assert (Hb : JS.lookup "__v" before = None).
    { rewrite lookup_app in Hl. destruct (JS.lookup "__v" before); [discriminate|].
      reflexivity. }
    assert (Hne : forall key, In key (List.app (List.map fst before) (List.map fst after)) ->
                              String.eqb key "__v" = false).
    { intros key Hin. apply String.eqb_neq. intros ->. exact (Hnot Hin). }
    assert (Hsame : forall key,
               In key (List.app (List.map fst before) (List.map fst after)) ->
               JS.lookup key (List.app before (("__v", val) :: after))
               = JS.lookup key (List.app before after)).
    { intros key Hin. rewrite !lookup_app. cbn [JS.lookup].
      now rewrite (Hne key Hin). }
    rewrite (fieldLines_in fuel isDocument _ (List.map fst before)
               (List.app before after))
      by (intros key Hin; apply Hsame, in_or_app; now left).
    rewrite (fieldLines_in fuel isDocument _ (List.map fst after)
               (List.app before after))
      by (intros key Hin; apply Hsame, in_or_app; now right).
    assert (Hval : JS.prop (VObj true (List.app before (("__v", val) :: after))) "__v"
                   = val).
    { cbn [JS.prop]. rewrite lookup_app, Hb. reflexivity. }
    rewrite Hval.
    destruct (numericField_shape val Hv) as (Hn & Ha & Ht & Hh & Hvi & _).
    rewrite (parseKey_metadata _ _ _ "__v" val Hn Ha Ht Hh Hvi eq_refl).
    destruct (mapM _ (List.map fst before)) as [lb| |]; cbn [bind]; try reflexivity.
    destruct (mapM _ (List.map fst after)) as [la| |]; cbn [bind]; try reflexivity.
    rewrite !join_empty_app, join_empty_cons. reflexivity.
  - intros tree key val Hl Hu fuel modelName addModel isDocument isAugmented
           header footer out.
    destruct fuel as [|fuel]; [discriminate|].
    rewrite parseSchema_treeSchema_named.
    destruct (fieldLines fuel isDocument tree) as [ls| |] eqn:E; cbn [bind];
      try discriminate.
    exfalso. unfold fieldLines in E.
    destruct (mapM_ok_each _ _ _ key E (lookup_In key tree _ Hl)) as [l Hp].
    cbn [JS.prop] in Hp. rewrite Hl in Hp.
    rewrite (parseKey_unreadable _ _ _ key val Hu) in Hp. discriminate.
  - intros fuel before after key val modelName addModel isDocument isAugmented
           header footer ls Hu Hb Hls.
    rewrite parseSchema_treeSchema_named. unfold fieldLines in *.
    rewrite List.map_app. cbn [List.map fst]. rewrite mapM_app. cbn [mapM].
    rewrite (fieldLines_in fuel isDocument _ (List.map fst before) before)
      by (intros k Hin; apply lookup_in_first, Hin).
    rewrite Hls. cbn [bind].
    assert (Hval : JS.prop (VObj true (List.app before ((key, val) :: after))) key = val).
    { cbn [JS.prop]. rewrite lookup_app, Hb. cbn [JS.lookup].
      now rewrite String.eqb_refl. }
    rewrite Hval, (parseKey_unreadable _ _ _ key val Hu). reflexivity.
Qed.

Lemma unrecognized_shapes_degrade_witness :
  let point := VObj true [("type", VFun (NUser "Point"))] in
  let version := VObj true [("type", VFun NNumber)] in
  (convertBaseTypeToTs "where" point true = Ok (Some "{}"))
  /\ (parseSchema 2 (treeSchema [ ("name", VFun NString); ("__v", version)
                                ; ("at", VFun NDate) ])
                  (Some "Post") true false "{" "}" false
      = parseSchema 2 (treeSchema [("name", VFun NString); ("at", VFun NDate)])
                    (Some "Post") true false "{" "}" false)
  /\ (parseSchema 3 (treeSchema [ ("name", VFun NString)
                                ; ("tags", VObj true [("type", VArr [])]) ])
                  None false true "{" "}" false
      <> Ok "{}")
  /\ (parseSchema 1 (treeSchema [ ("name", VFun NString); ("owner", VNull)
                                ; ("at", VFun NDate) ])
                  None false false "{" "}" false
      = Throw "TypeError").
Proof.
  cbv zeta. destruct unrecognized_shapes_degrade as (H1 & H2 & H3 & H4).
  split; [|split; [|split]].
  - apply H1; reflexivity.
  - apply (H2 2 [("name", VFun NString)] [("at", VFun NDate)]
              (VObj true [("type", VFun NNumber)])); reflexivity.
  - apply (H3 [ ("name", VFun NString); ("tags", VObj true [("type", VArr [])]) ]
              "tags" (VObj true [("type", VArr [])])); reflexivity.
  - apply (H4 0 [("name", VFun NString)] [("at", VFun NDate)] "owner" VNull
              None false false false "{" "}" ["name?: string;" ++ nl]);
      reflexivity.
Defined.

(** ** The parts of the output of [parseSchema] *)

Lemma parseSchema_parts (fuel : nat) (schemaOriginal : Val)
    (modelName : option string) (addModel isDocument : bool)
    (header footer : string) (isAugmented : bool) :
  parseSchema (S fuel) schemaOriginal modelName addModel isDocument header footer
              isAugmented
  = ' (schema, children) <-
      hoistChildren fuel schemaOriginal modelName isDocument isAugmented ;;
    aux <- auxiliaryPart schema modelName addModel isDocument isAugmented ;;
    lines <- memberLines fuel schema isDocument ;;
    Ok (children ++ aux ++ header ++ Str.join EmptyString lines ++ footer).
Proof.
  cbn [parseSchema]. unfold hoistChildren, auxiliaryPart, memberLines.
  fold (nestedCall fuel isDocument).
  destruct (JS.get (JS.cloneDeep schemaOriginal) "childSchemas") as [cs| |];
    cbn [bind]; try reflexivity.
  assert (Tail : forall (schema : Val) (children : string),
    (template <-
       (if negb isDocument && JS.truthy (JS.prop schema "statics")
           && truthyName modelName && addModel
        then aux <- auxiliaryTypes schema
                      (match modelName with Some n => n | None => EmptyString end)
                      isAugmented ;;
             Ok (children ++ aux)
        else Ok children) ;;
     ks <- JS.keys (JS.prop schema "tree") ;;
     template <-
       foldM (fun template key =>
                line <- parseKey (fun val => nestedCall fuel isDocument val)
                                 schema isDocument key
                                 (JS.prop (JS.prop schema "tree") key) ;;
                Ok (template ++ line))
             ks (template ++ header) ;;
     Ok (template ++ footer))
    = (aux <-
         (if negb isDocument && JS.truthy (JS.prop schema "statics")
             && truthyName modelName && addModel
          then auxiliaryTypes schema
                 (match modelName with Some n => n | None => EmptyString end)
                 isAugmented
          else Ok EmptyString) ;;
       lines <-
         (ks <- JS.keys (JS.prop schema "tree") ;;
          mapM (fun key =>
                  parseKey (nestedCall fuel isDocument) schema isDocument key
                           (JS.prop (JS.prop schema "tree") key)) ks) ;;
       Ok (children ++ aux ++ header ++ Str.join EmptyString lines ++ footer))).
  { intros schema children.
    assert (E : forall (aux : string),
      (ks <- JS.keys (JS.prop schema "tree") ;;
       template <-
         foldM (fun template key =>
                  line <- parseKey (fun val => nestedCall fuel isDocument val)
                                   schema isDocument key
                                   (JS.prop (JS.prop schema "tree") key) ;;
                  Ok (template ++ line))
               ks ((children ++ aux) ++ header) ;;
       Ok (template ++ footer))
      = (lines <-
           (ks <- JS.keys (JS.prop schema "tree") ;;
            mapM (fun key =>
                    parseKey (nestedCall fuel isDocument) schema isDocument key
                             (JS.prop (JS.prop schema "tree") key)) ks) ;;
         Ok (children ++ aux ++ header ++ Str.join EmptyString lines ++ footer))).
    { intros aux. destruct (JS.keys (JS.prop schema "tree")) as [ks| |]; cbn [bind];
        try reflexivity.
      rewrite foldM_append.
      destruct (mapM _ ks) as [ls| |]; cbn [bind]; try reflexivity.
      now rewrite !append_assoc. }
    destruct (negb isDocument && JS.truthy (JS.prop schema "statics")
              && truthyName modelName && addModel).
    - destruct (auxiliaryTypes schema _ isAugmented) as [aux| |]; cbn [bind];
        try reflexivity.
      apply E.
    - cbn [bind]. rewrite <- (E EmptyString). now rewrite append_nil_r. }
  destruct (JS.gtZero (JS.optGet cs "length") && truthyName modelName).
  - destruct (Flat.flatten true _) as [flat| |]; cbn [bind]; try reflexivity.
    destruct (match cs with VArr xs => Ok xs | _ => TypeError end) as [xs| |];
      cbn [bind]; try reflexivity.
    destruct (foldM _ xs (flat, EmptyString)) as [[flat' children]| |]; cbn [bind];
      try reflexivity.
    destruct (JS.set _ "tree" _) as [schema| |]; cbn [bind]; try reflexivity.
    apply Tail.
  - cbn [bind]. apply Tail.
Qed.

(** X12: every output of [parseSchema] is made of four parts in this
    order: the interfaces of the child schemas, the auxiliary types of the
    model, the header followed by the lines of the keys of the tree (after
    the children were put in place) in the order of the keys, and the
    footer.  Without a model name the first two parts are empty. *)
Theorem parseSchema_frames_output (fuel : nat) (schemaOriginal : Val)
    (modelName : option string) (addModel isDocument : bool)
    (header footer : string) (isAugmented : bool) (out : string) :
  parseSchema (S fuel) schemaOriginal modelName addModel isDocument header footer
              isAugmented
    = Ok out ->
  exists (schema : Val) (children aux : string) (lines : list string),
    hoistChildren fuel schemaOriginal modelName isDocument isAugmented
      = Ok (schema, children)
    /\ auxiliaryPart schema modelName addModel isDocument isAugmented = Ok aux
    /\ memberLines fuel schema isDocument = Ok lines
    /\ out = children ++ aux ++ header ++ Str.join EmptyString lines ++ footer
    /\ (truthyName modelName = false ->
        children = EmptyString /\ aux = EmptyString).
Proof.
  rewrite parseSchema_parts.
  destruct (hoistChildren fuel schemaOriginal modelName isDocument isAugmented)
    as [[schema children]| |] eqn:Eh; cbn [bind]; try discriminate.
  destruct (auxiliaryPart schema modelName addModel isDocument isAugmented)
    as [aux| |] eqn:Ea; cbn [bind]; try discriminate.
  destruct (memberLines fuel schema isDocument) as [lines| |] eqn:El; cbn [bind];
    try discriminate.
  intros [= <-]. exists schema, children, aux, lines.
  split; [reflexivity|]. split; [exact Ea|]. split; [exact El|].
  split; [reflexivity|].
  intros Hn. split.
  - unfold hoistChildren in Eh.
    destruct (JS.get (JS.cloneDeep schemaOriginal) "childSchemas"); cbn [bind] in Eh;
      try discriminate.
    rewrite Hn, andb_false_r in Eh. now injection Eh as _ <-.
  - unfold auxiliaryPart in Ea. rewrite Hn, andb_false_r, andb_false_l in Ea.
    now injection Ea as <-.
Qed.

Lemma parseSchema_frames_output_witness :
  exists (schema : Val) (children aux : string) (lines : list string),
    hoistChildren 1 accountSchema (Some "Account") false false = Ok (schema, children)
    /\ auxiliaryPart schema (Some "Account") true false false = Ok aux
    /\ memberLines 1 schema false = Ok lines
    /\ match parseSchema 2 accountSchema (Some "Account") true false
                         ("interface Account {" ++ nl) "}" false with
       | Ok out => out
       | _ => EmptyString
       end
       = children ++ aux ++ ("interface Account {" ++ nl)
           ++ Str.join EmptyString lines ++ "}"
    /\ (truthyName (Some "Account") = false ->
        children = EmptyString /\ aux = EmptyString).
Proof.
  apply (parseSchema_frames_output 1 accountSchema (Some "Account") true false
           ("interface Account {" ++ nl) "}" false).
  vm_compute. reflexivity.
Defined.

(** ** The array form with a typed element *)

Lemma normalizeArray_typed_element (p : bool) (ps : Props) (inner : Val)
    (rest : list Val) :
  JS.prop (VObj p ps) "type" = VArr (inner :: rest) ->
  JS.truthy (JS.prop inner "type") = true ->
  normalizeArray (VObj p ps) = Ok (elementField (VObj p ps) inner, true, false).
Proof.
  intros Ht Hi.
  assert (Hin : JS.nullish inner = false).
  { destruct inner; try reflexivity; discriminate. }
  unfold elementField, normalizeArray. rewrite cloneDeep_plain.
  cbn [JS.get JS.nullish bind JS.isArray]. rewrite Ht.
  cbn [JS.isArray JS.set bind].
  change (JS.prop (VArr (inner :: rest)) "0") with inner.
  rewrite prop_assign_same. unfold JS.get. rewrite Hin. cbn [bind]. rewrite Hi.
  destruct (JS.truthy (JS.prop inner "ref")); cbn [JS.set bind].
  - rewrite (prop_assign_other p "ref" "type" _ _ eq_refl), prop_assign_same.
    reflexivity.
  - rewrite prop_assign_same. reflexivity.
Qed.

Lemma elementField_keeps (p : bool) (ps : Props) (inner : Val) (k : string) :
  String.eqb k "type" = false -> String.eqb k "ref" = false ->
  JS.prop (elementField (VObj p ps) inner) k = JS.prop (VObj p ps) k.
Proof.
  intros E1 E2. unfold elementField.
  rewrite (prop_assign_other p "type" k _ _ E1).
  destruct (JS.truthy (JS.prop inner "ref")).
  - now rewrite (prop_assign_other p "ref" k _ _ E2),
      (prop_assign_other p "type" k _ _ E1).
  - now rewrite (prop_assign_other p "type" k _ _ E1).
Qed.

Lemma elementField_type (p : bool) (ps : Props) (inner : Val) :
  JS.prop (elementField (VObj p ps) inner) "type" = JS.prop inner "type".
Proof. unfold elementField. apply prop_assign_same. Qed.

Lemma elementField_ref (p : bool) (ps : Props) (inner : Val) :
  JS.prop (elementField (VObj p ps) inner) "ref"
  = if JS.truthy (JS.prop inner "ref") then JS.prop inner "ref"
    else JS.prop (VObj p ps) "ref".
Proof.
  unfold elementField. rewrite (prop_assign_other p "type" "ref" _ _ eq_refl).
  destruct (JS.truthy (JS.prop inner "ref")).
  - apply prop_assign_same.
  - apply (prop_assign_other p "type" "ref" _ _ eq_refl).
Qed.

Lemma elementField_hoisted (p : bool) (ps : Props) (inner : Val) :
  isHoisted (elementField (VObj p ps) inner) = isHoisted (VObj p ps).
Proof.
  unfold isHoisted.
  now rewrite (elementField_keeps p ps inner "_inferredInterfaceName" eq_refl eq_refl).
Qed.

Lemma elementField_virtual (p : bool) (ps : Props) (inner : Val) :
  isVirtual (elementField (VObj p ps) inner) = isVirtual (VObj p ps).
Proof.
  unfold isVirtual.
  now rewrite (elementField_keeps p ps inner "path" eq_refl eq_refl),
    (elementField_keeps p ps inner "setters" eq_refl eq_refl),
    (elementField_keeps p ps inner "getters" eq_refl eq_refl).
Qed.

(** A member resolved with the optional flag off stays that way. *)
Lemma resolveType_not_optional (nested : Val -> Res string) (schema : Val)
    (isDocument : bool) (key : string) (val : Val) (t : option string) (o : bool) :
  resolveType nested schema isDocument key val false = Ok (Some (t, o)) ->
  o = false.
Proof.
  unfold resolveType.
  repeat match goal with
         | |- (if ?b then _ else _) = _ -> _ => destruct b
         | |- bind ?m _ = _ -> _ => destruct m; cbn [bind]
         | |- match ?o with Some _ => _ | None => _ end = _ -> _ => destruct o
         end;
    try discriminate; intros [= _ <-]; try reflexivity;
    destruct (String.eqb key "_id"); reflexivity.
Qed.

Lemma parseKey_not_optional (nested : Val -> Res string) (schema : Val)
    (isDocument : bool) (key : string) (valOriginal val : Val) (isArray : bool)
    (line : string) :
  normalizeArray valOriginal = Ok (val, isArray, false) ->
  parseKey nested schema isDocument key valOriginal = Ok line ->
  line = EmptyString \/ exists valType, line = makeLine key valType false.
Proof.
  intros Hn. unfold parseKey. rewrite Hn. cbn [bind].
  destruct (JS.get _ "type"); cbn [bind]; try discriminate.
  destruct (resolveType nested schema isDocument key _ false)
    as [[[[t|] o]|]| |] eqn:E; cbn [bind]; try discriminate;
    try (intros [= <-]; now left).
  apply resolveType_not_optional in E. subst o.
  destruct (negb (nonEmpty t)); intros [= <-]; [now left|].
  right. eexists. reflexivity.
Qed.

(** X22: the array form whose element carries its own [type] (the form
    used to validate both the elements and the array) is never optional,
    with or without [required]: every line it gives has no optional mark.
    When the element declares a reference, the member is the array of the
    union of that reference; when neither the element nor the field does,
    the member is the array of the type of the element. *)
Theorem parseKey_validated_array (nested : Val -> Res string) (schema : Val)
    (isDocument : bool) (key : string) (p : bool) (ps : Props) (inner : Val)
    (rest : list Val) :
  JS.prop (VObj p ps) "type" = VArr (inner :: rest) ->
  JS.truthy (JS.prop inner "type") = true ->
  (forall line,
      parseKey nested schema isDocument key (VObj p ps) = Ok line ->
      line = EmptyString \/ exists valType, line = makeLine key valType false)
  /\ (forall r docRef,
         JS.prop inner "ref" = VStr r ->
         nonEmpty r = true ->
         referenceName r = Ok docRef ->
         JS.strictEq (JS.prop inner "type") (VFun NMap) = false ->
         isHoisted (VObj p ps) = false ->
         isVirtual (VObj p ps) = false ->
         isMetadataKey key = false ->
         parseKey nested schema isDocument key (VObj p ps)
         = Ok (makeLine key
                 (wrapArray isDocument (JS.prop (VObj p ps) "_isSubdocArray")
                            (refUnion isDocument docRef))
                 false))
  /\ (forall t,
         JS.truthy (JS.prop inner "ref") = false ->
         plainField (VObj p ps) = true ->
         isMetadataKey key = false ->
         convertBaseTypeToTs key (elementField (VObj p ps) inner) isDocument
           = Ok (Some t) ->
         t <> "{}" ->
         parseKey nested schema isDocument key (VObj p ps)
         = Ok (makeLine key
                 (memberType isDocument (elementField (VObj p ps) inner) true t)
                 false)).
Proof.
  intros Ht Hi.
  pose proof (normalizeArray_typed_element p ps inner rest Ht Hi) as Hnorm.
  split; [|split].
  - intros line. apply (parseKey_not_optional _ _ _ _ _ _ _ _ Hnorm).
  - intros r docRef Hr Hne Hd Hm Hh Hv Hk.
    assert (Href : JS.prop (elementField (VObj p ps) inner) "ref" = VStr r).
    { rewrite elementField_ref, Hr. unfold nonEmpty in Hne. cbn [JS.truthy].
      now rewrite Hne. }
    rewrite (parseKey_typed nested schema isDocument key (VObj p ps)
               (elementField (VObj p ps) inner)
               true false false (refUnion isDocument docRef) Hnorm).
    + change (expanded (elementField (VObj p ps) inner))
        with (elementField (VObj p ps) inner).
      unfold memberType.
      rewrite elementField_type, Hm,
        (elementField_keeps p ps inner "_isSubdocArray" eq_refl eq_refl).
      destruct isDocument.
      * rewrite refUnion_not_buffer. reflexivity.
      * rewrite andb_false_r. reflexivity.
    + reflexivity.
    + change (expanded (elementField (VObj p ps) inner))
        with (elementField (VObj p ps) inner).
      unfold resolveType. rewrite virtual_test.
      fold (isHoisted (elementField (VObj p ps) inner)).
      rewrite elementField_hoisted, elementField_virtual, Hh, Hv, metadata_test,
        Hk, Href.
      unfold nonEmpty in Hne. cbn [JS.truthy]. rewrite Hne. cbn [bind].
      unfold referenceName in Hd.
      destruct (Str.includes "." (Str.removeFirst "'" r)).
      * rewrite Hd. reflexivity.
      * injection Hd as <-. reflexivity.
    + apply refUnion_nonEmpty.
  - intros t Hir Hp Hk Hc Hne.
    apply (parseKey_typed nested schema isDocument key (VObj p ps)
             (elementField (VObj p ps) inner) true false false t Hnorm).
    + reflexivity.
    + change (expanded (elementField (VObj p ps) inner))
        with (elementField (VObj p ps) inner).
      assert (Hp' : plainField (elementField (VObj p ps) inner) = true).
      { unfold plainField in *.
        rewrite elementField_hoisted, elementField_virtual, elementField_ref, Hir.
        exact Hp. }
      rewrite (resolveType_plain nested schema isDocument key _ false Hp' Hk), Hc.
      cbn [bind]. apply String.eqb_neq in Hne. rewrite Hne.
      destruct (String.eqb key "_id"); reflexivity.
    + apply (convertBaseTypeToTs_nonEmpty _ _ _ _ Hc).
Qed.

Lemma parseKey_validated_array_witness :
  let friends :=
    VObj true
      [ ("type", VArr [ VObj true [ ("type", VFun NSchemaObjectId)
                                  ; ("ref", VStr "User")
                                  ; ("validate", VArr [VFun (NUser "notSelf")]) ] ])
      ; ("validate", VArr [VFun (NUser "atMostThree")]) ] in
  let names :=
    VObj true [ ("type", VArr [ VObj true [ ("type", VFun NString)
                                          ; ("trim", VBool true) ] ]) ] in
  parseKey (fun _ => Diverge) VUndef false "friends" friends
  = Ok ("friends: (User[" ++ dq ++ "_id" ++ dq ++ "] | User)[];" ++ nl)
  /\ parseKey (fun _ => Diverge) VUndef true "names" names
     = Ok ("names: mongoose.Types.Array<string>;" ++ nl).
Proof.
  cbv zeta. split.
  - apply (proj1 (proj2
             (parseKey_validated_array (fun _ => Diverge) VUndef false "friends" true
                [ ("type", VArr [ VObj true [ ("type", VFun NSchemaObjectId)
                                            ; ("ref", VStr "User")
                                            ; ("validate",
                                               VArr [VFun (NUser "notSelf")]) ] ])
                ; ("validate", VArr [VFun (NUser "atMostThree")]) ]
                (VObj true [ ("type", VFun NSchemaObjectId)
                           ; ("ref", VStr "User")
                           ; ("validate", VArr [VFun (NUser "notSelf")]) ])
                [] eq_refl eq_refl))
             "User" "User");
      reflexivity.
  - apply (proj2 (proj2
             (parseKey_validated_array (fun _ => Diverge) VUndef true "names" true
                [ ("type", VArr [ VObj true [ ("type", VFun NString)
                                            ; ("trim", VBool true) ] ]) ]
                (VObj true [("type", VFun NString); ("trim", VBool true)])
                [] eq_refl eq_refl))
             "string");
      [reflexivity | reflexivity | reflexivity | reflexivity | discriminate].
Defined.
